(* ===== verification/_CoqProject ===== *)
-Q . S2P
Prelude.v
Fx.v
Utf8.v
Json.v
JsonText.v
Files.v
HttpMux.v
Config.v
ConfigI.v
Base64.v
Options.v
Acl.v
AclHistory.v
Jwt.v
AuthGate.v
Datastore.v
FsRepo.v
FsConc.v
FsLocks.v
InmemRepo.v
Repo.v
ConfigShare.v
Protocols.v
ProtocolsSvc.v
Mesher.v
Mesh.v
MeshJson.v
MeshWorker.v
Events.v
SharedStorage.v
StorageLock.v
Status.v
ServerHook.v
Mux.v
MuxStatus.v
Client.v
StaticDial.v
Services.v
P2PCall.v
Host.v
Wiring.v
GrpcServer.v
HttpRoutes.v
HttpServer.v
Core.v
Node.v
Lifecycle.v
Hooks.v
Metrics.v
EventsListener.v
Msuite.v
Restart.v
Security.v
