(* ===== verification/Prelude.v ===== *)
(** * A verification library for go-msuite

    go-msuite is a Go library for building micro-services.  An application calls
    [msuite.New] with options; each option writes settings into a start-up
    configuration.  [node.New] opens a repository (on disk or in memory) that
    keeps the configuration, a datastore and a KV store, reads the flags of the
    saved configuration, and lets a dependency-injection container assemble the
    services the flags ask for: authentication (tokens and access control in
    front of the gRPC and HTTP servers), a gRPC server behind a multiplexer of
    listeners, gRPC clients, an HTTP server, a P2P host with events,
    request-response protocols, peer exchange and shared storage, a locker, and
    status reports.  The container starts and stops them through the hooks their
    constructors append.  This library models these parts as Rocq functions and step
    relations, translated from the Go sources under [src/], and proves what
    makes them correct.

    ** Conventions

    - A Go call that returns an error is a function into [res] ([Ok], [Err],
      [Panic]), or into a sum where the code it stands for cannot panic; a call
      that changes a state of type [S] is an [ST S A], which keeps the changes
      made before a failure.  Errors are their messages.
    - A Go map is a [gmap]; where the code ranges over one, the order is an
      argument that may be any permutation.  An [interface{}] value is a
      [Json.goval].  Shared objects (the repositories of [FsRepo]) live on an
      explicit heap.
    - [int] and [uint16] are integers with their ranges ([in_int64], [uint16]).
    - Packages that are not part of the program (stores, datastores, the token
      and key libraries, the P2P host, discovery, the container's own code) are
      arguments: a class with a class of laws ([Acl.Store], [Jwt.JWTLib],
      [Mesher.Host], [Fx.Lifecycle], [GrpcServer.Chain], [Metrics.Prometheus],
      [ProtocolsSvc.StreamHost], [P2PCall.Gostream], [MeshJson.AddrInfoJSON]) or
      a record
      ([Datastore.ds_env], [FsRepo.repo_env], [HttpServer.http_lib]).  Each has
      an instance that satisfies its laws, on which the witnesses run.
    - What the program uses of Go's own library (JSON, base64, UTF-8, paths,
      files, little-endian integers, [bufio], [io.ReadFull], the request
      multiplexer of [net/http], [net.ParseIP] and [net.SplitHostPort]) is
      modelled.

    ** Files

    - [Prelude]: results, stateful calls, tactics, the hint database [msuite].
    - [Fx]: the lifecycle of the container: hooks, their order, its laws.
    - [Utf8], [Json], [JsonText], [Base64]: the encodings; [JsonText] has the
      printer and the parser of [encoding/json] with their round trip.
    - [Files]: [utils/files.go] over a file system of directories, files and
      permissions.
    - [HttpMux]: percent-encoding, path cleaning and the multiplexer of
      [net/http]: the longest pattern wins, a redirect is followed once.
    - [Config]: [modules/config/json/jsonConfig.go].  A configuration written to
      a file and read back cannot be told from the original, for values JSON can
      carry; what [Get] reads after [Set].  [ConfigI]: the interface of
      [modules/config/config.go]; configurations written into each other are
      layered.
    - [Options]: the options and [New] of [msuite.go]; options on different keys
      commute.
    - [Acl]: [modules/auth/aclManager.go].  The manager over any lawful store
      refines a map from resources to levels ([Spec]); [Authorized] and
      [Allowed] agree; the configured ACLs are enforced; any read error opens
      access.  [AclHistory]: nodes that start and are called on one store: the
      managers answer from one map, which every start writes its ACLs over, or
      some of them if it fails.
    - [Jwt]: [modules/auth/jwtManager.go].  [Verify] is sound, and accepts
      generated tokens exactly until they expire.
    - [AuthGate]: the authorization checks of [modules/node/grpc/middleware.go]
      and [modules/node/http/middleware.go]: who gets through, that both enforce
      the same policy, and that a query string, or the absolute form of a URL,
      evades the HTTP check.
    - [Datastore], [FsRepo]: [modules/repo/fsrepo].  Opening datastores leaks
      none, unless one of them panics; the opener refines a counter per path, shares one object between
      openers until the last close, and then releases it and nothing else; what
      [Init] saves is what [Open] gives.  [FsConc]: several goroutines, a locked
      section at a time: a run is a sequence of calls, but two goroutines that
      create the same repository can get in each other's way.  [FsLocks]: the
      calls as programs of lock operations and accesses, with the lock of the
      package and the mutex of the opener: every interleaving of their operations
      is simulated by [FsConc], and none is stuck.
    - [InmemRepo]: [modules/repo/inmem/inmem.go]; it replaces a given identity.
    - [Repo]: the interface of both, [modules/repo/repo.go], with its laws; a
      configuration that was set survives closing and opening again.
      [ConfigShare]: the configuration objects behind the values: all users of a
      repository share one, and what they set in it lasts until the last close.
    - [Protocols]: [modules/protocols/protocols.go]: the frame on a stream that
      delivers arbitrary chunks, and a whole exchange between [SendMsg] and the
      handler of [Register], over networks that bring the two length bytes
      together; what happens when they do not, and the limits of these bytes.
      [ProtocolsSvc]: the service on a host with any number of protocols; a
      stream that was answered is left open.
    - [Mesher], [Mesh]: [modules/node/internal/mesher/mesher.go]; [Mesh] puts it
      on top of [Protocols]: knowledge of peers spreads over the wire, and
      [MeshJson] has the messages in JSON.
      [MeshWorker]: its notifier and its task, from the moment it is handed to
      the task manager, as a step relation.
    - [Events]: [modules/events/events.go]: delivery of broadcast events; the
      step relation [race] of concurrent registrations.  [EventsListener]: the
      listener's loop with its context, its subscription and registrations in
      their two steps: it delivers in order
      and returns when told to, but spins when only the subscription ends.
    - [SharedStorage]: [modules/sharedStorage/sharedStorage.go].
      [StorageLock]: its reader-writer lock with any number of goroutines: the
      calls are linearizable and never stuck, unless a callback registers.
    - [Status]: [modules/diag/status/status.go] and the reporters.
    - [ServerHook]: the start hooks of the two servers as a step relation of the
      hook, its goroutine, the server and the context: the hook always returns,
      the status page tells the truth, a server that can not serve is started
      all the same.
    - [Mux]: [modules/grpc/mux/mux.go]: the step relation [step] of its
      goroutines, [Accept], the connections that arrive and the end of the tasks'
      context: where every connection is, in which order, and when it may be
      dropped; the wait of [Close].
      [MuxStatus]: the lock of its status, which does not cover the page.
    - [Client]: [modules/grpc/client/client.go] and the dialer of
      [modules/grpc/p2pgrpc]; [StaticDial]: its static addresses are never
      reached over TCP.
    - [Services]: the constructors that read the configuration (task manager,
      locker, tracer, listeners, identity, HTTP server).  [P2PCall]: a client of
      one node calls another over P2P: the connection it dials, through the
      listener and the multiplexer to [Accept].
    - [Host]: [modules/node/ipfs]: the hosts and what is built on them, local
      discovery, and the bootstrapper, which heals the node as long as the
      start context lives and does nothing afterwards.
    - [Wiring]: the options given to [fx.New], the modules they are composed of
      and the resolution of constructors; the application is complete for all
      8192 combinations of flags.
    - [GrpcServer]: the interceptor chains of the gRPC server, in any order the
      container gives them: calls are gated and panics do not leave the server.
    - [HttpRoutes]: the pages of the HTTP server and what a request gets;
      percent-encoding evades the access control.  [HttpServer]: the chain of
      middlewares, in any order, serves only what the gate admits.
    - [Core]: the interfaces of [core/core.go] as classes, and what a caller
      relies on.  [Node]: [node.New], the accessors of the service, which
      satisfy [Core], and [Client].
    - [Lifecycle]: the runs of the container, of which [assemble] is one: that
      the wiring makes the container stop every part before those it uses
      ([stop_pairs]), and that a node gives its repository back.  [Hooks]: every
      hook and what it calls, the closing of the multiplexer by the gRPC server
      included: what stopping releases, and how often; a multiplexer that fails
      to start leaks.
    - [Metrics]: [modules/diag/metrics/metrics.go] and what the servers register:
      in any order of assembly no registration clashes within a node, and two
      nodes with HTTP metrics in a process do.
    - [Msuite]: [msuite.New]: the options decide the services of a new node, the
      saved configuration those of an old one.
    - [Restart]: what the constructors make depends only on what the
      configuration reads: a restarted node is the same node, unless another
      configuration was set.
    - [Security]: from the options [WithAuth] and [WithServiceACL] to what a
      request of the HTTP or the gRPC server gets.

    ** Fuel

    [JsonText.parse_value] has fuel for each rune of its input and [parse_text_of]
    shows that it is enough for every printed document; [Protocols.read_full]
    has one unit more than the reads that can succeed, and [ReadFull_spec] shows
    that it never runs out; [Acl.countdown] has one unit per role;
    [Wiring.resolve] and [Lifecycle.build] have the length of the longest chain
    of constructors, and [wiring_complete] and [assembly_ordered] show that this
    is enough for all flags; the 18 operations a call of the repository package
    has at most are counted in [FsLocks.prog_within]; [HttpMux] recurses on the text; the loops of
    [StaticDial.parseIPv6_from] count the groups of an address.

    ** What is not modelled

    The logging, which only calls a library; the servers, the container, the
    token, store, metrics and peer-to-peer packages themselves, with how a shared
    store merges concurrent changes.  Numbers in JSON
    documents are integers.  Time is an argument.  *)

From stdpp Require Export base gmap strings list fin_maps sorting relations.
From Stdlib Require Export ZArith Lia.
From Stdlib Require Import DecimalString DecimalZ.

(** ** Results of Go calls

    A Go function that returns [(T, error)] is a function into [res T]; a run
    time panic (a failed type assertion, a write to a nil map, a nil
    dereference) is the third outcome.  Errors are their messages, as
    [err.Error()] gives them. *)

Definition error := string.

Inductive res (A : Type) : Type :=
| Ok (a : A)
| Err (e : error)
| Panic (p : string).
Arguments Ok {A} a.
Arguments Err {A} e.
Arguments Panic {A} p.

#[export] Instance res_eq_dec `{EqDecision A} : EqDecision (res A).
Proof. solve_decision. Defined.

Definition res_bind {A B : Type} (f : A → res B) (c : res A) : res B :=
  match c with
  | Ok a => f a
  | Err e => Err e
  | Panic p => Panic p
  end.
#[export] Instance res_mret : MRet res := @Ok.
#[export] Instance res_mbind : MBind res := @res_bind.

Definition is_ok {A : Type} (c : res A) : bool :=
  match c with Ok _ => true | _ => false end.

(** [fmt.Errorf(prefix + " %w", err)]: the message of a wrapped error. *)
Definition wrap {A : Type} (prefix : string) (c : res A) : res A :=
  match c with
  | Err e => Err (prefix +:+ " " +:+ e)%string
  | c => c
  end.

(** ** Stateful calls

    A call that mutates a state of type [S]: the state changes made before a
    failure stay, as they do in Go. *)

Definition ST (S A : Type) : Type := S → res A * S.

#[export] Instance st_mret {S} : MRet (ST S) := λ A a s, (Ok a, s).
#[export] Instance st_mbind {S} : MBind (ST S) := λ A B f c s,
  match c s with
  | (Ok a, s') => f a s'
  | (Err e, s') => (Err e, s')
  | (Panic p, s') => (Panic p, s')
  end.

Definition st_get {S : Type} : ST S S := λ s, (Ok s, s).
Definition st_put {S : Type} (s : S) : ST S unit := λ _, (Ok (), s).
Definition st_fail {S A : Type} (e : error) : ST S A := λ s, (Err e, s).
Definition st_lift {S A : Type} (c : res A) : ST S A := λ s, (c, s).
Definition st_wrap {S A : Type} (prefix : string) (c : ST S A) : ST S A :=
  λ s, let (r, s') := c s in (wrap prefix r, s').

(** ** Machine integers *)

Definition int64_min : Z := - 2 ^ 63.
Definition int64_max : Z := 2 ^ 63 - 1.
Definition in_int64 (z : Z) : bool := (int64_min <=? z)%Z && (z <=? int64_max)%Z.

(** The conversion [uint16(n)]. *)
Definition uint16 (n : Z) : Z := n `mod` 2 ^ 16.

(** ** Tactics *)

(** Case analysis on every [match] and [if] of the goal, closing what is
    immediate. *)
Ltac go_cases :=
  repeat (case_match; simplify_eq/=; try done).

(** Inversion of an equation between results. *)
Ltac inv_res :=
  repeat match goal with
  | H : Ok _ = Ok _ |- _ => injection H as H; try subst
  | H : Err _ = Err _ |- _ => injection H as H; try subst
  | H : Ok _ = Err _ |- _ => discriminate H
  | H : Err _ = Ok _ |- _ => discriminate H
  | H : Ok _ = Panic _ |- _ => discriminate H
  | H : Panic _ = Ok _ |- _ => discriminate H
  end.

(** ** Shared lemmas *)

#[export] Instance Ok_inj {A} : Inj (=) (=) (@Ok A).
Proof. by intros ?? [= ->]. Qed.

Create HintDb msuite.

Lemma in_int64_true z : in_int64 z = true ↔ (int64_min ≤ z ≤ int64_max)%Z.
Proof. unfold in_int64. rewrite andb_true_iff, !Z.leb_le. done. Qed.

Lemma uint16_small n : (0 ≤ n < 2 ^ 16)%Z → uint16 n = n.
Proof. apply Z.mod_small. Qed.

Lemma uint16_bound n : (0 ≤ uint16 n < 2 ^ 16)%Z.
Proof. apply Z.mod_pos_bound. lia. Qed.

Lemma Forall_combine {A} (P Q R : A → Prop) l :
  Forall P l → Forall Q l → (∀ x, P x → Q x → R x) → Forall R l.
Proof. rewrite !Forall_forall. naive_solver. Qed.

Lemma forallb_Forall {A} (f : A → bool) l : forallb f l = true ↔ Forall (λ x, f x = true) l.
Proof. rewrite forallb_forall, Forall_forall. setoid_rewrite list_elem_of_In. done. Qed.

(** ** Decimal integers: [strconv.Itoa], [fmt.Sprintf("%d")] *)

Definition itoa (z : Z) : string := DecimalString.NilEmpty.string_of_int (Z.to_int z).

(** The canonical decimal literals and their values. *)
Definition atoi (s : string) : option Z :=
  d ← DecimalString.NilEmpty.int_of_string s;
  if decide (itoa (Z.of_int d) = s) then Some (Z.of_int d) else None.

Lemma atoi_itoa z : atoi (itoa z) = Some z.
Proof.
  unfold atoi, itoa. rewrite DecimalString.NilEmpty.isi. simpl.
  rewrite DecimalZ.of_to. by rewrite decide_True.
Qed.

(** Changing one element of a list changes a sum over it by the difference. *)
Lemma sum_list_insert {A} (f : A → nat) l i x y :
  l !! i = Some x → (sum_list (f <$> <[i := y]> l) + f x = sum_list (f <$> l) + f y)%nat.
Proof.
  revert i. induction l as [|z l IH]; intros [|i] Hx; simplify_eq/=; [lia|]. specialize (IH i Hx). lia.
Qed.

Lemma sum_list_elem {A} (f : A → nat) l i x : l !! i = Some x → (f x ≤ sum_list (f <$> l))%nat.
Proof. revert i. induction l as [|z l IH]; intros [|i] Hx; simplify_eq/=; [lia|]. specialize (IH i Hx). lia. Qed.

Lemma filter_all {A} (P : A → Prop) `{∀ x, Decision (P x)} l : Forall P l → filter P l = l.
Proof. induction 1; [done|]. rewrite filter_cons_True by done. by f_equal. Qed.

(** ** Calls that only move the state along a relation *)

Definition moves {S A : Type} (R : relation S) (c : ST S A) : Prop :=
  ∀ s, R s (c s).2.

Section moves.
Context {S : Type} (R : relation S) `{!PreOrder R}.

Lemma moves_lift {A} (r : res A) : moves R (st_lift r).
Proof. intros s. simpl. reflexivity. Qed.

Lemma moves_ret {A} (a : A) : moves R (mret a).
Proof. intros s. simpl. reflexivity. Qed.

Lemma moves_wrap {A} prefix (c : ST S A) : moves R c → moves R (st_wrap prefix c).
Proof. intros H s. unfold st_wrap. specialize (H s). by destruct (c s). Qed.

Lemma moves_bind {A B} (c : ST S A) (k : A → ST S B) :
  moves R c → (∀ a, moves R (k a)) → moves R (c ≫= k).
Proof.
  intros Hc Hk s. unfold mbind, st_mbind. specialize (Hc s). destruct (c s) as [[a|e|p] s']; simpl in *; [|done..].
  transitivity s'; [done|apply Hk].
Qed.
End moves.

#[export] Hint Resolve moves_lift moves_ret moves_wrap moves_bind : msuite.
