(* ===== verification/Fx.v ===== *)
(** * The application lifecycle of the container

    Constructors append hooks to the lifecycle of the [fx] container; the
    application starts them in the order they were appended and stops them in
    the reverse order.  The container is not part of the repository: [Lifecycle]
    is its interface and [LifecycleLaws] what its documentation says of it, in
    terms of the functions [start_hooks] and [stop_hooks]. *)

From S2P Require Import Prelude.

(** ** Hooks *)

(** A hook over a state [W]: its functions return an error or nil. *)
Record hook (W : Type) := mkHook {
  OnStart : option (W → option error * W);
  OnStop : option (W → option error * W);
}.
Arguments mkHook {W}.
Arguments OnStart {W} h.
Arguments OnStop {W} h.

(** ** The container's lifecycle *)

Section lifecycle.
Context {W : Type}.

(** Start functions in order, up to the first error; how many hooks are
    started. *)
Fixpoint start_hooks (hs : list (hook W)) (w : W) : option error * (nat * W) :=
  match hs with
  | [] => (None, (0%nat, w))
  | h :: hs =>
    match OnStart h with
    | None => let '(e, (n, w')) := start_hooks hs w in (e, (S n, w'))
    | Some start =>
      match start w with
      | (Some e, w') => (Some e, (0%nat, w'))
      | (None, w') => let '(e, (n, w'')) := start_hooks hs w' in (e, (S n, w''))
      end
    end
  end.

(** Stop functions, all of them. *)
Fixpoint stop_hooks (hs : list (hook W)) (w : W) : W :=
  match hs with
  | [] => w
  | h :: hs => stop_hooks hs (match OnStop h with None => w | Some stop => (stop w).2 end)
  end.
End lifecycle.

(** [App.Start] and [App.Stop]: the number is that of the hooks that are
    started.  A start that fails stops what it had started, in reverse. *)
Class Lifecycle := {
  app_Start {W : Type} : list (hook W) → W → option error * (nat * W);
  app_Stop {W : Type} : list (hook W) → nat → W → option error * W;
}.

Class LifecycleLaws `{Lifecycle} := {
  Start_law {W} (hs : list (hook W)) w :
    match start_hooks hs w with
    | (None, nw) => app_Start hs w = (None, nw)
    | (Some _, (n, w')) => ∃ e, app_Start hs w = (Some e, (0%nat, stop_hooks (reverse (take n hs)) w'))
    end;
  Stop_law {W} (hs : list (hook W)) n w :
    (app_Stop hs n w).2 = stop_hooks (reverse (take n hs)) w;
}.

(** ** Lemmas *)

Lemma stop_hooks_app {W} (hs hs' : list (hook W)) w :
  stop_hooks (hs ++ hs') w = stop_hooks hs' (stop_hooks hs w).
Proof. revert w. induction hs as [|h hs IH]; intros w; simpl; [done|]. apply IH. Qed.

(** Hooks without a start function are passed over. *)
Lemma start_hooks_skip {W} (hs hs' : list (hook W)) w :
  Forall (λ h, OnStart h = None) hs →
  start_hooks (hs ++ hs') w =
    let '(e, (n, w')) := start_hooks hs' w in (e, ((length hs + n)%nat, w')).
Proof.
  induction 1 as [|h hs Hh _ IH]; simpl; [by destruct (start_hooks hs' w) as [? []]|].
  rewrite Hh, IH. by destruct (start_hooks hs' w) as [e [n w']].
Qed.

(** A successful start starts every hook. *)
Lemma start_hooks_all {W} (hs : list (hook W)) : ∀ w n w',
  start_hooks hs w = (None, (n, w')) → n = length hs.
Proof.
  induction hs as [|h hs IH]; intros w n w'; simpl; [by intros [= <- _]|].
  destruct (OnStart h) as [start|]; [destruct (start w) as [[e|] w1]; [done|]|].
  - destruct (start_hooks hs w1) as [e [m w2]] eqn:E. intros [= -> <- _]. f_equal. by eapply IH.
  - destruct (start_hooks hs w) as [e [m w2]] eqn:E. intros [= -> <- _]. f_equal. by eapply IH.
Qed.

Lemma start_hooks_app {W} (hs hs' : list (hook W)) : ∀ w n w',
  start_hooks hs w = (None, (n, w')) →
  start_hooks (hs ++ hs') w = let '(e, (m, w'')) := start_hooks hs' w' in (e, ((n + m)%nat, w'')).
Proof.
  induction hs as [|h hs IH]; intros w n w'; simpl.
  { intros [= <- <-]. by destruct (start_hooks hs' w) as [e [m w'']]. }
  destruct (OnStart h) as [start|]; [destruct (start w) as [[e|] w1]; [done|]|].
  - destruct (start_hooks hs w1) as [e [m w2]] eqn:E. intros [= -> <- <-].
    rewrite (IH _ _ _ E). by destruct (start_hooks hs' w2) as [e [k w'']].
  - destruct (start_hooks hs w) as [e [m w2]] eqn:E. intros [= -> <- <-].
    rewrite (IH _ _ _ E). by destruct (start_hooks hs' w2) as [e [k w'']].
Qed.

(** ** A container *)

#[export] Instance sample_lifecycle : Lifecycle := {|
  app_Start W hs w :=
    match start_hooks hs w with
    | (None, nw) => (None, nw)
    | (Some e, (n, w')) => (Some e, (0%nat, stop_hooks (reverse (take n hs)) w'))
    end;
  app_Stop W hs n w := (None, stop_hooks (reverse (take n hs)) w);
|}.

#[export] Instance sample_lifecycle_laws : LifecycleLaws.
Proof.
  split; [|done]. intros W hs w. simpl. destruct (start_hooks hs w) as [[e|] [n w']]; [by exists e|done].
Qed.
