(* ===== verification/Utf8.v ===== *)
(** * UTF-8, as [encoding/json] uses it

    Go strings are byte strings; [encoding/json] reads them as UTF-8, one rune
    at a time, and replaces every byte that starts no well-formed sequence by
    U+FFFD ([utf8.DecodeRuneInString]).  A rune is a [Z], a byte a [Z] between
    0 and 255. *)

From S2P Require Import Prelude.
Local Open Scope Z_scope.
Ltac Zify.zify_post_hook ::= Z.to_euclidean_division_equations.

(** ** Definitions *)

Definition bytes_of (s : string) : list Z :=
  (λ c, Z.of_N (Ascii.N_of_ascii c)) <$> String.list_ascii_of_string s.

Definition string_of (l : list Z) : string :=
  String.string_of_list_ascii ((λ b, Ascii.ascii_of_N (Z.to_N b)) <$> l).

Definition between (lo hi b : Z) : bool := (lo <=? b) && (b <=? hi).
Definition cont (b : Z) : bool := between 0x80 0xBF b.

Definition rune_error : Z := 0xFFFD.

Definition valid_rune (r : Z) : bool :=
  between 0 0xD7FF r || between 0xE000 0x10FFFF r.

Definition is2 (b0 b1 : Z) : bool := between 0xC2 0xDF b0 && cont b1.

Definition is3 (b0 b1 b2 : Z) : bool :=
  (((b0 =? 0xE0) && between 0xA0 0xBF b1)
   || ((between 0xE1 0xEC b0 || between 0xEE 0xEF b0) && cont b1)
   || ((b0 =? 0xED) && between 0x80 0x9F b1)) && cont b2.

Definition is4 (b0 b1 b2 b3 : Z) : bool :=
  (((b0 =? 0xF0) && between 0x90 0xBF b1)
   || (between 0xF1 0xF3 b0 && cont b1)
   || ((b0 =? 0xF4) && between 0x80 0x8F b1)) && cont b2 && cont b3.

(** The runes of a byte string. *)
Fixpoint decode_utf8 (l : list Z) : list Z :=
  match l with
  | [] => []
  | b0 :: l1 =>
    if b0 <? 0x80 then b0 :: decode_utf8 l1
    else match l1 with
    | [] => rune_error :: decode_utf8 l1
    | b1 :: l2 =>
      if is2 b0 b1 then ((b0 - 0xC0) * 64 + (b1 - 0x80)) :: decode_utf8 l2
      else match l2 with
      | [] => rune_error :: decode_utf8 l1
      | b2 :: l3 =>
        if is3 b0 b1 b2 then
          ((b0 - 0xE0) * 4096 + (b1 - 0x80) * 64 + (b2 - 0x80)) :: decode_utf8 l3
        else match l3 with
        | [] => rune_error :: decode_utf8 l1
        | b3 :: l4 =>
          if is4 b0 b1 b2 b3 then
            ((b0 - 0xF0) * 262144 + (b1 - 0x80) * 4096 + (b2 - 0x80) * 64
             + (b3 - 0x80)) :: decode_utf8 l4
          else rune_error :: decode_utf8 l1
        end
      end
    end
  end.

Definition encode_valid (r : Z) : list Z :=
  if r <? 0x80 then [r]
  else if r <? 0x800 then [0xC0 + r / 64; 0x80 + r mod 64]
  else if r <? 0x10000 then
    [0xE0 + r / 4096; 0x80 + (r / 64) mod 64; 0x80 + r mod 64]
  else [0xF0 + r / 262144; 0x80 + (r / 4096) mod 64; 0x80 + (r / 64) mod 64;
        0x80 + r mod 64].

(** [utf8.EncodeRune]: what is no rune is written as U+FFFD. *)
Definition encode_rune (r : Z) : list Z :=
  if valid_rune r then encode_valid r else encode_valid rune_error.

Definition encode_utf8 (rs : list Z) : list Z := rs ≫= encode_rune.

Definition runes (s : string) : list Z := decode_utf8 (bytes_of s).
Definition of_runes (rs : list Z) : string := string_of (encode_utf8 rs).

(** [strings.ToValidUTF8(s, "\uFFFD")] byte by byte: what a string is after
    one trip through JSON. *)
Definition to_valid_utf8 (s : string) : string := of_runes (runes s).

Definition valid_utf8 (s : string) : Prop := to_valid_utf8 s = s.
#[export] Instance valid_utf8_dec s : Decision (valid_utf8 s).
Proof. unfold valid_utf8. apply _. Defined.

Definition is_byte (b : Z) : Prop := 0 ≤ b < 256.

(** ** Lemmas *)

Ltac unfold_tests :=
  unfold is2, is3, is4, cont, valid_rune, between, is_byte, rune_error in *.

Lemma decode_encode_rune r l :
  valid_rune r = true → decode_utf8 (encode_valid r ++ l) = r :: decode_utf8 l.
Proof.
  intros Hr. unfold encode_valid.
  destruct (Z.ltb_spec r 0x80); [|destruct (Z.ltb_spec r 0x800); [|destruct (Z.ltb_spec r 0x10000)]].
  - simpl. rewrite (proj2 (Z.ltb_lt r _)) by lia. done.
  - cbn [app decode_utf8].
    rewrite (proj2 (Z.ltb_ge _ _)) by lia.
    assert (is2 (0xC0 + r / 64) (0x80 + r mod 64) = true) as -> by (unfold_tests; lia).
    f_equal; lia.
  - cbn [app decode_utf8].
    rewrite (proj2 (Z.ltb_ge _ _)) by lia.
    assert (is2 (0xE0 + r / 4096) (0x80 + (r / 64) mod 64) = false) as -> by (unfold_tests; lia).
    assert (is3 (0xE0 + r / 4096) (0x80 + (r / 64) mod 64) (0x80 + r mod 64) = true)
      as -> by (unfold_tests; lia).
    f_equal; lia.
  - assert (r ≤ 0x10FFFF) by (unfold_tests; lia).
    cbn [app decode_utf8].
    rewrite (proj2 (Z.ltb_ge _ _)) by lia.
    assert (is2 (0xF0 + r / 262144) (0x80 + (r / 4096) mod 64) = false) as ->
      by (unfold_tests; lia).
    assert (is3 (0xF0 + r / 262144) (0x80 + (r / 4096) mod 64) (0x80 + (r / 64) mod 64) = false)
      as -> by (unfold_tests; lia).
    assert (is4 (0xF0 + r / 262144) (0x80 + (r / 4096) mod 64) (0x80 + (r / 64) mod 64)
      (0x80 + r mod 64) = true) as -> by (unfold_tests; lia).
    f_equal; lia.
Qed.

Lemma decode_encode rs :
  Forall (λ r, valid_rune r = true) rs → decode_utf8 (encode_utf8 rs) = rs.
Proof.
  unfold encode_utf8. induction 1 as [|r rs Hr _ IH]; [done|].
  cbn [mbind list_bind]. unfold encode_rune at 1. rewrite Hr, decode_encode_rune by done.
  by rewrite IH.
Qed.

Lemma encode_valid_bytes r : valid_rune r = true → Forall is_byte (encode_valid r).
Proof.
  intros Hr. unfold encode_valid.
  repeat case_match; repeat constructor; unfold_tests; lia.
Qed.

Lemma encode_utf8_bytes rs : Forall is_byte (encode_utf8 rs).
Proof.
  unfold encode_utf8. induction rs as [|r rs IH]; [constructor|].
  cbn [mbind list_bind]. apply Forall_app; split; [|done].
  unfold encode_rune. destruct (valid_rune r) eqn:E; by apply encode_valid_bytes.
Qed.

Lemma bytes_of_bytes s : Forall is_byte (bytes_of s).
Proof.
  unfold bytes_of. rewrite Forall_fmap. apply Forall_true. intros c.
  pose proof (Ascii.N_ascii_bounded c). unfold compose, is_byte. lia.
Qed.

Lemma bytes_of_string_of l : Forall is_byte l → bytes_of (string_of l) = l.
Proof.
  intros Hl. unfold bytes_of, string_of.
  rewrite String.list_ascii_of_string_of_list_ascii, <- list_fmap_compose.
  rewrite <- (list_fmap_id l) at 2. apply list_fmap_ext. intros i b Hb. simpl.
  eapply Forall_lookup_1 in Hb; [|done]. unfold is_byte in Hb.
  rewrite Ascii.N_ascii_embedding by lia. lia.
Qed.

Lemma string_of_bytes_of s : string_of (bytes_of s) = s.
Proof.
  unfold bytes_of, string_of. rewrite <- list_fmap_compose.
  transitivity (String.string_of_list_ascii (String.list_ascii_of_string s));
    [|apply String.string_of_list_ascii_of_string].
  f_equal. rewrite <- (list_fmap_id (String.list_ascii_of_string s)) at 2.
  apply list_fmap_ext. intros i c _. simpl. rewrite N2Z.id.
  apply Ascii.ascii_N_embedding.
Qed.

(** Every rune the decoder returns is a Unicode scalar value. *)
Lemma decode_valid l :
  Forall is_byte l → Forall (λ r, valid_rune r = true) (decode_utf8 l).
Proof.
  remember (length l) as n eqn:Hn. assert (length l ≤ n)%nat as Hle by lia. clear Hn.
  revert l Hle. induction n as [|n IH]; intros l Hle Hl.
  { destruct l; [constructor|simpl in Hle; lia]. }
  destruct Hl as [|b0 l1 H0 Hl1]; [constructor|]. simpl in Hle.
  assert (Hbad : Forall (λ r, valid_rune r = true) (rune_error :: decode_utf8 l1)).
  { constructor; [done|]. apply IH; [lia|done]. }
  cbn [decode_utf8].
  destruct (Z.ltb_spec b0 0x80).
  { constructor; [unfold_tests; lia|]. apply IH; [lia|done]. }
  destruct Hl1 as [|b1 l2 H1 Hl2]; [done|].
  destruct (is2 b0 b1) eqn:E2.
  { constructor; [unfold_tests; lia|]. apply IH; [simpl in Hle; lia|done]. }
  destruct Hl2 as [|b2 l3 H2 Hl3]; [done|].
  destruct (is3 b0 b1 b2) eqn:E3.
  { constructor; [unfold_tests; lia|]. apply IH; [simpl in Hle; lia|done]. }
  destruct Hl3 as [|b3 l4 H3 Hl4]; [done|].
  destruct (is4 b0 b1 b2 b3) eqn:E4; [|done].
  constructor; [unfold_tests; lia|]. apply IH; [simpl in Hle; lia|done].
Qed.

Lemma runes_valid s : Forall (λ r, valid_rune r = true) (runes s).
Proof. apply decode_valid, bytes_of_bytes. Qed.

Lemma runes_of_runes rs :
  Forall (λ r, valid_rune r = true) rs → runes (of_runes rs) = rs.
Proof.
  intros H. unfold runes, of_runes.
  by rewrite bytes_of_string_of by apply encode_utf8_bytes; rewrite decode_encode.
Qed.

Lemma of_runes_valid rs :
  Forall (λ r, valid_rune r = true) rs → valid_utf8 (of_runes rs).
Proof. intros H. unfold valid_utf8, to_valid_utf8. by rewrite runes_of_runes. Qed.

Lemma to_valid_utf8_valid s : valid_utf8 (to_valid_utf8 s).
Proof. apply of_runes_valid, runes_valid. Qed.

(** Plain ASCII survives the trip unchanged. *)
Lemma ascii_valid_utf8 s : Forall (λ b, b < 0x80) (bytes_of s) → valid_utf8 s.
Proof.
  intros H. unfold valid_utf8, to_valid_utf8, runes, of_runes.
  rewrite <- (string_of_bytes_of s) at 2. f_equal.
  pose proof (bytes_of_bytes s) as Hb.
  induction H as [|b l Hlt _ IH]; [done|]. apply Forall_cons in Hb as [Hb0 Hb].
  cbn [decode_utf8]. rewrite (proj2 (Z.ltb_lt b _)) by lia.
  unfold encode_utf8 in *. cbn [mbind list_bind]. rewrite IH by done.
  unfold encode_rune. assert (valid_rune b = true) as -> by (unfold_tests; lia).
  unfold encode_valid. by rewrite (proj2 (Z.ltb_lt b _)) by lia.
Qed.

#[export] Hint Resolve to_valid_utf8_valid runes_valid of_runes_valid : msuite.
