(* ===== verification/Json.v ===== *)
(** * JSON values and the Go values that are marshalled to them

    The program moves every configuration value, ACL record and event through
    [encoding/json].  This file has JSON trees, the dynamic values of
    [interface{}] that the program stores in its configuration, the encoder
    from the second to the first, and the decoders into the static types the
    program passes to [json.Unmarshal], each an instance of [Target].  The
    text of a tree is in [JsonText].

    Numbers are the integral ones: an [int] is its value, a [float64] that
    holds an integer is that integer (Go reads every JSON number into a
    [float64] when the target is [interface{}], and prints it without a
    fraction).  Fractions are outside the model. *)

From S2P Require Import Prelude Utf8.

(** ** Trees *)

Unset Elimination Schemes.
Inductive json : Type :=
| JNull
| JBool (b : bool)
| JNum (z : Z)
| JStr (s : string)
| JArr (l : list json)
| JObj (l : list (string * json)).
Set Elimination Schemes.

Lemma json_ind (P : json → Prop) :
  P JNull → (∀ b, P (JBool b)) → (∀ z, P (JNum z)) → (∀ s, P (JStr s)) →
  (∀ l, Forall P l → P (JArr l)) →
  (∀ l, Forall (λ kv, P kv.2) l → P (JObj l)) →
  ∀ j, P j.
Proof.
  intros Hnull Hbool Hnum Hstr Harr Hobj. fix IH 1. intros [| | | |l|l].
  - done.
  - apply Hbool.
  - apply Hnum.
  - apply Hstr.
  - apply Harr. induction l; constructor; [apply IH|done].
  - apply Hobj. induction l; constructor; [apply IH|done].
Qed.

(** ** Dynamic Go values *)

(** A Go map with string keys; [None] is the nil map, which reads as empty
    and panics when written. *)
Abbreviation gomap V := (option (gmap string V)).

Definition map_get {V : Type} (m : gomap V) (k : string) : option V :=
  m ≫= (.!! k).

Definition map_set {V : Type} (m : gomap V) (k : string) (v : V) : res (gomap V) :=
  match m with
  | None => Panic "assignment to entry in nil map"
  | Some m => Ok (Some (<[k := v]> m))
  end.

(** The values of type [interface{}] the program stores in a configuration,
    tagged with their dynamic type.  [GMap] is a [map[string]interface{}] as
    the list of its entries; [GFunc] stands for the types [encoding/json]
    refuses. *)
Unset Elimination Schemes.
Inductive goval : Type :=
| GNil
| GBool (b : bool)
| GInt (z : Z)
| GFloat64 (z : Z)
| GString (s : string)
| GStrings (l : option (list string))
| GSlice (l : list goval)
| GMap (l : list (string * goval))
| GMapStr (m : gomap string)
| GMapInt (m : gomap Z)
| GFunc.
Set Elimination Schemes.

Lemma goval_ind (P : goval → Prop) :
  P GNil → (∀ b, P (GBool b)) → (∀ z, P (GInt z)) → (∀ z, P (GFloat64 z)) →
  (∀ s, P (GString s)) → (∀ l, P (GStrings l)) →
  (∀ l, Forall P l → P (GSlice l)) →
  (∀ l, Forall (λ kv, P kv.2) l → P (GMap l)) →
  (∀ m, P (GMapStr m)) → (∀ m, P (GMapInt m)) → P GFunc →
  ∀ v, P v.
Proof.
  intros Hn Hb Hi Hf Hs Hss Hl Hm Hms Hmi Hfn. fix IH 1.
  intros [| | | | | |l|l| | |].
  - done.
  - apply Hb.
  - apply Hi.
  - apply Hf.
  - apply Hs.
  - apply Hss.
  - apply Hl. induction l; constructor; [apply IH|done].
  - apply Hm. induction l; constructor; [apply IH|done].
  - apply Hms.
  - apply Hmi.
  - done.
Qed.

(** ** The encoder *)

Definition key_le {A : Type} (a b : string * A) : Prop := String.le a.1 b.1.
#[export] Instance key_le_dec {A} : RelDecision (@key_le A).
Proof. intros a b. unfold key_le. apply _. Defined.
#[export] Instance key_le_trans {A} : Transitive (@key_le A).
Proof. intros a b c. unfold key_le. by etrans. Qed.
#[export] Instance key_le_total {A} : Total (@key_le A).
Proof. intros a b. unfold key_le. apply (total String.le). Qed.

(** Maps are printed with their keys in ascending order. *)
Definition sort_entries {A : Type} : list (string * A) → list (string * A) :=
  merge_sort key_le.

Definition entries {V : Type} (m : gmap string V) : list (string * V) :=
  sort_entries (map_to_list m).

Definition jstr (s : string) : json := JStr (to_valid_utf8 s).

Definition jfield (kv : string * json) : string * json :=
  (to_valid_utf8 kv.1, kv.2).

(** [json.Marshal] up to the text; [None] is the error for a type that has no
    JSON form. *)
Fixpoint marshal (v : goval) : option json :=
  match v with
  | GNil => Some JNull
  | GBool b => Some (JBool b)
  | GInt z => Some (JNum z)
  | GFloat64 z => Some (JNum z)
  | GString s => Some (jstr s)
  | GStrings None => Some JNull
  | GStrings (Some l) => Some (JArr (jstr <$> l))
  | GSlice l => JArr <$> mapM marshal l
  | GMap l =>
    es ← mapM (λ kv, pair kv.1 <$> marshal kv.2) l;
    Some (JObj (jfield <$> sort_entries es))
  | GMapStr None => Some JNull
  | GMapStr (Some m) => Some (JObj ((λ kv, (to_valid_utf8 kv.1, jstr kv.2)) <$> entries m))
  | GMapInt None => Some JNull
  | GMapInt (Some m) => Some (JObj ((λ kv, (to_valid_utf8 kv.1, JNum kv.2)) <$> entries m))
  | GFunc => None
  end.

(** ** The decoders *)

(** [strconv.ParseFloat] of an integer literal: round to the nearest value
    with a 53 bit significand, ties to even. *)
Definition float64_of (z : Z) : Z :=
  let a := Z.abs z in
  if (a <? 2 ^ 53)%Z then z
  else
    let e := (Z.log2 a - 52)%Z in
    let q := (a `div` 2 ^ e)%Z in
    let r := (a `mod` 2 ^ e)%Z in
    let half := (2 ^ (e - 1))%Z in
    let up := (half <? r)%Z || ((half =? r)%Z && Z.odd q) in
    (Z.sgn z * (if up then q + 1 else q) * 2 ^ e)%Z.

Definition float64_ok (z : Z) : bool := (Z.abs (float64_of z) <? 2 ^ 1024)%Z.

(** Assignment in a map kept as the list of its entries. *)
Fixpoint assoc_set {V : Type} (k : string) (v : V) (l : list (string * V)) :
    list (string * V) :=
  match l with
  | [] => [(k, v)]
  | (k', v') :: l => if decide (k = k') then (k, v) :: l else (k', v') :: assoc_set k v l
  end.

Definition assoc_list {V : Type} (l : list (string * V)) : list (string * V) :=
  foldl (λ acc kv, assoc_set kv.1 kv.2 acc) [] l.

Fixpoint assoc_get {V : Type} (k : string) (l : list (string * V)) : option V :=
  match l with
  | [] => None
  | (k', v) :: l => if decide (k = k') then Some v else assoc_get k l
  end.

(** Decoding into [interface{}]: the value left in the target, and whether the
    decoder reported no error (a number no [float64] can hold is one). *)
Fixpoint to_any (j : json) : goval :=
  match j with
  | JNull => GNil
  | JBool b => GBool b
  | JNum z => if float64_ok z then GFloat64 (float64_of z) else GNil
  | JStr s => GString s
  | JArr l => GSlice (to_any <$> l)
  | JObj l => GMap (assoc_list ((λ kv, (kv.1, to_any kv.2)) <$> l))
  end.

Fixpoint any_ok (j : json) : bool :=
  match j with
  | JNum z => float64_ok z
  | JArr l => forallb any_ok l
  | JObj l => forallb (λ kv, any_ok kv.2) l
  | _ => true
  end.

(** What [json.Unmarshal] does with a pointer to a value of type [A]: from the
    tree and the old contents of the target, the new contents and whether
    there was no error.  After a type error the decoder goes on, so the target
    may have changed. *)
Class Target (A : Type) := {
  zero : A;
  unmarshal : json → A → A * bool;
}.

#[export] Instance target_any : Target goval := {|
  zero := GNil;
  unmarshal j _ := (to_any j, any_ok j);
|}.

#[export] Instance target_string : Target string := {|
  zero := "";
  unmarshal j old :=
    match j with
    | JStr s => (s, true)
    | JNull => (old, true)
    | _ => (old, false)
    end;
|}.

#[export] Instance target_int : Target Z := {|
  zero := 0%Z;
  unmarshal j old :=
    match j with
    | JNum z => if in_int64 z then (z, true) else (old, false)
    | JNull => (old, true)
    | _ => (old, false)
    end;
|}.

(** Slices are decoded from their zero value on, as every caller does; the
    nil slice and the empty one are not told apart. *)
#[export] Instance target_slice `{Target A} : Target (list A) := {|
  zero := [];
  unmarshal j old :=
    match j with
    | JArr l => (fst ∘ flip unmarshal zero <$> l, forallb (snd ∘ flip unmarshal zero) l)
    | JNull => ([], true)
    | _ => (old, false)
    end;
|}.

Definition obj_into `{Target V} (m : gmap string V) (l : list (string * json)) :
    gmap string V :=
  foldl (λ m kv, <[kv.1 := fst (unmarshal kv.2 zero)]> m) m l.

#[export] Instance target_map `{Target V} : Target (gomap V) := {|
  zero := None;
  unmarshal j old :=
    match j with
    | JObj l => (Some (obj_into (default ∅ old) l), forallb (λ kv, snd (unmarshal kv.2 zero)) l)
    | JNull => (None, true)
    | _ => (old, false)
    end;
|}.

(** ** Well-formed values and trees *)

(** The values that survive a trip through a file: integers a [float64] holds
    exactly, map keys that are UTF-8 and, in an entry list, distinct. *)
Definition exact (z : Z) : bool := (Z.abs z <=? 2 ^ 53)%Z.

Fixpoint wf_goval (v : goval) : bool :=
  match v with
  | GInt z | GFloat64 z => exact z
  | GSlice l => forallb wf_goval l
  | GMap l =>
    bool_decide (NoDup l.*1) && forallb (λ kv, bool_decide (valid_utf8 kv.1) && wf_goval kv.2) l
  | GMapStr (Some m) => bool_decide (map_Forall (λ k _, valid_utf8 k) m)
  | GMapInt (Some m) => bool_decide (map_Forall (λ k z, valid_utf8 k ∧ exact z) m)
  | _ => true
  end.

Unset Elimination Schemes.
(** The trees the encoder prints: every string is UTF-8. *)
Inductive valid_json : json → Prop :=
| valid_null : valid_json JNull
| valid_bool b : valid_json (JBool b)
| valid_num z : valid_json (JNum z)
| valid_str s : valid_utf8 s → valid_json (JStr s)
| valid_arr l : Forall valid_json l → valid_json (JArr l)
| valid_obj l : Forall (λ kv, valid_utf8 kv.1 ∧ valid_json kv.2) l → valid_json (JObj l).
#[export] Hint Constructors valid_json : msuite.

(** The trees that [interface{}] holds without loss. *)
Inductive stable : json → Prop :=
| stable_null : stable JNull
| stable_bool b : stable (JBool b)
| stable_num z : exact z → stable (JNum z)
| stable_str s : valid_utf8 s → stable (JStr s)
| stable_arr l : Forall stable l → stable (JArr l)
| stable_obj l :
    NoDup l.*1 → StronglySorted key_le l →
    Forall (λ kv, valid_utf8 kv.1 ∧ stable kv.2) l → stable (JObj l).
Set Elimination Schemes.
#[export] Hint Constructors stable : msuite.

(** ** Lemmas on sorting and entry lists *)

Lemma sort_entries_perm {A} (l : list (string * A)) : sort_entries l ≡ₚ l.
Proof. apply merge_sort_Permutation. Qed.

Lemma sort_entries_sorted {A} (l : list (string * A)) :
  StronglySorted key_le (sort_entries l).
Proof. apply (StronglySorted_merge_sort _). Qed.

Lemma key_le_unique {A} (l1 l2 : list (string * A)) :
  NoDup l1.*1 → StronglySorted key_le l1 → StronglySorted key_le l2 → l1 ≡ₚ l2 → l1 = l2.
Proof.
  intros Hnd H1 H2 Hp. apply (StronglySorted_unique_strong key_le); [|done..].
  intros [k a] [k' b] Ha Hb Hle Hge. rewrite <- Hp in Hb.
  assert (k = k') as <- by by apply (anti_symm String.le).
  apply list_elem_of_lookup in Ha as [i Hi]. apply list_elem_of_lookup in Hb as [j Hj].
  assert (i = j) as <-; [|by simplify_eq].
  eapply (NoDup_lookup _ i j k Hnd); rewrite list_lookup_fmap; by rewrite ?Hi, ?Hj.
Qed.

Lemma sort_entries_id {A} (l : list (string * A)) :
  NoDup l.*1 → StronglySorted key_le l → sort_entries l = l.
Proof.
  intros Hnd Hs. symmetry. apply key_le_unique; [done..| |].
  - apply sort_entries_sorted.
  - symmetry. apply sort_entries_perm.
Qed.

Lemma assoc_set_fresh {V} k (v : V) l : k ∉ l.*1 → assoc_set k v l = l ++ [(k, v)].
Proof.
  induction l as [|[k' v'] l IH]; [done|]. simpl. rewrite not_elem_of_cons.
  intros [Hne Hni]. by rewrite decide_False, IH.
Qed.

Lemma assoc_list_id {V} (l : list (string * V)) : NoDup l.*1 → assoc_list l = l.
Proof.
  unfold assoc_list. change l with ([] ++ l) at 1 3.
  generalize (@nil (string * V)) as acc.
  induction l as [|[k v] l IH]; intros acc Hnd; simpl; [by rewrite app_nil_r|].
  rewrite fmap_app in Hnd. simpl in Hnd.
  rewrite assoc_set_fresh.
  - rewrite IH; [by rewrite <- app_assoc|].
    by rewrite fmap_app, fmap_app, <- app_assoc.
  - apply NoDup_app in Hnd as (_ & H & _). intros Hk. apply (H k Hk). left.
Qed.

Lemma entries_nodup {V} (m : gmap string V) : NoDup (entries m).*1.
Proof.
  unfold entries. rewrite (sort_entries_perm (map_to_list m)).
  apply NoDup_fst_map_to_list.
Qed.

Lemma entries_elem {V} (m : gmap string V) k v : (k, v) ∈ entries m ↔ m !! k = Some v.
Proof. unfold entries. by rewrite (sort_entries_perm _), elem_of_map_to_list. Qed.

(** ** Lemmas on numbers *)

Lemma float64_of_exact z : exact z → float64_of z = z.
Proof.
  unfold exact. intros Hz%Is_true_true%Z.leb_le. unfold float64_of.
  destruct (Z.ltb_spec (Z.abs z) (2 ^ 53)); [done|].
  assert (Z.abs z = 2 ^ 53)%Z as -> by lia. vm_compute (Z.log2 _ - 52)%Z.
  change ((2 ^ 53) `mod` 2 ^ 1)%Z with 0%Z. change ((2 ^ 53) `div` 2 ^ 1)%Z with (2 ^ 52)%Z.
  simpl. lia.
Qed.

Lemma float64_ok_exact z : exact z → float64_ok z = true.
Proof.
  intros Hz. unfold float64_ok. rewrite float64_of_exact by done.
  unfold exact in Hz. apply Is_true_true, Z.leb_le in Hz. apply Z.ltb_lt.
  eapply Z.le_lt_trans; [done|]. by apply Z.pow_lt_mono_r.
Qed.

(** ** Lemmas on the encoder and the decoders *)

Lemma stable_valid j : stable j → valid_json j.
Proof.
  induction j as [| | | |l IH|l IH] using json_ind; inversion 1; subst; constructor; try done.
  - eapply Forall_combine; [exact IH|eassumption|]; intros ? HI HS; by first [apply HI, HS|split; [apply HS|apply HI, HS]].
  - eapply Forall_combine; [exact IH|eassumption|]; intros ? HI HS; by first [apply HI, HS|split; [apply HS|apply HI, HS]].
Qed.

Lemma valid_jstr s : valid_json (jstr s).
Proof. constructor. apply to_valid_utf8_valid. Qed.

Lemma stable_jstr s : stable (jstr s).
Proof. constructor. apply to_valid_utf8_valid. Qed.
#[export] Hint Resolve valid_jstr stable_jstr : msuite.

Lemma Forall_sort_entries {A} (P : string * A → Prop) l : Forall P (sort_entries l) ↔ Forall P l.
Proof. by rewrite (sort_entries_perm l). Qed.

(** Every string of an encoded value is well-formed UTF-8. *)
Lemma marshal_valid v j : marshal v = Some j → valid_json j.
Proof.
  revert j. induction v as [| | | | |[l|]|l IH|l IH|[m|]|[m|]|] using goval_ind;
    intros j Hj; simplify_eq/=; eauto with msuite.
  - constructor. rewrite Forall_fmap. apply Forall_true. intros s. apply valid_jstr.
  - apply fmap_Some in Hj as (js & Hjs & ->). constructor.
    apply mapM_Some in Hjs. clear -IH Hjs.
    induction Hjs; decompose_Forall; eauto.
  - apply bind_Some in Hj as (es & Hes & [= <-]). constructor.
    rewrite Forall_fmap, Forall_sort_entries. apply mapM_Some in Hes. clear -IH Hes.
    induction Hes as [|[k v] [k' j] l es Hk]; [constructor|].
    apply Forall_cons in IH as [Hv IH]. apply fmap_Some in Hk as (j' & Hj' & [= <- <-]).
    constructor; [|eauto]. split; [apply to_valid_utf8_valid|by apply Hv].
  - constructor. rewrite Forall_fmap. apply Forall_true. intros kv.
    split; [apply to_valid_utf8_valid|apply valid_jstr].
  - constructor. rewrite Forall_fmap. apply Forall_true. intros kv.
    split; [apply to_valid_utf8_valid|constructor].
Qed.

(** Sorting the entries of a map with distinct, well-formed keys gives the
    members of a stable object. *)
Lemma stable_entries (es : list (string * json)) :
  NoDup es.*1 → Forall (λ kv, valid_utf8 kv.1 ∧ stable kv.2) es →
  stable (JObj (jfield <$> sort_entries es)).
Proof.
  intros Hnd Hes.
  assert (jfield <$> sort_entries es = sort_entries es) as ->.
  { rewrite <- (list_fmap_id (sort_entries es)) at 2. apply list_fmap_ext.
    rewrite <- Forall_sort_entries in Hes.
    intros i [k j] Hi. eapply Forall_lookup_1 in Hes as [Hk _]; [|done].
    unfold jfield. simpl. by rewrite Hk. }
  constructor.
  - by rewrite (sort_entries_perm es).
  - apply sort_entries_sorted.
  - by rewrite Forall_sort_entries.
Qed.

Lemma stable_map_entries {V} (f : V → json) (m : gmap string V) :
  map_Forall (λ k _, valid_utf8 k) m → (∀ k v, m !! k = Some v → stable (f v)) →
  stable (JObj ((λ kv, (to_valid_utf8 kv.1, f kv.2)) <$> entries m)).
Proof.
  intros Hm Hf.
  assert ((λ kv : string * V, (to_valid_utf8 kv.1, f kv.2)) <$> entries m
    = prod_map id f <$> entries m) as ->.
  { apply list_fmap_ext. intros i [k v] Hi%list_elem_of_lookup_2. unfold prod_map. simpl.
    apply entries_elem in Hi. by rewrite (Hm k v Hi). }
  assert (fst <$> (prod_map id f <$> entries m) = fst <$> entries m) as Hk
    by by rewrite <- list_fmap_compose.
  constructor.
  - rewrite Hk. apply entries_nodup.
  - pose proof (sort_entries_sorted (map_to_list m)) as Hs. unfold entries.
    induction Hs as [|kv l Hs IH Hle]; simpl; constructor; [done|].
    rewrite Forall_fmap. eapply Forall_impl; [exact Hle|]. done.
  - rewrite Forall_fmap, Forall_forall. intros [k v] Hkv%entries_elem. simpl.
    split; [by eapply Hm|by eapply Hf].
Qed.

Lemma any_ok_stable j : stable j → any_ok j = true.
Proof.
  induction j as [| | | |l IH|l IH] using json_ind; inversion 1; subst; simpl; try done.
  - by apply float64_ok_exact.
  - apply forallb_Forall. eapply Forall_combine; [exact IH|eassumption|]; intros ? HI HS; by first [apply HI, HS|split; [apply HS|apply HI, HS]].
  - apply forallb_Forall. eapply Forall_combine; [exact IH|eassumption|]; intros ? HI HS; by first [apply HI, HS|split; [apply HS|apply HI, HS]].
Qed.

(** [interface{}] loses nothing of a stable tree. *)
Lemma marshal_to_any j : stable j → marshal (to_any j) = Some j.
Proof.
  induction j as [| | | |l IH|l IH] using json_ind; inversion 1 as [| |? He| | |? Hnd Hs Hl];
    subst; simpl; try done.
  - rewrite float64_ok_exact by done. simpl. by rewrite float64_of_exact.
  - f_equal/=. unfold jstr. by f_equal.
  - rewrite (mapM_fmap_Forall_Some marshal to_any l); [done|].
    eapply Forall_combine; [exact IH|eassumption|]; intros ? HI HS; by first [apply HI, HS|split; [apply HS|apply HI, HS]].
  - rewrite assoc_list_id by (rewrite <- list_fmap_compose; exact Hnd).
    rewrite (mapM_fmap_Forall_Some _ (λ kv, (kv.1, to_any kv.2)) l).
    + simpl. rewrite sort_entries_id by done. f_equal. f_equal.
      rewrite <- (list_fmap_id l) at 2. apply list_fmap_ext. intros i [k j] Hi.
      eapply Forall_lookup_1 in Hl as [Hk _]; [|done]. unfold jfield. simpl. by rewrite Hk.
    + eapply Forall_combine; [exact IH|exact Hl|]. intros [k j]; simpl.
      intros Hj [_ Hst]. by rewrite Hj.
Qed.

(** The tree of a well-formed value is stable. *)
Lemma marshal_stable v j : wf_goval v = true → marshal v = Some j → stable j.
Proof.
  revert j. induction v as [| | | | |[l|]|l IH|l IH|[m|]|[m|]|] using goval_ind;
    intros j Hwf Hj; simplify_eq/=; eauto with msuite.
  - constructor. rewrite Forall_fmap. apply Forall_true. intros s. apply stable_jstr.
  - apply fmap_Some in Hj as (js & Hjs & ->). constructor.
    apply mapM_Some in Hjs. apply forallb_Forall in Hwf. clear -IH Hwf Hjs.
    induction Hjs; decompose_Forall; eauto.
  - apply bind_Some in Hj as (es & Hes & [= <-]).
    apply andb_true_iff in Hwf as [Hnd Hwf]. apply bool_decide_eq_true in Hnd.
    apply forallb_Forall in Hwf. apply mapM_Some in Hes.
    assert (es.*1 = l.*1 ∧ Forall (λ kv, valid_utf8 kv.1 ∧ stable kv.2) es) as [Hk Hst].
    { clear Hnd. induction Hes as [|[k v] [k' j] l es Hk _ IHes]; [done|].
      apply Forall_cons in IH as [Hv IH]. apply Forall_cons in Hwf as [Hwv Hwf].
      apply fmap_Some in Hk as (j' & Hj' & [= <- <-]). simpl in *.
      apply andb_true_iff in Hwv as [Hkv Hwv]. apply bool_decide_eq_true in Hkv.
      destruct (IHes IH Hwf) as [Hks ?]. split; [simpl; by f_equal|]. constructor; [|done].
      split; [done|]. by apply Hv. }
    apply stable_entries; [by rewrite Hk|done].
  - apply bool_decide_eq_true in Hwf.
    apply (stable_map_entries jstr); [done|]. intros. apply stable_jstr.
  - apply bool_decide_eq_true in Hwf.
    apply (stable_map_entries JNum); [by eapply map_Forall_impl; [done|intros ?? [??]]|].
    intros k z Hz. constructor. by destruct (Hwf k z Hz).
Qed.

(** ** Struct fields *)

Definition lower_ascii (c : Ascii.ascii) : Ascii.ascii :=
  let n := Ascii.nat_of_ascii c in
  if (65 <=? n)%nat && (n <=? 90)%nat then Ascii.ascii_of_nat (n + 32) else c.

Definition lower (s : string) : string :=
  String.string_of_list_ascii (lower_ascii <$> String.list_ascii_of_string s).

(** An object member belongs to the field of its name, or of its name up to
    ASCII case. *)
Definition field_match (field key : string) : bool :=
  bool_decide (key = field) || bool_decide (lower key = lower field).

(** Decoding one member into a field. *)
Definition field_into `{Target V} {A : Type} (get : A → V) (set : V → A → A)
    (j : json) (acc : A * bool) : A * bool :=
  let (v, ok) := unmarshal j (get acc.1) in (set v acc.1, acc.2 && ok).
