(* ===== verification/JsonText.v ===== *)
(** * JSON text

    The bytes [json.Marshal], [json.MarshalIndent] and [json.Unmarshal] write
    and read.  Text is handled as the list of its runes and turned into bytes
    with [Utf8]; the parser is a recursive descent over the runes whose fuel is
    the length of the text (every call consumes at least one rune, so it never
    runs out on a text it could parse: [parse_print]). *)

From S2P Require Import Prelude Utf8 Json.
Local Open Scope Z_scope.

(** ** Printing *)

Definition lit (s : string) : list Z := bytes_of s.

Definition hex_digit (n : Z) : Z := if n <? 10 then 48 + n else 87 + n.

Definition u_escape (r : Z) : list Z :=
  [92; 117; hex_digit (r / 4096 mod 16); hex_digit (r / 256 mod 16);
   hex_digit (r / 16 mod 16); hex_digit (r mod 16)].

(** The escapes of [encodeState.string] with HTML escaping on. *)
Definition escape_rune (r : Z) : list Z :=
  if r =? 34 then [92; 34]
  else if r =? 92 then [92; 92]
  else if r =? 10 then [92; 110]
  else if r =? 13 then [92; 114]
  else if r =? 9 then [92; 116]
  else if (r <? 32) || (r =? 60) || (r =? 62) || (r =? 38) || (r =? 0x2028) || (r =? 0x2029)
  then u_escape r
  else [r].

Definition quote (s : string) : list Z := [34] ++ (runes s ≫= escape_rune) ++ [34].

(** Elements separated by commas, each preceded by the white space [w]. *)
Fixpoint separated (w : list Z) (ls : list (list Z)) : list Z :=
  match ls with
  | [] => []
  | [x] => w ++ x
  | x :: ls => w ++ x ++ [44] ++ separated w ls
  end.

(** A layout: the white space before an element at a depth, and after a
    colon. *)
Record layout := Layout { nl : nat → list Z; after_colon : list Z }.
Definition compact : layout := Layout (λ _, []) [].
Definition indented : layout := Layout (λ n, 10 :: replicate n 9) [32].

Definition enclosed (y : layout) (n : nat) (o c : Z) (ls : list (list Z)) : list Z :=
  match ls with
  | [] => [o; c]
  | _ => [o] ++ separated (nl y (S n)) ls ++ nl y n ++ [c]
  end.

Fixpoint print_json (y : layout) (n : nat) (j : json) : list Z :=
  match j with
  | JNull => lit "null"
  | JBool true => lit "true"
  | JBool false => lit "false"
  | JNum z => lit (itoa z)
  | JStr s => quote s
  | JArr l => enclosed y n 91 93 (print_json y (S n) <$> l)
  | JObj l =>
    enclosed y n 123 125
      ((λ kv, quote kv.1 ++ [58] ++ after_colon y ++ print_json y (S n) kv.2) <$> l)
  end.

Definition text_of (y : layout) (j : json) : string := of_runes (print_json y 0 j).

(** ** Parsing *)

Definition is_ws (c : Z) : bool := (c =? 32) || (c =? 9) || (c =? 10) || (c =? 13).

Fixpoint skip_ws (s : list Z) : list Z :=
  match s with
  | c :: s' => if is_ws c then skip_ws s' else s
  | [] => []
  end.

Fixpoint strip (p s : list Z) : option (list Z) :=
  match p, s with
  | [], s => Some s
  | a :: p, b :: s => if a =? b then strip p s else None
  | _ :: _, [] => None
  end.

Definition is_num_char (c : Z) : bool := (c =? 45) || between 48 57 c.

Fixpoint span_num (s : list Z) : list Z * list Z :=
  match s with
  | c :: s' => if is_num_char c then let (a, b) := span_num s' in (c :: a, b) else ([], s)
  | [] => ([], [])
  end.

Definition parse_num (s : list Z) : option (json * list Z) :=
  let (a, b) := span_num s in
  if decide (a = lit "-0") then Some (JNum 0, b)
  else z ← atoi (string_of a); Some (JNum z, b).

Definition unhex (c : Z) : option Z :=
  if between 48 57 c then Some (c - 48)
  else if between 97 102 c then Some (c - 87)
  else if between 65 70 c then Some (c - 55)
  else None.

Definition unhex4 (a b c d : Z) : option Z :=
  a ← unhex a; b ← unhex b; c ← unhex c; d ← unhex d;
  Some (a * 4096 + b * 256 + c * 16 + d).

Definition unescape (e : Z) : option Z :=
  if e =? 34 then Some 34 else if e =? 92 then Some 92 else if e =? 47 then Some 47
  else if e =? 98 then Some 8 else if e =? 102 then Some 12 else if e =? 110 then Some 10
  else if e =? 114 then Some 13 else if e =? 116 then Some 9 else None.

Definition no_surrogate (r : Z) : Z := if valid_rune r then r else rune_error.

(** The rest of a string literal, after its opening quote. *)
Fixpoint parse_chars (s : list Z) : option (list Z * list Z) :=
  match s with
  | [] => None
  | c :: s' =>
    if c =? 34 then Some ([], s')
    else if c =? 92 then
      match s' with
      | [] => None
      | e :: t =>
        if e =? 117 then
          match t with
          | a :: b :: c :: d :: t =>
            r ← unhex4 a b c d;
            match t with
            | x :: y :: a' :: b' :: c' :: d' :: t' =>
              match (if (x =? 92) && (y =? 117) && between 0xD800 0xDBFF r
                     then unhex4 a' b' c' d' else None) with
              | Some r2 =>
                if between 0xDC00 0xDFFF r2
                then '(rs, rest) ← parse_chars t';
                     Some ((r - 0xD800) * 1024 + (r2 - 0xDC00) + 0x10000 :: rs, rest)
                else '(rs, rest) ← parse_chars t; Some (rune_error :: rs, rest)
              | None => '(rs, rest) ← parse_chars t; Some (no_surrogate r :: rs, rest)
              end
            | _ => '(rs, rest) ← parse_chars t; Some (no_surrogate r :: rs, rest)
            end
          | _ => None
          end
        else
          r ← unescape e; '(rs, rest) ← parse_chars t; Some (r :: rs, rest)
      end
    else if c <? 32 then None
    else '(rs, rest) ← parse_chars s'; Some (c :: rs, rest)
  end.

Definition parse_string (s : list Z) : option (string * list Z) :=
  t ← strip [34] s; '(rs, rest) ← parse_chars t; Some (of_runes rs, rest).

Definition parse_lit (s : list Z) : option (json * list Z) :=
  match strip (lit "null") s with
  | Some r => Some (JNull, r)
  | None =>
    match strip (lit "true") s with
    | Some r => Some (JBool true, r)
    | None =>
      match strip (lit "false") s with
      | Some r => Some (JBool false, r)
      | None => parse_num s
      end
    end
  end.

Fixpoint parse_value (fuel : nat) (s : list Z) : option (json * list Z) :=
  match fuel with
  | O => None
  | S n =>
    let s := skip_ws s in
    match s with
    | [] => None
    | c :: t =>
      if c =? 34 then '(x, rest) ← parse_string s; Some (JStr x, rest)
      else if c =? 91 then
        match strip [93] (skip_ws t) with
        | Some rest => Some (JArr [], rest)
        | None => '(l, rest) ← parse_elems n t; Some (JArr l, rest)
        end
      else if c =? 123 then
        match strip [125] (skip_ws t) with
        | Some rest => Some (JObj [], rest)
        | None => '(l, rest) ← parse_members n t; Some (JObj l, rest)
        end
      else parse_lit s
    end
  end
with parse_elems (fuel : nat) (s : list Z) : option (list json * list Z) :=
  match fuel with
  | O => None
  | S n =>
    '(x, t) ← parse_value n s;
    let t := skip_ws t in
    match strip [44] t with
    | Some t => '(l, rest) ← parse_elems n t; Some (x :: l, rest)
    | None => rest ← strip [93] t; Some ([x], rest)
    end
  end
with parse_members (fuel : nat) (s : list Z) : option (list (string * json) * list Z) :=
  match fuel with
  | O => None
  | S n =>
    '(k, t) ← parse_string (skip_ws s);
    t ← strip [58] (skip_ws t);
    '(x, t) ← parse_value n t;
    let t := skip_ws t in
    match strip [44] t with
    | Some t => '(l, rest) ← parse_members n t; Some ((k, x) :: l, rest)
    | None => rest ← strip [125] t; Some ([(k, x)], rest)
    end
  end.

(** A whole document: one value, then only white space. *)
Definition parse_text (text : string) : option json :=
  let s := runes text in
  '(j, rest) ← parse_value (S (length s)) s;
  match skip_ws rest with [] => Some j | _ => None end.

(** ** [encoding/json] on bytes *)

Definition json_marshal (v : goval) : res string :=
  match marshal v with
  | Some j => Ok (text_of compact j)
  | None => Err "json: unsupported type"
  end.

Definition json_marshal_indent (v : goval) : res string :=
  match marshal v with
  | Some j => Ok (text_of indented j)
  | None => Err "json: unsupported type"
  end.

(** [json.Unmarshal(buf, &target)]: a syntax error leaves the target alone; a
    type error is reported after the decoder has gone through the document. *)
Definition json_unmarshal `{Target A} (buf : string) (old : A) : A * option error :=
  match parse_text buf with
  | None => (old, Some "invalid JSON text")
  | Some j =>
    let (v, ok) := unmarshal j old in
    (v, if ok : bool then None else Some "json: cannot unmarshal value into Go value")
  end.

(** ** Round trip *)

Definition ws_layout (y : layout) : Prop :=
  (∀ n, Forall (λ c, is_ws c = true) (nl y n)) ∧ Forall (λ c, is_ws c = true) (after_colon y).

Lemma compact_ws : ws_layout compact.
Proof. split; [intros n|]; constructor. Qed.

Lemma indented_ws : ws_layout indented.
Proof.
  split; [intros n|repeat constructor].
  constructor; [done|]. apply Forall_replicate. done.
Qed.

Lemma skip_ws_app w s : Forall (λ c, is_ws c = true) w → skip_ws (w ++ s) = skip_ws s.
Proof. induction 1 as [|c w Hc _ IH]; [done|]. simpl. by rewrite Hc. Qed.

Lemma skip_ws_cons c s : is_ws c = false → skip_ws (c :: s) = c :: s.
Proof. intros H. simpl. by rewrite H. Qed.

Lemma skip_ws_to w c s :
  Forall (λ c, is_ws c = true) w → is_ws c = false → skip_ws (w ++ c :: s) = c :: s.
Proof. intros. by rewrite skip_ws_app, skip_ws_cons. Qed.

Lemma parse_value_ws fuel w s :
  Forall (λ c, is_ws c = true) w → parse_value fuel (w ++ s) = parse_value fuel s.
Proof. intros H. destruct fuel; [done|]. cbn [parse_value]. by rewrite skip_ws_app. Qed.

(** *** Strings *)

Lemma unhex_digit n : 0 ≤ n < 16 → unhex (hex_digit n) = Some n.
Proof.
  intros H. unfold unhex, hex_digit, between.
  destruct (Z.ltb_spec n 10); simpl.
  - assert ((48 <=? 48 + n) && (48 + n <=? 57) = true) as -> by lia. f_equal. lia.
  - assert ((48 <=? 87 + n) && (87 + n <=? 57) = false) as -> by lia.
    assert ((97 <=? 87 + n) && (87 + n <=? 102) = true) as -> by lia. f_equal. lia.
Qed.

Lemma unhex4_escape r :
  0 ≤ r < 65536 →
  unhex4 (hex_digit (r / 4096 mod 16)) (hex_digit (r / 256 mod 16))
    (hex_digit (r / 16 mod 16)) (hex_digit (r mod 16)) = Some r.
Proof.
  intros H. unfold unhex4. rewrite !unhex_digit by (apply Z.mod_pos_bound; lia). simpl.
  f_equal. lia.
Qed.

Definition char_cons (r : Z) (p : option (list Z * list Z)) : option (list Z * list Z) :=
  '(rs, rest) ← p; Some (r :: rs, rest).

Lemma parse_chars_u r t :
  valid_rune r = true → r < 65536 →
  parse_chars (u_escape r ++ t) = char_cons r (parse_chars t).
Proof.
  intros Hv Hr. assert (0 ≤ r) by (unfold_tests; lia).
  assert (between 0xD800 0xDBFF r = false) as Hs by (unfold_tests; lia).
  unfold u_escape. cbn [app parse_chars].
  change (92 =? 34) with false. change (92 =? 92) with true. change (117 =? 117) with true.
  cbv iota. rewrite unhex4_escape by lia. cbn [mbind option_bind].
  unfold no_surrogate. rewrite Hv.
  do 6 (destruct t as [|? t]; [done|]). by rewrite Hs, andb_false_r.
Qed.

Lemma parse_chars_escape r t :
  valid_rune r = true → parse_chars (escape_rune r ++ t) = char_cons r (parse_chars t).
Proof.
  intros Hv. unfold escape_rune.
  destruct (Z.eqb_spec r 34) as [->|]; [done|].
  destruct (Z.eqb_spec r 92) as [->|]; [done|].
  destruct (Z.eqb_spec r 10) as [->|]; [done|].
  destruct (Z.eqb_spec r 13) as [->|]; [done|].
  destruct (Z.eqb_spec r 9) as [->|]; [done|].
  destruct (_ || _) eqn:E.
  - apply parse_chars_u; [done|]. unfold_tests; lia.
  - cbn [app parse_chars].
    rewrite (proj2 (Z.eqb_neq r 34)), (proj2 (Z.eqb_neq r 92)) by done.
    assert ((r <? 32) = false) as -> by lia. done.
Qed.

Lemma parse_chars_quote rs rest :
  Forall (λ r, valid_rune r = true) rs →
  parse_chars ((rs ≫= escape_rune) ++ [34] ++ rest) = Some (rs, rest).
Proof.
  induction 1 as [|r rs Hr _ IH]; [done|].
  cbn [mbind list_bind]. rewrite <- app_assoc, parse_chars_escape by done.
  by rewrite IH.
Qed.

Lemma parse_string_quote s rest :
  valid_utf8 s → parse_string (quote s ++ rest) = Some (s, rest).
Proof.
  intros Hs. unfold parse_string, quote. rewrite <- !app_assoc. cbn [app strip].
  change (34 =? 34) with true. cbn [mbind option_bind].
  pose proof (parse_chars_quote (runes s) rest (runes_valid s)) as Hp.
  cbn [app] in Hp. rewrite Hp. cbn [mbind option_bind].
  f_equal. f_equal. exact Hs.
Qed.

(** *** Numbers *)

Definition num_end (rest : list Z) : Prop :=
  match rest with [] => True | c :: _ => is_num_char c = false end.

Lemma string_of_uint_chars d :
  Forall (λ c, is_num_char c = true) (lit (DecimalString.NilEmpty.string_of_uint d)).
Proof. induction d; constructor; done. Qed.

Lemma itoa_chars z : Forall (λ c, is_num_char c = true) (lit (itoa z)).
Proof.
  unfold itoa. destruct (Z.to_int z); [apply string_of_uint_chars|].
  constructor; [done|apply string_of_uint_chars].
Qed.

Lemma itoa_nonempty z : lit (itoa z) ≠ [].
Proof.
  intros H. assert (itoa z = "") as E by by destruct (itoa z).
  pose proof (atoi_itoa z) as Ha. by rewrite E in Ha.
Qed.

Lemma span_num_app a rest :
  Forall (λ c, is_num_char c = true) a → num_end rest → span_num (a ++ rest) = (a, rest).
Proof.
  intros Ha Hr. induction Ha as [|c a Hc _ IH]; simpl.
  - destruct rest as [|c r]; simpl in *; [done|by rewrite Hr].
  - by rewrite Hc, IH.
Qed.

Lemma lit_itoa_neg0 z : lit (itoa z) = lit "-0" → False.
Proof.
  intros H. assert (itoa z = "-0") as E.
  { rewrite <- (string_of_bytes_of (itoa z)). unfold lit in H. by rewrite H. }
  pose proof (atoi_itoa z) as Ha. rewrite E in Ha. by vm_compute in Ha.
Qed.

Lemma parse_num_itoa z rest :
  num_end rest → parse_num (lit (itoa z) ++ rest) = Some (JNum z, rest).
Proof.
  intros Hr. unfold parse_num. rewrite span_num_app by (done || apply itoa_chars).
  rewrite decide_False by (intros ?; by eapply lit_itoa_neg0).
  unfold lit. rewrite string_of_bytes_of, atoi_itoa. done.
Qed.

Lemma num_head z : ∃ c t, lit (itoa z) = c :: t ∧ is_num_char c = true.
Proof.
  pose proof (itoa_chars z) as Hc. pose proof (itoa_nonempty z) as Hn.
  destruct Hc as [|c t Hc _]; [done|]. eauto.
Qed.

Lemma strip_ne a p c s : a ≠ c → strip (a :: p) (c :: s) = None.
Proof. intros H. simpl. by rewrite (proj2 (Z.eqb_neq a c)). Qed.

Lemma parse_value_num n z rest :
  num_end rest → parse_value (S n) (lit (itoa z) ++ rest) = Some (JNum z, rest).
Proof.
  intros Hr. pose proof (parse_num_itoa z rest Hr) as Hp.
  destruct (num_head z) as (c & t & E & Hc). rewrite E in Hp |- *. cbn [app] in *.
  unfold is_num_char, between in Hc.
  assert (is_ws c = false) as Hw by (unfold is_ws; lia).
  cbn [parse_value]. rewrite skip_ws_cons by done.
  rewrite (proj2 (Z.eqb_neq c 34)), (proj2 (Z.eqb_neq c 91)), (proj2 (Z.eqb_neq c 123)) by lia.
  unfold parse_lit. change (lit "null") with [110; 117; 108; 108].
  change (lit "true") with [116; 114; 117; 101].
  change (lit "false") with [102; 97; 108; 115; 101].
  by rewrite !strip_ne by lia.
Qed.

(** *** Values *)

Definition reparses (y : layout) (j : json) : Prop :=
  ∀ n fuel rest,
    num_end rest → (length (print_json y n j) ≤ fuel)%nat →
    parse_value fuel (print_json y n j ++ rest) = Some (j, rest).

Lemma num_end_ws w c rest :
  Forall (λ c, is_ws c = true) w → is_num_char c = false → num_end (w ++ c :: rest).
Proof.
  intros Hw Hc. destruct Hw as [|c' w Hc' _]; [done|]. simpl.
  unfold is_ws in Hc'. unfold is_num_char, between. lia.
Qed.

Lemma parse_elems_print y n l w w' rest :
  Forall (λ c, is_ws c = true) w → Forall (λ c, is_ws c = true) w' →
  Forall (reparses y) l → l ≠ [] →
  ∀ fuel, (length (separated w (print_json y n <$> l)) < fuel)%nat →
  parse_elems fuel (separated w (print_json y n <$> l) ++ w' ++ 93 :: rest) = Some (l, rest).
Proof.
  intros Hw Hw' Hl Hne. induction Hl as [|x l Hx Hl IH]; [done|].
  intros [|fuel] Hf; [lia|]. destruct l as [|x2 l]; cbn [parse_elems].
  - cbn [fmap list_fmap separated] in Hf |- *. rewrite length_app in Hf.
    rewrite <- app_assoc, parse_value_ws by done.
    rewrite Hx; [|by apply num_end_ws|lia]. cbn [mbind option_bind].
    by rewrite skip_ws_to.
  - change (separated w (print_json y n <$> x :: x2 :: l)) with
      (w ++ print_json y n x ++ [44] ++ separated w (print_json y n <$> x2 :: l)) in Hf |- *.
    rewrite !length_app in Hf. change (length [44]) with 1%nat in Hf.
    rewrite <- !app_assoc, parse_value_ws by done.
    rewrite Hx; [|done|lia]. cbn [mbind option_bind app].
    rewrite skip_ws_cons by done. cbn [strip]. change (44 =? 44) with true. cbv iota.
    rewrite IH; [done|done|lia].
Qed.

Definition member (y : layout) (n : nat) (kv : string * json) : list Z :=
  quote kv.1 ++ [58] ++ after_colon y ++ print_json y n kv.2.

Lemma quote_head s rest : ∃ t, quote s ++ rest = 34 :: t.
Proof. unfold quote. simpl. eauto. Qed.

Lemma parse_members_print y n l w w' rest :
  ws_layout y → Forall (λ c, is_ws c = true) w → Forall (λ c, is_ws c = true) w' →
  Forall (λ kv, valid_utf8 kv.1 ∧ reparses y kv.2) l → l ≠ [] →
  ∀ fuel, (length (separated w (member y n <$> l)) < fuel)%nat →
  parse_members fuel (separated w (member y n <$> l) ++ w' ++ 125 :: rest) = Some (l, rest).
Proof.
  intros [_ Hy] Hw Hw' Hl Hne. induction Hl as [|[k x] l [Hk Hx] Hl IH]; [done|].
  simpl in Hk, Hx.
  assert (Hmem : ∀ fuel rest', num_end rest' → (length (member y n (k, x)) ≤ fuel)%nat →
    (∃ t, parse_string (skip_ws (w ++ member y n (k, x) ++ rest')) = Some (k, 58 :: t) ∧
          parse_value fuel t = Some (x, rest'))).
  { intros fuel rest' Hr Hf. unfold member in *. simpl fst in *. simpl snd in *.
    rewrite !length_app in Hf.
    rewrite skip_ws_app, <- !app_assoc by done.
    destruct (quote_head k ([58] ++ after_colon y ++ print_json y n x ++ rest')) as [q Hq].
    rewrite Hq, skip_ws_cons, <- Hq, parse_string_quote by done.
    eexists. split; [done|]. rewrite parse_value_ws by done. apply Hx; [done|lia]. }
  intros [|fuel] Hf; [lia|]. destruct l as [|x2 l]; cbn [parse_members].
  - cbn [fmap list_fmap separated] in Hf |- *. rewrite length_app in Hf.
    rewrite <- app_assoc.
    destruct (Hmem fuel (w' ++ 125 :: rest)) as (t & -> & Hv); [by apply num_end_ws|lia|].
    cbn [mbind option_bind]. rewrite skip_ws_cons by done. cbn [strip].
    change (58 =? 58) with true. cbn [mbind option_bind]. rewrite Hv. cbn [mbind option_bind].
    by rewrite skip_ws_to.
  - change (separated w (member y n <$> (k, x) :: x2 :: l)) with
      (w ++ member y n (k, x) ++ [44] ++ separated w (member y n <$> x2 :: l)) in Hf |- *.
    rewrite !length_app in Hf. change (length [44]) with 1%nat in Hf. rewrite <- !app_assoc.
    edestruct (Hmem fuel) as (t & -> & Hv); [|lia|]; [done|].
    cbn [mbind option_bind]. rewrite skip_ws_cons by done. cbn [strip].
    change (58 =? 58) with true. cbn [mbind option_bind]. rewrite Hv. cbn [mbind option_bind app].
    rewrite skip_ws_cons by done. cbn [strip]. change (44 =? 44) with true. cbv iota.
    rewrite IH; [done|done|lia].
Qed.

Lemma print_json_nonempty y n j : (0 < length (print_json y n j))%nat.
Proof.
  destruct j as [|[]|z|s|l|l]; simpl; try lia.
  - pose proof (itoa_nonempty z). destruct (lit (itoa z)); [done|simpl; lia].
  - unfold enclosed. destruct (_ <$> l); simpl; lia.
  - unfold enclosed. destruct (_ <$> l); simpl; lia.
Qed.

Lemma separated_head w x ls c rest :
  Forall (λ c, is_ws c = true) w → head x = Some c → is_ws c = false →
  ∃ t, skip_ws (separated w (x :: ls) ++ rest) = c :: t.
Proof.
  intros Hw Hx Hc. destruct x as [|c' x]; [done|]. injection Hx as ->.
  destruct ls; cbn [separated]; rewrite <- !app_assoc, skip_ws_app by done;
    cbn [app]; rewrite skip_ws_cons by done; eauto.
Qed.

(** A printed value never starts with white space or a closing bracket. *)
Lemma print_head y n j :
  ∃ c, head (print_json y n j) = Some c ∧ is_ws c = false ∧ c ≠ 93 ∧ c ≠ 125.
Proof.
  destruct j as [|[]|z|s|l|l]; cbn [print_json].
  - by exists 110.
  - by exists 116.
  - by exists 102.
  - destruct (num_head z) as (c & t & -> & Hc). exists c. split; [done|].
    unfold is_num_char, between in Hc. unfold is_ws. repeat split; lia.
  - by exists 34.
  - exists 91. by destruct l.
  - exists 123. by destruct l.
Qed.

Lemma print_reparses y j : ws_layout y → valid_json j → reparses y j.
Proof.
  intros Hy. pose proof Hy as [Hnl _].
  induction j as [|b|z|s|l IH|l IH] using json_ind; intros Hj n fuel rest Hr Hf;
    (destruct fuel as [|fuel];
     [exfalso; eapply Nat.lt_irrefl, Nat.lt_le_trans; [apply print_json_nonempty|exact Hf]|]).
  - done.
  - by destruct b.
  - by apply parse_value_num.
  - inversion Hj; subst. cbn [print_json parse_value].
    destruct (quote_head s rest) as [q Hq].
    rewrite Hq, skip_ws_cons by done. change (34 =? 34) with true. cbv iota.
    by rewrite <- Hq, parse_string_quote.
  - inversion Hj as [| | | |? Hl|]; subst.
    assert (Forall (reparses y) l) as Hall by (eapply Forall_combine; [exact IH|exact Hl|]; auto).
    destruct l as [|x l]; [done|].
    cbn [print_json] in *. unfold enclosed in *. cbn [fmap list_fmap] in *.
    rewrite !length_app in Hf. cbn [length] in Hf. rewrite <- !app_assoc.
    cbn [app parse_value]. rewrite skip_ws_cons by done.
    change (91 =? 34) with false. change (91 =? 91) with true. cbv iota.
    destruct (print_head y (S n) x) as (c & Hc & Hws & Hne & _).
    edestruct (separated_head (nl y (S n)) (print_json y (S n) x)) as [t Ht]; [done..|].
    rewrite Ht, strip_ne by done.
    pose proof (parse_elems_print y (S n) (x :: l) (nl y (S n)) (nl y n) rest) as Hp.
    cbn [fmap list_fmap] in Hp. cbn [app] in *. rewrite Hp; [done..|lia].
  - inversion Hj as [| | | | |? Hl]; subst.
    assert (Forall (λ kv, valid_utf8 kv.1 ∧ reparses y kv.2) l) as Hall.
    { eapply Forall_combine; [exact IH|exact Hl|]. intros kv Hkv [? ?]. auto. }
    destruct l as [|x l]; [done|].
    cbn [print_json] in *. unfold enclosed in *. cbn [fmap list_fmap] in *.
    rewrite !length_app in Hf. cbn [length] in Hf. rewrite <- !app_assoc.
    cbn [app parse_value]. rewrite skip_ws_cons by done.
    change (123 =? 34) with false. change (123 =? 91) with false.
    change (123 =? 123) with true. cbv iota.
    edestruct (separated_head (nl y (S n)) (member y (S n) x)) as [t Ht];
      [done|by unfold member, quote|done|].
    unfold member in Ht at 1. cbn [app] in Ht. rewrite Ht, strip_ne by done.
    pose proof (parse_members_print y (S n) (x :: l) (nl y (S n)) (nl y n) rest) as Hp.
    unfold member in Hp. cbn [fmap list_fmap] in Hp. cbn [app] in *. rewrite Hp; [done..|lia].
Qed.

(** *** Bytes *)

Abbreviation valid_runes := (Forall (λ r, valid_rune r = true)).

Lemma ws_valid_runes w : Forall (λ c, is_ws c = true) w → valid_runes w.
Proof. intros H. eapply Forall_impl; [exact H|]. intros c Hc. unfold is_ws in Hc. unfold_tests. lia. Qed.

Lemma escape_valid_runes r : valid_rune r = true → valid_runes (escape_rune r).
Proof.
  intros Hr. unfold escape_rune, u_escape, hex_digit.
  repeat case_match; repeat constructor; try done; unfold_tests; lia.
Qed.

Lemma quote_valid_runes s : valid_runes (quote s).
Proof.
  unfold quote. apply Forall_app; split; [by repeat constructor|].
  apply Forall_app; split; [|by repeat constructor].
  pose proof (runes_valid s) as H. induction H as [|r rs Hr _ IH]; [constructor|].
  cbn [mbind list_bind]. apply Forall_app; split; [by apply escape_valid_runes|done].
Qed.

Lemma separated_valid_runes w ls :
  valid_runes w → Forall valid_runes ls → valid_runes (separated w ls).
Proof.
  intros Hw. induction 1 as [|x ls Hx Hls IH]; [constructor|].
  destruct ls; cbn [separated]; rewrite !Forall_app; [done|].
  repeat split; [done..|by repeat constructor|done].
Qed.

Lemma enclosed_valid_runes y n o c ls :
  ws_layout y → valid_rune o = true → valid_rune c = true →
  Forall valid_runes ls → valid_runes (enclosed y n o c ls).
Proof.
  intros [Hnl _] Ho Hc Hls. unfold enclosed. destruct ls as [|x ls]; [by repeat constructor|].
  rewrite !Forall_app. repeat split.
  - by repeat constructor.
  - apply separated_valid_runes; [apply ws_valid_runes, Hnl|done].
  - apply ws_valid_runes, Hnl.
  - by repeat constructor.
Qed.

Lemma print_valid_runes y n j : ws_layout y → valid_runes (print_json y n j).
Proof.
  intros Hy. revert n.
  induction j as [|[]|z|s|l IH|l IH] using json_ind; intros n; cbn [print_json].
  - by repeat constructor.
  - by repeat constructor.
  - by repeat constructor.
  - eapply Forall_impl; [apply itoa_chars|]. intros c Hc. unfold is_num_char in Hc.
    unfold_tests. lia.
  - apply quote_valid_runes.
  - apply enclosed_valid_runes; [done..|]. rewrite Forall_fmap.
    eapply Forall_impl; [exact IH|]. intros j Hj. apply Hj.
  - apply enclosed_valid_runes; [done..|]. rewrite Forall_fmap.
    eapply Forall_impl; [exact IH|]. intros kv Hkv. unfold compose. rewrite !Forall_app.
    repeat split; [apply quote_valid_runes|by repeat constructor|apply ws_valid_runes, Hy|].
    apply Hkv.
Qed.

(** Reading back the printed text of a tree gives the tree, in both layouts. *)
Lemma parse_text_of y j :
  ws_layout y → valid_json j → parse_text (text_of y j) = Some j.
Proof.
  intros Hy Hj. unfold parse_text, text_of.
  rewrite runes_of_runes by by apply print_valid_runes.
  pose proof (print_reparses y j Hy Hj 0%nat (S (length (print_json y 0 j))) []) as H.
  rewrite app_nil_r in H. rewrite H; [done|done|lia].
Qed.

Lemma json_marshal_Ok v text :
  json_marshal v = Ok text ↔ ∃ j, marshal v = Some j ∧ text = text_of compact j.
Proof.
  unfold json_marshal. split; [|by intros (j & -> & ->)].
  destruct (marshal v) as [j|]; [|done]. intros [= <-]. by exists j.
Qed.

(** Decoding the text of a value is decoding its tree. *)
Lemma json_unmarshal_text `{Target A} y v j (old : A) :
  ws_layout y → marshal v = Some j →
  json_unmarshal (text_of y j) old =
    let (x, ok) := unmarshal j old in
    (x, if ok : bool then None else Some "json: cannot unmarshal value into Go value").
Proof.
  intros Hy Hv. unfold json_unmarshal.
  rewrite parse_text_of by (done || by eapply marshal_valid). done.
Qed.

#[export] Hint Resolve compact_ws indented_ws : msuite.
