(* ===== verification/Files.v ===== *)
(** * Files: [utils/files.go] over a model of the file system

    The operating system below [os.Stat], [os.Create], [os.Open] and
    [os.MkdirAll] is a tree of directories and regular files without symbolic
    links; directories in [locked] refuse to be searched and written, so that
    every error branch of the code is reachable. *)

From S2P Require Import Prelude.

(** ** Paths *)

Definition slash : Ascii.ascii := Ascii.ascii_of_nat 47.

Fixpoint split_slash (s : string) : list string :=
  match s with
  | EmptyString => [""]
  | String c s' =>
    if Ascii.eqb c slash then "" :: split_slash s'
    else match split_slash s' with
         | [] => [String c ""]
         | w :: ws => String c w :: ws
         end
  end.

Definition rooted (s : string) : bool :=
  match s with String c _ => Ascii.eqb c slash | EmptyString => false end.

(** One component of a path applied to the components before it, last first;
    [up] says what [..] does at the top. *)
Definition step_component (up : bool) (acc : list string) (c : string) : list string :=
  if decide (c = "" ∨ c = ".") then acc
  else if decide (c = "..") then
    match acc with
    | [] => if up then [".."] else []
    | d :: acc' => if decide (d = "..") then ".." :: acc else acc'
    end
  else c :: acc.

Definition components (up : bool) (ws : list string) : list string :=
  reverse (foldl (step_component up) [] ws).

Fixpoint join_slash (ws : list string) : string :=
  match ws with
  | [] => ""
  | [w] => w
  | w :: ws => w +:+ "/" +:+ join_slash ws
  end.

(** [filepath.Clean]. *)
Definition clean (s : string) : string :=
  let ws := components (negb (rooted s)) (split_slash s) in
  if rooted s then "/" +:+ join_slash ws
  else match ws with [] => "." | _ => join_slash ws end.

(** [filepath.Join(a, b)]: empty elements are dropped. *)
Definition join_path (a b : string) : string :=
  match a, b with
  | "", "" => ""
  | "", _ => clean b
  | _, "" => clean a
  | _, _ => clean (a +:+ "/" +:+ b)
  end.

(** ** The file system *)

Inductive node := Dir | File (content : string).
Inductive errno := ENOENT | ENOTDIR | EACCES | EISDIR.

#[export] Instance node_eq_dec : EqDecision node.
Proof. solve_decision. Defined.
#[export] Instance errno_eq_dec : EqDecision errno.
Proof. solve_decision. Defined.

Definition errno_string (e : errno) : error :=
  match e with
  | ENOENT => "no such file or directory"
  | ENOTDIR => "not a directory"
  | EACCES => "permission denied"
  | EISDIR => "is a directory"
  end.

(** An absolute path is the list of its components; the root is [[]]. *)
Record fs := mkFs {
  cwd : list string;
  nodes : gmap (list string) node;
  locked : gset (list string);
}.

Definition set_node (r : list string) (n : node) (f : fs) : fs :=
  mkFs (cwd f) (<[r := n]> (nodes f)) (locked f).

Definition node_at (f : fs) (r : list string) : option node :=
  match r with [] => Some Dir | _ => nodes f !! r end.

Definition resolve (f : fs) (p : string) : list string :=
  components false (if rooted p then split_slash p else cwd f ++ split_slash p).

(** Walking down from the directory [cur]. *)
Fixpoint walk (f : fs) (cur rest : list string) : errno + node :=
  match rest with
  | [] => match node_at f cur with Some n => inr n | None => inl ENOENT end
  | c :: rest =>
    match node_at f cur with
    | None => inl ENOENT
    | Some (File _) => inl ENOTDIR
    | Some Dir => if decide (cur ∈ locked f) then inl EACCES else walk f (cur ++ [c]) rest
    end
  end.

Definition os_stat (p : string) (f : fs) : errno + node := walk f [] (resolve f p).

(** [os.Create]: truncate the file, or make a new one in its directory. *)
Definition os_create (p : string) (f : fs) : errno + fs :=
  let r := resolve f p in
  match walk f [] r with
  | inr (File _) => inr (set_node r (File "") f)
  | inr Dir => inl EISDIR
  | inl ENOENT =>
    let d := removelast r in
    match walk f [] d with
    | inr Dir => if decide (d ∈ locked f) then inl EACCES else inr (set_node r (File "") f)
    | inr (File _) => inl ENOTDIR
    | inl e => inl e
    end
  | inl e => inl e
  end.

(** [os.MkdirAll], from the directory [cur] down. *)
Fixpoint mkdir_all (f : fs) (cur rest : list string) : fs * option errno :=
  match rest with
  | [] => (f, None)
  | c :: rest =>
    if decide (cur ∈ locked f) then (f, Some EACCES)
    else
      let r := cur ++ [c] in
      match node_at f r with
      | Some Dir => mkdir_all f r rest
      | Some (File _) => (f, Some ENOTDIR)
      | None => mkdir_all (set_node r Dir f) r rest
      end
  end.

Definition os_mkdir_all (p : string) (f : fs) : fs * option errno :=
  mkdir_all f [] (resolve f p).

(** Reading a whole file after [os.Open]. *)
Definition os_read (p : string) (f : fs) : errno + string :=
  match os_stat p f with
  | inr (File s) => inr s
  | inr Dir => inl EISDIR
  | inl e => inl e
  end.

(** ** [utils/files.go] *)

Definition Exists (name : string) (f : fs) : bool :=
  match os_stat name f with
  | inl ENOENT => false
  | _ => true
  end.

Definition WriteToFile (content : string) (newFile : string) : ST fs unit := λ f,
  match os_create newFile f with
  | inl e => (Err (errno_string e), f)
  | inr f' => (Ok (), set_node (resolve f newFile) (File content) f')
  end.

(** An [io.Writer] over a state [W]: the bytes written and the error. *)
Definition writer (W : Type) : Type := string → W → (nat * option error) * W.

Definition ReadFromFile {W : Type} (write : writer W) (file : string) (f : fs) : ST W unit := λ w,
  match os_read file f with
  | inl e => (Err (errno_string e), w)
  | inr buf =>
    let '((n, err), w') := write buf w in
    match err with
    | Some e => (Err e, w')
    | None =>
      if (n <? String.length buf)%nat then (Err "Unable to write entire config", w')
      else (Ok (), w')
    end
  end.

Definition MkdirIfNotExists (path : string) : ST fs unit := λ f,
  if Exists path f then (Ok (), f)
  else match os_mkdir_all path f with
       | (f', None) => (Ok (), f')
       | (f', Some e) => (Err (errno_string e), f')
       end.

(** [bytes.Buffer] as a writer: it grows and never fails. *)
Definition buffer_write : writer string := λ buf w, ((String.length buf, None), w +:+ buf).

Example clean_examples :
  clean "a//b/./c/.." = "a/b" ∧ clean "/../a" = "/a" ∧ clean "" = "." ∧
  clean "../../a" = "../../a" ∧ join_path "tmp/" "config.json" = "tmp/config.json".
Proof. vm_compute. done. Qed.

(** ** Lemmas: walking *)

(** Every directory above [cur ++ rest], from [cur] on, can be searched. *)
Fixpoint reach (f : fs) (cur rest : list string) : Prop :=
  match rest with
  | [] => True
  | c :: rest => node_at f cur = Some Dir ∧ (cur ∉ locked f) ∧ reach f (cur ++ [c]) rest
  end.

Lemma walk_inr f rest : ∀ cur n,
  walk f cur rest = inr n ↔ reach f cur rest ∧ node_at f (cur ++ rest) = Some n.
Proof.
  induction rest as [|c rest IH]; intros cur n; simpl.
  { rewrite app_nil_r. destruct (node_at f cur); naive_solver. }
  rewrite (cons_middle c cur rest), (assoc_L (++)).
  destruct (node_at f cur) as [[|s]|]; [|naive_solver..].
  case_decide; [naive_solver|]. rewrite IH. naive_solver.
Qed.

Lemma reach_snoc f c rest : ∀ cur,
  reach f cur (rest ++ [c]) ↔
  reach f cur rest ∧ node_at f (cur ++ rest) = Some Dir ∧ cur ++ rest ∉ locked f.
Proof.
  induction rest as [|c' rest IH]; intros cur; simpl.
  { rewrite app_nil_r. naive_solver. }
  rewrite IH, <- (assoc_L (++)). simpl. naive_solver.
Qed.

Lemma node_at_set f r n : r ≠ [] → node_at (set_node r n f) r = Some n.
Proof. destruct r; [done|]. intros _. unfold node_at, set_node; simpl. apply lookup_insert_eq. Qed.

Lemma node_at_set_ne f r r' n : r ≠ r' → node_at (set_node r n f) r' = node_at f r'.
Proof. intros H. destruct r'; [done|]. unfold node_at, set_node; simpl. by apply lookup_insert_ne. Qed.

(** A node is not above itself: writing it does not change what leads to it. *)
Lemma reach_set f r n rest : ∀ cur,
  (length cur + length rest ≤ length r)%nat →
  reach (set_node r n f) cur rest ↔ reach f cur rest.
Proof.
  induction rest as [|c rest IH]; intros cur Hlen; simpl in *; [done|].
  rewrite IH by (rewrite length_app; simpl; lia).
  rewrite node_at_set_ne; [done|]. intros ->. lia.
Qed.

Lemma walk_set f r n : r ≠ [] → reach f [] r → walk (set_node r n f) [] r = inr n.
Proof.
  intros Hr Hreach. apply walk_inr. split; [|by apply node_at_set].
  apply reach_set; [simpl; lia|done].
Qed.

Lemma resolve_set f r n p : resolve (set_node r n f) p = resolve f p.
Proof. done. Qed.

Lemma os_create_inr p f f' :
  os_create p f = inr f' →
  f' = set_node (resolve f p) (File "") f ∧ resolve f p ≠ [] ∧ reach f [] (resolve f p).
Proof.
  unfold os_create. destruct (walk f [] (resolve f p)) as [[]|[|s]] eqn:Hw; try done.
  - destruct (walk f [] (removelast (resolve f p))) as [?|[]] eqn:Hd; try done.
    case_decide; [done|]. intros [= <-].
    assert (resolve f p ≠ []) as Hne by (intros E; rewrite E in Hw; done).
    split_and!; [done..|]. rewrite (app_removelast_last "" Hne).
    apply reach_snoc. by apply walk_inr in Hd as [??].
  - intros [= <-]. apply walk_inr in Hw as [Hr Hn]. split_and!; [done| |done].
    intros E. by rewrite E in Hn.
Qed.

(** ** What the operations do *)

Lemma WriteToFile_Ok content p f f' :
  WriteToFile content p f = (Ok (), f') →
  os_stat p f' = inr (File content) ∧ cwd f' = cwd f ∧ locked f' = locked f ∧
  (∀ r, r ≠ resolve f p → node_at f' r = node_at f r).
Proof.
  unfold WriteToFile. destruct (os_create p f) as [|g] eqn:Hc; [done|]. intros [= <-].
  apply os_create_inr in Hc as (-> & Hne & Hr). unfold os_stat. rewrite !resolve_set.
  split_and!; [|done..|].
  - apply walk_set; [done|]. by apply reach_set.
  - intros r Hrne. by rewrite !node_at_set_ne.
Qed.

Lemma WriteToFile_Err content p f e f' :
  WriteToFile content p f = (Err e, f') → f' = f.
Proof. unfold WriteToFile. destruct (os_create p f); congruence. Qed.

Lemma mkdir_all_spec rest : ∀ f cur f' e,
  node_at f cur = Some Dir → mkdir_all f cur rest = (f', e) →
  cwd f' = cwd f ∧ locked f' = locked f ∧
  (∀ r n, node_at f r = Some n → node_at f' r = Some n) ∧
  (e = None → walk f' cur rest = inr Dir).
Proof.
  induction rest as [|c rest IH]; intros f cur f' e Hcur Hm; simpl in Hm.
  { injection Hm as <- <-. split_and!; [done..|]. intros _. simpl. by rewrite Hcur. }
  case_decide as Hlk; [by injection Hm as <- <-|].
  destruct (node_at f (cur ++ [c])) as [[|s]|] eqn:Hn.
  - apply IH in Hm as (Hc & Hl & Hmono & Hw); [|done]. split_and!; [done..|].
    intros He. simpl. rewrite (Hmono _ _ Hcur), Hl, decide_False by done. by apply Hw.
  - by injection Hm as <- <-.
  - assert (cur ++ [c] ≠ []) as Hne by by destruct cur.
    apply IH in Hm as (Hc & Hl & Hmono & Hw); [|by apply node_at_set].
    assert (∀ r n, node_at f r = Some n → node_at f' r = Some n) as Hm'.
    { intros r n Hr. apply Hmono. rewrite node_at_set_ne; [done|]. intros <-. congruence. }
    split_and!; [done..|]. intros He. simpl.
    rewrite (Hm' _ _ Hcur), Hl, decide_False by done. by apply Hw.
Qed.

Lemma MkdirIfNotExists_spec p f r f' :
  MkdirIfNotExists p f = (r, f') →
  cwd f' = cwd f ∧ locked f' = locked f ∧
  (∀ q n, node_at f q = Some n → node_at f' q = Some n) ∧
  (r = Ok () → Exists p f = true ∧ f' = f ∨ Exists p f = false ∧ os_stat p f' = inr Dir).
Proof.
  unfold MkdirIfNotExists. destruct (Exists p f) eqn:He.
  { intros [= <- <-]. split_and!; eauto. }
  unfold os_mkdir_all. destruct (mkdir_all f [] (resolve f p)) as [g [e|]] eqn:Hm;
    intros [= <- <-]; apply mkdir_all_spec in Hm as (Hc & Hl & Hmono & Hw); try done;
    split_and!; try done.
  intros _. right. split; [done|]. unfold os_stat, resolve. rewrite Hc. by apply Hw.
Qed.

Lemma Exists_stat p f n : os_stat p f = inr n → Exists p f = true.
Proof. intros H. unfold Exists. by rewrite H. Qed.

Lemma ReadFromFile_buffer p f buf content :
  os_read p f = inr content →
  ReadFromFile buffer_write p f buf = (Ok (), buf +:+ content).
Proof.
  intros H. unfold ReadFromFile. rewrite H. simpl. by rewrite Nat.ltb_irrefl.
Qed.

(** ** Calls that take nothing away

    Directories are made and new files written, but what can be reached stays
    as it is. *)

Definition grows (f f' : fs) : Prop :=
  cwd f' = cwd f ∧ ∀ r n, walk f [] r = inr n → walk f' [] r = inr n.
#[export] Instance grows_preorder : PreOrder grows.
Proof. split; [done|]. intros f g h (C1 & N1) (C2 & N2). split; [congruence|]. eauto. Qed.

Lemma os_stat_grows f f' p n : grows f f' → os_stat p f = inr n → os_stat p f' = inr n.
Proof. intros [Hc Hw]. unfold os_stat, resolve. rewrite Hc. apply Hw. Qed.

Lemma os_read_grows f f' p text : grows f f' → os_read p f = inr text → os_read p f' = inr text.
Proof.
  intros Hg. unfold os_read. destruct (os_stat p f) as [|n] eqn:E; [done|]. by rewrite (os_stat_grows _ _ _ _ Hg E).
Qed.

Lemma Mkdir_grows p : moves grows (MkdirIfNotExists p).
Proof.
  intros f. destruct (MkdirIfNotExists p f) as [r f'] eqn:E.
  apply MkdirIfNotExists_spec in E as (Hc & Hl & Hn & _). split; [done|]. intros q n. rewrite !walk_inr.
  intros [Hr Hq]. split; [|by apply Hn]. clear Hq. revert Hr. generalize (@nil string).
  induction q as [|c q IH]; intros cur; simpl; [done|]. rewrite Hl. intros (? & ? & ?). split_and!; auto.
Qed.

(** What is above something that can be reached can be reached. *)
Lemma walk_take f rest n k : ∀ cur, walk f cur rest = inr n → ∃ n', walk f cur (take k rest) = inr n'.
Proof.
  revert k. induction rest as [|c rest IH]; intros k cur Hw; [rewrite take_nil; eauto|].
  simpl in Hw. destruct k as [|k]; simpl.
  - destruct (node_at f cur); [eauto|done].
  - destruct (node_at f cur) as [[]|]; [|done..]. case_decide; [done|]. by apply IH.
Qed.

Lemma walk_set_other f r m n rest : ∀ cur,
  walk f cur rest = inr n → (∀ k, cur ++ take k rest ≠ r) → walk (set_node r m f) cur rest = inr n.
Proof.
  induction rest as [|c rest IH]; intros cur; simpl; intros Hw Hne.
  - rewrite node_at_set_ne; [done|]. specialize (Hne 0%nat). rewrite app_nil_r in Hne. congruence.
  - rewrite node_at_set_ne by (specialize (Hne 0%nat); rewrite app_nil_r in Hne; congruence).
    destruct (node_at f cur) as [[]|]; [|done..]. case_decide; [done|]. apply IH; [done|].
    intros k. rewrite <- (assoc_L (++)). apply (Hne (S k)).
Qed.

(** A file that was not there at first. *)
Lemma WriteToFile_grows content p f0 f :
  Exists p f0 = false → grows f0 f → grows f0 (WriteToFile content p f).2.
Proof.
  intros He [Hc Hw]. unfold WriteToFile. destruct (os_create p f) as [|g] eqn:Ho; [done|].
  apply os_create_inr in Ho as (-> & _ & _). split; [done|]. simpl. intros r n Hr.
  assert (∀ k, take k r ≠ resolve f p) as Hne.
  { intros k E. destruct (walk_take f0 r n k [] Hr) as [n' Hn']. rewrite E in Hn'.
    unfold Exists, os_stat in He. unfold resolve in Hn'. rewrite Hc in Hn'. fold (resolve f0 p) in Hn'.
    by rewrite Hn' in He. }
  apply walk_set_other; [|done]. apply walk_set_other; [by apply Hw|done].
Qed.

#[export] Hint Resolve Exists_stat Mkdir_grows : msuite.
