(* ===== verification/HttpMux.v ===== *)
(** * The HTTP multiplexer: what the program uses of [net/http] and [net/url]

    The paths of URLs with their percent-encoding, the canonical form of a path
    and [http.ServeMux] as of Go 1.17: registration, and the choice between a
    handler, a redirect and nothing.  The method of a request is not CONNECT. *)

From S2P Require Import Prelude Files.

(** ** Percent-encoding of paths *)

Definition percent : Ascii.ascii := Ascii.ascii_of_nat 37.

Definition hexdigit (n : nat) : Ascii.ascii :=
  Ascii.ascii_of_nat (if (n <? 10)%nat then 48 + n else 55 + n).

Definition unhex (c : Ascii.ascii) : option nat :=
  let n := Ascii.nat_of_ascii c in
  if (48 <=? n)%nat && (n <=? 57)%nat then Some (n - 48)%nat
  else if (97 <=? n)%nat && (n <=? 102)%nat then Some (n - 87)%nat
  else if (65 <=? n)%nat && (n <=? 70)%nat then Some (n - 55)%nat
  else None.

Definition escape_char (c : Ascii.ascii) (s : string) : string :=
  let n := Ascii.nat_of_ascii c in
  String percent (String (hexdigit (n / 16)) (String (hexdigit (n mod 16)) s)).

(** [url.shouldEscape] for a path: letters, digits, [-_.~] and [$&+,/:;=@] stay. *)
Definition should_escape (c : Ascii.ascii) : bool :=
  let n := Ascii.nat_of_ascii c in
  negb (((97 <=? n)%nat && (n <=? 122)%nat) || ((65 <=? n)%nat && (n <=? 90)%nat) ||
        ((48 <=? n)%nat && (n <=? 57)%nat) ||
        existsb (Nat.eqb n) [45; 95; 46; 126; 36; 38; 43; 44; 47; 58; 59; 61; 64]%nat).

Fixpoint escape (s : string) : string :=
  match s with
  | EmptyString => EmptyString
  | String c s => if should_escape c then escape_char c (escape s) else String c (escape s)
  end.

(** Every byte spelled out. *)
Fixpoint escape_all (s : string) : string :=
  match s with
  | EmptyString => EmptyString
  | String c s => escape_char c (escape_all s)
  end.

(** [url.unescape]; [None] is an invalid escape. *)
Fixpoint unescape (s : string) : option string :=
  match s with
  | EmptyString => Some EmptyString
  | String c s =>
    if Ascii.eqb c percent then
      match s with
      | String a (String b s) =>
        match unhex a, unhex b with
        | Some x, Some y => String (Ascii.ascii_of_nat (16 * x + y)) <$> unescape s
        | _, _ => None
        end
      | _ => None
      end
    else String c <$> unescape s
  end.

(** [url.validEncoded] for a path: besides what stays, [!'()*[]%] may be in a
    path as the client wrote it. *)
Fixpoint validEncoded (s : string) : bool :=
  match s with
  | EmptyString => true
  | String c s =>
    (existsb (Nat.eqb (Ascii.nat_of_ascii c)) [33; 39; 40; 41; 42; 91; 93; 37]%nat || negb (should_escape c)) && validEncoded s
  end.

(** [URL.EscapedPath] of the URL whose path the client wrote as [raw]: [setPath]
    decodes it, and keeps it as [RawPath] if the default encoding is another
    one; [EscapedPath] is the [RawPath] if it is a valid encoding.  A path that
    cannot be decoded never becomes a URL. *)
Definition EscapedPath (raw : string) : string :=
  match unescape raw with
  | None => raw
  | Some Path =>
    let RawPath := if decide (escape Path = raw) then "" else raw in
    if negb (String.eqb RawPath "") && validEncoded RawPath then RawPath else escape Path
  end.

(** ** Canonical paths *)

Fixpoint ends_slash (s : string) : bool :=
  match s with
  | EmptyString => false
  | String c EmptyString => Ascii.eqb c slash
  | String _ s => ends_slash s
  end.

(** [http.cleanPath]. *)
Definition cleanPath (p : string) : string :=
  match p with
  | EmptyString => "/"
  | _ =>
    let p := if rooted p then p else "/" +:+ p in
    let np := clean p in
    if ends_slash p && negb (String.eqb np "/") then np +:+ "/" else np
  end.

(** ** [http.ServeMux] *)

Section mux.
Context {H : Type}.

(** [mux_m]: the handlers by pattern; [mux_es]: the patterns that end in a
    slash, longest first; [mux_hosts]: whether a pattern names a host. *)
Record ServeMux := mkServeMux {
  mux_m : gmap string H;
  mux_es : list (string * H);
  mux_hosts : bool;
}.

Definition NewServeMux : ServeMux := mkServeMux ∅ [] false.

Fixpoint appendSorted (es : list (string * H)) (e : string * H) : list (string * H) :=
  match es with
  | [] => [e]
  | e' :: es' =>
    if (String.length e'.1 <? String.length e.1)%nat then e :: es
    else e' :: appendSorted es' e
  end.

Definition Handle (pattern : string) (handler : H) (mux : ServeMux) : res ServeMux :=
  if decide (pattern = "") then Panic "http: invalid pattern"
  else match mux_m mux !! pattern with
  | Some _ => Panic ("http: multiple registrations for " +:+ pattern)
  | None =>
    Ok (mkServeMux (<[pattern := handler]> (mux_m mux))
          (if ends_slash pattern then appendSorted (mux_es mux) (pattern, handler) else mux_es mux)
          (mux_hosts mux || negb (rooted pattern)))
  end.

Definition mux_match (path : string) (mux : ServeMux) : option (string * H) :=
  match mux_m mux !! path with
  | Some h => Some (path, h)
  | None => List.find (λ e, String.prefix e.1 path) (mux_es mux)
  end.

Definition shouldRedirect (host path : string) (mux : ServeMux) : bool :=
  let has p := bool_decide (is_Some (mux_m mux !! p)) in
  if has path || has (host +:+ path) then false
  else if decide (path = "") then false
  else if has (path +:+ "/") || has (host +:+ path +:+ "/") then negb (ends_slash path)
  else false.

(** What the multiplexer answers: a handler with its pattern, a redirect to a
    path with the query of the request, or nothing. *)
Inductive routed :=
| ToHandler (pattern : string) (h : H)
| RedirectTo (path : string) (code : Z)
| NotFound.

Definition mux_handler (host path : string) (mux : ServeMux) : routed :=
  let by_host := if mux_hosts mux then mux_match (host +:+ path) mux else None in
  match by_host with
  | Some (p, h) => ToHandler p h
  | None => match mux_match path mux with
            | Some (p, h) => ToHandler p h
            | None => NotFound
            end
  end.

(** [ServeMux.Handler]; [host] is the request's host without the port and
    [path] its decoded path. *)
Definition mux_Handler (host path : string) (mux : ServeMux) : routed :=
  let path' := cleanPath path in
  if shouldRedirect host path' mux then RedirectTo (path' +:+ "/") 301
  else if decide (path' = path) then mux_handler host path mux
  else RedirectTo path' 301.

(** Several registrations. *)
Definition handle_all (regs : list (string * H)) (mux : ServeMux) : res ServeMux :=
  foldl (λ m r, m ≫= Handle r.1 r.2) (Ok mux) regs.

End mux.
Arguments ServeMux : clear implicits.
Arguments routed : clear implicits.

(** ** Lemmas: strings *)

Lemma str_app_assoc (a b c : string) : (a +:+ b) +:+ c = a +:+ b +:+ c.
Proof. induction a as [|x a IH]; [done|]. exact (f_equal (String x) IH). Qed.

Lemma str_app_nil_r (a : string) : a +:+ "" = a.
Proof. induction a as [|x a IH]; [done|]. exact (f_equal (String x) IH). Qed.

Lemma str_length_app (a b : string) :
  String.length (a +:+ b) = (String.length a + String.length b)%nat.
Proof. induction a as [|x a IH]; [done|]. exact (f_equal S IH). Qed.

Lemma prefix_app p s : String.prefix p s = true ↔ ∃ t, s = p +:+ t.
Proof.
  revert s. induction p as [|x p IH]; intros s; [split; [by exists s|by destruct s]|].
  destruct s as [|y s]; [split; [done|by intros [t ?]]|]. cbn [String.prefix].
  destruct (Ascii.ascii_dec x y) as [->|Hne]; [rewrite IH|].
  - split; intros [t Ht]; exists t; [exact (f_equal (String y) Ht)|by injection Ht as ->].
  - split; [done|]. intros [t Ht]. by injection Ht as -> _.
Qed.

(** Two prefixes of a string of the same length are equal. *)
Lemma prefix_length_eq p q s :
  String.prefix p s = true → String.prefix q s = true → String.length p = String.length q → p = q.
Proof.
  revert q s. induction p as [|x p IH]; intros [|y q] [|z s]; simpl; try done.
  repeat case_match; try done. subst. intros Hp Hq [= Hl]. f_equal. by eapply IH.
Qed.

Lemma prefix_length p s : String.prefix p s = true → (String.length p ≤ String.length s)%nat.
Proof. intros [t ->]%prefix_app. rewrite str_length_app. lia. Qed.

Lemma ends_slash_snoc s : ends_slash (s +:+ "/") = true.
Proof.
  induction s as [|c s IH]; [done|]. change (String c s +:+ "/") with (String c (s +:+ "/")).
  destruct (s +:+ "/") eqn:E; [by destruct s|]. exact IH.
Qed.

(** ** Lemmas: percent-encoding *)

Lemma unescape_char c s : unescape (escape_char c s) = String c <$> unescape s.
Proof.
  destruct c as [b0 b1 b2 b3 b4 b5 b6 b7].
  destruct b0, b1, b2, b3, b4, b5, b6, b7; reflexivity.
Qed.

Lemma unescape_plain c s : should_escape c = false → unescape (String c s) = String c <$> unescape s.
Proof.
  intros Hc. cbn [unescape]. destruct (Ascii.eqb_spec c percent) as [->|_]; [|done]. by vm_compute in Hc.
Qed.

Lemma unescape_escape s : unescape (escape s) = Some s.
Proof.
  induction s as [|c s IH]; [done|]. cbn [escape]. destruct (should_escape c) eqn:E.
  - by rewrite unescape_char, IH.
  - by rewrite unescape_plain, IH.
Qed.

Lemma hexdigit_plain n : (n < 16)%nat → should_escape (hexdigit n) = false.
Proof. intros Hn. do 16 (destruct n as [|n]; [by vm_compute|]). lia. Qed.

Lemma validEncoded_all s : validEncoded (escape_all s) = true.
Proof.
  induction s as [|c s IH]; [done|]. cbn [escape_all]. unfold escape_char. cbn [validEncoded].
  rewrite IH, !hexdigit_plain, !orb_true_r; [done|..].
  - by apply Nat.mod_upper_bound.
  - apply Nat.Div0.div_lt_upper_bound, Ascii.nat_ascii_bounded.
Qed.

(** What the client wrote is kept where it is a valid encoding, and decodes to
    the same path in any case. *)
Lemma EscapedPath_valid raw : validEncoded raw = true → EscapedPath raw = raw.
Proof.
  intros Hv. unfold EscapedPath. destruct (unescape raw) as [p|] eqn:E; [|done].
  destruct (decide (escape p = raw)) as [Heq|Hne]; [done|]. destruct (String.eqb_spec raw "") as [->|Hr]; simpl; [|by rewrite Hv].
  injection E as <-. by destruct Hne.
Qed.

Lemma EscapedPath_decodes raw : unescape (EscapedPath raw) = unescape raw.
Proof.
  unfold EscapedPath. destruct (unescape raw) as [p|] eqn:E; [|done].
  case_match; [|apply unescape_escape]. by destruct (decide (escape p = raw)).
Qed.

Lemma unescape_all s : unescape (escape_all s) = Some s.
Proof. induction s as [|c s IH]; [done|]. cbn [escape_all]. by rewrite unescape_char, IH. Qed.

(** ** Lemmas: canonical paths *)

Fixpoint has_slash (s : string) : bool :=
  match s with
  | EmptyString => false
  | String c s => Ascii.eqb c slash || has_slash s
  end.

(** A component of a canonical path. *)
Definition good (c : string) : Prop := c ≠ "" ∧ c ≠ "." ∧ c ≠ ".." ∧ has_slash c = false.

Lemma split_slash_cons s : ∃ w ws, split_slash s = w :: ws.
Proof.
  destruct s as [|c s]; simpl; [by eauto|]. destruct (Ascii.eqb c slash); [by eauto|].
  destruct (split_slash s); eauto.
Qed.

Lemma split_no_slash s : Forall (λ w, has_slash w = false) (split_slash s).
Proof.
  induction s as [|c s IH]; simpl; [by constructor|].
  destruct (Ascii.eqb c slash) eqn:Hc; [by constructor|].
  destruct (split_slash s); inversion IH; subst; repeat constructor; simpl; try (by rewrite Hc); done.
Qed.

Lemma split_slash_word w s :
  has_slash w = false → split_slash (w +:+ String slash s) = w :: split_slash s.
Proof.
  induction w as [|c w IH]; [done|]. cbn [has_slash]. intros [Hc Hw]%orb_false_iff.
  change (String c w +:+ String slash s) with (String c (w +:+ String slash s)).
  cbn [split_slash]. by rewrite Hc, IH.
Qed.

Lemma split_slash_single w : has_slash w = false → split_slash w = [w].
Proof.
  induction w as [|c w IH]; [done|]. cbn [has_slash split_slash]. intros [Hc Hw]%orb_false_iff.
  by rewrite Hc, IH.
Qed.

Lemma split_slash_snoc s : split_slash (s +:+ "/") = split_slash s ++ [""].
Proof.
  induction s as [|c s IH]; [done|].
  change (String c s +:+ "/") with (String c (s +:+ "/")). cbn [split_slash]. rewrite IH.
  destruct (Ascii.eqb c slash); [done|]. destruct (split_slash_cons s) as (w & ws & ->). done.
Qed.

Lemma split_join ws :
  ws ≠ [] → Forall (λ w, has_slash w = false) ws → split_slash (join_slash ws) = ws.
Proof.
  induction ws as [|w ws IH]; [done|]. intros _ [Hw Hws]%Forall_cons.
  destruct ws as [|w' ws]; [by apply split_slash_single|].
  change (join_slash (w :: w' :: ws)) with (w +:+ String slash (join_slash (w' :: ws))).
  rewrite split_slash_word by done. f_equal. by apply IH.
Qed.

Lemma step_good acc c :
  Forall good acc → has_slash c = false → Forall good (step_component false acc c).
Proof.
  intros Ha Hc. unfold step_component. case_decide as H1; [done|]. case_decide as H2.
  - destruct acc as [|d acc]; [done|]. apply Forall_cons in Ha as [(_ & _ & Hd & _) Ha].
    by rewrite decide_False.
  - constructor; [|done]. unfold good. tauto.
Qed.

Lemma components_good ws :
  Forall (λ w, has_slash w = false) ws → Forall good (components false ws).
Proof.
  intros Hws. unfold components. apply Forall_reverse.
  assert (Forall good []) as Ha by constructor. revert Ha. generalize (@nil string) as acc.
  induction Hws as [|w ws Hw _ IH]; intros acc Ha; simpl; [done|]. by apply IH, step_good.
Qed.

Lemma components_id ws : Forall good ws → components false ws = ws.
Proof.
  intros Hws. unfold components.
  cut (∀ acc, foldl (step_component false) acc ws = reverse ws ++ acc).
  { intros ->. by rewrite app_nil_r, reverse_involutive. }
  induction Hws as [|w ws (H1 & H2 & H3 & _) _ IH]; intros acc; simpl; [done|].
  rewrite IH, reverse_cons, <- (assoc_L (++)). unfold step_component.
  by rewrite decide_False, decide_False by tauto.
Qed.

Lemma components_blank ws : components false ("" :: ws) = components false ws.
Proof. done. Qed.

Lemma components_snoc ws : components false (ws ++ [""]) = components false ws.
Proof. unfold components. by rewrite foldl_app. Qed.

(** The canonical paths are these. *)
Definition canon (ws : list string) : string := String slash (join_slash ws).

Lemma clean_canon s : rooted s = true → ∃ ws, Forall good ws ∧ clean s = canon ws.
Proof.
  intros Hr. unfold clean. rewrite Hr. eexists. split; [|reflexivity].
  apply components_good, split_no_slash.
Qed.

Lemma good_no_slash ws : Forall good ws → Forall (λ w, has_slash w = false) ws.
Proof. intros H. eapply Forall_impl; [exact H|]. by intros w (_ & _ & _ & ?). Qed.

Lemma components_canon ws : Forall good ws → components false (split_slash (canon ws)) = ws.
Proof.
  intros Hws. change (split_slash (canon ws)) with ("" :: split_slash (join_slash ws)).
  rewrite components_blank. destruct ws as [|w ws]; [done|].
  rewrite split_join; [by apply components_id|done|by apply good_no_slash].
Qed.

Lemma clean_of_canon ws : Forall good ws → clean (canon ws) = canon ws.
Proof. intros Hws. unfold clean. simpl rooted. cbv iota. by rewrite components_canon. Qed.

Lemma clean_of_canon_slash ws : Forall good ws → clean (canon ws +:+ "/") = canon ws.
Proof.
  intros Hws. unfold clean. change (rooted (canon ws +:+ "/")) with true. cbv iota.
  rewrite split_slash_snoc, components_snoc, components_canon by done. done.
Qed.

Lemma ends_slash_word w : has_slash w = false → ends_slash w = false.
Proof.
  induction w as [|c w IH]; [done|]. cbn [has_slash]. intros [Hc Hw]%orb_false_iff.
  destruct w; [done|]. by apply IH.
Qed.

Lemma ends_slash_app a b : b ≠ "" → ends_slash (a +:+ b) = ends_slash b.
Proof.
  intros Hb. induction a as [|c a IH]; [done|].
  change (String c a +:+ b) with (String c (a +:+ b)).
  destruct (a +:+ b) as [|d t] eqn:E; [by destruct a, b|]. exact IH.
Qed.

Lemma ends_slash_join ws : ws ≠ [] → Forall good ws → ends_slash (join_slash ws) = false ∧ join_slash ws ≠ "".
Proof.
  induction ws as [|w ws IH]; [done|]. intros _ [(H1 & _ & _ & H4) Hws]%Forall_cons.
  destruct ws as [|w' ws]; [simpl; split; [by apply ends_slash_word|done]|].
  destruct IH as [IH1 IH2]; [done..|].
  change (join_slash (w :: w' :: ws)) with (w +:+ String slash (join_slash (w' :: ws))).
  split; [|by destruct w]. rewrite ends_slash_app by done.
  by destruct (join_slash (w' :: ws)).
Qed.

Lemma ends_slash_canon ws : ws ≠ [] → Forall good ws → ends_slash (canon ws) = false.
Proof.
  intros Hne Hws. destruct (ends_slash_join ws Hne Hws) as [H1 H2]. unfold canon.
  by destruct (join_slash ws).
Qed.

Lemma canon_root ws : Forall good ws → canon ws = "/" → ws = [].
Proof.
  intros Hws Hc. destruct ws as [|w ws]; [done|]. apply (ends_slash_canon (w :: ws)) in Hws; [|done].
  by rewrite Hc in Hws.
Qed.

Lemma cleanPath_rooted p : rooted p = true →
  cleanPath p = if ends_slash p && negb (String.eqb (clean p) "/") then clean p +:+ "/" else clean p.
Proof. intros Hp. unfold cleanPath. destruct p; [done|]. by rewrite Hp. Qed.

Lemma cleanPath_canon ws : Forall good ws → cleanPath (canon ws) = canon ws.
Proof.
  intros Hws. rewrite cleanPath_rooted, clean_of_canon by done.
  destruct (String.eqb_spec (canon ws) "/") as [E|Hne]; [by rewrite E|].
  rewrite ends_slash_canon; [done|by intros ->|done].
Qed.

Lemma cleanPath_canon_slash ws :
  ws ≠ [] → Forall good ws → cleanPath (canon ws +:+ "/") = canon ws +:+ "/".
Proof.
  intros Hne Hws. rewrite cleanPath_rooted, clean_of_canon_slash, ends_slash_snoc by done.
  destruct (String.eqb_spec (canon ws) "/") as [Hc|_]; [|done]. by apply canon_root in Hc.
Qed.

Lemma cleanPath_form p : ∃ ws, Forall good ws ∧
  (cleanPath p = canon ws ∨ ws ≠ [] ∧ cleanPath p = canon ws +:+ "/").
Proof.
  unfold cleanPath. destruct p as [|c p]; [by exists []; split; [|left]|].
  set (q := if rooted (String c p) then String c p else "/" +:+ String c p).
  assert (rooted q = true) as Hq by (unfold q; by destruct (rooted (String c p)) eqn:?).
  destruct (clean_canon q Hq) as (ws & Hws & ->). exists ws. split; [done|].
  destruct (ends_slash q); [|by left].
  destruct (String.eqb_spec (canon ws) "/") as [E|Hne]; [by left|]. right. split; [|done].
  by intros ->.
Qed.

Lemma cleanPath_idem p : cleanPath (cleanPath p) = cleanPath p.
Proof.
  destruct (cleanPath_form p) as (ws & Hws & [->|[Hne ->]]);
    [by apply cleanPath_canon|by apply cleanPath_canon_slash].
Qed.

(** Adding the slash a canonical path lacks. *)
Lemma cleanPath_slash p :
  ends_slash (cleanPath p) = false → cleanPath (cleanPath p +:+ "/") = cleanPath p +:+ "/".
Proof.
  intros He. destruct (cleanPath_form p) as (ws & Hws & [Hc|[Hne Hc]]); rewrite Hc in *.
  - apply cleanPath_canon_slash; [by intros ->|done].
  - by rewrite ends_slash_snoc in He.
Qed.

(** ** Lemmas: the multiplexer *)

(** A pattern matches its own path, and what is below it if it ends in a
    slash. *)
Definition matches (p path : string) : Prop :=
  p = path ∨ ends_slash p = true ∧ String.prefix p path = true.

Section mux_lemmas.
Context {H : Type}.
Implicit Types (mux : ServeMux H) (e : string * H).

Definition longer e e' : Prop := (String.length e'.1 ≤ String.length e.1)%nat.

Record mux_inv mux : Prop := mkMuxInv {
  inv_es e : e ∈ mux_es mux ↔ mux_m mux !! e.1 = Some e.2 ∧ ends_slash e.1 = true;
  inv_sorted : StronglySorted longer (mux_es mux);
}.

Lemma appendSorted_elem es e e' : e' ∈ appendSorted es e ↔ e' = e ∨ e' ∈ es.
Proof.
  induction es as [|x es IH]; simpl; [set_solver|]. case_match; set_solver.
Qed.

Lemma appendSorted_sorted es e : StronglySorted longer es → StronglySorted longer (appendSorted es e).
Proof.
  induction 1 as [|x es Hs IH Hx]; simpl; [repeat constructor|].
  destruct (Nat.ltb_spec (String.length x.1) (String.length e.1)) as [Hlt|Hge].
  - constructor; [by constructor|]. constructor; [unfold longer; lia|].
    eapply Forall_impl; [exact Hx|]. unfold longer. lia.
  - constructor; [done|]. apply Forall_forall. intros y [->|Hy]%appendSorted_elem; [done|].
    rewrite Forall_forall in Hx. by apply Hx.
Qed.

Lemma mux_inv_new : mux_inv NewServeMux.
Proof.
  split; simpl; [|constructor]. intros e. rewrite lookup_empty. split; [by intros ?%not_elem_of_nil|].
  by intros [? _].
Qed.

Lemma Handle_Ok p h mux mux' : Handle p h mux = Ok mux' →
  p ≠ "" ∧ mux_m mux !! p = None ∧ mux_m mux' = <[p := h]> (mux_m mux).
Proof.
  unfold Handle. case_decide; [done|]. destruct (mux_m mux !! p) eqn:E; [done|]. by intros [= <-].
Qed.

Lemma Handle_inv p h mux mux' : mux_inv mux → Handle p h mux = Ok mux' → mux_inv mux'.
Proof.
  intros [I1 I2]. unfold Handle. case_decide; [done|].
  destruct (mux_m mux !! p) eqn:E; [done|]. intros [= <-]. split; simpl.
  - intros e. destruct (ends_slash p) eqn:Hs.
    + rewrite appendSorted_elem, I1. destruct (decide (e.1 = p)) as [Hp|Hp].
      * rewrite Hp, lookup_insert_eq, E. destruct e as [q x]; simpl in *; subst. naive_solver.
      * rewrite lookup_insert_ne by done. destruct e as [q x]; simpl in *. naive_solver.
    + rewrite I1. destruct (decide (e.1 = p)) as [Hp|Hp].
      * rewrite Hp, lookup_insert_eq, E, Hs. naive_solver.
      * by rewrite lookup_insert_ne.
  - destruct (ends_slash p); [by apply appendSorted_sorted|done].
Qed.

Lemma find_sorted es (P : string * H → bool) e :
  StronglySorted longer es → List.find P es = Some e →
  e ∈ es ∧ P e = true ∧ ∀ e', e' ∈ es → P e' = true → longer e e'.
Proof.
  induction 1 as [|x es Hs IH Hx]; simpl; [done|]. destruct (P x) eqn:Hp.
  - intros [= <-]. split_and!; [left|done|]. intros e' [->|He']%elem_of_cons _; [unfold longer; lia|].
    rewrite Forall_forall in Hx. by apply Hx.
  - intros (He & HP & Hall)%IH. split_and!; [by right|done|].
    intros e' [->|He']%elem_of_cons HP'; [congruence|by apply Hall].
Qed.

(** The multiplexer picks the longest pattern that matches. *)
Lemma mux_match_longest mux path p h : mux_inv mux →
  mux_match path mux = Some (p, h) ↔
    mux_m mux !! p = Some h ∧ matches p path ∧
    ∀ p', is_Some (mux_m mux !! p') → matches p' path → (String.length p' ≤ String.length p)%nat.
Proof.
  intros [I1 I2]. unfold mux_match.
  assert (∀ q, matches q path → String.prefix q path = true) as Hpre.
  { intros q [->|[_ ?]]; [|done]. apply prefix_app. exists "". by rewrite str_app_nil_r. }
  destruct (mux_m mux !! path) as [x|] eqn:Hpath.
  - split.
    + intros [= <- <-]. split_and!; [done|by left|]. intros p' _ Hm%Hpre. by apply prefix_length.
    + intros (Hp & Hm & Hlong). assert (p = path) as ->; [|congruence].
      apply (prefix_length_eq p path path); [by apply Hpre|by apply Hpre; left|].
      apply Nat.le_antisymm; [by apply prefix_length, Hpre|]. apply Hlong; [by eauto|by left].
  - split.
    + intros (He & Hp & Hall)%find_sorted; [|done]. apply I1 in He as [Hl Hs]. simpl in *.
      split_and!; [done|by right|]. intros p' [h' Hh'] Hm. destruct Hm as [->|[Hs' Hp']]; [congruence|].
      apply (Hall (p', h')); [|done]. by apply I1.
    + intros (Hp & Hm & Hlong). destruct Hm as [->|[Hs Hpx]]; [congruence|].
      assert ((p, h) ∈ mux_es mux) as Hin by by apply I1.
      destruct (List.find (λ e, String.prefix e.1 path) (mux_es mux)) as [[p' h']|] eqn:Hf.
      * apply find_sorted in Hf as (He & Hp' & Hall); [|done]. simpl in Hp'.
        apply I1 in He as [Hl Hs']. simpl in *. specialize (Hall (p, h) Hin Hpx).
        assert (p' = p) as ->; [|congruence]. apply (prefix_length_eq p' p path); [done..|].
        apply Nat.le_antisymm; [|done]. apply Hlong; [by eauto|by right].
      * apply list_elem_of_In in Hin. by apply (List.find_none _ _ Hf) in Hin; simpl in Hin; rewrite Hpx in Hin.
Qed.

(** A redirect is followed at most once. *)
Lemma redirect_once host path mux path' code : mux_Handler host path mux = RedirectTo path' code →
  mux_Handler host path' mux = mux_handler host path' mux ∧ cleanPath path' = path'.
Proof.
  unfold mux_Handler at 1. destruct (shouldRedirect host (cleanPath path) mux) eqn:Hs.
  - intros [= <- _]. unfold shouldRedirect in Hs.
    destruct (bool_decide _ || bool_decide _) eqn:Hhas in Hs; [done|].
    case_decide; [done|]. destruct (bool_decide _ || bool_decide _) eqn:Hslash in Hs; [|done].
    apply negb_true_iff in Hs. pose proof (cleanPath_slash path Hs) as Hc. split; [|done].
    unfold mux_Handler. rewrite Hc. unfold shouldRedirect. rewrite Hslash. by rewrite decide_True.
  - case_decide as Hd.
    + unfold mux_handler. repeat case_match; done.
    + intros [= <- _]. pose proof (cleanPath_idem path) as Hc. split; [|done].
      unfold mux_Handler. by rewrite Hc, Hs, decide_True.
Qed.

Lemma mux_handler_no_redirect host path mux path' code : mux_handler host path mux ≠ RedirectTo path' code.
Proof. unfold mux_handler. repeat case_match; done. Qed.

(** Without patterns that name a host, only the path counts. *)
Lemma Handle_hosts p h mux mux' : Handle p h mux = Ok mux' → rooted p = true → mux_hosts mux' = mux_hosts mux.
Proof.
  unfold Handle. case_decide; [done|]. destruct (mux_m mux !! p); [done|]. intros [= <-] Hr. simpl.
  by rewrite Hr, orb_false_r.
Qed.

Lemma mux_handler_path host path mux : mux_hosts mux = false →
  mux_handler host path mux =
  match mux_match path mux with Some (p, h) => ToHandler p h | None => NotFound end.
Proof. intros Hh. unfold mux_handler. by rewrite Hh. Qed.
End mux_lemmas.

(** Registering many patterns. *)
Lemma handle_all_spec {H} (regs : list (string * H)) : ∀ mux mux',
  handle_all regs mux = Ok mux' →
  (mux_inv mux → mux_inv mux') ∧
  (∀ p h, mux_m mux' !! p = Some h ↔ (p, h) ∈ regs ∨ mux_m mux !! p = Some h).
Proof.
  unfold handle_all. induction regs as [|[p h] regs IH]; intros mux mux'; simpl.
  { intros [= <-]. split; [done|]. intros p h. split; [by right|]. by intros [?%not_elem_of_nil|?]. }
  destruct (Handle p h mux) as [mux1|e|x] eqn:Hh.
  2,3: intros Hf; exfalso; revert Hf; clear; induction regs; simpl; done.
  intros Hf. destruct (IH mux1 mux' Hf) as [IH1 IH2]. split; [by eauto using Handle_inv|].
  intros q y. rewrite IH2. apply Handle_Ok in Hh as (_ & Hnone & ->).
  rewrite elem_of_cons, lookup_insert_Some. split.
  - intros [?|[[<- <-]|[_ ?]]]; auto.
  - intros [[[= -> ->]|?]|Hy]; auto. right. right. split; [congruence|done].
Qed.
