(* ===== verification/Config.v ===== *)
(** * Configuration: [modules/config] and [modules/config/json]

    A [JsonConfig] is a Go map from strings to [interface{}].  The methods that
    read and write it go through the text of [encoding/json], as the code does;
    the lemmas reduce them to trees. *)

From S2P Require Import Prelude Utf8 Json JsonText Files.

(** ** Operations *)

Abbreviation JsonConfig := (gomap goval).

Definition DefaultConfig : JsonConfig := Some ∅.

(** [Get] with the decoder the target calls for: marshal the stored value and
    unmarshal the text into the target. *)
Definition Get_with {A : Type} (dec : string → A * option error) (old : A)
    (key : string) (j : JsonConfig) : A * bool :=
  match map_get j key with
  | None => (old, false)
  | Some v =>
    match json_marshal v with
    | Ok jsonString =>
      match dec jsonString with
      | (x, None) => (x, true)
      | (x, Some _) => (x, false)
      end
    | _ => (old, false)
    end
  end.

(** [Get(key, &val)], with [val] holding [old]. *)
Definition Get `{Target A} (key : string) (old : A) (j : JsonConfig) : A * bool :=
  Get_with (λ text, json_unmarshal text old) old key j.

(** [Get(key, val)] with a [val] that is no pointer: [json.Unmarshal] returns
    an [InvalidUnmarshalError] and does not touch it. *)
Definition GetNonPointer (key : string) (j : JsonConfig) : bool :=
  (Get_with (λ _, ((), Some "json: Unmarshal(non-pointer)")) () key j).2.

Definition Set_ (key : string) (val : goval) (j : JsonConfig) : res JsonConfig :=
  map_set j key val.

(** [val.(bool)] panics unless the value is a [bool]. *)
Definition IsSet (key : string) (j : JsonConfig) : res bool :=
  match map_get j key with
  | None => Ok false
  | Some (GBool b) => Ok b
  | Some _ => Panic "interface conversion: interface {} is not bool"
  end.

Definition Exists_key (key : string) (j : JsonConfig) : bool :=
  match map_get j key with Some _ => true | None => false end.

(** The configuration as a value to marshal. *)
Definition conf_val (j : JsonConfig) : goval :=
  match j with
  | None => GNil
  | Some m => GMap (map_to_list m)
  end.

Definition String_ (j : JsonConfig) : string :=
  match json_marshal (conf_val j) with
  | Ok buf => buf
  | _ => "INVALID_CONFIG"
  end.

Definition Pretty (j : JsonConfig) : string :=
  match json_marshal_indent (conf_val j) with
  | Ok buf => buf
  | _ => "INVALID_CONFIG"
  end.

Definition Reader (j : JsonConfig) : res string := json_marshal (conf_val j).

(** [writeCloser]: a buffer and the configuration it is decoded into when it
    is closed. *)
Record writeCloser := mkWriteCloser { wbuf : string; wconf : JsonConfig }.

Definition Writer (j : JsonConfig) : writeCloser := mkWriteCloser "" j.

Definition wc_write : writer writeCloser := λ buf w,
  let (n, buf') := buffer_write buf (wbuf w) in (n, mkWriteCloser buf' (wconf w)).

Definition wc_close : ST writeCloser unit := λ w,
  let (conf, err) := json_unmarshal (wbuf w) (wconf w) in
  match err with
  | Some e => (Err e, mkWriteCloser (wbuf w) conf)
  | None => (Ok (), mkWriteCloser "" conf)
  end.

(** [FromFile]: the configuration is returned also when closing the writer
    fails; the error is then returned beside it. *)
Definition FromFile (file : string) (f : fs) : res JsonConfig :=
  match (_ ← ReadFromFile wc_write file f; wc_close) (Writer DefaultConfig) with
  | (Ok _, w) => Ok (wconf w)
  | (Err e, _) => Err e
  | (Panic p, _) => Panic p
  end.

(** ** Lemmas *)

Lemma conf_marshal_keys (m : gmap string goval) es :
  mapM (λ kv, pair kv.1 <$> marshal kv.2) (map_to_list m) = Some es →
  es.*1 = (map_to_list m).*1 ∧
  ∀ k j, (k, j) ∈ es ↔ ∃ v, m !! k = Some v ∧ marshal v = Some j.
Proof.
  intros Hes. apply mapM_Some in Hes. split.
  - induction Hes as [|[k v] [k' j] l es Hkv _ IH]; [done|].
    apply fmap_Some in Hkv as (? & _ & [= <- <-]). simpl. by f_equal.
  - intros k j. setoid_rewrite <- elem_of_map_to_list.
    induction Hes as [|[k1 v1] [k1' j1] l es Hkv _ IH]; [set_solver|].
    apply fmap_Some in Hkv as (j' & Hj' & [= <- <-]). simpl in *.
    setoid_rewrite elem_of_cons. rewrite IH. split.
    + intros [[= -> ->]|(v & ? & ?)]; eauto.
    + intros (v & [[= -> ->]|?] & ?); [left; congruence|eauto].
Qed.

(** [Get] on the trees. *)
Lemma Get_tree `{Target A} key (old : A) j v t :
  map_get j key = Some v → marshal v = Some t → Get key old j = unmarshal t old.
Proof.
  intros Hk Hv. unfold Get, Get_with. rewrite Hk. unfold json_marshal. rewrite Hv.
  rewrite (json_unmarshal_text compact v t) by (done || apply compact_ws).
  by destruct (unmarshal t old) as [x []].
Qed.

Lemma Get_absent `{Target A} key (old : A) j : map_get j key = None → Get key old j = (old, false).
Proof. intros H1. unfold Get, Get_with. by rewrite H1. Qed.

Lemma Get_unsupported `{Target A} key (old : A) j v :
  map_get j key = Some v → marshal v = None → Get key old j = (old, false).
Proof. intros Hk Hv. unfold Get, Get_with. rewrite Hk. unfold json_marshal. by rewrite Hv. Qed.

Lemma Set_get key val j j' k :
  Set_ key val j = Ok j' → map_get j' k = if decide (key = k) then Some val else map_get j k.
Proof.
  unfold Set_, map_set. destruct j as [m|]; [|done]. intros [= <-]. simpl.
  by rewrite lookup_insert.
Qed.

Lemma Set_default_get key val (m : gmap string goval) :
  Set_ key val (Some m) = Ok (Some (<[key := val]> m)).
Proof. done. Qed.

(** [Get] after [Set] of the same key reads the value just written; another
    key reads as before. *)
Lemma Get_Set `{Target A} key val j j' k (old : A) :
  Set_ key val j = Ok j' →
  Get k old j' = if decide (key = k) then Get key old (Some {[ key := val ]}) else Get k old j.
Proof.
  intros HS. unfold Get, Get_with. rewrite (Set_get _ _ _ _ _ HS).
  case_decide; subst; simpl; [by rewrite lookup_singleton_eq|done].
Qed.

Lemma obj_into_spec `{Target V} (l : list (string * json)) m k :
  NoDup l.*1 →
  obj_into m l !! k =
    match list_to_map (M:=gmap string json) l !! k with
    | Some j => Some (unmarshal j zero).1
    | None => m !! k
    end.
Proof.
  revert m. induction l as [|[k1 j1] l IH]; intros m; [done|].
  rewrite fmap_cons, NoDup_cons. simpl. intros [Hni Hnd]. unfold obj_into in *. simpl.
  rewrite IH by done. destruct (decide (k1 = k)) as [->|Hne].
  - rewrite lookup_insert_eq, not_elem_of_list_to_map_1 by done. by rewrite lookup_insert_eq.
  - by rewrite !lookup_insert_ne.
Qed.

(** What a well-formed configuration is after it has been written to a file
    and read back: every value as [interface{}] holds its tree. *)
Definition reloaded (m : gmap string goval) : gmap string goval :=
  omap (λ v, to_any <$> marshal v) m.

Definition wf_config (m : gmap string goval) : Prop :=
  map_Forall (λ k v, valid_utf8 k ∧ wf_goval v = true ∧ is_Some (marshal v)) m.
#[export] Instance wf_config_dec m : Decision (wf_config m).
Proof. unfold wf_config. apply _. Defined.

Lemma wf_config_val m : wf_config m → wf_goval (GMap (map_to_list m)) = true.
Proof.
  intros Hm. simpl. apply andb_true_iff. split.
  - apply bool_decide_eq_true, NoDup_fst_map_to_list.
  - apply forallb_Forall, Forall_forall. intros [k v] Hkv%elem_of_map_to_list.
    destruct (Hm k v Hkv) as (Hk & Hv & _). simpl. by rewrite bool_decide_eq_true_2.
Qed.

Lemma wf_config_marshal m :
  wf_config m → ∃ l, marshal (GMap (map_to_list m)) = Some (JObj l) ∧ stable (JObj l) ∧
    ∀ k, list_to_map (M:=gmap string json) l !! k = m !! k ≫= marshal.
Proof.
  intros Hm.
  assert (is_Some (mapM (λ kv, pair kv.1 <$> marshal kv.2) (map_to_list m))) as [es Hes].
  { apply mapM_is_Some, Forall_forall. intros [k v] Hkv%elem_of_map_to_list.
    destruct (Hm k v Hkv) as (_ & _ & [j Hj]). simpl. rewrite Hj. by eexists. }
  assert (marshal (GMap (map_to_list m)) = Some (JObj (jfield <$> sort_entries es))) as Hmar.
  { cbn [marshal]. by rewrite Hes. }
  exists (jfield <$> sort_entries es).
  pose proof (marshal_stable _ _ (wf_config_val m Hm) Hmar) as Hst.
  split_and!; [done..|]. intros k.
  destruct (conf_marshal_keys m es Hes) as [Hkeys Hel].
  assert (jfield <$> sort_entries es = sort_entries es) as ->.
  { rewrite <- (list_fmap_id (sort_entries es)) at 2. apply list_fmap_ext.
    intros i [k1 j1] Hi%list_elem_of_lookup_2. rewrite sort_entries_perm in Hi.
    apply Hel in Hi as (v & Hv & _). unfold jfield. simpl.
    by destruct (Hm k1 v Hv) as [-> _]. }
  assert (NoDup (sort_entries es).*1) as Hnd.
  { rewrite sort_entries_perm, Hkeys. apply NoDup_fst_map_to_list. }
  apply option_eq. intros j. rewrite <- elem_of_list_to_map by done.
  rewrite (sort_entries_perm es), Hel, bind_Some. done.
Qed.

Lemma reloaded_lookup m k :
  reloaded m !! k = m !! k ≫= λ v, to_any <$> marshal v.
Proof. unfold reloaded. by rewrite lookup_omap. Qed.

(** Reading the text of a well-formed configuration, in any layout, into another
    one: the keys of the text win, the others stay. *)
Lemma merged_text y m m0 j :
  ws_layout y → wf_config m → marshal (GMap (map_to_list m)) = Some j →
  json_unmarshal (text_of y j) (Some m0) = (Some (reloaded m ∪ m0), None).
Proof.
  intros Hy Hm Hj. destruct (wf_config_marshal m Hm) as (l & Hmar & Hst & Hl).
  rewrite Hmar in Hj. injection Hj as <-.
  rewrite (json_unmarshal_text y _ _ _ Hy Hmar). cbn [unmarshal target_map].
  inversion Hst as [| | | | |? Hnd _ Hall]; subst.
  assert (forallb (λ kv, (unmarshal (A:=goval) kv.2 zero).2) l = true) as ->.
  { apply forallb_Forall. eapply Forall_impl; [exact Hall|]. intros [k j] [_ Hj]. simpl.
    by apply any_ok_stable. }
  f_equal. f_equal. apply map_eq. intros k. rewrite obj_into_spec by done.
  rewrite Hl, lookup_union, reloaded_lookup. simpl. destruct (m !! k) as [v|] eqn:E; simpl; [|by destruct (m0 !! k)].
  destruct (Hm k v E) as (_ & _ & [t ->]). simpl. by destruct (m0 !! k).
Qed.

Lemma reloaded_text y m j :
  ws_layout y → wf_config m → marshal (GMap (map_to_list m)) = Some j →
  json_unmarshal (text_of y j) DefaultConfig = (Some (reloaded m), None).
Proof. intros Hy Hm Hj. unfold DefaultConfig. rewrite (merged_text y m ∅ j) by done. by rewrite (right_id_L ∅ (∪)). Qed.

(** Closing the writer on the text of a well-formed configuration. *)
Lemma close_reloaded m text :
  wf_config m → Reader (Some m) = Ok text →
  json_unmarshal text DefaultConfig = (Some (reloaded m), None).
Proof.
  intros Hm HR. unfold Reader, conf_val in HR. apply json_marshal_Ok in HR as (j & Hj & ->).
  by apply reloaded_text; [apply compact_ws| |].
Qed.

Lemma Reader_Ok m : wf_config m → ∃ text, Reader (Some m) = Ok text.
Proof.
  intros Hm. destruct (wf_config_marshal m Hm) as (l & Hmar & _).
  exists (text_of compact (JObj l)). unfold Reader, conf_val, json_marshal. by rewrite Hmar.
Qed.

(** A typed read cannot tell a reloaded configuration from the original. *)
Lemma Get_reloaded `{Target A} m key (old : A) :
  wf_config m → Get key old (Some (reloaded m)) = Get key old (Some m).
Proof.
  intros Hm. destruct (m !! key) as [v|] eqn:Hv.
  - destruct (Hm key v Hv) as (_ & Hwf & [j Hj]).
    rewrite (Get_tree key old (Some m) v j) by done.
    apply (Get_tree key old _ (to_any j)).
    + simpl. rewrite reloaded_lookup, Hv. simpl. by rewrite Hj.
    + by eapply marshal_to_any, marshal_stable.
  - rewrite !Get_absent; [done|done|]. simpl. by rewrite reloaded_lookup, Hv.
Qed.

(** String maps whose keys and values are UTF-8. *)
Definition valid_strmap (ms : gmap string string) : Prop :=
  map_Forall (λ k v, valid_utf8 k ∧ valid_utf8 v) ms.
#[export] Instance valid_strmap_dec ms : Decision (valid_strmap ms).
Proof. unfold valid_strmap. apply _. Defined.

Lemma unmarshal_strmap ms :
  valid_strmap ms →
  unmarshal (A:=gomap string)
    (JObj ((λ kv, (to_valid_utf8 kv.1, jstr kv.2)) <$> entries ms)) (Some ∅) = (Some ms, true).
Proof.
  intros Hms. cbn [unmarshal target_map]. f_equal; [f_equal|].
  - set (l := (λ kv, (to_valid_utf8 kv.1, jstr kv.2)) <$> entries ms).
    assert (l = (λ kv, (kv.1, JStr kv.2)) <$> entries ms) as ->.
    { apply list_fmap_ext. intros i [k v] Hi%list_elem_of_lookup_2. simpl.
      apply entries_elem in Hi. destruct (Hms k v Hi) as [Hk Hv]. unfold jstr.
      by rewrite Hk, Hv. }
    assert (((λ kv : string * string, (kv.1, JStr kv.2)) <$> entries ms).*1 = (entries ms).*1)
      as Hkeys by by rewrite <- list_fmap_compose.
    apply map_eq. intros k. rewrite obj_into_spec by (rewrite Hkeys; apply entries_nodup).
    destruct (list_to_map _ !! k) as [j|] eqn:E.
    + apply elem_of_list_to_map in E; [|rewrite Hkeys; apply entries_nodup].
      apply list_elem_of_fmap in E as ([k' v] & [= -> ->] & Hin%entries_elem). by rewrite Hin.
    + apply not_elem_of_list_to_map_2 in E. rewrite Hkeys in E. symmetry.
      apply eq_None_not_Some. intros [v Hv]. apply E.
      apply list_elem_of_fmap. exists (k, v). split; [done|]. by apply entries_elem.
  - apply forallb_Forall. rewrite Forall_fmap. by apply Forall_true.
Qed.

Lemma IsSet_reloaded m key :
  wf_config m → IsSet key (Some (reloaded m)) = IsSet key (Some m).
Proof.
  intros Hm. unfold IsSet. simpl. rewrite reloaded_lookup.
  destruct (m !! key) as [v|] eqn:Hv; simpl; [|done].
  destruct (Hm key v Hv) as (_ & _ & [j Hj]). rewrite Hj. simpl.
  destruct v as [| | | | |[]| | |[]|[]|]; simplify_eq/=; try done.
  - by destruct (float64_ok z).
  - by destruct (float64_ok z).
  - by apply fmap_Some in Hj as (? & _ & ->).
  - by apply bind_Some in Hj as (? & _ & [= <-]).
Qed.

Lemma Exists_reloaded m key :
  wf_config m → Exists_key key (Some (reloaded m)) = Exists_key key (Some m).
Proof.
  intros Hm. unfold Exists_key. simpl. rewrite reloaded_lookup.
  destruct (m !! key) as [v|] eqn:Hv; simpl; [|done].
  by destruct (Hm key v Hv) as (_ & _ & [j ->]).
Qed.

(** ** Configurations that cannot be told apart

    The equivalence a configuration has for its readers: it is all that the
    interface of [modules/config/config.go] lets them see of the values. *)
Record reads_like (c c' : JsonConfig) : Prop := mkReadsLike {
  like_Get A (T : Target A) key (old : A) : Get key old c = Get key old c';
  like_IsSet key : IsSet key c = IsSet key c';
  like_Exists key : Exists_key key c = Exists_key key c';
}.

#[export] Instance reads_like_equivalence : Equivalence reads_like.
Proof.
  split.
  - by intros c.
  - intros c c' [H1 H2 H3]. split; intros; symmetry; [apply H1|apply H2|apply H3].
  - intros c c' c'' [H1 H2 H3] [G1 G2 G3]. split; intros; [rewrite H1|rewrite H2|rewrite H3]; auto.
Qed.

#[export] Instance Get_proper `{Target A} key (old : A) : Proper (reads_like ==> eq) (Get key old).
Proof. intros c c' Hc. by apply like_Get. Qed.
#[export] Instance IsSet_proper key : Proper (reads_like ==> eq) (IsSet key).
Proof. intros c c' Hc. by apply like_IsSet. Qed.
#[export] Instance Exists_proper key : Proper (reads_like ==> eq) (Exists_key key).
Proof. intros c c' Hc. by apply like_Exists. Qed.

(** A file loses nothing a reader can see. *)
Lemma reloaded_reads_like m : wf_config m → reads_like (Some (reloaded m)) (Some m).
Proof. intros Hm. split; intros; [by apply Get_reloaded|by apply IsSet_reloaded|by apply Exists_reloaded]. Qed.

Lemma FromFile_spec p f text c :
  os_read p f = inr text → json_unmarshal text DefaultConfig = (c, None) →
  FromFile p f = Ok c.
Proof.
  intros Hr Hu. unfold FromFile, mbind, st_mbind, ReadFromFile. rewrite Hr.
  cbn [wc_write buffer_write Writer wbuf wconf]. rewrite Nat.ltb_irrefl.
  unfold wc_close. cbn [wbuf wconf]. change ("" +:+ text) with text. by rewrite Hu.
Qed.

Lemma WriteToFile_read text p f f' :
  WriteToFile text p f = (Ok (), f') → os_read p f' = inr text.
Proof. intros Hw%WriteToFile_Ok. unfold os_read. by destruct Hw as [-> _]. Qed.

#[export] Hint Resolve FromFile_spec WriteToFile_read close_reloaded : msuite.

(** ** Properties *)

(** C27: writing a configuration to a file and opening the file again gives a
    configuration that no caller can tell from the original: every typed
    [Get], every [IsSet] and every [Exists] answers the same.  The values are
    the ones JSON can carry: UTF-8 keys, integers up to 2^53, no functions. *)
Theorem config_file_roundtrip m p f f' text :
  wf_config m → Reader (Some m) = Ok text → WriteToFile text p f = (Ok (), f') →
  ∃ c, FromFile p f' = Ok c ∧
    (∀ A (T : Target A) key (old : A), Get key old c = Get key old (Some m)) ∧
    (∀ key, IsSet key c = IsSet key (Some m)) ∧
    (∀ key, Exists_key key c = Exists_key key (Some m)).
Proof.
  intros Hm HR HW. exists (Some (reloaded m)). split_and!.
  - eauto with msuite.
  - intros A T key old. by apply Get_reloaded.
  - intros key. by apply IsSet_reloaded.
  - intros key. by apply Exists_reloaded.
Qed.

Definition sample_fs : fs := mkFs ["home"] {[ ["home"] := Dir ]} ∅.

Definition sample_config : gmap string goval :=
  {[ "UseHTTP" := GBool true; "HTTPPort" := GInt 8080;
     "Services" := GStrings (Some ["hello"; "world"]);
     "ACL" := GMapStr (Some {[ "dummyresource" := "admin" ]}) ]}.

Definition sample_text : string := String_ (Some sample_config).

Lemma config_file_roundtrip_witness :
  ∃ c, FromFile "cfg.json" (WriteToFile sample_text "cfg.json" sample_fs).2 = Ok c ∧
    Get "HTTPPort" 0%Z c = (8080%Z, true).
Proof.
  destruct (config_file_roundtrip sample_config "cfg.json" sample_fs
    (WriteToFile sample_text "cfg.json" sample_fs).2 sample_text) as (c & Hc & Hg & _).
  - refine (bool_decide_unpack _ _). by vm_compute.
  - by vm_compute.
  - by vm_compute.
  - exists c. split; [exact Hc|]. rewrite (Hg Z _). by vm_compute.
Defined.

(** What [Get] reads after [Set] of the same key, for the value types the
    program stores: the stored string, integer, list or string map comes back;
    a target of another type, and a value that has no JSON form, give [false]
    and leave the target alone. *)
Theorem Set_Get_typed key v (m : gmap string goval) c :
  Set_ key v (Some m) = Ok c →
  match v with
  | GString s => (∀ old, Get key old c = (to_valid_utf8 s, true)) ∧
                 (∀ old : Z, Get key old c = (old, false))
  | GInt z => (∀ old, in_int64 z = true → Get key old c = (z, true)) ∧
              (∀ old : string, Get key old c = (old, false))
  | GStrings (Some l) => ∀ old, Get key old c = (to_valid_utf8 <$> l, true)
  | GMapStr (Some ms) => valid_strmap ms → Get key (Some ∅) c = (Some ms, true)
  | GFunc => ∀ A (T : Target A) (old : A), Get key old c = (old, false)
  | _ => True
  end.
Proof.
  rewrite Set_default_get. intros [= <-].
  assert (map_get (Some (<[key := v]> m)) key = Some v) as Hk by apply lookup_insert_eq.
  destruct v as [| |z| |s|[l|]|l|l|[ms|]|[mi|]|]; try done.
  - split; intros old; rewrite (Get_tree key old _ _ _ Hk eq_refl); simpl; [|done].
    intros Hz. by rewrite Hz.
  - split; intros old; by rewrite (Get_tree key old _ _ _ Hk eq_refl).
  - intros old. rewrite (Get_tree key old _ _ _ Hk eq_refl). simpl. f_equal.
    + rewrite <- list_fmap_compose. done.
    + apply forallb_Forall. rewrite Forall_fmap. by apply Forall_true.
  - intros Hms. rewrite (Get_tree key _ _ _ _ Hk eq_refl). by apply unmarshal_strmap.
  - intros A T old. by apply (Get_unsupported key old _ GFunc).
Qed.

Lemma Set_Get_typed_witness :
  Get "Int" 0%Z (Some (<["Int" := GInt 10]> sample_config)) = (10%Z, true).
Proof.
  pose proof (Set_Get_typed "Int" (GInt 10) sample_config _ eq_refl) as [H _].
  apply H. by vm_compute.
Defined.

(** The bound of the round trip is sharp: an [int] just above 2^53 is read
    back from memory as it was set, and from a file as its neighbour. *)
Theorem config_file_int_bound :
  let m : gmap string goval := {[ "Big" := GInt (2 ^ 53 + 1) ]} in
  let f' := (WriteToFile (String_ (Some m)) "cfg.json" sample_fs).2 in
  Get "Big" 0%Z (Some m) = ((2 ^ 53 + 1)%Z, true) ∧
  ∃ c, FromFile "cfg.json" f' = Ok c ∧ Get "Big" 0%Z c = ((2 ^ 53)%Z, true).
Proof.
  split; [by vm_compute|]. exists (Some {[ "Big" := GFloat64 (2 ^ 53) ]}).
  split; by vm_compute.
Qed.
