(* ===== verification/ConfigI.v ===== *)
(** * The configuration interface: [modules/config/config.go]

    The program sees configurations through the interface [Config]; [ConfigI]
    has its methods and [JsonConfig] is its implementation.  [Reader] and
    [Writer] together copy a configuration into another one, in whatever pieces
    the bytes are handed over. *)

From S2P Require Import Prelude Utf8 Json JsonText Files HttpMux Config.

(** ** The interface *)

(** [Writer] is what writing the given pieces to it and closing it does. *)
Class ConfigI (C : Type) := {
  cfg_Reader : C → res string;
  cfg_Writer : list string → ST C unit;
  cfg_String : C → string;
  cfg_Pretty : C → string;
  cfg_Get A `{Target A} : string → A → C → A * bool;
  cfg_Set : string → goval → C → res C;
  cfg_IsSet : string → C → res bool;
  cfg_Exists : string → C → bool;
}.

(** ** The implementation *)

(** Writing the pieces to the writer and closing it; the configuration is the
    one it was made for. *)
Definition write_pieces (pieces : list string) : ST JsonConfig unit := λ j,
  let w := foldl (λ w p, (wc_write p w).2) (Writer j) pieces in
  let (r, w') := wc_close w in (r, wconf w').

#[export] Instance json_ConfigI : ConfigI JsonConfig := {|
  cfg_Reader := Reader;
  cfg_Writer := write_pieces;
  cfg_String := String_;
  cfg_Pretty := Pretty;
  cfg_Get A _ := Get;
  cfg_Set := Set_;
  cfg_IsSet := IsSet;
  cfg_Exists := Exists_key;
|}.

(** ** Lemmas *)

(** The writer collects the pieces. *)
Lemma pieces_collected pieces : ∀ w,
  foldl (λ w p, (wc_write p w).2) w pieces = mkWriteCloser (wbuf w +:+ foldr String.append "" pieces) (wconf w).
Proof.
  induction pieces as [|p ps IH]; intros [b c]; simpl; [by rewrite str_app_nil_r|].
  rewrite IH. simpl. by rewrite str_app_assoc.
Qed.

Lemma write_pieces_close pieces j :
  write_pieces pieces j =
  match json_unmarshal (foldr String.append "" pieces) j with
  | (conf, Some e) => (Err e, conf)
  | (conf, None) => (Ok (), conf)
  end.
Proof.
  unfold write_pieces. rewrite pieces_collected. unfold wc_close. simpl.
  by destruct (json_unmarshal _ j) as [conf [e|]].
Qed.

Lemma Get_union `{Target A} m m0 key (old : A) :
  Get key old (Some (m ∪ m0)) = if decide (is_Some (m !! key)) then Get key old (Some m) else Get key old (Some m0).
Proof.
  unfold Get, Get_with. simpl. rewrite lookup_union. case_decide as E.
  - destruct E as [v ->]. by destruct (m0 !! key).
  - apply eq_None_not_Some in E. rewrite E. by destruct (m0 !! key).
Qed.

Lemma reloaded_dom m key : wf_config m → is_Some (reloaded m !! key) ↔ is_Some (m !! key).
Proof.
  intros Hm. rewrite reloaded_lookup. destruct (m !! key) as [v|] eqn:E; simpl; [|done].
  destruct (Hm key v E) as (_ & _ & [j ->]). by split; eexists.
Qed.

(** Writing the text of [m] to [m0]. *)
Lemma write_layer m m0 text pieces :
  wf_config m → cfg_Reader (Some m : JsonConfig) = Ok text → foldr String.append "" pieces = text →
  write_pieces pieces (Some m0) = (Ok (), Some (reloaded m ∪ m0)).
Proof.
  intros Hm HR Hp. simpl in HR. unfold Reader, conf_val in HR. apply json_marshal_Ok in HR as (j & Hj & ->).
  rewrite write_pieces_close, Hp. by rewrite (merged_text compact m m0 j) by (done || apply compact_ws).
Qed.

Lemma Get_layer `{Target A} m m0 key (old : A) : wf_config m →
  Get key old (Some (reloaded m ∪ m0)) = if decide (is_Some (m !! key)) then Get key old (Some m) else Get key old (Some m0).
Proof.
  intros Hm. rewrite Get_union. destruct (decide (is_Some (m !! key))) as [E|E].
  - rewrite decide_True by (by apply reloaded_dom). by apply Get_reloaded.
  - by rewrite decide_False by (by rewrite reloaded_dom).
Qed.

Lemma garbage_kept c pieces :
  parse_text (foldr String.append "" pieces) = None → ∃ e, write_pieces pieces c = (Err e, c).
Proof. intros Hp. rewrite write_pieces_close. unfold json_unmarshal. rewrite Hp. by eexists. Qed.

(** Both printed forms say the same. *)
Lemma Pretty_String m : wf_config m →
  ∃ j, parse_text (cfg_String (Some m : JsonConfig)) = Some j ∧ parse_text (cfg_Pretty (Some m : JsonConfig)) = Some j.
Proof.
  intros Hm. destruct (wf_config_marshal m Hm) as (l & Hmar & _). exists (JObj l). simpl.
  unfold String_, Pretty, conf_val, json_marshal, json_marshal_indent. rewrite Hmar.
  by split; apply parse_text_of; try (apply compact_ws || apply indented_ws); eapply marshal_valid.
Qed.

(** ** A client of the interface *)

(** Reading each configuration of a list and writing its text to the one in the
    state, in the pieces [split] makes of it. *)
Fixpoint copy_all `{ConfigI C} (split : string → list string) (cs : list C) : ST C unit :=
  match cs with
  | [] => mret ()
  | c :: cs => text ← st_lift (cfg_Reader c); _ ← cfg_Writer (split text); copy_all split cs
  end.

(** The last of the settings of a list that have the key. *)
Definition last_with (key : string) (ms : list (gmap string goval)) : option (gmap string goval) :=
  foldl (λ acc m, if decide (is_Some (m !! key)) then Some m else acc) None ms.

Lemma last_with_cons key m ms :
  last_with key (m :: ms) =
  match last_with key ms with Some x => Some x | None => if decide (is_Some (m !! key)) then Some m else None end.
Proof.
  unfold last_with. simpl. generalize (if decide (is_Some (m !! key)) then Some m else None).
  induction ms as [|k ms IH]; intros acc; [done|]. simpl. rewrite IH, (IH (if decide _ then _ else _)).
  by destruct (foldl _ None ms); [|case_decide].
Qed.

(** ** Property *)

(** C35: configurations can be layered.  Reading several configurations that
    JSON can carry and writing their texts into another, one after the other
    and each in whatever pieces, succeeds; afterwards every typed read of a key
    answers as the last of them that has the key, and as before where none has
    it; and writing a text that is no JSON to the result fails and changes
    nothing of it. *)
Theorem configs_layered split ms m0 :
  (∀ t, foldr String.append "" (split t) = t) → Forall wf_config ms →
  ∃ c1 : JsonConfig, copy_all split (Some <$> ms) (Some m0) = (Ok (), c1) ∧
    (∀ A (T : Target A) key (old : A), Get key old c1 = Get key old (Some (default m0 (last_with key ms)))) ∧
    (∀ bad, parse_text (foldr String.append "" bad) = None → ∃ e, cfg_Writer bad c1 = (Err e, c1)).
Proof.
  intros Hsplit. revert m0. induction ms as [|m ms IH]; intros m0 Hms.
  { exists (Some m0). split_and!; [done..|]. intros bad. apply garbage_kept. }
  apply Forall_cons in Hms as [Hm Hms]. destruct (Reader_Ok m Hm) as [text HR].
  destruct (IH (reloaded m ∪ m0) Hms) as (c2 & HC & HG & Hbad). exists c2. split_and!; [|clear HC|done].
  - cbn [fmap list_fmap copy_all]. unfold mbind at 1, st_mbind at 1, st_lift at 1. cbn [cfg_Reader json_ConfigI]. rewrite HR.
    unfold mbind at 1, st_mbind at 1. cbn [cfg_Writer json_ConfigI]. by rewrite (write_layer m m0 text) by done.
  - intros A T key old. rewrite HG, last_with_cons. destruct (last_with key ms) as [x|]; [done|]. simpl.
    rewrite Get_layer by done. by case_decide.
Qed.

(** ** Witness *)

(** The defaults of a node, and what a file changes of them, byte by byte. *)
Fixpoint split_bytes (s : string) : list string :=
  match s with EmptyString => [] | String a s => String a "" :: split_bytes s end.

Definition sample_defaults : gmap string goval := {[ "HTTPPort" := GInt 8080; "UseHTTP" := GBool true ]}.
Definition sample_changes : gmap string goval := {[ "HTTPPort" := GInt 9090 ]}.

Lemma configs_layered_witness : ∃ c1 : JsonConfig,
  copy_all split_bytes [Some sample_defaults; Some sample_changes] DefaultConfig = (Ok (), c1) ∧
  Get "HTTPPort" 0%Z c1 = (9090%Z, true) ∧ Get "Services" ([] : list string) c1 = ([], false).
Proof.
  destruct (configs_layered split_bytes [sample_defaults; sample_changes] ∅) as (c1 & HC & HG & _).
  - intros t. induction t as [|a t IH]; [done|]. simpl. by rewrite IH.
  - refine (bool_decide_unpack _ _). by vm_compute.
  - exists c1. split; [exact HC|]. split.
    + rewrite (HG _ _ "HTTPPort" 0%Z). by vm_compute.
    + rewrite (HG _ _ "Services" ([] : list string)). by vm_compute.
Defined.
