(* ===== verification/Base64.v ===== *)
(** * Base64: [base64.StdEncoding]

    The program stores private keys in its configuration as base64 text and
    reads them back from it. *)

From S2P Require Import Prelude Utf8.
Local Open Scope Z_scope.
Ltac Zify.zify_post_hook ::= Z.to_euclidean_division_equations.

(** ** Definitions *)

Definition pad : Z := 61.

Definition enc6 (n : Z) : Z :=
  if n <? 26 then 65 + n
  else if n <? 52 then 71 + n
  else if n <? 62 then n - 4
  else if n =? 62 then 43
  else 47.

Definition dec6 (c : Z) : option Z :=
  if between 65 90 c then Some (c - 65)
  else if between 97 122 c then Some (c - 71)
  else if between 48 57 c then Some (c + 4)
  else if c =? 43 then Some 62
  else if c =? 47 then Some 63
  else None.

Fixpoint b64_encode (l : list Z) : list Z :=
  match l with
  | a :: b :: c :: l =>
    enc6 (a / 4) :: enc6 (a mod 4 * 16 + b / 16)
      :: enc6 (b mod 16 * 4 + c / 64) :: enc6 (c mod 64) :: b64_encode l
  | [a; b] => [enc6 (a / 4); enc6 (a mod 4 * 16 + b / 16); enc6 (b mod 16 * 4); pad]
  | [a] => [enc6 (a / 4); enc6 (a mod 4 * 16); pad; pad]
  | [] => []
  end.

Fixpoint b64_decode (l : list Z) : option (list Z) :=
  match l with
  | [] => Some []
  | p :: q :: r :: s :: l =>
    vp ← dec6 p; vq ← dec6 q;
    let b1 := vp * 4 + vq / 16 in
    if r =? pad then
      match l with
      | [] => if s =? pad then Some [b1] else None
      | _ => None
      end
    else
      vr ← dec6 r;
      let b2 := vq mod 16 * 16 + vr / 4 in
      if s =? pad then match l with [] => Some [b1; b2] | _ => None end
      else
        vs ← dec6 s; rest ← b64_decode l;
        Some (b1 :: b2 :: (vr mod 4 * 64 + vs) :: rest)
  | _ => None
  end.

(** [EncodeToString] and [DecodeString]; the decoder skips line breaks. *)
Definition EncodeToString (s : string) : string := string_of (b64_encode (bytes_of s)).

Definition DecodeString (s : string) : res string :=
  match b64_decode (filter (λ c, c ≠ 10 ∧ c ≠ 13) (bytes_of s)) with
  | Some l => Ok (string_of l)
  | None => Err "illegal base64 data"
  end.

(** ** Round trip *)

Lemma enc6_range n : 0 ≤ n < 64 → 43 ≤ enc6 n < 123 ∧ enc6 n ≠ pad.
Proof. intros H. unfold enc6, pad. repeat case_match; lia. Qed.

Lemma dec6_enc6 n : 0 ≤ n < 64 → dec6 (enc6 n) = Some n.
Proof.
  intros H. unfold dec6, enc6, between.
  destruct (Z.ltb_spec n 26); [|destruct (Z.ltb_spec n 52); [|destruct (Z.ltb_spec n 62);
    [|destruct (Z.eqb_spec n 62)]]].
  all: repeat match goal with
  | |- context [if ?b then _ else _] =>
    first [replace b with true by lia | replace b with false by lia]; cbv iota
  end; f_equal; lia.
Qed.

Lemma enc6_not_pad n : 0 ≤ n < 64 → (enc6 n =? pad) = false.
Proof. intros H. apply Z.eqb_neq. by apply enc6_range. Qed.

Lemma b64_decode_encode l : Forall is_byte l → b64_decode (b64_encode l) = Some l.
Proof.
  remember (length l) as n eqn:Hn. assert (length l ≤ n)%nat as Hle by lia. clear Hn.
  revert l Hle. induction n as [|n IH]; intros l Hle Hl; [by destruct l; [|simpl in Hle; lia]|].
  destruct Hl as [|a l Ha Hl]; [done|].
  destruct Hl as [|b l Hb Hl].
  { unfold is_byte in *. cbn [b64_encode b64_decode]. rewrite !dec6_enc6 by lia. simpl.
    f_equal. f_equal. lia. }
  destruct Hl as [|c l Hc Hl].
  { unfold is_byte in *. cbn [b64_encode b64_decode]. rewrite !dec6_enc6 by lia.
    cbn [mbind option_bind]. rewrite enc6_not_pad by lia. change (pad =? pad) with true.
    cbv iota. f_equal. f_equal; [lia|]. f_equal. lia. }
  unfold is_byte in *. cbn [b64_encode b64_decode]. rewrite !dec6_enc6 by lia.
  cbn [mbind option_bind]. rewrite !enc6_not_pad by lia. cbv iota.
  rewrite IH; [|simpl in Hle; lia|done]. cbn [mbind option_bind].
  f_equal. f_equal; [lia|]. f_equal; [lia|]. f_equal. lia.
Qed.

Lemma b64_encode_chars l :
  Forall is_byte l → Forall (λ c, 43 ≤ c < 123) (b64_encode l).
Proof.
  remember (length l) as n eqn:Hn. assert (length l ≤ n)%nat as Hle by lia. clear Hn.
  revert l Hle. induction n as [|n IH]; intros l Hle Hl; [by destruct l; [|simpl in Hle; lia]|].
  destruct Hl as [|a l Ha Hl]; [constructor|].
  destruct Hl as [|b l Hb Hl].
  { unfold is_byte in *. repeat constructor; try (apply enc6_range; lia); unfold pad; lia. }
  destruct Hl as [|c l Hc Hl].
  { unfold is_byte in *. repeat constructor; try (apply enc6_range; lia); unfold pad; lia. }
  unfold is_byte in *. cbn [b64_encode].
  do 4 (constructor; [apply enc6_range; lia|]). apply IH; [simpl in Hle; lia|done].
Qed.

Lemma EncodeToString_bytes s : bytes_of (EncodeToString s) = b64_encode (bytes_of s).
Proof.
  unfold EncodeToString. apply bytes_of_string_of.
  eapply Forall_impl; [apply b64_encode_chars, bytes_of_bytes|]. intros c. unfold is_byte. lia.
Qed.

Lemma EncodeToString_utf8 s : valid_utf8 (EncodeToString s).
Proof.
  apply ascii_valid_utf8. rewrite EncodeToString_bytes.
  eapply Forall_impl; [apply b64_encode_chars, bytes_of_bytes|]. simpl. lia.
Qed.

Lemma DecodeString_EncodeToString s : DecodeString (EncodeToString s) = Ok s.
Proof.
  unfold DecodeString. rewrite EncodeToString_bytes.
  rewrite filter_all; last first.
  { eapply Forall_impl; [apply b64_encode_chars, bytes_of_bytes|]. simpl. lia. }
  rewrite b64_decode_encode by apply bytes_of_bytes. by rewrite string_of_bytes_of.
Qed.

#[export] Hint Resolve EncodeToString_utf8 : msuite.
