(* ===== verification/Options.v ===== *)
(** * Start-up options: [msuite.go]

    An [Option] changes the start-up configuration; [New] applies the options
    in order to an empty configuration and adds the defaults.  What [New] does
    next, [node.New], is in [Node]. *)

From S2P Require Import Prelude Utf8 Json JsonText Files Config Base64.

(** ** The options *)

Definition Option_ : Type := JsonConfig → res JsonConfig.

(** [c.startupCfg.Set(key, val)] as a step of an option. *)
Definition set_ (key : string) (val : goval) : Option_ := Set_ key val.

Definition seq_ (o1 o2 : Option_) : Option_ := λ c, o1 c ≫= o2.
Infix ";;;" := seq_ (at level 62, right associativity).

Definition skip_ : Option_ := λ c, Ok c.

Definition WithGRPC (nw : string) (id : goval) : Option_ :=
  set_ "UseGRPC" (GBool true) ;;;
  if decide (nw = "tcp") then
    set_ "UseTCP" (GBool true) ;;;
    match id with
    | GInt z => set_ "TCPPort" (GInt z)
    | _ => λ _, Panic "interface conversion: interface {} is not int"
    end
  else if decide (nw = "p2p") then set_ "UseP2PGRPC" (GBool true)
  else if decide (nw = "unix") then
    set_ "UseUDS" (GBool true) ;;;
    match id with
    | GString s => set_ "UDSocket" (GString s)
    | _ => λ _, Panic "interface conversion: interface {} is not string"
    end
  else skip_.

Definition WithAuth (secret : string) : Option_ :=
  set_ "UseAuth" (GBool true) ;;; set_ "JWTSecret" (GString secret).

Definition WithTracing (name host : string) : Option_ :=
  set_ "UseTracing" (GBool true) ;;; set_ "TracingName" (GString name) ;;;
  set_ "TracingHost" (GString host).

Definition WithHTTP (port : Z) : Option_ :=
  set_ "UseHTTP" (GBool true) ;;; set_ "HTTPPort" (GInt port).

(** The loop over the locker's own settings; the keys of a map are distinct,
    so its order does not matter. *)
Definition set_all (kvs : list (string * string)) : Option_ :=
  foldr (λ kv o, set_ kv.1 (GString kv.2) ;;; o) skip_ kvs.

Definition WithLocker (lkr : string) (cfg : gmap string string) : Option_ :=
  set_ "UseLocker" (GBool true) ;;; set_ "Locker" (GString lkr) ;;; set_all (map_to_list cfg).

(** The identity record of [WithP2PPrivateKey] and of [initIdentity]. *)
Definition identity_record (skbytes id : string) : goval :=
  GMap [("ID", GString id); ("PrivKey", GString (EncodeToString skbytes))].

(** The key library is not part of the program: [skbytes] is what
    [crypto.MarshalPrivateKey] returns for the key and [id] what
    [peer.IDFromPublicKey] and [Pretty] return for its public half. *)
Definition WithP2PPrivateKey (skbytes id : res string) : Option_ :=
  match skbytes, id with
  | Ok skbytes, Ok id => set_ "Identity" (identity_record skbytes id)
  | _, _ => skip_
  end.

Definition WithP2P (port : Z) : Option_ :=
  set_ "UseP2P" (GBool true) ;;; set_ "SwarmPort" (GInt port).

Definition WithRepositoryRoot (path : string) : Option_ :=
  set_ "RootPath" (GString path).

(** The slice of a variadic call: nil when there are no arguments. *)
Definition variadic (l : list string) : goval :=
  GStrings (match l with [] => None | _ => Some l end).

Definition WithServices (services : list string) : Option_ :=
  set_ "Services" (variadic services).

(** [for k, v := range acl { existingAcls[k] = v }]. *)
Definition map_merge (new : gmap string string) (old : gomap string) : res (gomap string) :=
  match old with
  | Some old => Ok (Some (new ∪ old))
  | None => if decide (new = ∅) then Ok None else Panic "assignment to entry in nil map"
  end.

Definition WithServiceACL (acl : gmap string string) : Option_ := λ c,
  let existingAcls := (Get "ACL" (Some ∅) c).1 in
  existingAcls ← map_merge acl existingAcls;
  Set_ "ACL" (GMapStr existingAcls) c.

Definition WithTaskManager (min max : Z) : Option_ :=
  let max := if (max <? 20)%Z then (max + 20)%Z else max in
  set_ "TMWorkers" (GMapInt (Some (<["Min" := min]> {[ "Max" := max ]}))).

Definition WithPrometheus (useLatency : bool) : Option_ :=
  set_ "UsePrometheus" (GBool true) ;;;
  if useLatency then set_ "UsePrometheusLatency" (GBool true) else skip_.

Definition WithStaticDiscovery (svcAddrs : gomap string) : Option_ :=
  set_ "UseStaticDiscovery" (GBool true) ;;; set_ "StaticAddresses" (GMapStr svcAddrs).

Definition WithDebug : Option_ := set_ "UseDebug" (GBool true).

Definition WithFiles : Option_ := set_ "UseFiles" (GBool true).

Definition WithBootstrapNodes (addrs : list string) : Option_ :=
  match addrs with
  | [] => skip_
  | _ => set_ "BootstrapAddresses" (GStrings (Some addrs))
  end.

Definition defaultOpts : Option_ := λ c,
  if Exists_key "Services" c then Ok c
  else Set_ "Services" (GStrings (Some ["msuite"])) c.

(** [New] up to the call of [node.New]: the start-up configuration. *)
Definition startup_config (opts : list Option_) : res JsonConfig :=
  c ← foldl (λ c o, c ≫= o) (Ok DefaultConfig) opts;
  defaultOpts c.

(** ** Option calls and their effects *)

(** The calls an application can pass to [New]. *)
Inductive opt_call :=
| OGRPC (nw : string) (id : goval)
| OAuth (secret : string)
| OTracing (name host : string)
| OHTTP (port : Z)
| OLocker (lkr : string) (cfg : gmap string string)
| OPrivateKey (skbytes id : res string)
| OP2P (port : Z)
| ORepositoryRoot (path : string)
| OServices (services : list string)
| OServiceACL (acl : gmap string string)
| OTaskManager (min max : Z)
| OPrometheus (useLatency : bool)
| OStaticDiscovery (svcAddrs : gomap string)
| ODebug
| OFiles
| OBootstrapNodes (addrs : list string).

Definition apply_opt (o : opt_call) : Option_ :=
  match o with
  | OGRPC nw id => WithGRPC nw id
  | OAuth secret => WithAuth secret
  | OTracing name host => WithTracing name host
  | OHTTP port => WithHTTP port
  | OLocker lkr cfg => WithLocker lkr cfg
  | OPrivateKey sk id => WithP2PPrivateKey sk id
  | OP2P port => WithP2P port
  | ORepositoryRoot path => WithRepositoryRoot path
  | OServices svcs => WithServices svcs
  | OServiceACL acl => WithServiceACL acl
  | OTaskManager min max => WithTaskManager min max
  | OPrometheus lat => WithPrometheus lat
  | OStaticDiscovery addrs => WithStaticDiscovery addrs
  | ODebug => WithDebug
  | OFiles => WithFiles
  | OBootstrapNodes addrs => WithBootstrapNodes addrs
  end.

(** The keys a call may write. *)
Definition keys_of (o : opt_call) : gset string :=
  match o with
  | OGRPC _ _ => {[ "UseGRPC"; "UseTCP"; "TCPPort"; "UseP2PGRPC"; "UseUDS"; "UDSocket" ]}
  | OAuth _ => {[ "UseAuth"; "JWTSecret" ]}
  | OTracing _ _ => {[ "UseTracing"; "TracingName"; "TracingHost" ]}
  | OHTTP _ => {[ "UseHTTP"; "HTTPPort" ]}
  | OLocker _ cfg => {[ "UseLocker"; "Locker" ]} ∪ dom cfg
  | OPrivateKey _ _ => {[ "Identity" ]}
  | OP2P _ => {[ "UseP2P"; "SwarmPort" ]}
  | ORepositoryRoot _ => {[ "RootPath" ]}
  | OServices _ => {[ "Services" ]}
  | OServiceACL _ => {[ "ACL" ]}
  | OTaskManager _ _ => {[ "TMWorkers" ]}
  | OPrometheus _ => {[ "UsePrometheus"; "UsePrometheusLatency" ]}
  | OStaticDiscovery _ => {[ "UseStaticDiscovery"; "StaticAddresses" ]}
  | ODebug => {[ "UseDebug" ]}
  | OFiles => {[ "UseFiles" ]}
  | OBootstrapNodes _ => {[ "BootstrapAddresses" ]}
  end.

(** [writes o m u]: on the configuration [m] the call does not panic and
    writes the entries [u] over it. *)
Definition writes (o : Option_) (m u : gmap string goval) : Prop :=
  o (Some m) = Ok (Some (u ∪ m)).

(** ** Lemmas *)

Lemma writes_set key val m : writes (set_ key val) m {[ key := val ]}.
Proof. unfold writes, set_. rewrite Set_default_get. by rewrite insert_union_singleton_l. Qed.

Lemma writes_skip m : writes skip_ m ∅.
Proof. unfold writes, skip_. by rewrite (left_id_L ∅ (∪)). Qed.

Lemma writes_seq o1 o2 m u1 u2 :
  writes o1 m u1 → writes o2 (u1 ∪ m) u2 → writes (o1 ;;; o2) m (u2 ∪ u1).
Proof. unfold writes, seq_. intros ->. simpl. intros ->. by rewrite (assoc_L (∪)). Qed.

Lemma writes_set_all kvs m : ∃ u, writes (set_all kvs) m u ∧ dom u = list_to_set kvs.*1.
Proof.
  revert m. induction kvs as [|[k v] kvs IH]; intros m; simpl.
  { exists ∅. split; [apply writes_skip|set_solver]. }
  destruct (IH ({[ k := GString v ]} ∪ m)) as (u & Hu & Hd).
  exists (u ∪ {[ k := GString v ]}). split; [by eapply writes_seq; [apply writes_set|]|].
  rewrite dom_union_L, Hd, dom_singleton_L. set_solver.
Qed.

(** An option built from [set_] writes the same entries whatever it is applied
    to. *)
Definition uniform (o : Option_) (K : gset string) : Prop :=
  (∃ u, dom u ⊆ K ∧ ∀ m, writes o m u) ∨ (∃ p, ∀ m, o (Some m) = Panic p).

Lemma uniform_set K key val : key ∈ K → uniform (set_ key val) K.
Proof.
  intros HK. left. exists {[ key := val ]}. split; [rewrite dom_singleton_L; set_solver|].
  intros m. apply writes_set.
Qed.

Lemma uniform_skip K : uniform skip_ K.
Proof. left. exists ∅. split; [set_solver|]. apply writes_skip. Qed.

Lemma uniform_panic K p : uniform (λ _, Panic p) K.
Proof. right. by exists p. Qed.

Lemma uniform_seq K o1 o2 : uniform o1 K → uniform o2 K → uniform (o1 ;;; o2) K.
Proof.
  intros [(u1 & Hd1 & H1)|[p Hp]] H2; [destruct H2 as [(u2 & Hd2 & H2)|[p Hp]]|].
  - left. exists (u2 ∪ u1). split; [rewrite dom_union_L; set_solver|].
    intros m. by eapply writes_seq.
  - right. exists p. intros m. unfold seq_. rewrite H1. apply Hp.
  - right. exists p. intros m. unfold seq_. by rewrite Hp.
Qed.

Lemma uniform_set_all K kvs : (∀ kv, kv ∈ kvs → kv.1 ∈ K) → uniform (set_all kvs) K.
Proof.
  induction kvs as [|kv kvs IH]; intros H; simpl; [apply uniform_skip|].
  apply uniform_seq; [apply uniform_set, H; left|]. apply IH. intros kv' ?. apply H. by right.
Qed.

Ltac solve_uniform :=
  repeat first
    [ apply uniform_seq | apply uniform_skip | apply uniform_panic
    | apply uniform_set; set_solver | case_decide | case_match ].

Lemma opt_uniform o : (∀ acl, o ≠ OServiceACL acl) → uniform (apply_opt o) (keys_of o).
Proof.
  intros Hacl. destruct o; cbn [apply_opt keys_of];
    unfold WithGRPC, WithAuth, WithTracing, WithHTTP, WithLocker, WithP2PPrivateKey, WithP2P,
      WithRepositoryRoot, WithServices, WithTaskManager, WithPrometheus, WithStaticDiscovery,
      WithDebug, WithFiles, WithBootstrapNodes; solve_uniform.
  - apply uniform_set_all. intros [k v] Hkv%elem_of_map_to_list. simpl.
    apply elem_of_union_r, elem_of_dom. by eexists.
  - by destruct (Hacl acl).
Qed.

Lemma WithServiceACL_some acl m old :
  (Get "ACL" (Some ∅) (Some m)).1 = Some old →
  WithServiceACL acl (Some m) = Ok (Some (<["ACL" := GMapStr (Some (acl ∪ old))]> m)).
Proof. intros Hg. unfold WithServiceACL. rewrite Hg. done. Qed.

(** The effect of a call on a configuration depends at most on the value of
    the key [ACL]. *)
Lemma opt_writes o m c :
  apply_opt o (Some m) = Ok c →
  ∃ u, c = Some (u ∪ m) ∧ dom u ⊆ keys_of o ∧
    ∀ m', ("ACL" ∈ keys_of o → m' !! "ACL" = m !! "ACL") → writes (apply_opt o) m' u.
Proof.
  assert ((∃ acl, o = OServiceACL acl) ∨ ∀ acl, o ≠ OServiceACL acl) as [[acl ->]|Hne]
    by (destruct o; first [left; by eexists|right; by intros]).
  - simpl. unfold WithServiceACL. destruct (Get "ACL" (Some ∅) (Some m)).1 as [old|] eqn:Hg;
      simpl; [|case_decide; simpl; [|done]]; intros [= <-].
    + exists {[ "ACL" := GMapStr (Some (acl ∪ old)) ]}.
      rewrite <- insert_union_singleton_l. split_and!; [done|rewrite dom_singleton_L; set_solver|].
      intros m' Hm'. unfold writes, WithServiceACL.
      assert (Get "ACL" (Some ∅) (Some m') = Get (A:=gomap string) "ACL" (Some ∅) (Some m)) as ->.
      { unfold Get, Get_with. simpl. by rewrite Hm' by set_solver. }
      rewrite Hg. simpl. by rewrite <- insert_union_singleton_l.
    + exists {[ "ACL" := GMapStr None ]}.
      rewrite <- insert_union_singleton_l. split_and!; [done|rewrite dom_singleton_L; set_solver|].
      intros m' Hm'. unfold writes, WithServiceACL.
      assert (Get "ACL" (Some ∅) (Some m') = Get (A:=gomap string) "ACL" (Some ∅) (Some m)) as ->.
      { unfold Get, Get_with. simpl. by rewrite Hm' by set_solver. }
      rewrite Hg. simpl. rewrite decide_True by done. simpl.
      by rewrite <- insert_union_singleton_l.
  - destruct (opt_uniform o Hne) as [(u & Hd & Hu)|[p Hp]].
    + rewrite Hu. intros [= <-]. exists u. split_and!; [done..|]. intros m' _. apply Hu.
    + by rewrite Hp.
Qed.

Lemma dom_disjoint_map (u1 u2 : gmap string goval) (K1 K2 : gset string) :
  dom u1 ⊆ K1 → dom u2 ⊆ K2 → K1 ## K2 → u1 ##ₘ u2.
Proof. intros H1 H2 HK. apply map_disjoint_dom. set_solver. Qed.

Lemma lookup_union_out (u m : gmap string goval) (K : gset string) k :
  dom u ⊆ K → k ∉ K → (u ∪ m) !! k = m !! k.
Proof.
  intros Hd Hk. apply lookup_union_r, not_elem_of_dom. set_solver.
Qed.

Lemma foldl_res_some opts : ∀ c0 c,
  foldl (λ c o, c ≫= o) c0 (apply_opt <$> opts) = Ok c →
  (∃ m, c0 = Ok (Some m)) → ∃ m, c = Some m.
Proof.
  induction opts as [|o opts IH]; intros c0 c Hf [m ->]; simpl in Hf.
  { injection Hf as <-. eauto. }
  destruct (apply_opt o (Some m)) as [c1|e|p] eqn:Ho.
  - apply IH in Hf; [done|]. apply opt_writes in Ho as (u & -> & _). eauto.
  - exfalso. clear -Hf. induction opts; simpl in *; eauto; done.
  - exfalso. clear -Hf. induction opts; simpl in *; eauto; done.
Qed.

Lemma foldl_res_keep opts k : ∀ m c,
  foldl (λ c o, c ≫= o) (Ok (Some m)) (apply_opt <$> opts) = Ok c →
  Forall (λ o, k ∉ keys_of o) opts → map_get c k = m !! k.
Proof.
  induction opts as [|o opts IH]; intros m c Hf Hk; simpl in Hf.
  { by injection Hf as <-. }
  apply Forall_cons in Hk as [Ho Hk].
  destruct (apply_opt o (Some m)) as [c1|e|p] eqn:Hc.
  - apply opt_writes in Hc as (u & -> & Hd & _). apply IH in Hf as ->; [|done].
    by eapply lookup_union_out.
  - exfalso. clear -Hf. induction opts; simpl in *; eauto; done.
  - exfalso. clear -Hf. induction opts; simpl in *; eauto; done.
Qed.

(** ** Properties *)

(** Two options that write no common key can be given in either order: the
    configuration is the same. *)
Theorem options_commute o1 o2 m c :
  keys_of o1 ## keys_of o2 →
  (apply_opt o1 ;;; apply_opt o2) (Some m) = Ok c →
  (apply_opt o2 ;;; apply_opt o1) (Some m) = Ok c.
Proof.
  intros HK H. unfold seq_ in *.
  destruct (apply_opt o1 (Some m)) as [c1| |] eqn:H1; [|done..]. simpl in H.
  apply opt_writes in H1 as (u1 & -> & Hd1 & Hw1).
  apply opt_writes in H as (u2 & -> & Hd2 & Hw2).
  rewrite Hw2; simpl.
  - rewrite Hw1.
    + rewrite !(assoc_L (∪)). rewrite (map_union_comm u1 u2); [done|].
      by eapply dom_disjoint_map.
    + intros Hacl. eapply lookup_union_out; [done|]. set_solver.
  - intros Hacl. symmetry. eapply lookup_union_out; [done|]. set_solver.
Qed.

Definition sample_http_acl : JsonConfig :=
  Some {[ "UseHTTP" := GBool true; "HTTPPort" := GInt 8080;
          "ACL" := GMapStr (Some {[ "/admin" := "admin" ]}) ]}.

Lemma options_commute_witness :
  (apply_opt (OServiceACL {[ "/admin" := "admin" ]}) ;;; apply_opt (OHTTP 8080)) DefaultConfig
  = Ok sample_http_acl.
Proof.
  apply (options_commute (OHTTP 8080) (OServiceACL {[ "/admin" := "admin" ]})).
  - refine (bool_decide_unpack _ _). reflexivity.
  - reflexivity.
Defined.

(** Every start-up configuration names its services: the ones of the last
    [WithServices], and ["msuite"] when no option wrote them. *)
Theorem startup_services opts c :
  startup_config (apply_opt <$> opts) = Ok c →
  Exists_key "Services" c = true ∧
  (Forall (λ o, "Services" ∉ keys_of o) opts → Get "Services" [] c = (["msuite"], true)).
Proof.
  unfold startup_config. intros H.
  destruct (foldl _ _ _) as [c1| |] eqn:Hf; [|done..]. simpl in H.
  pose proof Hf as Hf'. apply foldl_res_some in Hf as [m ->]; [|by eexists].
  unfold defaultOpts, Exists_key in H. simpl in H.
  destruct (m !! "Services") as [v|] eqn:Hv; [injection H as <-|].
  - split; [unfold Exists_key; simpl; by rewrite Hv|]. intros Hk.
    apply foldl_res_keep with (k := "Services") in Hf'; [|done]. simpl in Hf'. by rewrite Hv in Hf'.
  - injection H as <-. split; [unfold Exists_key; simpl; by rewrite lookup_insert_eq|].
    intros _. rewrite (Get_tree "Services" _ _ (GStrings (Some ["msuite"])) (JArr [JStr "msuite"]));
      [done|apply lookup_insert_eq|by vm_compute].
Qed.

Definition sample_p2p : JsonConfig :=
  Some {[ "UseP2P" := GBool true; "SwarmPort" := GInt 10000;
          "Services" := GStrings (Some ["msuite"]) ]}.

Lemma startup_services_witness :
  startup_config (apply_opt <$> [OP2P 10000]) = Ok sample_p2p ∧
  Get "Services" [] sample_p2p = (["msuite"], true).
Proof.
  split; [reflexivity|]. apply (startup_services [OP2P 10000]).
  - reflexivity.
  - repeat constructor; refine (bool_decide_unpack _ _); reflexivity.
Defined.

(** [WithServiceACL] adds to the ACLs of earlier calls, the later call
    winning where both name a resource, and leaves the other keys alone. *)
Theorem service_acl_accumulates a b m :
  valid_strmap a → valid_strmap b → m !! "ACL" = None →
  ∃ c, (WithServiceACL a ;;; WithServiceACL b) (Some m) = Ok c ∧
    Get "ACL" (Some ∅) c = (Some (b ∪ a), true) ∧
    ∀ k, k ≠ "ACL" → map_get c k = m !! k.
Proof.
  intros Ha Hb Hm.
  assert (∀ x m', valid_strmap x → m' !! "ACL" = Some (GMapStr (Some x)) →
    Get "ACL" (Some ∅) (Some m') = (Some x, true)) as HG.
  { intros x m' Hx Hm'. rewrite (Get_tree "ACL" _ (Some m') _ _ Hm' eq_refl).
    by apply unmarshal_strmap. }
  unfold seq_. rewrite (WithServiceACL_some a m ∅) by by rewrite Get_absent.
  rewrite (right_id_L ∅ (∪)). simpl.
  rewrite (WithServiceACL_some b _ a) by by rewrite (HG a) by (done || apply lookup_insert_eq).
  rewrite insert_insert_eq. eexists. split_and!; [done| |].
  - apply HG; [|apply lookup_insert_eq]. by apply map_Forall_union_2.
  - intros k Hk. simpl. by rewrite lookup_insert_ne.
Qed.

Lemma service_acl_accumulates_witness :
  ∃ c, (WithServiceACL {[ "a" := "admin"; "b" := "none" ]} ;;; WithServiceACL {[ "b" := "admin" ]})
    DefaultConfig = Ok c ∧
    (Get "ACL" (Some ∅) c).1 = Some ({[ "b" := "admin" ]} ∪ {[ "a" := "admin"; "b" := "none" ]}).
Proof.
  destruct (service_acl_accumulates {[ "a" := "admin"; "b" := "none" ]} {[ "b" := "admin" ]} ∅)
    as (c & Hc & Hg & _).
  - refine (bool_decide_unpack _ _). reflexivity.
  - refine (bool_decide_unpack _ _). reflexivity.
  - done.
  - exists c. split; [exact Hc|]. by rewrite Hg.
Defined.
