(* ===== verification/Acl.v ===== *)
(** * Access control: [modules/auth/aclManager.go]

    The manager keeps one record per resource in a key-value store.  The store
    ([gkvstore.Store]) is not part of the program: it is the class [Store],
    with its documented behaviour in [StoreLaws]; [mem_store] is an instance. *)

From S2P Require Import Prelude Utf8 Json JsonText Files Config.

(** ** The store interface *)

(** A store of items addressed by namespace and identifier; [Read] returns the
    bytes that the item then unmarshals. *)
Class Store (σ : Type) := {
  store_update : string → string → string → σ → res unit * σ;
  store_read : string → string → σ → error + string;
  store_delete : string → string → σ → res unit * σ;
}.

(** [same_but ns id s s']: the two stores hold the same items except possibly
    the one at [ns], [id]. *)
Definition same_but `{Store σ} (ns id : string) (s s' : σ) : Prop :=
  ∀ ns' id', (ns', id') ≠ (ns, id) → store_read ns' id' s' = store_read ns' id' s.

Class StoreLaws (σ : Type) `{Store σ} := {
  update_ok ns id b s s' :
    store_update ns id b s = (Ok (), s') → store_read ns id s' = inr b ∧ same_but ns id s s';
  update_err ns id b s e s' :
    store_update ns id b s = (Err e, s') → ∀ ns' id', store_read ns' id' s' = store_read ns' id' s;
  delete_ok ns id s s' :
    store_delete ns id s = (Ok (), s') →
    (∀ b, store_read ns id s' ≠ inr b) ∧ same_but ns id s s';
  delete_err ns id s e s' :
    store_delete ns id s = (Err e, s') → ∀ ns' id', store_read ns' id' s' = store_read ns' id' s;
  update_no_panic ns id b s p : (store_update ns id b s).1 ≠ Panic p;
  delete_no_panic ns id s p : (store_delete ns id s).1 ≠ Panic p;
}.

(** ** Roles *)

Abbreviation Role := string (only parsing).

Definition None_ : Role := "none".
Definition PublicRead : Role := "public_read".
Definition PublicWrite : Role := "public_write".
Definition AuthRead : Role := "authenticated_read".
Definition AuthWrite : Role := "authenticated_write".
Definition Admin : Role := "admin".

Definition noRole : Z := 0.
Definition pubRead : Z := 1.
Definition pubWrite : Z := 2.
Definition authRead : Z := 3.
Definition authWrite : Z := 4.
Definition admin : Z := 5.

Definition aclMap : gmap Role Z :=
  {[ None_ := noRole; PublicRead := pubRead; PublicWrite := pubWrite;
     AuthRead := authRead; AuthWrite := authWrite; Admin := admin ]}.

Definition raclMap : gmap Z Role :=
  {[ noRole := None_; pubRead := PublicRead; pubWrite := PublicWrite;
     authRead := AuthRead; authWrite := AuthWrite; admin := Admin ]}.

(** ** Records *)

Record Acl := mkAcl { Key : string; Roles : Z }.

Definition GetID (m : Acl) : string := Key m.
Definition GetNamespace : string := "acl".

Definition Acl_json (m : Acl) : json := JObj [("Key", jstr (Key m)); ("Roles", JNum (Roles m))].

Definition Acl_Marshal (m : Acl) : string := text_of compact (Acl_json m).

#[export] Instance target_acl : Target Acl := {|
  zero := mkAcl "" 0;
  unmarshal j old :=
    match j with
    | JObj l =>
      foldl (λ acc kv,
        if field_match "Key" kv.1 then
          field_into Key (λ k a, mkAcl k (Roles a)) kv.2 acc
        else if field_match "Roles" kv.1 then
          field_into Roles (λ r a, mkAcl (Key a) r) kv.2 acc
        else acc) (old, true) l
    | JNull => (old, true)
    | _ => (old, false)
    end;
|}.

Definition Acl_Unmarshal (b : string) (m : Acl) : Acl * option error := json_unmarshal b m.

(** ** The manager *)

Section manager.
Context {σ : Type} `{Store σ}.

(** [a.st.Read(ctx, nacl)]: fetch the bytes and unmarshal them into the item. *)
Definition read_acl (nacl : Acl) (s : σ) : error + Acl :=
  match store_read GetNamespace (GetID nacl) s with
  | inr b => match Acl_Unmarshal b nacl with
             | (nacl', None) => inr nacl'
             | (_, Some e) => inl e
             end
  | inl e => inl e
  end.

Definition Configure (rsc : string) (role : Role) : ST σ unit := λ s,
  match aclMap !! role with
  | None => (Err "Invalid Role", s)
  | Some r =>
    let nacl := mkAcl rsc r in
    store_update GetNamespace (GetID nacl) (Acl_Marshal nacl) s
  end.

Definition Delete (rsc : string) : ST σ unit := λ s,
  let nacl := mkAcl rsc 0 in
  store_delete GetNamespace (GetID nacl) s.

Definition Authorized (rsc : string) (role : Role) (s : σ) : bool :=
  match read_acl (mkAcl rsc 0) s with
  | inr nacl =>
    match aclMap !! role with
    | None => false
    | Some r => (Roles nacl <=? r)%Z
    end
  | inl _ => true
  end.

(** [for i := admin; i >= lo; i--]. *)
Fixpoint countdown (fuel : nat) (i lo : Z) : list Z :=
  if (i <? lo)%Z then []
  else match fuel with
       | O => []
       | S n => i :: countdown n (i - 1) lo
       end.

Definition Allowed (rsc : string) (s : σ) : list Role :=
  match read_acl (mkAcl rsc 0) s with
  | inr nacl =>
    (λ i, default "" (raclMap !! i)) <$>
      countdown (Z.to_nat (admin - Roles nacl + 1)) admin (Roles nacl)
  | inl _ => [None_; PublicRead; PublicWrite; AuthRead; AuthWrite; Admin]
  end.

(** The loop of [NewAclManager] over the configured ACLs. *)
Fixpoint configure_all (acls : list (string * string)) : ST σ unit :=
  match acls with
  | [] => mret ()
  | (k, v) :: acls => _ ← Configure k v; configure_all acls
  end.

(** [NewAclManager]: [shStore] is what [SharedStorage("acl", nil)] returned
    when P2P is configured, [range] the order in which Go iterates a map.  The
    manager is its store. *)
Definition NewAclManager (rStore : σ) (shStore : option (res σ)) (cfg : JsonConfig)
    (range : list (string * string) → list (string * string)) : res unit * σ :=
  match match shStore with Some st => st | None => Ok rStore end with
  | Ok st =>
    match Get "ACL" (Some ∅) cfg with
    | (acls, true) => configure_all (range (map_to_list (default ∅ acls))) st
    | (_, false) => (Ok (), st)
    end
  | Err e => (Err e, rStore)
  | Panic p => (Panic p, rStore)
  end.

End manager.

(** ** An in-memory store *)

Abbreviation mem_store := (gmap (string * string) string).

#[export] Instance mem_store_ops : Store mem_store := {|
  store_update ns id b s := (Ok (), <[(ns, id) := b]> s);
  store_read ns id s :=
    match s !! (ns, id) with Some b => inr b | None => inl "record not found" end;
  store_delete ns id s := (Ok (), base.delete (ns, id) s);
|}.

#[export] Instance mem_store_laws : StoreLaws mem_store.
Proof.
  split.
  - intros ns id b s s' [= <-]. simpl. rewrite lookup_insert_eq. split; [done|].
    intros ns' id' Hne. simpl. by rewrite lookup_insert_ne.
  - done.
  - intros ns id s s' [= <-]. simpl. rewrite lookup_delete_eq. split; [done|].
    intros ns' id' Hne. simpl. by rewrite lookup_delete_ne.
  - done.
  - done.
  - done.
Qed.

(** ** The abstract specification

    What the manager promises: a finite map from resources to the level they
    require; a resource without an entry is open to everyone. *)
Module Spec.

Abbreviation state := (gmap string Z).

Inductive op := OpConfigure (rsc : string) (role : Role) | OpDelete (rsc : string).

(** The operations take effect when they succeed. *)
Definition step (o : op) (ok : bool) (sp : state) : state :=
  if ok then
    match o with
    | OpConfigure rsc role =>
      match aclMap !! role with Some l => <[rsc := l]> sp | None => sp end
    | OpDelete rsc => base.delete rsc sp
    end
  else sp.

Definition authorized (rsc : string) (role : Role) (sp : state) : bool :=
  match sp !! rsc with
  | None => true
  | Some l => match aclMap !! role with Some r => (l <=? r)%Z | None => false end
  end.

(** The roles, highest first, that reach the required level. *)
Definition allowed (rsc : string) (sp : state) : list Role :=
  match sp !! rsc with
  | None => [None_; PublicRead; PublicWrite; AuthRead; AuthWrite; Admin]
  | Some l =>
    filter (λ role, is_Some (aclMap !! role) ∧ (l ≤ default 0 (aclMap !! role))%Z)
      [Admin; AuthWrite; AuthRead; PublicWrite; PublicRead; None_]
  end.

End Spec.

(** ** Lemmas *)

Lemma aclMap_range role r : aclMap !! role = Some r → (0 ≤ r ≤ 5)%Z.
Proof.
  unfold aclMap. intros Hr.
  repeat (apply lookup_insert_Some in Hr as [[_ <-]|[_ Hr]];
    [unfold noRole, pubRead, pubWrite, authRead, authWrite, admin; lia|]).
  apply lookup_singleton_Some in Hr as [_ <-]. unfold admin; lia.
Qed.

Lemma level_in_int64 l : (0 ≤ l ≤ 5)%Z → in_int64 l = true.
Proof. intros Hl. apply in_int64_true. unfold int64_min, int64_max. lia. Qed.

Lemma level_cases l : (0 ≤ l ≤ 5 → l = 0 ∨ l = 1 ∨ l = 2 ∨ l = 3 ∨ l = 4 ∨ l = 5)%Z.
Proof. lia. Qed.

(** A record read back from its own bytes. *)
Lemma Acl_roundtrip a old :
  in_int64 (Roles a) = true →
  Acl_Unmarshal (Acl_Marshal a) old = (mkAcl (to_valid_utf8 (Key a)) (Roles a), None).
Proof.
  intros Hr. unfold Acl_Unmarshal, Acl_Marshal, json_unmarshal.
  rewrite parse_text_of; [|apply compact_ws|].
  - cbn [unmarshal target_acl Acl_json foldl].
    change (field_match "Key" "Key") with true. change (field_match "Key" "Roles") with false.
    change (field_match "Roles" "Roles") with true. cbn [fst snd field_into].
    unfold field_into. cbn. by rewrite Hr.
  - repeat constructor; try apply to_valid_utf8_valid.
Qed.

Section proofs.
Context {σ : Type} `{StoreLaws σ}.
Implicit Types (s : σ) (sp : Spec.state).

Definition run_op (o : Spec.op) : ST σ unit :=
  match o with
  | Spec.OpConfigure rsc role => Configure rsc role
  | Spec.OpDelete rsc => Delete rsc
  end.

(** A sequence of operations, each on the store the one before left, and the
    specification driven by their outcomes. *)
Fixpoint run_ops (os : list Spec.op) (s : σ) (sp : Spec.state) : σ * Spec.state :=
  match os with
  | [] => (s, sp)
  | o :: os => let (r, s') := run_op o s in run_ops os s' (Spec.step o (is_ok r) sp)
  end.

(** The refinement relation. *)
Definition refines s sp : Prop :=
  ∀ rsc,
    match sp !! rsc with
    | Some l => (0 ≤ l ≤ 5)%Z ∧ ∃ a, read_acl (mkAcl rsc 0) s = inr a ∧ Roles a = l
    | None => ∀ b, store_read GetNamespace rsc s ≠ inr b
    end.

Lemma read_acl_same rsc s s' :
  store_read GetNamespace rsc s' = store_read GetNamespace rsc s →
  read_acl (mkAcl rsc 0) s' = read_acl (mkAcl rsc 0) s.
Proof. intros Hs. unfold read_acl. simpl. by rewrite Hs. Qed.

Lemma refines_same s s' sp :
  (∀ ns id, store_read ns id s' = store_read ns id s) → refines s sp → refines s' sp.
Proof.
  intros Hs Hr rsc. specialize (Hr rsc). rewrite (read_acl_same rsc s s') by done.
  by rewrite Hs.
Qed.

Lemma same_but_acl rsc rsc' s s' :
  same_but GetNamespace rsc s s' → rsc' ≠ rsc →
  store_read GetNamespace rsc' s' = store_read GetNamespace rsc' s.
Proof. intros Hs Hne. apply Hs. by intros [= ->]. Qed.

Lemma Configure_ok rsc role s s' :
  Configure rsc role s = (Ok (), s') →
  ∃ r, aclMap !! role = Some r ∧
    read_acl (mkAcl rsc 0) s' = inr (mkAcl (to_valid_utf8 rsc) r) ∧
    same_but GetNamespace rsc s s'.
Proof.
  unfold Configure. destruct (aclMap !! role) as [r|] eqn:Hr; [|done]. simpl.
  intros [Hread Hsame]%update_ok. exists r. split_and!; [done| |done].
  unfold read_acl. simpl. rewrite Hread, Acl_roundtrip; [done|].
  by eapply level_in_int64, aclMap_range.
Qed.

Lemma Configure_frame rsc role s s' e :
  Configure rsc role s = (Err e, s') → ∀ ns id, store_read ns id s' = store_read ns id s.
Proof.
  unfold Configure. destruct (aclMap !! role); [|by intros [= _ <-]]. apply update_err.
Qed.

(** One operation preserves the refinement. *)
Lemma run_op_refines o s sp r s' :
  refines s sp → run_op o s = (r, s') → refines s' (Spec.step o (is_ok r) sp).
Proof.
  intros Hr Ho. destruct o as [rsc role|rsc]; simpl in Ho.
  - destruct r as [[]|e|p]; simpl.
    + apply Configure_ok in Ho as (l & Hl & Hread & Hsame). rewrite Hl. intros rsc'.
      destruct (decide (rsc' = rsc)) as [->|Hne].
      * rewrite lookup_insert_eq. split; [by eapply aclMap_range|eauto].
      * rewrite lookup_insert_ne by done. specialize (Hr rsc').
        pose proof (same_but_acl rsc rsc' s s' Hsame Hne) as Hst.
        rewrite (read_acl_same rsc' s s') by done. by rewrite Hst.
    + eapply refines_same; [|done]. by eapply Configure_frame.
    + unfold Configure in Ho. destruct (aclMap !! role); [|done].
      exfalso. eapply update_no_panic. by rewrite Ho.
  - unfold Delete in Ho. simpl in Ho. destruct r as [[]|e|p]; simpl.
    + apply delete_ok in Ho as [Hgone Hsame]. intros rsc'.
      destruct (decide (rsc' = rsc)) as [->|Hne].
      * by rewrite lookup_delete_eq.
      * rewrite lookup_delete_ne by done. specialize (Hr rsc').
        pose proof (same_but_acl rsc rsc' s s' Hsame Hne) as Hst.
        rewrite (read_acl_same rsc' s s') by done. by rewrite Hst.
    + eapply refines_same; [|done]. by eapply delete_err.
    + exfalso. eapply delete_no_panic. by rewrite Ho.
Qed.

Lemma run_ops_refines os : ∀ s sp s' sp',
  refines s sp → run_ops os s sp = (s', sp') → refines s' sp'.
Proof.
  induction os as [|o os IH]; intros s sp s' sp' Hr Hrun; simpl in Hrun.
  { by injection Hrun as <- <-. }
  destruct (run_op o s) as [r s1] eqn:Ho. eapply IH; [|done]. by eapply run_op_refines.
Qed.

Lemma read_acl_missing rsc s :
  (∀ b, store_read GetNamespace rsc s ≠ inr b) → ∀ a, read_acl (mkAcl rsc 0) s ≠ inr a.
Proof.
  intros Hm a. unfold read_acl. simpl. destruct (store_read GetNamespace rsc s) eqn:E; [done|].
  by edestruct Hm.
Qed.

Lemma refines_authorized s sp rsc role :
  refines s sp → Authorized rsc role s = Spec.authorized rsc role sp.
Proof.
  intros Hr. specialize (Hr rsc). unfold Authorized, Spec.authorized.
  destruct (sp !! rsc) as [l|].
  - destruct Hr as (_ & a & -> & <-). done.
  - destruct (read_acl _ s) as [|a] eqn:E; [done|].
    by eapply read_acl_missing in E.
Qed.

Lemma refines_allowed s sp rsc :
  refines s sp → Allowed rsc s = Spec.allowed rsc sp.
Proof.
  intros Hr. specialize (Hr rsc). unfold Allowed, Spec.allowed.
  destruct (sp !! rsc) as [l|].
  - destruct Hr as (Hl & a & -> & ->). apply level_cases in Hl.
    by destruct Hl as [-> | [-> | [-> | [-> | [-> | ->]]]]].
  - destruct (read_acl _ s) as [|a] eqn:E; [done|].
    by eapply read_acl_missing in E.
Qed.

End proofs.

(** Configuring a list of resources: what the store holds afterwards, and that
    nothing but a failing store or an unknown role stops it. *)
Section configure.
Context {σ : Type} `{StoreLaws σ}.
Implicit Types s : σ.

Lemma configure_all_ok acls : ∀ s s',
  NoDup acls.*1 → configure_all acls s = (Ok (), s') →
  (∀ rsc role, (rsc, role) ∈ acls → ∃ r, aclMap !! role = Some r ∧
     ∃ a, read_acl (mkAcl rsc 0) s' = inr a ∧ Roles a = r) ∧
  (∀ rsc, rsc ∉ acls.*1 → read_acl (mkAcl rsc 0) s' = read_acl (mkAcl rsc 0) s).
Proof.
  induction acls as [|[k v] acls IH]; intros s s' Hnd Hc; simpl in Hc.
  { injection Hc as <-. set_solver. }
  apply NoDup_cons in Hnd as [Hk Hnd]. simpl in Hk.
  unfold mbind, st_mbind in Hc. destruct (Configure k v s) as [[[]|e|p] s1] eqn:Hcfg; [|done..].
  apply Configure_ok in Hcfg as (r & Hr & Hread & Hsame).
  apply IH in Hc as [Hin Hout]; [|done]. split.
  - intros rsc role [[= -> ->]|Hel]%elem_of_cons; [|by apply Hin].
    exists r. split; [done|]. rewrite Hout by done. eauto.
  - intros rsc [Hne Hni]%not_elem_of_cons. rewrite Hout by done.
    by eapply read_acl_same, same_but_acl.
Qed.

Lemma configure_all_unknown acls : ∀ s,
  (∃ rsc role, (rsc, role) ∈ acls ∧ aclMap !! role = None) →
  ∃ e, (configure_all acls s).1 = Err e.
Proof.
  induction acls as [|[k v] acls IH]; intros s (rsc & role & Hel & Hrole); [set_solver|].
  simpl. unfold mbind, st_mbind.
  destruct (Configure k v s) as [[[]|e|p] s1] eqn:Hcfg; simpl; [|by eexists|].
  - apply Configure_ok in Hcfg as (r & Hr & _). apply IH. exists rsc, role.
    apply elem_of_cons in Hel as [E|Hel]; [|done]. simplify_eq.
  - unfold Configure in Hcfg. destruct (aclMap !! v); [|done].
    exfalso. eapply update_no_panic. by rewrite Hcfg.
Qed.

Lemma Authorized_level rsc role s a :
  read_acl (mkAcl rsc 0) s = inr a →
  Authorized rsc role s = match aclMap !! role with Some r => (Roles a <=? r)%Z | None => false end.
Proof. intros Ha. unfold Authorized. by rewrite Ha. Qed.

End configure.

(** ** Properties *)

(** The ACL manager implements its specification: after any sequence of
    [Configure] and [Delete] calls on a store that starts without ACLs, some of
    which may fail, [Authorized] and [Allowed] answer from the map of the calls
    that succeeded.  A resource nobody configured is open to everyone. *)
Theorem acl_refines_spec `{StoreLaws σ} (os : list Spec.op) (s0 s : σ) sp :
  (∀ rsc b, store_read GetNamespace rsc s0 ≠ inr b) →
  run_ops os s0 ∅ = (s, sp) →
  ∀ rsc role,
    Authorized rsc role s = Spec.authorized rsc role sp ∧ Allowed rsc s = Spec.allowed rsc sp.
Proof.
  intros Hempty Hrun rsc role. assert (refines s sp) as Hr.
  { eapply run_ops_refines; [|exact Hrun]. intros r. by rewrite lookup_empty. }
  split; [by apply refines_authorized|by apply refines_allowed].
Qed.

Definition sample_ops : list Spec.op :=
  [Spec.OpConfigure "a" PublicWrite; Spec.OpConfigure "a" "nonsense";
   Spec.OpConfigure "b" Admin; Spec.OpDelete "b"].

Definition sample_run : mem_store * Spec.state := run_ops sample_ops ∅ ∅.

Lemma acl_refines_spec_witness :
  Authorized "a" AuthRead sample_run.1 = true ∧ Authorized "a" PublicRead sample_run.1 = false ∧
  Allowed "a" sample_run.1 = [Admin; AuthWrite; AuthRead; PublicWrite].
Proof.
  pose proof (acl_refines_spec sample_ops (∅ : mem_store) sample_run.1 sample_run.2) as Hall.
  assert (run_ops sample_ops (∅ : mem_store) ∅ = (sample_run.1, sample_run.2)) as Hrun
    by reflexivity.
  specialize (Hall (λ _ _ E, ltac:(discriminate E)) Hrun).
  rewrite (proj1 (Hall "a" AuthRead)), (proj1 (Hall "a" PublicRead)), (proj2 (Hall "a" Admin)).
  split_and!; reflexivity.
Defined.

(** [Authorized] and [Allowed] agree: on a store that holds the records of
    the manager, a role of the system is authorized for a resource exactly when
    it is in the list of allowed roles; and a higher role is never refused
    where a lower one is let in. *)
Theorem authorized_iff_allowed `{StoreLaws σ} (s : σ) sp rsc role r :
  refines s sp → aclMap !! role = Some r →
  (Authorized rsc role s = true ↔ role ∈ Allowed rsc s) ∧
  (∀ role' r', aclMap !! role' = Some r' → (r ≤ r')%Z →
     Authorized rsc role s = true → Authorized rsc role' s = true).
Proof.
  intros Hs Hr. rewrite (refines_authorized s sp) by done.
  rewrite (refines_allowed s sp) by done. split.
  - unfold Spec.authorized, Spec.allowed. rewrite Hr.
    assert (role ∈ [None_; PublicRead; PublicWrite; AuthRead; AuthWrite; Admin]) as Hel.
    { apply elem_of_dom_2 in Hr. unfold aclMap in Hr.
      rewrite !dom_insert_L, dom_singleton_L in Hr. set_solver. }
    destruct (sp !! rsc) as [l|].
    + rewrite list_elem_of_filter, Hr, Z.leb_le. simpl. set_solver.
    + done.
  - intros role' r' Hr' Hle. rewrite (refines_authorized s sp) by done.
    unfold Spec.authorized. rewrite Hr, Hr'. destruct (sp !! rsc); [|done].
    rewrite !Z.leb_le. lia.
Qed.

Definition sample_store : mem_store :=
  (Configure (σ:=mem_store) "svc" PublicWrite ∅).2.

Lemma sample_store_refines : refines sample_store {[ "svc" := 2%Z ]}.
Proof.
  apply (run_op_refines (Spec.OpConfigure "svc" PublicWrite) ∅ ∅ (Ok ()));
    [intros rsc; by rewrite lookup_empty|reflexivity].
Qed.

Lemma authorized_iff_allowed_witness :
  Authorized "svc" AuthRead sample_store = true ↔ AuthRead ∈ Allowed "svc" sample_store.
Proof.
  apply (authorized_iff_allowed sample_store _ "svc" AuthRead 3 sample_store_refines).
  reflexivity.
Defined.

(** The ACLs of the configuration are in force once [NewAclManager]
    returns, whatever the order in which Go ranges over the map: a configured
    resource admits exactly the roles of at least its level, the other
    resources are as they were; and one unknown role makes it fail. *)
Theorem new_acl_manager_enforces `{StoreLaws σ} (s0 : σ) cfg range acls :
  (∀ l, range l ≡ₚ l) →
  Get "ACL" (Some ∅) cfg = (Some acls, true) →
  let res := NewAclManager s0 None cfg range in
  (res.1 = Ok () →
     (∀ rsc rl, acls !! rsc = Some rl → ∃ l, aclMap !! rl = Some l ∧ ∀ role,
        Authorized rsc role res.2 =
          match aclMap !! role with Some r => (l <=? r)%Z | None => false end) ∧
     (∀ rsc role, acls !! rsc = None → Authorized rsc role res.2 = Authorized rsc role s0)) ∧
  ((∃ rsc rl, acls !! rsc = Some rl ∧ aclMap !! rl = None) → ∃ e, res.1 = Err e).
Proof.
  intros Hrange Hget res. unfold res, NewAclManager. rewrite Hget. simpl.
  assert (∀ rsc rl, (rsc, rl) ∈ range (map_to_list acls) ↔ acls !! rsc = Some rl) as Hel.
  { intros rsc rl. by rewrite (Hrange (map_to_list acls)), elem_of_map_to_list. }
  split.
  - destruct (configure_all _ s0) as [r s'] eqn:Hc. simpl. intros ->.
    apply configure_all_ok in Hc as [Hin Hout].
    + split.
      * intros rsc rl Hrl%Hel. destruct (Hin _ _ Hrl) as (l & Hl & a & Ha & <-).
        exists (Roles a). split; [done|]. intros role. by apply Authorized_level.
      * intros rsc role Hnone. unfold Authorized. rewrite Hout; [done|].
        intros ([? rl] & -> & Hx)%list_elem_of_fmap. apply Hel in Hx. simpl in Hnone. congruence.
    + rewrite (Hrange (map_to_list acls)). apply NoDup_fst_map_to_list.
  - intros (rsc & rl & Hrl & Hnone). apply configure_all_unknown.
    exists rsc, rl. split; [by apply Hel|done].
Qed.

Definition sample_acl_cfg : JsonConfig :=
  Some {[ "ACL" := GMapStr (Some {[ "a" := "admin"; "b" := "public_read" ]}) ]}.

Lemma new_acl_manager_enforces_witness :
  let s := (NewAclManager (σ:=mem_store) ∅ None sample_acl_cfg reverse).2 in
  Authorized "a" AuthWrite s = false ∧ Authorized "c" None_ s = true.
Proof.
  destruct (new_acl_manager_enforces (σ:=mem_store) ∅ sample_acl_cfg reverse
    {[ "a" := "admin"; "b" := "public_read" ]}) as [H _].
  - intros l. apply reverse_Permutation.
  - by vm_compute.
  - destruct H as [Hin Hout]; [by vm_compute|]. split.
    + destruct (Hin "a" "admin" eq_refl) as (l & Hl & ->). injection Hl as <-. reflexivity.
    + rewrite Hout by reflexivity. reflexivity.
Defined.

(** The manager fails open: whenever the store cannot return the record,
    also of a configured resource, every role is authorized and the list of
    allowed roles contains [none]. *)
Theorem acl_fails_open `{Store σ} (s : σ) rsc role e :
  store_read GetNamespace rsc s = inl e →
  Authorized rsc role s = true ∧ None_ ∈ Allowed rsc s.
Proof.
  intros Hs. unfold Authorized, Allowed, read_acl. simpl. rewrite Hs. split; [done|left].
Qed.

(** A store that loses its connection: reads fail, the data is still there. *)
Record down_store := mkDown { closed : bool; data : mem_store }.
#[export] Instance down_store_ops : Store down_store := {|
  store_update ns id b s := (Ok (), mkDown (closed s) (store_update ns id b (data s)).2);
  store_read ns id s := if closed s then inl "store closed" else store_read ns id (data s);
  store_delete ns id s := (Ok (), mkDown (closed s) (store_delete ns id (data s)).2);
|}.

Definition sample_down (down : bool) : down_store :=
  mkDown down (data (Configure "svc" Admin (mkDown false ∅)).2).

Lemma acl_fails_open_witness :
  Authorized "svc" None_ (sample_down false) = false ∧
  Authorized "svc" None_ (sample_down true) = true.
Proof.
  split; [by vm_compute|].
  apply (acl_fails_open (sample_down true) "svc" None_ "store closed"). reflexivity.
Defined.
