(* ===== verification/AclHistory.v ===== *)
(** * The access control of several nodes over time: [modules/auth/aclManager.go]

    The records of the ACL manager outlive it: they are in the repository of
    the node, and with P2P in the storage all nodes share.  Every start of a
    node applies the ACLs of its configuration to them again.  This file has
    the histories of such a store: starts of nodes, each with a configuration of
    its own, and calls of [Configure] and [Delete] on the manager of any of
    them.  The changes reach the store in one order, that of the history: how a
    shared store merges changes its nodes have not seen of each other is not
    part of the program. *)

From S2P Require Import Prelude Utf8 Json JsonText Files Config Acl.

(** ** Histories *)

Section history.
Context {σ : Type} `{Store σ}.

(** A node starts: [own] is its repository's store if the history is that of the
    shared one, [range] the order in which it goes over its ACLs.  Or a manager
    is called. *)
Inductive happening :=
| Starts (own : option σ) (cfg : JsonConfig) (range : list (string * string) → list (string * string))
| Calls (o : Spec.op).

Definition start (own : option σ) (cfg : JsonConfig) (range : list (string * string) → list (string * string)) :
    ST σ unit := λ s,
  match own with
  | Some r => NewAclManager r (Some (Ok s)) cfg range
  | None => NewAclManager s None cfg range
  end.

(** The ACLs of a configuration, and the levels they ask for. *)
Definition acls_in (cfg : JsonConfig) : gmap string string :=
  match Get "ACL" (Some ∅) cfg with (acls, true) => default ∅ acls | (_, false) => ∅ end.

Definition levels (acls : gmap string string) : Spec.state := omap (λ role, aclMap !! role) acls.

(** The order in which a start goes over the ACLs of its configuration, and
    those it has configured when it stops at an error. *)
Definition start_list (cfg : JsonConfig) (range : list (string * string) → list (string * string)) :
    list (string * string) :=
  match Get "ACL" (Some (∅ : gmap string string)) cfg with
  | (_, true) => range (map_to_list (acls_in cfg))
  | (_, false) => []
  end.

Fixpoint configured (acls : list (string * string)) (s : σ) : list (string * string) :=
  match acls with
  | [] => []
  | (k, v) :: acls =>
    match Configure k v s with (Ok _, s') => (k, v) :: configured acls s' | _ => [] end
  end.

(** The specification: a start puts the levels of its configuration over what
    there is; one that fails, the levels of the ACLs it came to. *)
Definition happen (h : happening) (s : σ) (sp : Spec.state) : σ * Spec.state :=
  match h with
  | Starts own cfg range =>
    match start own cfg range s with
    | (Ok _, s') => (s', levels (acls_in cfg) ∪ sp)
    | (_, s') => (s', levels (list_to_map (configured (start_list cfg range) s)) ∪ sp)
    end
  | Calls o => let (r, s') := run_op o s in (s', Spec.step o (is_ok r) sp)
  end.

Fixpoint history (hs : list happening) (s : σ) (sp : Spec.state) : σ * Spec.state :=
  match hs with
  | [] => (s, sp)
  | h :: hs => let (s', sp') := happen h s sp in history hs s' sp'
  end.

Definition any_order (h : happening) : Prop :=
  match h with Starts _ _ range => ∀ l, range l ≡ₚ l | Calls _ => True end.
End history.
Arguments happening σ : clear implicits.

(** ** Lemmas *)

Section lemmas.
Context {σ : Type} `{StoreLaws σ}.

Lemma levels_empty : levels ∅ = ∅.
Proof. apply map_eq. intros rsc. unfold levels. by rewrite lookup_omap, !lookup_empty. Qed.

Lemma configured_sub acls : ∀ s : σ, configured acls s `sublist_of` acls.
Proof.
  induction acls as [|[k v] acls IH]; intros s; simpl; [done|].
  destruct (Configure k v s) as [[[]|e|x] s1]; [by constructor|apply sublist_nil_l..].
Qed.

(** What a start that configures [acls] leaves, whether it fails or not. *)
Lemma configure_all_levels acls : ∀ (s s' : σ) sp r,
  NoDup acls.*1 → refines s sp → configure_all acls s = (r, s') →
  refines s' (levels (list_to_map (configured acls s)) ∪ sp) ∧ (is_ok r = true → configured acls s = acls).
Proof.
  induction acls as [|[k v] acls IH]; intros s s' sp r Hnd Hs Hc; simpl in Hc.
  { injection Hc as <- <-. simpl. by rewrite levels_empty, (left_id_L ∅ (∪)). }
  apply NoDup_cons in Hnd as [Hk Hnd]. unfold mbind, st_mbind in Hc. simpl.
  destruct (Configure k v s) as [r1 s1] eqn:E. pose proof (run_op_refines (Spec.OpConfigure k v) s sp r1 s1 Hs E) as Hs1.
  destruct r1 as [[]|e|x]; [|injection Hc as <- <-; simpl; rewrite levels_empty, (left_id_L ∅ (∪)); by split..].
  apply Configure_ok in E as (l & Hr & _). simpl in Hs1. rewrite Hr in Hs1.
  destruct (IH s1 s' _ r Hnd Hs1 Hc) as [HI Hall]. split; [|intros Hok; by rewrite Hall].
  assert (levels (list_to_map ((k, v) :: configured acls s1)) ∪ sp = levels (list_to_map (configured acls s1)) ∪ <[k := l]> sp)
    as ->; [|done].
  assert (k ∉ (configured acls s1).*1) as Hk1.
  { intros Hin. apply Hk. eapply elem_of_sublist; [exact Hin|]. apply fmap_sublist, configured_sub. }
  apply map_eq. intros rsc. unfold levels. simpl.
  rewrite !lookup_union, !lookup_omap. destruct (decide (k = rsc)) as [<-|Hne].
  - rewrite !lookup_insert_eq. rewrite (not_elem_of_list_to_map_1 _ k Hk1). simpl. rewrite Hr. by destruct (sp !! k).
  - by rewrite !lookup_insert_ne.
Qed.

Lemma start_configures own cfg range (s : σ) : start own cfg range s = configure_all (start_list cfg range) s.
Proof.
  unfold start_list, acls_in. destruct own; unfold start, NewAclManager; by destruct (Get "ACL" (Some ∅) cfg) as [acls []].
Qed.

(** The list a start goes over holds each ACL of the configuration once. *)
Lemma acls_list cfg range : (∀ l, range l ≡ₚ l) → start_list cfg range ≡ₚ map_to_list (acls_in cfg).
Proof.
  intros Hr. unfold start_list, acls_in. destruct (Get "ACL" (Some ∅) cfg) as [acls []]; [apply Hr|by rewrite map_to_list_empty].
Qed.

Lemma acls_list_NoDup cfg l : l ≡ₚ map_to_list (acls_in cfg) → NoDup l.*1.
Proof. intros ->. apply NoDup_fst_map_to_list. Qed.

Lemma start_inv own cfg range (s s' : σ) :
  (∀ l, range l ≡ₚ l) → start own cfg range s = (Ok (), s') →
  ∃ l, l ≡ₚ map_to_list (acls_in cfg) ∧ NoDup l.*1 ∧ configure_all l s = (Ok (), s').
Proof.
  intros Hr Hst. rewrite start_configures in Hst. eexists.
  pose proof (acls_list cfg range Hr) as Hl. eauto using acls_list_NoDup.
Qed.

Lemma start_refines own cfg range (s s' : σ) sp r :
  (∀ l, range l ≡ₚ l) → refines s sp → start own cfg range s = (r, s') →
  refines s' (levels (list_to_map (configured (start_list cfg range) s)) ∪ sp) ∧
  (is_ok r = true → list_to_map (configured (start_list cfg range) s) = acls_in cfg) ∧
  (list_to_map (configured (start_list cfg range) s) : gmap string string) ⊆ acls_in cfg.
Proof.
  intros Hr Hs Hst. pose proof (acls_list cfg range Hr) as Hl. pose proof (acls_list_NoDup cfg _ Hl) as Hnd.
  rewrite start_configures in Hst. destruct (configure_all_levels _ _ _ sp r Hnd Hs Hst) as [HR Hok].
  assert (list_to_map (start_list cfg range) = acls_in cfg) as Hm.
  { rewrite <- (list_to_map_to_list (acls_in cfg)). by apply list_to_map_proper. }
  split_and!; [done|intros E; by rewrite Hok|]. rewrite <- Hm. apply map_subseteq_spec. intros k v Hk.
  apply elem_of_list_to_map_2 in Hk. apply elem_of_list_to_map_1; [done|]. eapply elem_of_sublist; [done|apply configured_sub].
Qed.

(** A start succeeds only with roles the manager knows. *)
Lemma start_known own cfg range (s s' : σ) rsc need :
  (∀ l, range l ≡ₚ l) → start own cfg range s = (Ok (), s') →
  acls_in cfg !! rsc = Some need → is_Some (aclMap !! need).
Proof.
  intros Hr (l & Hl & Hnd & Hc)%start_inv Hn; [|done].
  apply configure_all_ok in Hc as [Hin _]; [|done].
  destruct (Hin rsc need) as (r & Hk & _); [|by exists r].
  rewrite Hl. by apply elem_of_map_to_list.
Qed.

(** A read after levels were put over the records. *)
Lemma after_levels (acls : gmap string string) (s s' : σ) sp rsc role :
  refines s sp → refines s' (levels acls ∪ sp) →
  Authorized rsc role s' =
  match acls !! rsc ≫= (λ need, aclMap !! need) with
  | Some l => match aclMap !! role with Some r => (l <=? r)%Z | None => false end
  | None => Authorized rsc role s
  end.
Proof.
  intros Hs Hs'. rewrite (refines_authorized s' _ rsc role Hs'), (refines_authorized s _ rsc role Hs).
  unfold Spec.authorized, levels. rewrite lookup_union, lookup_omap.
  destruct (acls !! rsc) as [need|]; simpl; [destruct (aclMap !! need)|]; by destruct (sp !! rsc).
Qed.

Lemma history_refines hs : ∀ (s s' : σ) sp sp',
  Forall any_order hs → refines s sp → history hs s sp = (s', sp') → refines s' sp'.
Proof.
  induction hs as [|h hs IH]; intros s s' sp sp' Ho Hs Hh; simpl in Hh; [by injection Hh as <- <-|].
  apply Forall_cons in Ho as [Ho Hos].
  destruct (happen h s sp) as [s1 sp1] eqn:E. eapply IH; [done| |exact Hh].
  destruct h as [own cfg range|o]; simpl in E.
  - destruct (start own cfg range s) as [r s2] eqn:Est.
    destruct (start_refines _ _ _ _ _ sp _ Ho Hs Est) as (HR & Hok & _).
    destruct r as [[]|?|?]; injection E as <- <-; [|done..]. by rewrite <- Hok.
  - destruct (run_op o s) as [r s2] eqn:Eo. injection E as <- <-. by eapply run_op_refines.
Qed.
End lemmas.

(** ** Property *)

(** C1: the ACLs of a store over time.  After any history of nodes that start
    on a store that had none, in whatever order they go over their
    configurations, and of calls on their managers, where starts and calls may
    fail, every manager answers from one map: each successful call changes its
    resource, each start puts the levels of its own configuration over the
    rest, and a start that fails those of the ACLs it came to.  So a start
    undoes what was configured or deleted since for the resources it names, for
    all nodes that share the store, and leaves the others; and after a failed
    one every resource is as before or as its configuration asks. *)
Theorem acl_history {σ : Type} `{StoreLaws σ} hs (s0 s : σ) sp :
  (∀ rsc b, store_read GetNamespace rsc s0 ≠ inr b) → Forall any_order hs → history hs s0 ∅ = (s, sp) →
  (∀ rsc role, Authorized rsc role s = Spec.authorized rsc role sp ∧ Allowed rsc s = Spec.allowed rsc sp) ∧
  ∀ own cfg range res s', (∀ l, range l ≡ₚ l) → start own cfg range s = (res, s') →
    ∀ rsc role,
      let asked := ∃ need l, acls_in cfg !! rsc = Some need ∧ aclMap !! need = Some l ∧
        Authorized rsc role s' = match aclMap !! role with Some r => (l <=? r)%Z | None => false end in
      let kept := Authorized rsc role s' = Authorized rsc role s in
      if decide (is_Some (acls_in cfg !! rsc)) then if is_ok res then asked else asked ∨ kept else kept.
Proof.
  intros Hempty Ho Hh. assert (refines s sp) as Hs.
  { eapply history_refines; [exact Ho| |exact Hh]. intros r. by rewrite lookup_empty. }
  split; [intros rsc role; split; [by apply refines_authorized|by apply refines_allowed]|].
  intros own cfg range res s' Hr Hst rsc role asked kept.
  destruct (start_refines _ _ _ _ _ _ _ Hr Hs Hst) as (Hs' & Hok & Hsub).
  pose proof (after_levels _ s s' sp rsc role Hs Hs') as Hafter.
  destruct (decide (is_Some (acls_in cfg !! rsc))) as [[need Hn]|Hn]; [destruct (is_ok res) eqn:Eres|].
  - destruct res as [[]|?|?]; try done. destruct (start_known _ _ _ _ _ _ _ Hr Hst Hn) as [l Hl].
    rewrite (Hok eq_refl), Hn in Hafter. simpl in Hafter. rewrite Hl in Hafter. exists need, l. done.
  - destruct (list_to_map (configured _ s) !! rsc) as [v|] eqn:Ev; [|by right].
    eapply lookup_weaken in Ev as Ev'; [|exact Hsub]. simpl in Hafter. destruct (aclMap !! v) as [l|] eqn:El; [|by right].
    left. by exists v, l.
  - destruct (list_to_map (configured _ s) !! rsc) as [v|] eqn:Ev; [|exact Hafter].
    eapply lookup_weaken in Ev as Ev'; [|exact Hsub]. by destruct Hn.
Qed.

(** A node starts with an ACL that asks for [admin], a manager opens the
    resource to readers, a node whose configuration names a role there is not
    fails to start, and the next start closes the resource again. *)
Definition sample_own : JsonConfig := Some {[ "ACL" := GMapStr (Some {[ "a" := "admin" ]}) ]}.

Definition sample_bad : JsonConfig := Some {[ "ACL" := GMapStr (Some {[ "b" := "nobody" ]}) ]}.

Definition sample_history : list (happening mem_store) :=
  [Starts None sample_own id; Calls (Spec.OpConfigure "a" PublicRead); Calls (Spec.OpConfigure "b" AuthRead);
   Starts None sample_bad id].

Definition sample_now : mem_store * Spec.state := history sample_history ∅ ∅.

Definition sample_next : mem_store := (start None sample_own id sample_now.1).2.

Lemma acl_history_witness :
  Authorized "a" PublicRead sample_now.1 = true ∧ Authorized "a" PublicRead sample_next = false ∧
  Authorized "b" AuthWrite sample_next = true.
Proof.
  destruct (acl_history sample_history (∅ : mem_store) sample_now.1 sample_now.2) as [Hnow Hnext].
  - intros rsc b E. discriminate E.
  - repeat (apply Forall_cons_2; [by simpl|]). apply Forall_nil_2.
  - reflexivity.
  - specialize (Hnext None sample_own id (Ok ()) sample_next (λ _, reflexivity _) eq_refl).
    split; [destruct (Hnow "a" PublicRead) as [-> _]; reflexivity|]. split.
    + specialize (Hnext "a" PublicRead). rewrite decide_True in Hnext by (by vm_compute; eexists).
      destruct Hnext as (need & l & Hn & Hl & ->). vm_compute in Hn. injection Hn as <-. injection Hl as <-. reflexivity.
    + specialize (Hnext "b" AuthWrite). rewrite decide_False in Hnext by (by intros [x Hx]; vm_compute in Hx).
      rewrite Hnext. destruct (Hnow "b" AuthWrite) as [-> _]. reflexivity.
Defined.
