(* ===== verification/Jwt.v ===== *)
(** * Tokens: [modules/auth/jwtManager.go]

    The token library ([golang-jwt]) is not part of the program: it is the
    class [JWTLib], with its documented behaviour in [JWTLaws].  The instance
    [plain_jwt] at the end is a library without cryptography that satisfies the
    laws; it serves to run the manager. *)

From S2P Require Import Prelude Utf8 Json JsonText Files Config.
Local Open Scope Z_scope.

(** ** Claims and the library interface *)

(** The claims of the library's own; times are Unix seconds, and 0 is a claim
    that is absent. *)
Record StandardClaims := mkStandard {
  Audience : string;
  ExpiresAt : Z;
  Id : string;
  IssuedAt : Z;
  Issuer : string;
  NotBefore : Z;
  Subject : string;
}.

Record UserClaims := mkClaims {
  standard : StandardClaims;
  ID : string;
  CRole : string;
  Mtdt : gomap goval;
}.

(** Signing methods, as the type switch of [Verify] tells them apart. *)
Inductive method := HMAC (bits : Z) | RSA (bits : Z) | ECDSA (bits : Z) | MethodNone.
#[export] Instance method_eq_dec : EqDecision method.
Proof. solve_decision. Defined.
Definition SigningMethodHS256 : method := HMAC 256.

(** Claims after a trip through the JSON payload of a token. *)
Definition carried_standard (s : StandardClaims) : StandardClaims :=
  mkStandard (to_valid_utf8 (Audience s)) (ExpiresAt s) (to_valid_utf8 (Id s)) (IssuedAt s)
    (to_valid_utf8 (Issuer s)) (NotBefore s) (to_valid_utf8 (Subject s)).

Definition carried (c : UserClaims) : UserClaims :=
  mkClaims (carried_standard (standard c)) (to_valid_utf8 (ID c)) (to_valid_utf8 (CRole c)) (reloaded <$> Mtdt c).

(** [StandardClaims.Valid]: the token has not expired, was not issued later and
    may be used already, each where the claim is there. *)
Definition live (c : UserClaims) (now : Z) : Prop :=
  (ExpiresAt (standard c) = 0 ∨ now ≤ ExpiresAt (standard c)) ∧
  (IssuedAt (standard c) = 0 ∨ IssuedAt (standard c) ≤ now) ∧
  (NotBefore (standard c) = 0 ∨ NotBefore (standard c) ≤ now).
#[export] Instance live_dec c now : Decision (live c now).
Proof. unfold live. apply _. Defined.

Class JWTLib := {
  (** [NewWithClaims(m, claims).SignedString(key)] *)
  SignedString : method → string → UserClaims → res string;
  (** [ParseWithClaims(token, &UserClaims{}, keyfunc)] at a time in seconds *)
  ParseWithClaims : string → (method → error + string) → Z → error + UserClaims;
  (** the token carries the claims under a valid signature *)
  issued : method → string → UserClaims → string → Prop;
}.

Class JWTLaws `{JWTLib} := {
  signed_issued m k c t : SignedString m k c = Ok t → issued m k (carried c) t;
  parse_sound t kf now c :
    ParseWithClaims t kf now = inr c → ∃ m k, kf m = inr k ∧ issued m k c t ∧ live c now;
  parse_complete m k c t kf now :
    issued m k c t → kf m = inr k → live c now → ParseWithClaims t kf now = inr c;
  issued_unique m k c t m' k' c' : issued m k c t → issued m' k' c' t → m' = m ∧ c' = c;
}.

(** ** The manager *)

(** The [User] interface. *)
Record User := mkUser { user_id : string; user_role : string; user_mtdt : gomap goval }.

Record jwtManager := mkJwtManager { secretKey : string }.

Definition NewJWTManager (c : JsonConfig) : res jwtManager :=
  let (jwtSecret, ok) := Get "JWTSecret" "" c in
  if ok : bool then Ok (mkJwtManager jwtSecret) else Err "JWT Secret not provided".

Section manager.
Context `{JWTLib}.

(** [time.Now().Add(timeout).Unix()], in nanoseconds since the epoch. *)
Definition unix (now : Z) : Z := now `div` 1000000000.

(** Standard claims that only say when the token expires. *)
Definition expiring (e : Z) : StandardClaims := mkStandard "" e "" 0 "" 0 "".

Definition claims_of (user : User) (timeout now : Z) : UserClaims :=
  mkClaims (expiring (unix (now + timeout))) (user_id user) (user_role user) (user_mtdt user).

Definition Generate (manager : jwtManager) (user : User) (timeout now : Z) : res string :=
  SignedString SigningMethodHS256 (secretKey manager) (claims_of user timeout now).

(** The key function of [Verify]. *)
Definition keyfunc (manager : jwtManager) (m : method) : error + string :=
  match m with
  | HMAC _ => inr (secretKey manager)
  | _ => inl "unexpected token signing method"
  end.

(** The claims come back as the [*UserClaims] passed in, so the type assertion
    that follows the parse holds. *)
Definition Verify (manager : jwtManager) (accessToken : string) (now : Z) : error + UserClaims :=
  match ParseWithClaims accessToken (keyfunc manager) (unix now) with
  | inl e => inl ("invalid token: " +:+ e)
  | inr claims => inr claims
  end.

End manager.

(** ** Lemmas *)

Section proofs.
Context `{JWTLaws}.

Lemma keyfunc_ok manager m k : keyfunc manager m = inr k → (∃ b, m = HMAC b) ∧ k = secretKey manager.
Proof. destruct m; try done. intros [= <-]. eauto. Qed.

Lemma Verify_Ok manager t now c :
  Verify manager t now = inr c ↔
  ∃ b, issued (HMAC b) (secretKey manager) c t ∧ live c (unix now).
Proof.
  unfold Verify. split.
  - destruct (ParseWithClaims _ _ _) as [|c'] eqn:Hp; [done|]. intros [= <-].
    apply parse_sound in Hp as (m & k & Hk & Hi & Hl).
    apply keyfunc_ok in Hk as [[b ->] ->]. eauto.
  - intros (b & Hi & Hl). by rewrite (parse_complete _ _ _ _ (keyfunc manager) _ Hi).
Qed.

End proofs.

(** ** Properties *)

(** [Verify] accepts a token only when it was signed with the manager's
    own secret by an HMAC method, and is still live; the claims it returns are
    the signed ones.  A token that names another method is refused. *)
Theorem verify_sound `{JWTLaws} manager t now c :
  Verify manager t now = inr c →
  (∃ b, issued (HMAC b) (secretKey manager) c t) ∧ live c (unix now) ∧
  ∀ m k c', issued m k c' t → (∃ b, m = HMAC b) ∧ c' = c.
Proof.
  intros (b & Hi & Hl)%Verify_Ok. split_and!; [by exists b|done|].
  intros m k c' Hi'. destruct (issued_unique _ _ _ _ _ _ _ Hi Hi') as [-> ->]. eauto.
Qed.

(** C26: a generated token verifies, with the user's own claims, exactly until
    its expiry second: up to it [Verify] returns them, after it it fails. *)
Theorem generate_verify `{JWTLaws} manager user timeout now t now' :
  Generate manager user timeout now = Ok t → unix (now + timeout) ≠ 0 →
  let c := carried (claims_of user timeout now) in
  (unix now' ≤ unix (now + timeout) → Verify manager t now' = inr c) ∧
  (unix (now + timeout) < unix now' → ∀ c', Verify manager t now' ≠ inr c').
Proof.
  intros Hg Hne c. unfold Generate in Hg. apply signed_issued in Hg. split.
  - intros Hle. apply Verify_Ok. exists 256. split; [exact Hg|].
    split_and!; [by right|by left..].
  - intros Hlt c' (b & Hi & Hl)%Verify_Ok.
    destruct (issued_unique _ _ _ _ _ _ _ Hg Hi) as [_ ->].
    destruct Hl as [[Hz|Hl] _]; simpl in *; [congruence|lia].
Qed.

(** ** A library without cryptography *)

Definition method_tag (m : method) : string * Z :=
  match m with
  | HMAC b => ("HS", b) | RSA b => ("RS", b) | ECDSA b => ("ES", b) | MethodNone => ("none", 0)
  end.

Definition plain_token (m : method) (k : string) (c : UserClaims) : json :=
  JObj [("alg", JStr (method_tag m).1); ("bits", JNum (method_tag m).2); ("key", JStr k);
        ("aud", JStr (Audience (standard c))); ("exp", JNum (ExpiresAt (standard c))); ("jti", JStr (Id (standard c)));
        ("iat", JNum (IssuedAt (standard c))); ("iss", JStr (Issuer (standard c)));
        ("nbf", JNum (NotBefore (standard c))); ("sub", JStr (Subject (standard c)));
        ("id", JStr (ID c)); ("role", JStr (CRole c))].

Definition method_of (s : string) (b : Z) : option method :=
  if decide (s = "HS") then Some (HMAC b)
  else if decide (s = "RS") then Some (RSA b)
  else if decide (s = "ES") then Some (ECDSA b)
  else if decide (s = "none" ∧ b = 0) then Some MethodNone
  else None.

Definition plain_read (t : string) : option (method * string * UserClaims) :=
  match parse_text t with
  | Some (JObj [(_, JStr a); (_, JNum b); (_, JStr k); (_, JStr aud); (_, JNum e); (_, JStr jti); (_, JNum iat);
                (_, JStr iss); (_, JNum nbf); (_, JStr sub); (_, JStr i); (_, JStr r)]) =>
    m ← method_of a b; Some (m, k, mkClaims (mkStandard aud e jti iat iss nbf sub) i r None)
  | _ => None
  end.

#[export] Instance plain_jwt : JWTLib := {|
  SignedString m k c :=
    match Mtdt c with
    | Some _ => Err "metadata not supported"
    | None => if decide (valid_utf8 k) then Ok (text_of compact (plain_token m k (carried c)))
              else Err "key not supported"
    end;
  ParseWithClaims t kf now :=
    match plain_read t with
    | None => inl "token is malformed"
    | Some (m, k, c) =>
      match kf m with
      | inl e => inl e
      | inr key =>
        if decide (key = k) then if decide (live c now) then inr c else inl "token is not valid now"
        else inl "signature is invalid"
      end
    end;
  issued m k c t := plain_read t = Some (m, k, c);
|}.

Lemma method_of_tag m : method_of (method_tag m).1 (method_tag m).2 = Some m.
Proof. by destruct m. Qed.

Lemma plain_read_token m k c :
  valid_utf8 k →
  plain_read (text_of compact (plain_token m k (carried c))) =
    Some (m, k, mkClaims (carried_standard (standard c)) (to_valid_utf8 (ID c)) (to_valid_utf8 (CRole c)) None).
Proof.
  intros Hk. unfold plain_read. rewrite parse_text_of; [|apply compact_ws|].
  - unfold plain_token. cbv iota beta. rewrite method_of_tag. done.
  - unfold plain_token.
    constructor. repeat (constructor; [split; [reflexivity|]|]); [..|constructor];
      constructor; try done; try apply to_valid_utf8_valid. by destruct m.
Qed.

#[export] Instance plain_jwt_laws : JWTLaws.
Proof.
  split.
  - intros m k c t. simpl. destruct (Mtdt c) eqn:Hm; [done|]. case_decide as Hk; [|done].
    intros [= <-]. rewrite plain_read_token by done. unfold carried. by rewrite Hm.
  - intros t kf now c. simpl. destruct (plain_read t) as [[[m k] c']|] eqn:Hr; [|done].
    destruct (kf m) as [|key] eqn:Hkf; simpl; [done|].
    repeat case_decide; try done. intros [= <-]. subst. eauto.
  - intros m k c t kf now. simpl. intros -> Hk Hl. rewrite Hk. simpl.
    by rewrite !decide_True.
  - intros m k c t m' k' c'. simpl. intros -> [= <- _ <-]. done.
Qed.

Definition sample_manager : jwtManager := mkJwtManager "dummySecret".
Definition sample_user : User := mkUser "dummyID" "admin" None.
Definition second : Z := 1000000000.
Definition sample_token : string :=
  match Generate sample_manager sample_user (5 * second) (100 * second) with
  | Ok t => t
  | _ => ""
  end.

Lemma generate_verify_witness :
  Verify sample_manager sample_token (105 * second) = inr (mkClaims (expiring 105) "dummyID" "admin" None) ∧
  ∀ c, Verify sample_manager sample_token (106 * second) ≠ inr c.
Proof.
  split.
  - apply (generate_verify sample_manager sample_user (5 * second) (100 * second)
      sample_token (105 * second)); by vm_compute.
  - apply (generate_verify sample_manager sample_user (5 * second) (100 * second)
      sample_token (106 * second)); by vm_compute.
Defined.

Lemma verify_sound_witness :
  live (mkClaims (expiring 105) "dummyID" "admin" None) (unix (105 * second)).
Proof.
  apply (verify_sound sample_manager sample_token (105 * second)). by vm_compute.
Defined.
