(* ===== verification/AuthGate.v ===== *)
(** * The authorization gates: [modules/node/grpc/middleware.go] and
      [modules/node/http/middleware.go]

    Both servers put a check in front of their handlers.  The check sees the
    ACL manager and the token manager through the Go interfaces [ACL] and
    [JWTManager], which are records here; [acl_of] and [jwt_of] are the
    managers of [Acl] and [Jwt] as such interfaces. *)

From S2P Require Import Prelude Utf8 Json JsonText Files HttpMux Config Acl Jwt.

(** ** Interfaces *)

Record ACL := mkACL {
  acl_Authorized : string → Role → bool;
  acl_Allowed : string → list Role;
}.

Record JWTManager := mkJWT { jwt_Verify : string → error + UserClaims }.

Definition acl_of `{Store σ} (s : σ) : ACL :=
  mkACL (λ rsc role, Authorized rsc role s) (λ rsc, Allowed rsc s).

Definition jwt_of `{JWTLib} (manager : jwtManager) (now : Z) : JWTManager :=
  mkJWT (λ t, Verify manager t now).

(** ** gRPC *)

Inductive code := Unauthenticated | PermissionDenied | Unknown.
Record status_err := mkStatus { st_code : code; st_msg : string }.

(** The metadata of the incoming context; [None] when there is none. *)
Abbreviation metadata := (option (gmap string (list string))).

Record AuthInterceptor := mkInterceptor { jm : JWTManager; am : ACL }.

Definition NewAuthInterceptor (jm : JWTManager) (am : ACL) : AuthInterceptor :=
  mkInterceptor jm am.

(** [authorize]: [None] is the nil error. *)
Definition authorize (i : AuthInterceptor) (md : metadata) (method : string) : option status_err :=
  let roles := acl_Allowed (am i) method in
  if decide (None_ ∈ roles) then None
  else
    match md with
    | None => Some (mkStatus Unauthenticated "metadata is not provided")
    | Some md =>
      match default [] (md !! "authorization") with
      | [] => Some (mkStatus Unauthenticated "authorization token is not provided")
      | accessToken :: _ =>
        match jwt_Verify (jm i) accessToken with
        | inr claims =>
          if decide (CRole claims ∈ roles) then None
          else Some (mkStatus PermissionDenied "no permission to access this RPC")
        | inl e => Some (mkStatus Unauthenticated ("access token is invalid: " +:+ e))
        end
      end
    end.

(** The interceptors: the error of the check, or what the handler returns. *)
Definition Unary {Req Resp : Type} (i : AuthInterceptor) (md : metadata) (req : Req)
    (FullMethod : string) (handler : metadata → Req → Resp) : status_err + Resp :=
  match authorize i md FullMethod with
  | Some err => inl err
  | None => inr (handler md req)
  end.

Definition Stream {Str Resp : Type} (i : AuthInterceptor) (context : Str → metadata)
    (stream : Str) (FullMethod : string) (handler : Str → Resp) : status_err + Resp :=
  match authorize i (context stream) FullMethod with
  | Some err => inl err
  | None => inr (handler stream)
  end.

(** ** HTTP *)

(** A request: of its URL what stands before the path (the scheme and the
    authority of an absolute one, nothing of one that begins with its path), the
    path as the client wrote it, whether there is a [?] with nothing after it
    ([ForceQuery]), and the raw query; and its headers with canonical names. *)
Record request := mkRequest {
  req_origin : string;
  req_path : string;
  req_force : bool;
  req_query : string;
  req_header : gmap string (list string);
}.

(** [r.URL.String()] of a request a server received. *)
Definition URL_String (r : request) : string :=
  req_origin r +:+ EscapedPath (req_path r) +:+
  (if req_force r || negb (String.eqb (req_query r) "") then "?" +:+ req_query r else "").

(** [r.Header.Get(key)]. *)
Definition Header_Get (key : string) (r : request) : string :=
  match default [] (req_header r !! key) with
  | [] => ""
  | v :: _ => v
  end.

Definition space : Ascii.ascii := Ascii.ascii_of_nat 32.

Definition http_Split : string → list string :=
  fix go s :=
    match s with
    | EmptyString => [""]
    | String c s' =>
      if Ascii.eqb c space then "" :: go s'
      else match go s' with
           | [] => [String c ""]
           | w :: ws => String c w :: ws
           end
    end.

Inductive outcome (R : Type) :=
| Served (r : R)
| HttpError (status : Z) (msg : string).
Arguments Served {R} r.
Arguments HttpError {R} status msg.

Definition StatusBadRequest : Z := 400.
Definition StatusUnauthorized : Z := 401.

(** The [JWT] middleware around the handler [next]. *)
Definition JWT {R : Type} (jm : JWTManager) (am : ACL) (next : request → R) (r : request) :
    outcome R :=
  let roles := acl_Allowed am (URL_String r) in
  if decide (None_ ∈ roles) then Served (next r)
  else
    match http_Split (Header_Get "Authorization" r) with
    | [_; accessToken] =>
      match jwt_Verify jm accessToken with
      | inr claims =>
        if decide (CRole claims ∈ roles) then Served (next r)
        else HttpError StatusUnauthorized "invalid role for resource"
      | inl e => HttpError StatusUnauthorized ("failed verifying token: " +:+ e)
      end
    | _ => HttpError StatusBadRequest "token is absent"
    end.

(** ** Lemmas *)

(** The policy both gates enforce: the resource is open, or the caller's
    verified role is allowed. *)
Definition admitted (am : ACL) (rsc : string) (claims : option UserClaims) : Prop :=
  None_ ∈ acl_Allowed am rsc ∨ ∃ c, claims = Some c ∧ CRole c ∈ acl_Allowed am rsc.

Definition verified (jm : JWTManager) (token : option string) : option UserClaims :=
  t ← token; match jwt_Verify jm t with inr c => Some c | inl _ => None end.

Definition grpc_token (md : metadata) : option string :=
  m ← md; head (default [] (m !! "authorization")).

Definition http_token (r : request) : option string :=
  match http_Split (Header_Get "Authorization" r) with
  | [_; t] => Some t
  | _ => None
  end.

Lemma authorize_admitted i md rsc :
  authorize i md rsc = None ↔ admitted (am i) rsc (verified (jm i) (grpc_token md)).
Proof.
  unfold authorize, admitted, verified, grpc_token.
  case_decide as Hn; [tauto|].
  destruct md as [md|]; simpl; [|naive_solver].
  destruct (default [] (md !! "authorization")) as [|t ts]; simpl; [naive_solver|].
  destruct (jwt_Verify (jm i) t) as [|c]; simpl; [naive_solver|].
  case_decide; naive_solver.
Qed.

Lemma JWT_admitted {R} jm am (next : request → R) r :
  JWT jm am next r = Served (next r) ↔ admitted am (URL_String r) (verified jm (http_token r)).
Proof.
  unfold JWT, admitted, verified, http_token.
  case_decide as Hn; [tauto|].
  destruct (http_Split _) as [|w [|t [|]]]; simpl; try naive_solver.
  destruct (jwt_Verify jm t) as [|c]; simpl; [naive_solver|].
  case_decide; naive_solver.
Qed.

Lemma JWT_served {R} jm am (next : request → R) r x :
  JWT jm am next r = Served x → x = next r.
Proof. unfold JWT. repeat case_match; naive_solver. Qed.

(** A role the ACL manager may list is a role of the system. *)
Lemma allowed_known `{StoreLaws σ} (s : σ) sp rsc role :
  refines s sp → role ∈ Allowed rsc s →
  is_Some (aclMap !! role) ∧ Authorized rsc role s = true.
Proof.
  intros Hs Hel. rewrite (refines_authorized s sp) by done.
  rewrite (refines_allowed s sp) in Hel by done.
  unfold Spec.allowed, Spec.authorized in *. destruct (sp !! rsc) as [l|].
  - apply list_elem_of_filter in Hel as [[[r Hr] Hl] _]. rewrite Hr in Hl |- *.
    split; [done|]. by apply Z.leb_le.
  - split; [|done]. rewrite !elem_of_cons, elem_of_nil in Hel.
    destruct Hel as [-> | [-> | [-> | [-> | [-> | [-> | []]]]]]]; unfold aclMap;
      [exists noRole|exists pubRead|exists pubWrite|exists authRead|exists authWrite|exists admin];
      reflexivity.
Qed.

Lemma allowed_authorized `{StoreLaws σ} (s : σ) sp rsc role :
  refines s sp →
  role ∈ Allowed rsc s ↔ is_Some (aclMap !! role) ∧ Authorized rsc role s = true.
Proof.
  intros Hs. split; [by eapply allowed_known|]. intros [[r Hr] Ha].
  rewrite (refines_authorized s sp) in Ha by done. rewrite (refines_allowed s sp) by done.
  unfold Spec.allowed, Spec.authorized in *. rewrite Hr in Ha.
  assert (role ∈ [Admin; AuthWrite; AuthRead; PublicWrite; PublicRead; None_]) as Hel.
  { apply elem_of_dom_2 in Hr. unfold aclMap in Hr.
    rewrite !dom_insert_L, dom_singleton_L in Hr. set_solver. }
  destruct (sp !! rsc) as [l|]; [|set_solver].
  apply list_elem_of_filter. rewrite Hr. apply Z.leb_le in Ha. split; [|done]. by split.
Qed.

Lemma admitted_authorized `{StoreLaws σ} (s : σ) sp rsc claims :
  refines s sp →
  admitted (acl_of s) rsc claims ↔
    Authorized rsc None_ s = true ∨
    ∃ c, claims = Some c ∧ is_Some (aclMap !! CRole c) ∧ Authorized rsc (CRole c) s = true.
Proof.
  intros Hs. unfold admitted. simpl. setoid_rewrite (allowed_authorized s sp); [|done..].
  assert (is_Some (aclMap !! None_)) by (exists noRole; reflexivity). naive_solver.
Qed.

(** ** Properties *)

Section gates.
Context {σ : Type} `{StoreLaws σ} `{JWTLaws}.

(** C3: a unary call reaches its handler exactly when the ACL manager opens
    the method to everyone, or the first authorization value of the call is a
    live token, signed with the service's secret by an HMAC method, whose role
    is one of the system and authorized for the method.  Otherwise the caller
    gets the error and the handler does not run. *)
Theorem grpc_gate {Req Resp} (s : σ) sp manager now md (req : Req) meth
    (handler : metadata → Req → Resp) :
  refines s sp →
  let i := NewAuthInterceptor (jwt_of manager now) (acl_of s) in
  (Unary i md req meth handler = inr (handler md req) ↔
     Authorized meth None_ s = true ∨
     ∃ t c b, grpc_token md = Some t ∧ issued (HMAC b) (secretKey manager) c t ∧
       live c (unix now) ∧ is_Some (aclMap !! CRole c) ∧ Authorized meth (CRole c) s = true) ∧
  ((∃ err, Unary i md req meth handler = inl err) ∨
     Unary i md req meth handler = inr (handler md req)).
Proof.
  intros Hs i. split; [|unfold Unary; destruct (authorize i md meth); eauto].
  transitivity (authorize i md meth = None).
  { unfold Unary. by destruct (authorize i md meth). }
  rewrite authorize_admitted. simpl. rewrite (admitted_authorized s sp) by done.
  unfold verified. simpl. split; (intros [?|Hc]; [by left|right]).
  - destruct Hc as (c & Hv & Hk & Ha). destruct (grpc_token md) as [t|]; [|done]. simpl in Hv.
    destruct (Verify manager t now) as [|c'] eqn:Hver; simplify_eq.
    apply Verify_Ok in Hver as (b & Hi & Hl). exists t, c, b. done.
  - destruct Hc as (t & c & b & -> & Hi & Hl & Hk & Ha). exists c. split; [|done]. simpl.
    assert (Verify manager t now = inr c) as -> by (apply Verify_Ok; eauto). done.
Qed.

(** C6: the two servers enforce the same policy: with the same token, the
    HTTP middleware serves a request exactly when the gRPC interceptor lets a
    call of a method with the name of the request's URL through. *)
Theorem http_grpc_same_policy {R} (jm : JWTManager) (am : ACL) (next : request → R) r md :
  grpc_token md = http_token r →
  (JWT jm am next r = Served (next r) ↔
     authorize (NewAuthInterceptor jm am) md (URL_String r) = None) ∧
  (∀ x, JWT jm am next r = Served x → x = next r).
Proof.
  intros Ht. split; [|intros x; apply JWT_served].
  rewrite JWT_admitted, authorize_admitted, Ht. done.
Qed.

(** An ACL on a path does not protect the path of a URL that has a query, even
    an empty one, or is written with scheme and host: the middleware looks up the
    whole URL, finds no record for it and serves the request without a token. *)
Theorem http_query_bypass {R} (s : σ) sp manager now origin path force query l (next : request → R) header :
  refines s sp → sp !! path = Some l →
  let r := mkRequest origin path force query header in
  sp !! URL_String r = None →
  JWT (jwt_of manager now) (acl_of s) next r = Served (next r).
Proof.
  intros Hs _ r Hnone. apply JWT_admitted. left. simpl.
  rewrite (refines_allowed s sp) by done. unfold Spec.allowed. rewrite Hnone. left.
Qed.

End gates.

(** ** Witnesses *)

Definition sample_admin_only : mem_store := (Configure "/admin" Admin (∅ : mem_store)).2.

Lemma sample_admin_only_refines : refines sample_admin_only {[ "/admin" := 5%Z ]}.
Proof.
  apply (run_op_refines (Spec.OpConfigure "/admin" Admin) ∅ ∅ (Ok ()));
    [intros rsc; by rewrite lookup_empty|reflexivity].
Qed.

Definition sample_md (t : string) : metadata := Some {[ "authorization" := [t] ]}.

Lemma grpc_gate_witness :
  let i := NewAuthInterceptor (jwt_of sample_manager (101 * second)) (acl_of sample_admin_only) in
  Unary i (sample_md sample_token) 7 "/admin" (λ _ n, n + 1) = inr 8.
Proof.
  apply (grpc_gate sample_admin_only _ sample_manager (101 * second) (sample_md sample_token) 7
    "/admin" (λ _ n, n + 1) sample_admin_only_refines).
  right. exists sample_token, (mkClaims (expiring 105) "dummyID" "admin" None), 256%Z.
  split_and!; try by vm_compute.
  - refine (bool_decide_unpack _ _). by vm_compute.
  - by exists 5%Z.
Defined.

Definition sample_request (query : string) : request :=
  mkRequest "" "/admin" false query {[ "Authorization" := ["Bearer " +:+ sample_token] ]}.

Lemma http_grpc_same_policy_witness :
  JWT (jwt_of sample_manager (101 * second)) (acl_of sample_admin_only) id (sample_request "")
  = Served (sample_request "").
Proof.
  apply (http_grpc_same_policy (jwt_of sample_manager (101 * second)) (acl_of sample_admin_only) id
    (sample_request "") (sample_md sample_token)); by vm_compute.
Defined.

Lemma http_query_bypass_witness :
  JWT (jwt_of sample_manager 0) (acl_of sample_admin_only) req_path (mkRequest "" "/admin" true "" ∅)
  = Served "/admin".
Proof.
  apply (http_query_bypass sample_admin_only {[ "/admin" := 5%Z ]} sample_manager 0 "" "/admin" true "" 5);
    [exact sample_admin_only_refines|by vm_compute..].
Defined.
