(* ===== verification/Datastore.v ===== *)
(** * Mounted datastores: [modules/repo/fsrepo/datastore.go]

    [openDatastoreFromCfg] opens one datastore per entry of the [Mounts]
    setting and mounts them together; if that returns an error it closes what
    it has opened.  The datastore packages are not part of the program: [ds_env] has
    what they answer.  A datastore that was opened is a handle, numbered in the
    order of opening. *)

From S2P Require Import Prelude Utf8 Json JsonText Files Config.

(** ** The environment and the state *)

Record ds_env := mkDsEnv {
  leveldb_NewDatastore : string → res unit;
  flatfs_ParseShardFunc : string → res string;
  flatfs_CreateOrOpen : string → string → bool → res unit;
  NewKey : string → string;                     (* ds.NewKey(prefix).String() *)
  DiskUsage : nat → option (res Z);             (* ds.PersistentDatastore *)
  oldDiskUsage : nat → option (res Z);          (* oldPersistentDs *)
  close_ds : nat → option error;
}.

(** The files, the handles opened so far and the handles closed so far. *)
Record ds_state := mkDsState { dfs : fs; opened : nat; closed : list nat }.

Record Mount := mkMount { Prefix : string; Datastore : nat }.

Record mountedDS := mkMounted { Batching : list Mount; mnts : gmap string Mount }.

Record MountInfo := mkMountInfo { mi_Path : string; mi_Prefix : string; mi_Usage : Z }.

Definition defaultShard : string := "/repo/flatfs/shard/v1/next-to-last/2".

Definition DefaultMountInfo : gmap string goval :=
  {[ "level" := GMap [("path", GString "kv"); ("prefix", GString "/")];
     "flatfs" := GMap [("path", GString "blocks"); ("prefix", GString "blocks");
                       ("shardFunc", GString defaultShard); ("sync", GBool true)] ]}.

(** ** Operations *)

Section datastore.
Context (env : ds_env).

(** A datastore was opened: it gets the next handle. *)
Definition new_handle : ST ds_state nat := λ s,
  (Ok (opened s), mkDsState (dfs s) (S (opened s)) (closed s)).

Definition on_fs {A : Type} (c : ST fs A) : ST ds_state A := λ s,
  let (r, f) := c (dfs s) in (r, mkDsState f (opened s) (closed s)).

(** The [switch k] of the loop. *)
Definition open_one (k path : string) (dCfg : list (string * goval)) : ST ds_state nat :=
  if decide (k = "level") then
    _ ← st_lift (leveldb_NewDatastore env path); new_handle
  else if decide (k = "flatfs") then
    let sFn := match assoc_get "shardFunc" dCfg with Some (GString f) => f | _ => defaultShard end in
    let sn := match assoc_get "sync" dCfg with Some (GBool b) => b | _ => true end in
    sf ← st_lift (flatfs_ParseShardFunc env sFn);
    _ ← st_lift (flatfs_CreateOrOpen env path sf sn); new_handle
  else st_fail "Invalid datastore type".

(** One round of the loop: the path of the mount and the mount. *)
Definition open_mount (root k : string) (v : goval) : ST ds_state (string * Mount) :=
  match v with
  | GMap dCfg =>
    match assoc_get "prefix" dCfg with
    | Some (GString prefix) =>
      path ← match assoc_get "path" dCfg with
             | Some (GString p) =>
               let path := join_path root p in
               _ ← on_fs (MkdirIfNotExists path); mret path
             | _ => mret root
             end;
      h ← open_one k path dCfg;
      mret (path, mkMount (NewKey env prefix) h)
    | _ => st_fail "Prefix missing for datastore"
    end
  | _ => st_fail "Sub DS config missing for datastore"
  end.

(** The loop, with the mounts appended so far and the map from paths. *)
Fixpoint open_mounts (root : string) (todo : list (string * goval)) (acc : mountedDS) :
    ds_state → (res unit * mountedDS) * ds_state :=
  match todo with
  | [] => λ s, ((Ok (), acc), s)
  | (k, v) :: todo => λ s,
    match open_mount root k v s with
    | (Ok (path, m), s') =>
      open_mounts root todo (mkMounted (Batching acc ++ [m]) (<[path := m]> (mnts acc))) s'
    | (Err e, s') => ((Err e, acc), s')
    | (Panic p, s') => ((Panic p, acc), s')
    end
  end.

(** [v.Datastore.Close()] for every mount; the errors are dropped. *)
Definition close_all (ms : list Mount) (s : ds_state) : ds_state :=
  mkDsState (dfs s) (opened s) (closed s ++ (Datastore <$> ms)).

(** The deferred function looks at the error that is returned: while a panic of
    one of the packages unwinds the stack there is none, and nothing is
    closed. *)
Definition openDatastoreFromCfg (root : string) (c : JsonConfig)
    (range : list (string * goval) → list (string * goval)) : ST ds_state mountedDS := λ s,
  let mntInfo :=
    match Get "Mounts" (Some ∅) c with
    | (m, true) => default ∅ m
    | (_, false) => DefaultMountInfo
    end in
  match open_mounts root (range (map_to_list mntInfo)) (mkMounted [] ∅) s with
  | ((Ok _, m), s') => (Ok m, s')
  | ((Err e, m), s') => (Err e, close_all (Batching m) s')
  | ((Panic p, m), s') => (Panic p, s')
  end.

(** [Mounts]: the entries of a mount, in the order Go ranges over the map. *)
Definition usage_of (k : string) (v : Mount) (u : option (res Z)) (acc : list MountInfo) :
    res (list MountInfo) :=
  match u with
  | None => Ok acc
  | Some (Ok usg) => Ok (acc ++ [mkMountInfo k (Prefix v) usg])
  | Some (Err e) => Err e
  | Some (Panic p) => Panic p
  end.

Fixpoint mount_infos (todo : list (string * Mount)) (acc : list MountInfo) : res (list MountInfo) :=
  match todo with
  | [] => Ok acc
  | (k, v) :: todo =>
    acc ← usage_of k v (DiskUsage env (Datastore v)) acc;
    acc ← usage_of k v (oldDiskUsage env (Datastore v)) acc;
    mount_infos todo acc
  end.

Definition Mounts (m : mountedDS) (range : list (string * Mount) → list (string * Mount)) :
    res (list MountInfo) :=
  mount_infos (range (map_to_list (mnts m))) [].

(** ** Lemmas *)

Lemma open_one_spec k path dCfg s r s' :
  open_one k path dCfg s = (r, s') →
  dfs s' = dfs s ∧ closed s' = closed s ∧
  match r with
  | Ok h => h = opened s ∧ opened s' = S (opened s)
  | _ => opened s' = opened s
  end.
Proof.
  unfold open_one, mbind, st_mbind, st_lift, st_fail, new_handle. intros Hr.
  repeat (case_match; simplify_eq/=; try done); by split_and!.
Qed.

Lemma open_mount_spec root k v s r s' :
  open_mount root k v s = (r, s') →
  closed s' = closed s ∧
  match r with
  | Ok (_, m) => Datastore m = opened s ∧ opened s' = S (opened s)
  | _ => opened s' = opened s
  end.
Proof.
  unfold open_mount. destruct v; try (intros [= <- <-]; done).
  destruct (assoc_get "prefix" l) as [[]|]; try (intros [= <- <-]; done).
  unfold mbind, st_mbind. intros Hr.
  match type of Hr with
  | match ?c s with _ => _ end = _ => destruct (c s) as [rp s1] eqn:Hp
  end.
  assert (closed s1 = closed s ∧ opened s1 = opened s) as [Hc Ho].
  { destruct (assoc_get "path" l) as [[]|]; try (injection Hp as <- <-; done).
    unfold on_fs in Hp. destruct (MkdirIfNotExists _ _) as [[] ?];
      injection Hp as <- <-; done. }
  destruct rp as [path|e|p]; [|injection Hr as <- <-; split; congruence..].
  destruct (open_one k path l s1) as [rh s2] eqn:Hone.
  apply open_one_spec in Hone as (_ & Hc2 & Ho2).
  destruct rh as [h|e|p]; injection Hr as <- <-; simpl; [destruct Ho2 as [-> Ho2]|..];
    (split; [congruence|]); rewrite ?Ho2, ?Ho; done.
Qed.

(** The loop opens handles in order and closes none; its mounts are the ones
    it was given and one per handle it opened. *)
Lemma open_mounts_spec root todo : ∀ acc s r m s',
  open_mounts root todo acc s = ((r, m), s') →
  closed s' = closed s ∧ (opened s ≤ opened s')%nat ∧
  Datastore <$> Batching m = (Datastore <$> Batching acc) ++ seq (opened s) (opened s' - opened s) ∧
  (r = Ok () → opened s' = (opened s + length todo)%nat).
Proof.
  induction todo as [|[k v] todo IH]; intros acc s r m s' Hr; simpl in Hr.
  { injection Hr as <- <- <-. rewrite Nat.sub_diag. simpl. rewrite app_nil_r.
    split_and!; [done..|]. intros _. lia. }
  destruct (open_mount root k v s) as [rm s1] eqn:Hone.
  apply open_mount_spec in Hone as [Hc Ho].
  destruct rm as [[path mt]|e|p].
  - destruct Ho as [Hd Ho]. apply IH in Hr as (Hc' & Hle & Hms & Hok). simpl in Hms.
    split_and!; [congruence|lia| |].
    + rewrite Hms, fmap_app, <- (assoc_L (++)). f_equal. simpl. rewrite Hd, Ho.
      replace (opened s' - opened s)%nat with (S (opened s' - S (opened s))) by lia. done.
    + intros ->. rewrite Hok by done. simpl. lia.
  - injection Hr as <- <- <-. rewrite Ho, Nat.sub_diag. simpl. rewrite app_nil_r. done.
  - injection Hr as <- <- <-. rewrite Ho, Nat.sub_diag. simpl. rewrite app_nil_r. done.
Qed.

(** The handles of a call: mounted if it succeeds, closed if it returns an
    error, left open if it panics. *)
Lemma openDatastoreFromCfg_handles root c range s r s' :
  openDatastoreFromCfg root c range s = (r, s') →
  (opened s ≤ opened s')%nat ∧
  match r with
  | Ok m => closed s' = closed s ∧
            Datastore <$> Batching m = seq (opened s) (opened s' - opened s)
  | Err _ => closed s' = closed s ++ seq (opened s) (opened s' - opened s)
  | Panic _ => closed s' = closed s
  end.
Proof.
  unfold openDatastoreFromCfg.
  destruct (open_mounts _ _ _ _) as [[r0 m] s1] eqn:Hm.
  apply open_mounts_spec in Hm as (Hc & Hle & Hms & _). simpl in Hms.
  destruct r0 as [[]|e|p]; intros [= <- <-]; simpl; rewrite ?Hc, ?Hms; done.
Qed.

End datastore.

(** ** Properties *)

(** C31: opening the datastores leaks none when it returns an error: exactly the
    handles it opened are closed, each once.  If it succeeds it closes nothing
    and mounts one datastore per entry of the configuration.  Only a panic of
    one of the datastore packages leaks: then nothing is closed. *)
Theorem open_datastore_no_leak env root c range s r s' :
  (∀ l, range l ≡ₚ l) →
  openDatastoreFromCfg env root c range s = (r, s') →
  match r with
  | Ok m =>
    closed s' = closed s ∧
    Datastore <$> Batching m = seq (opened s) (opened s' - opened s) ∧
    opened s' = (opened s + size (match Get "Mounts" (Some ∅) c with
                                  | (m, true) => default ∅ m
                                  | (_, false) => DefaultMountInfo
                                  end : gmap string goval))%nat
  | Err _ => closed s' = closed s ++ seq (opened s) (opened s' - opened s)
  | Panic _ => closed s' = closed s
  end.
Proof.
  intros Hrange Hopen. pose proof (openDatastoreFromCfg_handles _ _ _ _ _ _ _ Hopen) as [_ H].
  destruct r as [m|e|p]; [|done..]. destruct H as [Hc Hh]. split_and!; [done..|].
  revert Hopen. unfold openDatastoreFromCfg.
  set (info := match Get "Mounts" (Some ∅) c with (m, true) => _ | _ => _ end).
  destruct (open_mounts _ _ _ _ _) as [[r0 m0] s1] eqn:Hm.
  apply open_mounts_spec in Hm as (_ & _ & _ & Hok).
  destruct r0 as [[]|e|p]; intros [= <- <-]. rewrite Hok by done. f_equal.
  rewrite (Hrange (map_to_list info)). apply length_map_to_list.
Qed.

Definition sample_env : ds_env := mkDsEnv (λ _, Ok ()) Ok
  (λ p _ _, Err "disk full") (λ p, p) (λ _, Some (Ok 0%Z)) (λ _, None) (λ _, None).

Definition sample_ds_state : ds_state := mkDsState sample_fs 0 [].

(** The default mounts, with a disk that has no room for the blocks. *)
Lemma open_datastore_no_leak_witness :
  closed (openDatastoreFromCfg sample_env "repo" DefaultConfig reverse sample_ds_state).2 = [0%nat].
Proof.
  pose proof (open_datastore_no_leak sample_env "repo" DefaultConfig reverse sample_ds_state
    (Err "disk full")
    (openDatastoreFromCfg sample_env "repo" DefaultConfig reverse sample_ds_state).2) as H.
  simpl in H. rewrite H; [by vm_compute|intros l; apply reverse_Permutation|by vm_compute].
Defined.
