(* ===== verification/FsRepo.v ===== *)
(** * The on-disk repository: [modules/repo/fsrepo/fsrepo.go]

    Repositories are shared objects: [opener.ActiveMap] maps a path to the one
    open repository and its reference count, and every caller of [Open] gets a
    pointer to it.  The state has the objects on a heap, so that sharing is
    visible.  Every exported function runs under [pkgLock]: each is one atomic
    step of the package; [CreateOrOpen] is three of them. *)

From S2P Require Import Prelude Utf8 Json JsonText Files Config Base64 Options Datastore.

(** ** State *)

Record fsRepo := mkFsRepo {
  path : string;
  cfg : JsonConfig;
  rootDS : option mountedDS;
  kvStore : bool;            (* whether the KV store is open (non-nil) *)
}.

Record ActiveRepo := mkActive { Active : nat; RefCnt : Z }.

(** [dstate]: the disk and the datastore handles; [heap]: the repository
    objects; [ActiveMap]: the opener. *)
Record world := mkWorld {
  dstate : ds_state;
  heap : gmap nat fsRepo;
  fresh : nat;
  ActiveMap : gmap string ActiveRepo;
}.

Definition wfs (w : world) : fs := dfs (dstate w).
Definition set_dstate (s : ds_state) (w : world) : world :=
  mkWorld s (heap w) (fresh w) (ActiveMap w).
Definition set_heap (h : gmap nat fsRepo) (w : world) : world :=
  mkWorld (dstate w) h (fresh w) (ActiveMap w).
Definition set_active (m : gmap string ActiveRepo) (w : world) : world :=
  mkWorld (dstate w) (heap w) (fresh w) m.

Definition with_ds {A : Type} (c : ST ds_state A) : ST world A := λ w,
  let (r, s) := c (dstate w) in (r, set_dstate s w).
Definition with_fs {A : Type} (c : ST fs A) : ST world A := with_ds (on_fs c).

(** What the key, mount and store packages answer: the bytes of a fresh private
    key and the identifier of its public half; wrapping the mounted datastore
    into a KV store ([namespace.Wrap] and [ipfsdsStore.New]); the mounts that
    closing the store and closing the mounted datastore close, with the error;
    the message of a [multierror]; the order of ranging over a map. *)
Record repo_env := mkRepoEnv {
  dsenv : ds_env;
  new_key : res string;
  new_id : res string;
  new_store : option mountedDS → res unit;
  store_Close : option mountedDS → list Mount * option error;
  mount_Close : mountedDS → list Mount * option error;
  multierror : list error → error;
  map_range : list (string * goval) → list (string * goval);
}.

(** ** Paths and initialisation *)

Definition datastorePath (root : string) : string := join_path root "datastore".
Definition configPath (root : string) : string := join_path root "config.json".

Section repo.
Context (env : repo_env).

Definition initRepo (path : string) : ST world unit :=
  _ ← with_fs (MkdirIfNotExists path);
  with_fs (MkdirIfNotExists (datastorePath path)).

Definition initIdentity (c : JsonConfig) : res JsonConfig :=
  skbytes ← new_key env;
  id ← new_id env;
  Set_ "Identity" (identity_record skbytes id) c.

Definition isInitialized (path : string) (w : world) : bool := Exists (configPath path) (wfs w).

Definition IsInitialized (path : string) (w : world) : bool := isInitialized path w.

(** [Init] writes the configuration; a missing identity is added to the
    caller's own configuration object, which is returned. *)
Definition Init (path : string) (c : JsonConfig) : ST world JsonConfig := λ w,
  if isInitialized path w then (Err "already initialized", w)
  else
    (_ ← st_wrap "failed creating directories" (initRepo path);
     c' ← (if (Get "Identity" (Some (∅ : gmap string goval)) c).2 then mret c
           else st_lift (wrap "failed creating identity" (initIdentity c)));
     confRdr ← st_lift (wrap "failed reading config" (Reader c'));
     _ ← st_wrap "failed creating config" (with_fs (WriteToFile confRdr (configPath path)));
     mret c') w.

(** ** Opening *)

Definition openConfig (f : fsRepo) (w : world) : res fsRepo :=
  if Exists (configPath (path f)) (wfs w) then
    c ← FromFile (configPath (path f)) (wfs w);
    Ok (mkFsRepo (path f) c (rootDS f) (kvStore f))
  else Err "config is absent".

Definition openDatastore (f : fsRepo) : ST world fsRepo := λ w,
  if Exists (datastorePath (path f)) (wfs w) then
    (ds ← with_ds (openDatastoreFromCfg (dsenv env) (path f) (cfg f) (map_range env));
     mret (mkFsRepo (path f) (cfg f) (Some ds) (kvStore f))) w
  else
    (_ ← with_fs (MkdirIfNotExists (datastorePath (path f))); mret f) w.

Definition openStore (f : fsRepo) : res fsRepo :=
  _ ← new_store env (rootDS f);
  Ok (mkFsRepo (path f) (cfg f) (rootDS f) true).

Definition open (p : string) : ST world fsRepo := λ w,
  (r ← st_lift (wrap "failed opening config" (openConfig (mkFsRepo p None None false) w));
   r ← st_wrap "failed opening datastore" (openDatastore r);
   st_lift (wrap "failed opening KV store" (openStore r))) w.

(** A new object on the heap. *)
Definition alloc (r : fsRepo) (w : world) : nat * world :=
  (fresh w, mkWorld (dstate w) (<[fresh w := r]> (heap w)) (S (fresh w)) (ActiveMap w)).

(** [repoOpener.Open]: the pointer to the repository. *)
Definition opener_Open (p : string) : ST world nat := λ w,
  match ActiveMap w !! p with
  | Some ar =>
    (Ok (Active ar), set_active (<[p := mkActive (Active ar) (RefCnt ar + 1)]> (ActiveMap w)) w)
  | None =>
    match open p w with
    | (Ok rp, w') =>
      let (id, w'') := alloc rp w' in
      (Ok id, set_active (<[p := mkActive id 1]> (ActiveMap w'')) w'')
    | (Err e, w') => (Err e, w')
    | (Panic x, w') => (Panic x, w')
    end
  end.

Definition Open (p : string) : ST world nat := λ w,
  if isInitialized p w then opener_Open p w else (Err "not initialized", w).

(** ** Closing *)

Definition opt_list {A : Type} (o : option A) : list A :=
  match o with Some a => [a] | None => [] end.

Definition ErrorOrNil (es : list error) : res unit :=
  match es with [] => Ok () | _ => Err (multierror env es) end.

(** [fsRepo.close]: the datastore is closed even if closing the store fails. *)
Definition close (id : nat) : ST world unit := λ w,
  match heap w !! id with
  | None => (Panic "nil pointer dereference", w)
  | Some f =>
    let '(c1, e1) := if kvStore f then store_Close env (rootDS f) else ([], None) in
    let '(c2, e2) := match rootDS f with Some ds => mount_Close env ds | None => ([], None) end in
    (ErrorOrNil (opt_list e1 ++ opt_list e2),
     mkWorld (close_all c2 (close_all c1 (dstate w)))
       (<[id := mkFsRepo (path f) (cfg f) None false]> (heap w)) (fresh w) (ActiveMap w))
  end.

(** [repoOpener.Close]. *)
Definition opener_Close (p : string) : ST world unit := λ w,
  match ActiveMap w !! p with
  | Some ar =>
    let n := (RefCnt ar - 1)%Z in
    if (0 <? n)%Z then
      (Ok (), set_active (<[p := mkActive (Active ar) n]> (ActiveMap w)) w)
    else close (Active ar) (set_active (base.delete p (ActiveMap w)) w)
  | None => (Ok (), w)
  end.

(** ** The methods of a repository *)

(** A method call on the pointer [id]. *)
Definition deref {A : Type} (id : nat) (k : fsRepo → ST world A) : ST world A := λ w,
  match heap w !! id with
  | Some f => k f w
  | None => (Panic "nil pointer dereference", w)
  end.

Definition Close (id : nat) : ST world unit := deref id (λ f, opener_Close (path f)).

Definition Config (id : nat) : ST world JsonConfig := deref id (λ f, mret (cfg f)).

Definition SetConfig (id : nat) (c : JsonConfig) : ST world unit := deref id (λ f w,
  let w' := set_heap (<[id := mkFsRepo (path f) c (rootDS f) (kvStore f)]> (heap w)) w in
  (confRdr ← st_lift (Reader c); with_fs (WriteToFile confRdr (configPath (path f)))) w').

Definition Store (id : nat) : ST world bool := deref id (λ f, mret (kvStore f)).

Definition Datastore_ (id : nat) : ST world (option mountedDS) := deref id (λ f, mret (rootDS f)).

Inductive repo_status := StMounts (l : list MountInfo) | StText (s : string).

Definition Status (id : nat) (range : list (string * Mount) → list (string * Mount)) :
    ST world repo_status := deref id (λ f, mret
  match rootDS f with
  | None => StText "Invalid datastore"
  | Some ds => match Mounts (dsenv env) ds range with
               | Ok l => StMounts l
               | _ => StText "Invalid mount info"
               end
  end).

(** [CreateOrOpen]. *)
Definition CreateOrOpen (c : JsonConfig) : ST world nat := λ w,
  match Get "RootPath" "" c with
  | (_, false) => (Err "root path not specified", w)
  | (p, true) =>
    if IsInitialized p w then Open p w
    else (_ ← Init p c; Open p) w
  end.

End repo.

(** ** The opener as a sequence of calls *)

Inductive op :=
| OInit (p : string) (c : JsonConfig)
| OOpen (p : string)
| OClose (id : nat)
| OSetConfig (id : nat) (c : JsonConfig)
| OCreateOrOpen (c : JsonConfig).

(** What a call did to the opener. *)
Inductive event :=
| Opened (p : string) (id : nat)
| Closed (p : string)
| Other.

Section run.
Context (env : repo_env).

Definition opened_event (w : world) (r : res nat) : event :=
  match r with
  | Ok id => match heap w !! id with Some f => Opened (path f) id | None => Other end
  | _ => Other
  end.

Definition closed_event (w : world) (id : nat) : event :=
  match heap w !! id with Some f => Closed (path f) | None => Other end.

Definition run_op (o : op) (w : world) : event * world :=
  match o with
  | OInit p c => (Other, (Init env p c w).2)
  | OOpen p => let (r, w') := Open env p w in (opened_event w' r, w')
  | OClose id => (closed_event w id, (Close env id w).2)
  | OSetConfig id c => (Other, (SetConfig id c w).2)
  | OCreateOrOpen c => let (r, w') := CreateOrOpen env c w in (opened_event w' r, w')
  end.

Fixpoint run_ops (os : list op) (w : world) : list event * world :=
  match os with
  | [] => ([], w)
  | o :: os => let (e, w1) := run_op o w in
               let (es, w2) := run_ops os w1 in (e :: es, w2)
  end.
End run.

Definition refcount (w : world) (p : string) : Z :=
  match ActiveMap w !! p with Some ar => RefCnt ar | None => 0 end.

(** The specification of the opener: one counter per path. *)
Definition ledger_step (p : string) (n : Z) (e : event) : Z :=
  match e with
  | Opened q _ => if decide (p = q) then n + 1 else n
  | Closed q => if decide (p = q) then Z.max 0 (n - 1) else n
  | Other => n
  end.

Definition ledger (p : string) : Z → list event → Z := foldl (ledger_step p).

(** The handles of a repository object. *)
Definition handles (f : fsRepo) : list nat :=
  match rootDS f with Some ds => Datastore <$> Batching ds | None => [] end.

(** ** The invariant of the package *)

Record inv (w : world) : Prop := mkInv {
  inv_active : ∀ p ar, ActiveMap w !! p = Some ar →
    (1 ≤ RefCnt ar)%Z ∧ ∃ f, heap w !! Active ar = Some f ∧ path f = p ∧ kvStore f = true;
  inv_fresh : ∀ id f, heap w !! id = Some f → (id < fresh w)%nat;
  inv_live : ∀ id f, heap w !! id = Some f → kvStore f = true ∨ rootDS f ≠ None →
    ∃ n, ActiveMap w !! path f = Some (mkActive id n);
  inv_handles : ∀ id f h, heap w !! id = Some f → h ∈ handles f →
    (h < opened (dstate w))%nat ∧ h ∉ closed (dstate w);
  inv_closed : ∀ h, h ∈ closed (dstate w) → (h < opened (dstate w))%nat;
  inv_disjoint : ∀ id id' f f' h, heap w !! id = Some f → heap w !! id' = Some f' →
    h ∈ handles f → h ∈ handles f' → id = id';
}.

(** ** Lemmas *)

(** Steps that change nothing but files. *)
Definition files_only (w w' : world) : Prop :=
  heap w' = heap w ∧ fresh w' = fresh w ∧ ActiveMap w' = ActiveMap w ∧
  opened (dstate w') = opened (dstate w) ∧ closed (dstate w') = closed (dstate w).
#[export] Instance files_only_preorder : PreOrder files_only.
Proof. split; [done|]. intros ???. unfold files_only. intuition congruence. Qed.

Lemma with_fs_files {A} (c : ST fs A) : moves files_only (with_fs c).
Proof. intros w. unfold with_fs, with_ds, on_fs. by destruct (c _). Qed.

(** Steps that change files and open handles, or open and close new ones. *)
Definition ds_only (w w' : world) : Prop :=
  heap w' = heap w ∧ fresh w' = fresh w ∧ ActiveMap w' = ActiveMap w ∧
  (opened (dstate w) ≤ opened (dstate w'))%nat ∧
  (∀ h, h ∈ closed (dstate w) → h ∈ closed (dstate w')) ∧
  (∀ h, h ∈ closed (dstate w') →
     h ∈ closed (dstate w) ∨ (opened (dstate w) ≤ h < opened (dstate w'))%nat).

Lemma files_ds w w' : files_only w w' → ds_only w w'.
Proof. intros (?&?&?&Ho&Hc). unfold ds_only. rewrite Ho, Hc. split_and!; auto with lia. Qed.

Lemma inv_ds_only w w' : ds_only w w' → inv w → inv w'.
Proof.
  intros (Hh & Hf & Ha & Ho & Hin & Hc) [I1 I2 I3 I4 I5 I6]. split.
  - intros p ar. rewrite Ha, Hh. apply I1.
  - intros id f. rewrite Hh, Hf. apply I2.
  - intros id f. rewrite Ha, Hh. apply I3.
  - intros id f h Hid Hin'. rewrite Hh in Hid. destruct (I4 id f h Hid Hin') as [Hlt Hn].
    split; [lia|]. intros [?|?]%Hc; [done|lia].
  - intros h [?%I5|?]%Hc; lia.
  - intros id id' f f' h. rewrite Hh. apply I6.
Qed.

Section ops.
Context (env : repo_env).

Lemma initRepo_files p : moves files_only (initRepo p).
Proof. unfold initRepo. auto using with_fs_files with msuite typeclass_instances. Qed.

Lemma Init_files p c : moves files_only (Init env p c).
Proof.
  intros w. unfold Init. destruct (isInitialized p w); [done|].
  apply moves_bind; [apply _|apply moves_wrap, initRepo_files|]. intros [].
  apply moves_bind; [apply _|case_match; auto with msuite typeclass_instances|]. intros c'.
  auto 8 using with_fs_files with msuite typeclass_instances.
Qed.

(** What [open] gives: a repository at the path, with new handles. *)
Definition newly_opened (p : string) (w w' : world) (f : fsRepo) : Prop :=
  path f = p ∧ kvStore f = true ∧
  (∀ h, h ∈ handles f → (opened (dstate w) ≤ h < opened (dstate w'))%nat ∧ h ∉ closed (dstate w')).

Lemma openDatastore_spec f w r w' :
  rootDS f = None → (∀ h, h ∈ closed (dstate w) → (h < opened (dstate w))%nat) →
  openDatastore env f w = (r, w') →
  ds_only w w' ∧
  ∀ f', r = Ok f' → path f' = path f ∧ cfg f' = cfg f ∧
    (∀ h, h ∈ handles f' → (opened (dstate w) ≤ h < opened (dstate w'))%nat ∧ h ∉ closed (dstate w')).
Proof.
  intros Hroot Hcl. unfold openDatastore. destruct (Exists _ _).
  - unfold with_ds, mbind, st_mbind.
    destruct (openDatastoreFromCfg _ _ _ _ _) as [r0 s] eqn:Ho.
    apply openDatastoreFromCfg_handles in Ho as [Hle Hr].
    destruct r0 as [ds|e|p]; intros [= <- <-]; unfold ds_only; simpl.
    + destruct Hr as [Hc Hh]. rewrite Hc. split; [by split_and!; auto|].
      intros f' [= <-]. split_and!; [done..|]. unfold handles. simpl. intros h.
      rewrite Hh, elem_of_seq. intros Hb. split; [lia|]. intros ?%Hcl. lia.
    + rewrite Hr. split; [|done]. split_and!; auto; intros h; rewrite elem_of_app, elem_of_seq; naive_solver lia.
    + rewrite Hr. split; [|done]. split_and!; auto; intros h; rewrite elem_of_app, elem_of_seq; naive_solver lia.
  - intros Hm. pose proof (with_fs_files (MkdirIfNotExists (datastorePath (path f))) w) as Hf.
    unfold mbind, st_mbind in Hm. destruct (with_fs _ w) as [r0 w1]. simpl in Hf.
    destruct r0; injection Hm as <- <-; (split; [by apply files_ds|]); [|done..].
    intros f' [= <-]. split_and!; [done..|]. unfold handles. rewrite Hroot. set_solver.
Qed.

Lemma openConfig_Ok p w f :
  openConfig (mkFsRepo p None None false) w = Ok f →
  ∃ c, FromFile (configPath p) (wfs w) = Ok c ∧ f = mkFsRepo p c None false.
Proof.
  unfold openConfig, mbind, res_mbind, res_bind. simpl.
  destruct (Exists _ _); [|done]. destruct (FromFile _ _) as [c|?|?]; [|done..]. naive_solver.
Qed.

Lemma open_spec p w r w' :
  (∀ h, h ∈ closed (dstate w) → (h < opened (dstate w))%nat) →
  open env p w = (r, w') →
  ds_only w w' ∧
  ∀ f, r = Ok f → newly_opened p w w' f ∧ FromFile (configPath p) (wfs w) = Ok (cfg f).
Proof.
  intros Hcl. unfold open, mbind, st_mbind, st_lift, st_wrap.
  destruct (openConfig _ w) as [f0|e|x] eqn:Hcfg; simpl;
    [|intros [= <- <-]; split; [by apply files_ds|done]..].
  apply openConfig_Ok in Hcfg as (c & Hc & ->).
  destruct (openDatastore env _ w) as [r1 w1] eqn:Hds.
  apply openDatastore_spec in Hds as [Hw Hds]; [|done..].
  destruct r1 as [f1|e|x]; simpl; [|intros [= <- <-]; by split..].
  destruct (Hds f1 eq_refl) as (Hp & Hcf & Hh). unfold openStore, mbind, res_mbind, res_bind.
  destruct (new_store env (rootDS f1)) as [[]|e|x]; simpl; intros [= <- <-];
    (split; [done|]); [|done..].
  intros f [= <-]. unfold newly_opened. simpl. split_and!; [done|done|done|]. by rewrite Hcf.
Qed.
End ops.

(** What the mount and store packages promise: closing the mounted datastore
    closes each of its mounts, and closing the KV store on top of it closes
    nothing else. *)
Record repo_laws (env : repo_env) : Prop := mkLaws {
  store_Close_mounts : ∀ o m, m ∈ (store_Close env o).1 → ∃ d, o = Some d ∧ m ∈ Batching d;
  mount_Close_all : ∀ d m, m ∈ (mount_Close env d).1 ↔ m ∈ Batching d;
}.

Section calls.
Context (env : repo_env) (laws : repo_laws env).

Lemma refcount_insert w p q ar :
  refcount (set_active (<[q := ar]> (ActiveMap w)) w) p =
  if decide (p = q) then RefCnt ar else refcount w p.
Proof.
  unfold refcount. simpl. case_decide as H; [subst; by rewrite lookup_insert_eq|].
  by rewrite lookup_insert_ne.
Qed.

(** Changing the count of an active repository. *)
Lemma inv_recount w p ar n :
  inv w → ActiveMap w !! p = Some ar → (1 ≤ n)%Z →
  inv (set_active (<[p := mkActive (Active ar) n]> (ActiveMap w)) w).
Proof.
  intros [I1 I2 I3 I4 I5 I6] Hp Hn. split; simpl; [|done| |done..].
  - intros q ar' [[<- <-]|[Hne Hq]]%lookup_insert_Some; [|by apply I1].
    simpl. split; [done|]. by apply (I1 p ar).
  - intros id f Hid Hlive. destruct (I3 id f Hid Hlive) as [m Hm].
    destruct (decide (path f = p)) as [Heq|Hne].
    + rewrite <- Heq in *. rewrite lookup_insert_eq. exists n. simplify_eq. done.
    + rewrite lookup_insert_ne by done. eauto.
Qed.

(** A new object becomes the active repository of its path. *)
Lemma inv_install w p f :
  inv w → ActiveMap w !! p = None → path f = p → kvStore f = true →
  (∀ h, h ∈ handles f → (h < opened (dstate w))%nat ∧ h ∉ closed (dstate w)) →
  (∀ id g h, heap w !! id = Some g → h ∈ handles f → h ∉ handles g) →
  inv (set_active (<[p := mkActive (fresh w) 1]> (ActiveMap w)) (alloc f w).2).
Proof.
  intros [I1 I2 I3 I4 I5 I6] Hp Hpath Hkv Hh Hdis.
  assert (∀ id g, heap w !! id = Some g → fresh w ≠ id) as Hfresh.
  { intros id g ?%I2. lia. }
  split; simpl; [| | | |done|].
  - intros q ar [[<- <-]|[Hne Hq]]%lookup_insert_Some; simpl.
    { split; [done|]. exists f. by rewrite lookup_insert_eq. }
    destruct (I1 q ar Hq) as (? & g & Hg & ? & ?). split; [done|]. exists g.
    rewrite lookup_insert_ne by eauto. done.
  - intros id g [[<- <-]|[Hne Hg]]%lookup_insert_Some; [lia|]. apply I2 in Hg. lia.
  - intros id g [[<- <-]|[Hne Hg]]%lookup_insert_Some Hlive.
    { exists 1%Z. by rewrite Hpath, lookup_insert_eq. }
    destruct (I3 id g Hg Hlive) as [n Hn]. exists n.
    rewrite lookup_insert_ne; [done|]. intros E. rewrite <- E in Hn. congruence.
  - intros id g h [[<- <-]|[Hne Hg]]%lookup_insert_Some; [by apply Hh|eauto].
  - intros id id' g g' h [[<- <-]|[Hne Hg]]%lookup_insert_Some
      [[<- <-]|[Hne' Hg']]%lookup_insert_Some H1 H2; [done| | |eauto].
    + by destruct (Hdis id' g' h).
    + by destruct (Hdis id g h).
Qed.

Lemma opener_Open_spec p w r w' :
  inv w → opener_Open env p w = (r, w') →
  inv w' ∧
  match r with
  | Ok id => (∀ q, refcount w' q = if decide (q = p) then refcount w p + 1 else refcount w q)%Z ∧
             (∃ f, heap w' !! id = Some f ∧ path f = p) ∧
             (∀ ar, ActiveMap w !! p = Some ar → id = Active ar)
  | _ => ∀ q, refcount w' q = refcount w q
  end.
Proof.
  intros Hinv. unfold opener_Open. destruct (ActiveMap w !! p) as [ar|] eqn:Hp.
  { intros [= <- <-]. destruct (inv_active w Hinv p ar Hp) as (Hn & f & Hf & Hpath & _).
    split; [by apply inv_recount; [| |lia]|]. split_and!; [|by exists f|by intros ? [= <-]].
    intros q. rewrite refcount_insert. simpl. unfold refcount. by rewrite Hp. }
  destruct (open env p w) as [r1 w1] eqn:Hopen.
  apply open_spec in Hopen as [Hds Hok]; [|by apply inv_closed].
  assert (inv w1) as Hinv1 by by eapply inv_ds_only.
  pose proof Hds as (Hh & Hf & Ha & Ho & _).
  assert (∀ q, refcount w1 q = refcount w q) as Hrc by (intros q; unfold refcount; by rewrite Ha).
  destruct r1 as [f|e|x]; intros [= <- <-]; [|done..].
  destruct (Hok f eq_refl) as [(Hpath & Hkv & Hhs) _]. split.
  - apply (inv_install w1); try done; [by rewrite Ha| |].
    + intros h Hin. destruct (Hhs h Hin). split; [lia|done].
    + intros id g h Hg Hin Hin'. rewrite Hh in Hg. destruct (Hhs h Hin) as [? _].
      destruct (inv_handles w Hinv id g h Hg Hin'). lia.
  - split_and!; [|exists f; simpl; by rewrite lookup_insert_eq|done].
    intros q. specialize (Hrc q). unfold refcount in *. simpl.
    case_decide as Hq; [subst; by rewrite lookup_insert_eq, Hp|]. by rewrite lookup_insert_ne.
Qed.

Lemma inv_closed_repo w p ar f c1 c2 :
  inv w → ActiveMap w !! p = Some ar → heap w !! Active ar = Some f → path f = p →
  (∀ m, m ∈ c1 ++ c2 → Datastore m ∈ handles f) →
  inv (mkWorld (close_all c2 (close_all c1 (dstate w)))
    (<[Active ar := mkFsRepo (path f) (cfg f) None false]> (heap w)) (fresh w)
    (base.delete p (ActiveMap w))).
Proof.
  intros [I1 I2 I3 I4 I5 I6] Hp Hf Hpath Hc.
  assert (∀ h, h ∈ (closed (dstate w) ++ (Datastore <$> c1)) ++ (Datastore <$> c2) →
            h ∈ closed (dstate w) ∨ h ∈ handles f) as Hcl.
  { intros h. rewrite <- (assoc_L (++)), <- fmap_app, elem_of_app, list_elem_of_fmap.
    intros [?|(m & -> & Hm)]; [by left|right; auto]. }
  split; simpl.
  - intros q ar' [Hne Hq]%lookup_delete_Some. destruct (I1 q ar' Hq) as (? & g & Hg & Hgp & ?).
    split; [done|]. exists g. split; [|done]. rewrite lookup_insert_ne; [done|].
    intros E. rewrite <- E in Hg. congruence.
  - intros id g [[<- <-]|[_ Hg]]%lookup_insert_Some; [by eapply (I2 (Active ar) f)|by eapply I2].
  - intros id g [[<- <-]|[Hne Hg]]%lookup_insert_Some Hlive; [naive_solver|].
    destruct (I3 id g Hg Hlive) as [n Hn]. exists n. rewrite lookup_delete_ne; [done|].
    intros E. rewrite <- E, Hp in Hn. injection Hn as ->. done.
  - intros id g h [[<- <-]|[Hne Hg]]%lookup_insert_Some Hin; [set_solver|].
    destruct (I4 id g h Hg Hin) as [? Hnc]. split; [done|]. intros [?|Hhf]%Hcl; [done|].
    apply Hne. by eapply I6.
  - intros h [?%I5|Hhf]%Hcl; [done|]. by eapply (I4 (Active ar) f).
  - intros id id' g g' h [[<- <-]|[Hne Hg]]%lookup_insert_Some
      [[<- <-]|[Hne' Hg']]%lookup_insert_Some; [done|set_solver..|]. by eapply I6.
Qed.

(** The effect of [close] on a repository the opener had. *)
Lemma close_spec w id f :
  heap w !! id = Some f →
  ∃ r c1 c2, close env id w = (r, mkWorld (close_all c2 (close_all c1 (dstate w)))
      (<[id := mkFsRepo (path f) (cfg f) None false]> (heap w)) (fresh w) (ActiveMap w)) ∧
    (∀ m, m ∈ c1 ++ c2 → Datastore m ∈ handles f) ∧
    (∀ h, h ∈ handles f → h ∈ Datastore <$> c2).
Proof.
  intros Hf. unfold close. rewrite Hf.
  destruct (if kvStore f then store_Close env (rootDS f) else ([], None)) as [c1 e1] eqn:H1.
  destruct (match rootDS f with Some ds => mount_Close env ds | None => ([], None) end)
    as [c2 e2] eqn:H2.
  exists (ErrorOrNil env (opt_list e1 ++ opt_list e2)), c1, c2. split; [done|]. unfold handles. split.
  - intros m [Hm|Hm]%elem_of_app.
    + destruct (kvStore f); [|injection H1 as <- <-; set_solver].
      assert (m ∈ (store_Close env (rootDS f)).1) as Hm' by by rewrite H1.
      apply (store_Close_mounts env laws) in Hm' as (d & -> & Hd). by apply list_elem_of_fmap_2.
    + destruct (rootDS f) as [d|]; [|injection H2 as <- <-; set_solver].
      assert (m ∈ (mount_Close env d).1) as Hm' by by rewrite H2.
      apply (mount_Close_all env laws) in Hm'. by apply list_elem_of_fmap_2.
  - intros h. destruct (rootDS f) as [d|]; [|set_solver].
    intros (m & -> & Hm)%list_elem_of_fmap. apply list_elem_of_fmap_2.
    apply (mount_Close_all env laws) in Hm. by rewrite H2 in Hm.
Qed.

Lemma opener_Close_spec p w r w' :
  inv w → opener_Close env p w = (r, w') →
  inv w' ∧
  (∀ q, refcount w' q = if decide (q = p) then Z.max 0 (refcount w p - 1) else refcount w q)%Z.
Proof.
  intros Hinv. unfold opener_Close. destruct (ActiveMap w !! p) as [ar|] eqn:Hp.
  2:{ intros [= <- <-]. split; [done|]. intros q. case_decide; [|done]. subst.
      unfold refcount. by rewrite Hp. }
  destruct (inv_active w Hinv p ar Hp) as (Hn & f & Hf & Hpath & _).
  assert (refcount w p = RefCnt ar) as Hr by (unfold refcount; by rewrite Hp).
  destruct (Z.ltb_spec 0 (RefCnt ar - 1)) as [Hlt|Hle].
  { intros [= <- <-]. split; [by apply inv_recount; [| |lia]|].
    intros q. rewrite refcount_insert. simpl. rewrite Hr. case_decide; [lia|done]. }
  destruct (close_spec (set_active (base.delete p (ActiveMap w)) w) (Active ar) f)
    as (r0 & c1 & c2 & -> & Hsub & _); [done|]. intros [= <- <-]. split.
  - by apply inv_closed_repo.
  - intros q. unfold refcount at 1. simpl. case_decide as Hq; [subst; rewrite lookup_delete_eq; lia|].
    by rewrite lookup_delete_ne.
Qed.

Lemma SetConfig_spec id c w :
  inv w → inv (SetConfig id c w).2 ∧ ActiveMap (SetConfig id c w).2 = ActiveMap w.
Proof.
  intros Hinv. unfold SetConfig, deref. destruct (heap w !! id) as [f|] eqn:Hid; [|done].
  set (w1 := set_heap _ w). set (call := st_lift (Reader c) ≫= _).
  assert (moves files_only call) as Hm.
  { unfold call. auto using with_fs_files with msuite typeclass_instances. }
  specialize (Hm w1). destruct (call w1) as [r w2]. simpl in *.
  split; [|by destruct Hm as (_ & _ & -> & _)].
  eapply inv_ds_only; [by apply files_ds|]. destruct Hinv as [I1 I2 I3 I4 I5 I6].
  set (f1 := mkFsRepo (path f) c (rootDS f) (kvStore f)) in *.
  split; simpl; [| | | |done|].
  - intros p ar Hp. destruct (I1 p ar Hp) as (? & g & Hg & ?). split; [done|].
    destruct (decide (Active ar = id)) as [<-|Hne].
    + exists f1. rewrite lookup_insert_eq. by simplify_eq.
    + exists g. by rewrite lookup_insert_ne.
  - intros i g [[<- <-]|[_ Hg]]%lookup_insert_Some; by eapply I2.
  - intros i g [[<- <-]|[_ Hg]]%lookup_insert_Some; [by apply (I3 id f)|by eapply I3].
  - intros i g h [[<- <-]|[_ Hg]]%lookup_insert_Some; [by apply (I4 id f h)|by eapply I4].
  - intros i i' g g' h [[<- <-]|[_ Hg]]%lookup_insert_Some
      [[<- <-]|[_ Hg']]%lookup_insert_Some; [done|..]; [by apply (I6 id i' f g')|by apply (I6 i id g f)|].
    by eapply I6.
Qed.

Lemma Open_spec p w r w' :
  inv w → Open env p w = (r, w') →
  inv w' ∧
  match r with
  | Ok id => (∀ q, refcount w' q = if decide (q = p) then refcount w p + 1 else refcount w q)%Z ∧
             (∃ f, heap w' !! id = Some f ∧ path f = p) ∧
             (∀ ar, ActiveMap w !! p = Some ar → id = Active ar)
  | _ => ∀ q, refcount w' q = refcount w q
  end.
Proof.
  intros Hinv. unfold Open. destruct (isInitialized p w); [by apply opener_Open_spec|].
  by intros [= <- <-].
Qed.

Lemma files_refcount w w' q : files_only w w' → refcount w' q = refcount w q.
Proof. intros (_&_&Ha&_). unfold refcount. by rewrite Ha. Qed.

Lemma CreateOrOpen_spec c w r w' :
  inv w → CreateOrOpen env c w = (r, w') →
  inv w' ∧
  match r with
  | Ok id => ∃ p, Get "RootPath" "" c = (p, true) ∧
      (∀ q, refcount w' q = if decide (q = p) then refcount w p + 1 else refcount w q)%Z ∧
      (∃ f, heap w' !! id = Some f ∧ path f = p) ∧
      (∀ ar, ActiveMap w !! p = Some ar → id = Active ar)
  | _ => ∀ q, refcount w' q = refcount w q
  end.
Proof.
  intros Hinv. unfold CreateOrOpen. destruct (Get "RootPath" "" c) as [p []]; [|by intros [= <- <-]].
  destruct (IsInitialized p w).
  { intros Ho. apply Open_spec in Ho as [Hi Ho]; [|done]. split; [done|]. destruct r; [|done..]. eauto. }
  unfold mbind, st_mbind. pose proof (Init_files env p c w) as Hf.
  destruct (Init env p c w) as [r0 w0]. simpl in Hf.
  assert (inv w0) as Hinv0 by (eapply inv_ds_only; [by apply files_ds|done]).
  destruct r0 as [c'|e|x]; [|intros [= <- <-]; split; [done|]; intros q; by apply files_refcount..].
  intros H. apply Open_spec in H as [Hi H]; [|done]. split; [done|].
  destruct r as [id|e|x].
  - destruct H as (Hq & Hheap & Har). exists p. split_and!; [done| |done|].
    + intros q. rewrite Hq. case_decide; by apply files_refcount || (f_equal; by apply files_refcount).
    + intros ar. destruct Hf as (_&_&<-&_). apply Har.
  - intros q. rewrite H. by apply files_refcount.
  - intros q. rewrite H. by apply files_refcount.
Qed.
End calls.

(** The object of a path stays the same while the path is active. *)
Definition keeps (w w' : world) : Prop := ∀ p ar ar',
  ActiveMap w !! p = Some ar → ActiveMap w' !! p = Some ar' → Active ar' = Active ar.

Section trace.
Context (env : repo_env) (laws : repo_laws env).

Lemma keeps_same w w' : ActiveMap w' = ActiveMap w → keeps w w'.
Proof. intros E p ar ar'. rewrite E. congruence. Qed.

Lemma opener_Open_keeps p w : inv w → keeps w (opener_Open env p w).2.
Proof.
  intros Hinv. unfold opener_Open. destruct (ActiveMap w !! p) as [ar|] eqn:Hp.
  { intros q a a' Hq. simpl. intros [[<- <-]|[_ Hq']]%lookup_insert_Some; simplify_eq/=; congruence. }
  destruct (open env p w) as [r w1] eqn:Ho.
  apply open_spec in Ho as [(_ & _ & Ha & _) _]; [|by apply inv_closed].
  destruct r as [rp|?|?]; [|by apply keeps_same..]. intros q a a' Hq. simpl. rewrite Ha.
  intros [[<- <-]|[_ Hq']]%lookup_insert_Some; simplify_eq/=; congruence.
Qed.

Lemma Open_keeps p w : inv w → keeps w (Open env p w).2.
Proof.
  intros Hinv. unfold Open. destruct (isInitialized p w); [by apply opener_Open_keeps|].
  by apply keeps_same.
Qed.

Lemma opener_Close_keeps p w : inv w → keeps w (opener_Close env p w).2.
Proof.
  intros Hinv. unfold opener_Close. destruct (ActiveMap w !! p) as [ar|] eqn:Hp; [|by apply keeps_same].
  destruct (_ <? _)%Z.
  { intros q a a' Hq. simpl. intros [[<- <-]|[_ Hq']]%lookup_insert_Some; simplify_eq/=; congruence. }
  destruct (inv_active w Hinv p ar Hp) as (_ & f & Hf & _).
  destruct (close_spec env laws (set_active (base.delete p (ActiveMap w)) w) (Active ar) f)
    as (r0 & c1 & c2 & -> & _); [done|]. intros q a a' Hq. simpl.
  intros [_ Hq']%lookup_delete_Some. congruence.
Qed.

Lemma CreateOrOpen_keeps c w : inv w → keeps w (CreateOrOpen env c w).2.
Proof.
  intros Hinv. unfold CreateOrOpen. destruct (Get "RootPath" "" c) as [p []]; [|by apply keeps_same].
  destruct (IsInitialized p w); [by apply Open_keeps|]. unfold mbind, st_mbind.
  pose proof (Init_files env p c w) as Hf. destruct (Init env p c w) as [r0 w0]. simpl in Hf.
  assert (inv w0) as Hinv0 by (eapply inv_ds_only; [by apply files_ds|done]).
  destruct Hf as (_ & _ & Ha & _). destruct r0 as [c'|?|?]; [|by apply keeps_same..].
  intros q a a' Hq. apply (Open_keeps p w0 Hinv0). by rewrite Ha.
Qed.

Lemma run_op_spec o w e w' :
  inv w → run_op env o w = (e, w') →
  inv w' ∧ keeps w w' ∧ (∀ p, refcount w' p = ledger_step p (refcount w p) e) ∧
  (∀ p id ar, e = Opened p id → ActiveMap w !! p = Some ar → id = Active ar).
Proof.
  intros Hinv. destruct o as [p c|p|id|id c|c]; simpl.
  - intros [= <- <-]. pose proof (Init_files env p c w) as Hf.
    split_and!; [by eapply inv_ds_only; [apply files_ds|]|by apply keeps_same, Hf| |done].
    intros q. by apply files_refcount.
  - destruct (Open env p w) as [r w1] eqn:Ho. intros [= <- <-].
    pose proof (Open_keeps p w Hinv) as Hk. rewrite Ho in Hk.
    apply Open_spec in Ho as [Hi Ho]; [|done]. split_and!; [done..| |].
    + intros q. destruct r as [id|?|?]; [|apply Ho..]. destruct Ho as (Hq & (f & Hf & <-) & _).
      simpl. rewrite Hf. simpl. rewrite Hq. by case_decide; [subst|].
    + intros q id ar He Hq. destruct r as [id'|?|?]; [|done..].
      destruct Ho as (_ & (f & Hf & <-) & Har). simpl in He. rewrite Hf in He.
      simplify_eq. by apply Har.
  - intros [= <- <-]. unfold Close, deref, closed_event.
    destruct (heap w !! id) as [f|]; [|split_and!; [done|by apply keeps_same|done|done]].
    pose proof (opener_Close_keeps (path f) w Hinv) as Hk.
    destruct (opener_Close env (path f) w) as [r w1] eqn:Ho.
    apply opener_Close_spec in Ho as [Hi Ho]; [|done..]. split_and!; [done..| |done].
    intros q. simpl. rewrite Ho. by case_decide; [subst|].
  - intros [= <- <-]. destruct (SetConfig_spec id c w Hinv) as [Hi Ha].
    split_and!; [done|by apply keeps_same| |done]. intros q. unfold refcount. by rewrite Ha.
  - destruct (CreateOrOpen env c w) as [r w1] eqn:Ho. intros [= <- <-].
    pose proof (CreateOrOpen_keeps c w Hinv) as Hk. rewrite Ho in Hk.
    apply CreateOrOpen_spec in Ho as [Hi Ho]; [|done]. split_and!; [done..| |].
    + intros q. destruct r as [id|?|?]; [|apply Ho..].
      destruct Ho as (p & _ & Hq & (f & Hf & <-) & _).
      simpl. rewrite Hf. simpl. rewrite Hq. by case_decide; [subst|].
    + intros q id ar He Hq. destruct r as [id'|?|?]; [|done..].
      destruct Ho as (p & _ & _ & (f & Hf & <-) & Har). simpl in He. rewrite Hf in He.
      simplify_eq. by apply Har.
Qed.

Lemma run_ops_spec os : ∀ w es w',
  inv w → run_ops env os w = (es, w') →
  inv w' ∧ ∀ p, refcount w' p = ledger p (refcount w p) es.
Proof.
  induction os as [|o os IH]; simpl; intros w es w' Hinv Hr; [by injection Hr as <- <-|].
  destruct (run_op env o w) as [e w1] eqn:Ho. destruct (run_ops env os w1) as [es1 w2] eqn:Hos.
  injection Hr as <- <-. apply run_op_spec in Ho as (Hi & _ & He & _); [|done].
  apply IH in Hos as [Hi2 Hos]; [|done]. split; [done|]. intros p. rewrite Hos. simpl. by rewrite He.
Qed.

Lemma run_ops_shared os p : ∀ w es w' ar,
  inv w → run_ops env os w = (es, w') → ActiveMap w !! p = Some ar →
  (∀ n, 0 < ledger p (RefCnt ar) (take n es))%Z →
  ActiveMap w' !! p = Some (mkActive (Active ar) (ledger p (RefCnt ar) es)) ∧
  ∀ id, Opened p id ∈ es → id = Active ar.
Proof.
  induction os as [|o os IH]; simpl; intros w es w' ar Hinv Hr Hp Hpos.
  { injection Hr as <- <-. simpl. split; [by destruct ar|set_solver]. }
  destruct (run_op env o w) as [e w1] eqn:Ho. destruct (run_ops env os w1) as [es1 w2] eqn:Hos.
  injection Hr as <- <-. apply run_op_spec in Ho as (Hi & Hk & He & Hsame); [|done].
  assert (refcount w1 p = ledger_step p (RefCnt ar) e) as Hrc.
  { rewrite He. unfold refcount. by rewrite Hp. }
  assert (0 < ledger_step p (RefCnt ar) e)%Z as Hgt.
  { apply (Hpos 1%nat). }
  destruct (ActiveMap w1 !! p) as [ar1|] eqn:Hp1;
    [|unfold refcount in Hrc; rewrite Hp1 in Hrc; lia].
  assert (RefCnt ar1 = ledger_step p (RefCnt ar) e) as Hr1.
  { unfold refcount in Hrc. by rewrite Hp1 in Hrc. }
  assert (Active ar1 = Active ar) as Ha by by eapply Hk.
  eapply (IH w1 es1 w2 ar1) in Hos as [Hfin Hids]; [|done..|].
  - rewrite Ha, Hr1 in *. split; [done|]. intros id [Hin|Hin]%elem_of_cons; [by eapply Hsame|auto].
  - intros n. rewrite Hr1. apply (Hpos (S n)).
Qed.
End trace.

(** ** The files of the package

    No call but [SetConfig] changes a file that is there: opening makes
    directories, and [Init] writes only where there is nothing. *)

Definition world_grows (w w' : world) : Prop := grows (wfs w) (wfs w').
#[export] Instance world_grows_preorder : PreOrder world_grows.
Proof. split; [intros w; red; reflexivity|]. intros w1 w2 w3 H1 H2. red. by etransitivity. Qed.

Section files.
Context (env : repo_env).

Definition ds_grows (s s' : ds_state) : Prop := grows (dfs s) (dfs s').
#[local] Instance ds_grows_preorder : PreOrder ds_grows.
Proof. split; [intros s; red; reflexivity|]. intros s1 s2 s3 H1 H2. red. by etransitivity. Qed.

Lemma on_fs_grows {A} (c : ST fs A) : moves grows c → moves ds_grows (on_fs c).
Proof. intros Hc s. unfold on_fs, ds_grows. specialize (Hc (dfs s)). by destruct (c (dfs s)). Qed.

Lemma with_ds_grows {A} (c : ST ds_state A) : moves ds_grows c → moves world_grows (with_ds c).
Proof. intros Hc w. unfold with_ds, world_grows. specialize (Hc (dstate w)). by destruct (c (dstate w)). Qed.

Lemma with_fs_grows {A} (c : ST fs A) : moves grows c → moves world_grows (with_fs c).
Proof. intros Hc. by apply with_ds_grows, on_fs_grows. Qed.

Lemma new_handle_grows : moves ds_grows new_handle.
Proof. intros s. unfold ds_grows. simpl. reflexivity. Qed.

Lemma fail_grows {A} e : moves ds_grows (st_fail e : ST ds_state A).
Proof. intros s. simpl. reflexivity. Qed.

#[local] Hint Resolve on_fs_grows with_ds_grows with_fs_grows new_handle_grows fail_grows : msuite.

Lemma open_one_grows k path dCfg : moves ds_grows (open_one (dsenv env) k path dCfg).
Proof.
  unfold open_one. repeat case_decide.
  - apply (moves_bind _); [apply (moves_lift _)|intros _; apply new_handle_grows].
  - apply (moves_bind _); [apply (moves_lift _)|intros sf].
    apply (moves_bind _); [apply (moves_lift _)|intros _; apply new_handle_grows].
  - apply fail_grows.
Qed.

Lemma open_mount_grows root k v : moves ds_grows (open_mount (dsenv env) root k v).
Proof.
  destruct v as [| | | | | | |dCfg| | |]; try apply fail_grows. unfold open_mount.
  destruct (assoc_get "prefix" dCfg) as [[| | | |prefix| | | | | |]|]; try apply fail_grows.
  apply (moves_bind _); [|intros q].
  - destruct (assoc_get "path" dCfg) as [[| | | |p| | | | | |]|]; try apply (moves_ret _).
    apply (moves_bind _); [apply on_fs_grows, Mkdir_grows|intros _; apply (moves_ret _)].
  - apply (moves_bind _); [apply open_one_grows|intros h; apply (moves_ret _)].
Qed.

Lemma open_mounts_grows root todo : ∀ acc s, ds_grows s (open_mounts (dsenv env) root todo acc s).2.
Proof.
  induction todo as [|[k v] todo IH]; intros acc s; simpl; [reflexivity|].
  pose proof (open_mount_grows root k v s) as Hg. destruct (open_mount _ _ _ _ s) as [[[q m]|?|?] s'];
    simpl in *; [|done..]. by etransitivity.
Qed.

Lemma openDatastoreFromCfg_grows root c range :
  moves ds_grows (openDatastoreFromCfg (dsenv env) root c range).
Proof.
  intros s. unfold openDatastoreFromCfg.
  match goal with |- context [open_mounts ?e ?r ?t ?a s] => pose proof (open_mounts_grows r t a s) as Hg;
    destruct (open_mounts e r t a s) as [[[[]|?|?] m] s'] end; simpl in *; done.
Qed.

Lemma openDatastore_grows f : moves world_grows (openDatastore env f).
Proof.
  intros w. unfold openDatastore. destruct (Exists (datastorePath (path f)) (wfs w)); revert w.
  - apply (moves_bind _); [apply with_ds_grows, openDatastoreFromCfg_grows|intros ds; apply (moves_ret _)].
  - apply (moves_bind _); [apply with_fs_grows, Mkdir_grows|intros _; apply (moves_ret _)].
Qed.

Lemma open_grows p : moves world_grows (open env p).
Proof.
  intros w. unfold open. generalize (wrap "failed opening config" (openConfig (mkFsRepo p None None false) w)).
  intros rc. revert w. apply (moves_bind _); [apply (moves_lift _)|intros f].
  apply (moves_bind _); [apply moves_wrap, openDatastore_grows|intros f'; apply (moves_lift _)].
Qed.

(** The files are the same. *)
Ltac same_files := unfold world_grows; apply (reflexivity (R:=grows)).

Lemma opener_Open_grows p : moves world_grows (opener_Open env p).
Proof.
  intros w. unfold opener_Open. destruct (ActiveMap w !! p); [same_files|].
  pose proof (open_grows p w) as Hg. by destruct (open env p w) as [[f|?|?] w'].
Qed.

Lemma Open_grows p : moves world_grows (Open env p).
Proof. intros w. unfold Open. destruct (isInitialized p w); [apply opener_Open_grows|same_files]. Qed.

Lemma Init_grows p c : moves world_grows (Init env p c).
Proof.
  intros w. unfold Init. destruct (isInitialized p w) eqn:Hi; [same_files|].
  assert (moves world_grows (initRepo p)) as Hmk.
  { apply (moves_bind _); [|intros _]; apply with_fs_grows, Mkdir_grows. }
  pose proof (moves_wrap world_grows "failed creating directories" _ Hmk w) as H1. clear Hmk.
  unfold mbind, st_mbind, st_lift, mret, st_mret.
  destruct (st_wrap "failed creating directories" (initRepo p) w) as [[[]|e|x] w1]; [|done..]. simpl in H1.
  destruct (if (Get "Identity" _ c).2 then _ else _) as [[c'|e|x] w2] eqn:Hid;
    (assert (w2 = w1) as -> by (destruct (Get "Identity" _ c).2; congruence)); [|done..].
  destruct (wrap _ (Reader c')) as [text|e|x]; [|done..]. unfold st_wrap, with_fs, with_ds, on_fs.
  pose proof (WriteToFile_grows text (configPath p) (wfs w) (wfs w1) Hi H1) as H2.
  unfold wfs in *. by destruct (WriteToFile text (configPath p) (dfs (dstate w1))) as [[[]|?|?] f'].
Qed.

Lemma CreateOrOpen_grows c : moves world_grows (CreateOrOpen env c).
Proof.
  intros w. unfold CreateOrOpen. destruct (Get "RootPath" "" c) as [p []]; [|same_files].
  destruct (IsInitialized p w); [apply Open_grows|]. revert w.
  apply (moves_bind _); [apply Init_grows|intros _; apply Open_grows].
Qed.

Lemma Close_grows id : moves world_grows (Close env id).
Proof.
  intros w. unfold Close, deref, opener_Close, close. repeat case_match; simplify_eq/=; same_files.
Qed.

Definition sets_config (o : op) : bool := match o with OSetConfig _ _ => true | _ => false end.

Lemma run_ops_grows os : ∀ w, existsb sets_config os = false → world_grows w (run_ops env os w).2.
Proof.
  induction os as [|o os IH]; intros w; simpl; [intros _; reflexivity|]. intros [Ho Hos]%orb_false_iff.
  assert (world_grows w (run_op env o w).2) as H1.
  { destruct o as [p c|p|id|id c|c]; simpl; [apply Init_grows| |apply Close_grows|done|].
    - pose proof (Open_grows p w) as H. by destruct (Open env p w).
    - pose proof (CreateOrOpen_grows c w) as H. by destruct (CreateOrOpen env c w). }
  destruct (run_op env o w) as [e w1]. specialize (IH w1 Hos).
  destruct (run_ops env os w1) as [es w2]. by etransitivity.
Qed.
End files.

(** ** Initialisation *)

Lemma identity_readable skbytes id c c' :
  Set_ "Identity" (identity_record skbytes id) c = Ok c' →
  (Get "Identity" (Some (∅ : gmap string goval)) c').2 = true.
Proof.
  intros HS. pose proof (Set_get _ _ _ _ "Identity" HS) as Hk. rewrite decide_True in Hk by done.
  by rewrite (Get_tree "Identity" (Some (∅ : gmap string goval)) c' _ _ Hk eq_refl).
Qed.

(** The configuration [Init] saves: the caller's, or with a new identity. *)
Lemma Init_result env p c w c' w' :
  Init env p c w = (Ok c', w') →
  (if (Get "Identity" (Some (∅ : gmap string goval)) c).2 then Ok c else initIdentity env c) = Ok c'.
Proof.
  unfold Init. destruct (isInitialized p w); [done|].
  unfold mbind, st_mbind, mret, st_mret, st_lift. destruct (st_wrap _ _ w) as [[[]|?|?] w1]; [|done..].
  destruct (Get _ _ c).2; [|destruct (initIdentity env c); simpl; [|done..]];
    (destruct (wrap _ (Reader _)); [|done..]);
    (destruct (st_wrap _ _ w1) as [[[]|?|?] ?]; [|done..]); by intros [= <- _].
Qed.

(** A successful [Init]: the configuration is on disk, and has an identity. *)
Lemma Init_Ok env p c w c' w' :
  Init env p c w = (Ok c', w') →
  isInitialized p w' = true ∧ (Get "Identity" (Some (∅ : gmap string goval)) c').2 = true ∧
  ∃ text, Reader c' = Ok text ∧ os_read (configPath p) (wfs w') = inr text.
Proof.
  unfold Init. destruct (isInitialized p w); [done|].
  unfold mbind at 1, st_mbind at 1. destruct (st_wrap _ _ w) as [[[]|?|?] w1]; [|done..].
  unfold mbind at 1, st_mbind at 1.
  set (ident := if (Get "Identity" (Some ∅) c).2 then _ else _).
  assert (∀ r w2, ident w1 = (r, w2) → w2 = w1 ∧
            ∀ c1, r = Ok c1 → (Get "Identity" (Some (∅ : gmap string goval)) c1).2 = true) as Hid.
  { unfold ident. destruct (Get "Identity" (Some ∅) c).2 eqn:Hg; intros r w2 [= <- <-].
    - split; [done|]. by intros c1 [= <-].
    - split; [done|]. intros c1. unfold initIdentity, mbind, res_mbind, res_bind.
      destruct (new_key env); [|done..]. destruct (new_id env); [|done..].
      destruct (Set_ _ _ c) as [c2|?|?] eqn:HS; [|done..]. simpl. intros [= <-].
      by eapply identity_readable. }
  destruct (ident w1) as [[c1|?|?] w2]; [|done..].
  destruct (Hid _ _ eq_refl) as [-> Hc]. specialize (Hc c1 eq_refl).
  unfold mbind, st_mbind, st_lift, st_wrap. destruct (Reader c1) as [text|?|?] eqn:HR; [|done..].
  simpl. unfold with_fs, with_ds, on_fs.
  destruct (WriteToFile text (configPath p) (dfs (dstate w1))) as [[[]|?|?] f] eqn:HW;
    [|done..]. simpl. intros [= <- <-]. unfold isInitialized, wfs. simpl. split_and!; [|done|].
  - apply WriteToFile_Ok in HW as [HW _]. eauto with msuite.
  - exists text. split; [done|]. eauto with msuite.
Qed.

Lemma opener_Open_config env p w id w' text m :
  inv w → ActiveMap w !! p = None → opener_Open env p w = (Ok id, w') →
  os_read (configPath p) (wfs w) = inr text → Reader (Some m) = Ok text → wf_config m →
  (Config id w').1 = Ok (Some (reloaded m)).
Proof.
  intros Hinv Hp Ho Hr HR Hm. unfold opener_Open in Ho. rewrite Hp in Ho.
  destruct (open env p w) as [[f|?|?] w1] eqn:Hopen; [|done..].
  apply open_spec in Hopen as [_ Hf]; [|by apply inv_closed].
  destruct (Hf f eq_refl) as [_ HF]. injection Ho as <- <-.
  unfold Config, deref. simpl. rewrite lookup_insert_eq. simpl. f_equal.
  assert (FromFile (configPath p) (wfs w) = Ok (Some (reloaded m))) as HF'.
  { eapply FromFile_spec; [done|]. by eapply close_reloaded. }
  congruence.
Qed.

(** ** Properties *)

(** C7: the opener is a counter per path.  Whatever calls are made, failed
    ones included, the package invariant holds and the reference count of every
    path is the number of opens less the number of closes (a surplus close
    counts for nothing). *)
Theorem opener_refines_ledger env os w es w' :
  repo_laws env → inv w → run_ops env os w = (es, w') →
  inv w' ∧ ∀ p, refcount w' p = ledger p (refcount w p) es.
Proof. intros laws Hinv Hr. by eapply run_ops_spec. Qed.

(** A world with an empty disk and no repository, and packages that work. *)
Definition sample_ds_ok : ds_env := mkDsEnv (λ _, Ok ()) Ok
  (λ _ _ _, Ok ()) (λ p, p) (λ _, Some (Ok 0%Z)) (λ _, None) (λ _, None).

Definition sample_repo_env : repo_env := mkRepoEnv sample_ds_ok (Ok "key") (Ok "id")
  (λ o, match o with Some _ => Ok () | None => Panic "child (ds.Datastore) is nil" end)
  (λ _, ([], None)) (λ d, (Batching d, Some "disk error")) (λ es, String.concat "," es) id.

Definition sample_world : world := mkWorld sample_ds_state ∅ 0 ∅.

Definition sample_root : JsonConfig := Some {[ "RootPath" := GString "repo" ]}.

Lemma sample_laws : repo_laws sample_repo_env.
Proof. split; [set_solver|done]. Qed.

Lemma sample_inv : inv sample_world.
Proof. split; simpl; set_solver. Qed.

Definition sample_calls : list op :=
  [OCreateOrOpen sample_root; OInit "repo" sample_root; OOpen "repo"; OClose 0].

Lemma opener_refines_ledger_witness :
  refcount (run_ops sample_repo_env sample_calls sample_world).2 "repo" = 1%Z.
Proof.
  destruct (opener_refines_ledger sample_repo_env sample_calls sample_world
    (run_ops sample_repo_env sample_calls sample_world).1
    (run_ops sample_repo_env sample_calls sample_world).2) as [_ H].
  - apply sample_laws.
  - apply sample_inv.
  - apply surjective_pairing.
  - rewrite H. by vm_compute.
Defined.

(** C9: callers share one repository.  As long as a path has more opens than
    closes, every open of it returns the same object, and in the end that
    object is still the active one, its store open and none of its datastore
    handles closed, whatever was done to this and to other repositories. *)
Theorem shared_until_last_close env os p w es w' ar :
  repo_laws env → inv w → run_ops env os w = (es, w') → ActiveMap w !! p = Some ar →
  (∀ n, 0 < ledger p (RefCnt ar) (take n es))%Z →
  (∀ id, Opened p id ∈ es → id = Active ar) ∧
  ∃ f, heap w' !! Active ar = Some f ∧ path f = p ∧ kvStore f = true ∧
       ∀ h, h ∈ handles f → h ∉ closed (dstate w').
Proof.
  intros laws Hinv Hr Hp Hpos.
  destruct (run_ops_spec env laws _ _ _ _ Hinv Hr) as [Hinv' _].
  destruct (run_ops_shared env laws os p _ _ _ _ Hinv Hr Hp Hpos) as [Hp' Hids].
  split; [done|]. destruct (inv_active w' Hinv' _ _ Hp') as (_ & f & Hf & Hpath & Hkv).
  exists f. split_and!; [done..|]. intros h Hh. by eapply inv_handles.
Qed.

Definition sample_open : world := (run_op sample_repo_env (OCreateOrOpen sample_root) sample_world).2.

Lemma sample_open_inv : inv sample_open.
Proof.
  apply (run_op_spec sample_repo_env sample_laws (OCreateOrOpen sample_root) sample_world
    (run_op sample_repo_env (OCreateOrOpen sample_root) sample_world).1 sample_open);
    [apply sample_inv|apply surjective_pairing].
Qed.

Definition sample_more : list op := [OOpen "repo"; OClose 0; OSetConfig 0 sample_root].

Lemma shared_until_last_close_witness :
  ∃ f, heap (run_ops sample_repo_env sample_more sample_open).2 !! 0%nat = Some f ∧ kvStore f = true.
Proof.
  destruct (shared_until_last_close sample_repo_env sample_more "repo" sample_open
    [Opened "repo" 0; Closed "repo"; Other]
    (run_ops sample_repo_env sample_more sample_open).2 (mkActive 0 1)) as [_ (f & Hf & _ & Hkv & _)].
  - apply sample_laws.
  - apply sample_open_inv.
  - refine (eq_trans (surjective_pairing _) (f_equal (λ es, (es, _)) _)). by vm_compute.
  - by vm_compute.
  - intros [|[|[|[|n]]]]; by vm_compute.
  - exists f. split; [exact Hf|exact Hkv].
Defined.

(** C8: the last close releases the repository: the path is no longer active,
    the object has lost its stores, all its handles are closed, and no handle
    of another repository is, even if closing reports an error. *)
Theorem last_close_releases env id f a w r w' :
  repo_laws env → inv w → heap w !! id = Some f →
  ActiveMap w !! path f = Some (mkActive a 1) → Close env id w = (r, w') →
  ActiveMap w' !! path f = None ∧
  (∃ g, heap w !! a = Some g ∧ heap w' !! a = Some (mkFsRepo (path f) (cfg g) None false) ∧
        ∀ h, h ∈ handles g → h ∈ closed (dstate w')) ∧
  (∀ i g, i ≠ a → heap w !! i = Some g →
     heap w' !! i = Some g ∧ ∀ h, h ∈ handles g → h ∉ closed (dstate w')).
Proof.
  intros laws Hinv Hid Hp Hc. pose proof Hc as Hc'. unfold Close, deref in Hc. rewrite Hid in Hc.
  assert (inv w') as Hinv' by by eapply opener_Close_spec.
  unfold opener_Close in Hc. rewrite Hp in Hc. simpl in Hc.
  destruct (inv_active w Hinv _ _ Hp) as (_ & g & Hg & Hpath & _). simpl in Hg.
  destruct (close_spec env laws (set_active (base.delete (path f) (ActiveMap w)) w) a g Hg)
    as (r0 & c1 & c2 & Hclose & _ & Hall). rewrite Hclose in Hc. injection Hc as <- <-. simpl.
  rewrite lookup_delete_eq. split_and!; [done| |].
  - exists g. rewrite lookup_insert_eq, Hpath. split_and!; [done..|].
    intros h Hh. apply elem_of_app. right. by apply Hall.
  - intros i g' Hi Hg'. rewrite lookup_insert_ne by done. split; [done|]. intros h Hh.
    eapply (inv_handles _ Hinv' i g' h); [|done]. simpl. by rewrite lookup_insert_ne.
Qed.

Definition sample_object : fsRepo :=
  default (mkFsRepo "" None None false) (heap sample_open !! 0%nat).

Lemma last_close_releases_witness :
  ActiveMap (Close sample_repo_env 0 sample_open).2 !! "repo" = None ∧
  (Close sample_repo_env 0 sample_open).1 = Err "disk error".
Proof.
  split; [|by vm_compute].
  apply (last_close_releases sample_repo_env 0 sample_object 0 sample_open
    (Close sample_repo_env 0 sample_open).1 (Close sample_repo_env 0 sample_open).2).
  - apply sample_laws.
  - apply sample_open_inv.
  - by vm_compute.
  - by vm_compute.
  - apply surjective_pairing.
Defined.

(** C28: what [Init] saved is what [Open] gives.  After a successful [Init] the
    configuration has an identity, a second [Init] is refused, [CreateOrOpen]
    ignores the configuration it is given beyond the path, and the opened
    repository's configuration reads like the saved one. *)
Theorem init_then_open env p c w m w1 id w2 :
  inv w → Init env p c w = (Ok (Some m), w1) → wf_config m → ActiveMap w !! p = None →
  Open env p w1 = (Ok id, w2) →
  (Get "Identity" (Some (∅ : gmap string goval)) (Some m)).2 = true ∧
  (∀ c2, Init env p c2 w1 = (Err "already initialized", w1)) ∧
  (∀ c2, Get "RootPath" "" c2 = (p, true) → CreateOrOpen env c2 w1 = (Ok id, w2)) ∧
  ∃ saved, (Config id w2).1 = Ok saved ∧ reads_like saved (Some m).
Proof.
  intros Hinv HI Hm Hp HO. pose proof (Init_files env p c w) as Hf. rewrite HI in Hf. simpl in Hf.
  apply Init_Ok in HI as (Hini & Hident & text & HR & Hread).
  assert (inv w1) as Hinv1 by (eapply inv_ds_only; [by apply files_ds|done]).
  assert (ActiveMap w1 !! p = None) as Hp1 by by destruct Hf as (_ & _ & -> & _).
  split_and!; [done| | |].
  - intros c2. unfold Init. by rewrite Hini.
  - intros c2 HG. unfold CreateOrOpen. rewrite HG. unfold IsInitialized. by rewrite Hini.
  - exists (Some (reloaded m)). split; [|by apply reloaded_reads_like].
    unfold Open in HO. rewrite Hini in HO. by eapply opener_Open_config.
Qed.

Definition sample_saved : gmap string goval :=
  {[ "RootPath" := GString "repo"; "Identity" := identity_record "key" "id" ]}.

Definition sample_init : world := (Init sample_repo_env "repo" sample_root sample_world).2.

Lemma sample_init_saved :
  Init sample_repo_env "repo" sample_root sample_world = (Ok (Some sample_saved), sample_init).
Proof.
  refine (eq_trans (surjective_pairing _) (f_equal (λ r, (r, _)) _)). by vm_compute.
Qed.

Lemma init_then_open_witness :
  ∃ saved, (Config 0 (Open sample_repo_env "repo" sample_init).2).1 = Ok saved ∧
    Get "RootPath" "" saved = ("repo", true).
Proof.
  destruct (init_then_open sample_repo_env "repo" sample_root sample_world sample_saved sample_init
    0 (Open sample_repo_env "repo" sample_init).2) as (_ & _ & _ & saved & Hs & Hg).
  - apply sample_inv.
  - apply sample_init_saved.
  - refine (bool_decide_unpack _ _). by vm_compute.
  - done.
  - refine (eq_trans (surjective_pairing _) (f_equal (λ r, (r, _)) _)). by vm_compute.
  - exists saved. split; [exact Hs|]. rewrite (like_Get _ _ Hg string _). by vm_compute.
Defined.

(** An initialised repository whose [datastore] directory was removed does
    not get its datastores back: [open] creates the directory but opens no
    datastore, and hands a nil datastore to the KV store. *)
Theorem open_without_datastore_dir env p w c :
  Exists (configPath p) (wfs w) = true → FromFile (configPath p) (wfs w) = Ok c →
  Exists (datastorePath p) (wfs w) = false → (MkdirIfNotExists (datastorePath p) (wfs w)).1 = Ok () →
  (open env p w).1 = wrap "failed opening KV store"
    (_ ← new_store env None; Ok (mkFsRepo p c None true)) ∧
  opened (dstate (open env p w).2) = opened (dstate w).
Proof.
  intros He Hc Hd Hmk. unfold open, openConfig, openDatastore. simpl. rewrite He, Hc.
  unfold mbind, st_mbind, res_mbind, res_bind, st_lift, st_wrap. simpl. rewrite Hd.
  unfold with_fs, with_ds, on_fs. unfold wfs in *.
  destruct (MkdirIfNotExists (datastorePath p) (dfs (dstate w))) as [r f]. simpl in Hmk. subst r.
  done.
Qed.

(** A repository of which only the configuration file is left. *)
Definition sample_no_datastore : world := mkWorld
  (mkDsState (mkFs ["home"] {[ ["home"] := Dir; ["home"; "repo"] := Dir;
     ["home"; "repo"; "config.json"] := File "{}" ]} ∅) 0 []) ∅ 0 ∅.

Lemma open_without_datastore_dir_witness :
  (open sample_repo_env "repo" sample_no_datastore).1 = Panic "child (ds.Datastore) is nil".
Proof.
  destruct (open_without_datastore_dir sample_repo_env "repo" sample_no_datastore (Some ∅))
    as [H _]; [by vm_compute..|]. rewrite H. by vm_compute.
Defined.
