(* ===== verification/FsConc.v ===== *)
(** * Concurrent use of [modules/repo/fsrepo/fsrepo.go]

    The package is used by every node of a process, from any goroutine.  Its
    functions hold [pkgLock] for as long as they run, except for [CreateOrOpen],
    which takes it three times: to look for the configuration, to write it, and
    to open the repository.  A goroutine is therefore a sequence of sections,
    and the scheduler may run the sections of others between two of them.  The
    operations of a section are those of [FsRepo].  That a section can be seen
    as one step is shown from the locks in [FsLocks]. *)

From S2P Require Import Prelude Utf8 Json JsonText Files Config Base64 Options Datastore FsRepo.

(** ** Sections *)

(** What a goroutine has still to do: a call; the rest of a [CreateOrOpen] that
    saw no configuration; its last section; nothing, having got a result. *)
Inductive task :=
| TCall (o : op)
| TInit (p : string) (c : JsonConfig)
| TOpen (p : string)
| TDone (r : res (option nat)).

Definition unit_result {A : Type} (r : res A) : res (option nat) := _ ← r; Ok None.
Definition id_result (r : res nat) : res (option nat) := id ← r; Ok (Some id).

Section sections.
Context (env : repo_env).

(** The sections that change nothing: the beginning of [CreateOrOpen], with the
    locked look for the configuration. *)
Definition silent (t : task) (w : world) : option task :=
  match t with
  | TCall (OCreateOrOpen c) =>
    match Get "RootPath" "" c with
    | (_, false) => Some (TDone (Err "root path not specified"))
    | (p, true) => Some (if IsInitialized p w then TOpen p else TInit p c)
    end
  | _ => None
  end.

(** The other sections: the operation, and what is left to do after it. *)
Definition operation (t : task) : option op :=
  match t with
  | TCall (OCreateOrOpen _) => None
  | TCall o => Some o
  | TInit p c => Some (OInit p c)
  | TOpen p => Some (OOpen p)
  | TDone _ => None
  end.

Definition after (t : task) (w : world) : task :=
  match t with
  | TCall (OInit p c) => TDone (unit_result (Init env p c w).1)
  | TInit p c => match (Init env p c w).1 with
                 | Ok _ => TOpen p
                 | r => TDone (unit_result r)
                 end
  | TCall (OOpen p) | TOpen p => TDone (id_result (Open env p w).1)
  | TCall (OClose id) => TDone (unit_result (Close env id w).1)
  | TCall (OSetConfig id c) => TDone (unit_result (SetConfig id c w).1)
  | t => t
  end.

(** ** Goroutines *)

Record state := mkState { wld : world; tasks : list task }.

(** One section of the goroutine [i], with what it did to the opener. *)
Inductive step (s : state) : option event → state → Prop :=
| step_silent i t t' :
    tasks s !! i = Some t → silent t (wld s) = Some t' →
    step s None (mkState (wld s) (<[i := t']> (tasks s)))
| step_operation i t o e w' :
    tasks s !! i = Some t → operation t = Some o → run_op env o (wld s) = (e, w') →
    step s (Some e) (mkState w' (<[i := after t (wld s)]> (tasks s))).

(** A run of the scheduler: the number of sections, and the events. *)
Inductive run : nat → state → list event → state → Prop :=
| run_nil s : run 0 s [] s
| run_cons n s oe s1 es s2 : step s oe s1 → run n s1 es s2 → run (S n) s (opt_list oe ++ es) s2.

(** ** Lemmas *)

(** The operations the sections of a task can be. *)
Definition from (t : task) (o : op) : Prop :=
  match t with
  | TCall (OCreateOrOpen c) =>
    ∃ p, Get "RootPath" "" c = (p, true) ∧ (o = OInit p c ∨ o = OOpen p)
  | TCall o' => o = o'
  | TInit p c => o = OInit p c ∨ o = OOpen p
  | TOpen p => o = OOpen p
  | TDone _ => False
  end.

Lemma silent_from t w t' o : silent t w = Some t' → from t' o → from t o.
Proof.
  destruct t as [[]| | |]; try done. simpl. destruct (Get "RootPath" "" c) as [p []]; intros [= <-]; [|done].
  destruct (IsInitialized p w); simpl; [intros ->|intros [-> | ->]]; eauto.
Qed.

Lemma operation_from t o : operation t = Some o → from t o.
Proof. destruct t as [[]| | |]; simpl; intros [= <-]; auto. Qed.

Lemma after_from t w o o' : operation t = Some o → from (after t w) o' → from t o'.
Proof.
  destruct t as [[]| | |]; simpl; try done. destruct (Init env p c w).1; simpl; [|done..]. intros _ ->. by right.
Qed.

(** The tasks after a step come from those before it. *)
Lemma step_from s oe s' t' o :
  step s oe s' → t' ∈ tasks s' → from t' o → ∃ t, t ∈ tasks s ∧ from t o.
Proof.
  intros Hs [j Hj]%list_elem_of_lookup Ho. destruct Hs as [i t u Ht Hu|i t o1 e w' Ht Ho1 Hr]; simpl in Hj;
    apply list_lookup_insert_Some in Hj as [(-> & <- & _)|[_ Hj]];
    try (exists t'; split; [by eapply list_elem_of_lookup_2|done]);
    exists t; (split; [by eapply list_elem_of_lookup_2|]).
  - by eapply silent_from.
  - by eapply after_from.
Qed.

(** A run is a sequence of calls of the package, each of them a section of a
    goroutine. *)
Lemma run_sequential n s es s' :
  run n s es s' →
  ∃ os, run_ops env os (wld s) = (es, wld s') ∧ Forall (λ o, ∃ t, t ∈ tasks s ∧ from t o) os.
Proof.
  induction 1 as [s|n s oe s1 es s2 Hstep _ (os & Hos & Hfrom)]; [by exists []|].
  assert (Forall (λ o, ∃ t, t ∈ tasks s ∧ from t o) os) as Hf.
  { eapply Forall_impl; [exact Hfrom|]. intros o (t & Ht & Ho). by eapply step_from. }
  destruct Hstep as [i t t' Ht Hsi|i t o e w' Ht Ho Hr]; simpl in *.
  - by exists os.
  - exists (o :: os). split; [simpl; by rewrite Hr, Hos|]. constructor; [|done].
    exists t. split; [by eapply list_elem_of_lookup_2|by apply operation_from].
Qed.

(** ** Progress *)

(** The sections a task has left at most. *)
Definition left_ (t : task) : nat :=
  match t with
  | TCall (OCreateOrOpen _) => 3
  | TCall _ => 1
  | TInit _ _ => 2
  | TOpen _ => 1
  | TDone _ => 0
  end.

Definition total (s : state) : nat := sum_list (left_ <$> tasks s).

Lemma silent_left t w t' : silent t w = Some t' → (left_ t' < left_ t)%nat.
Proof.
  destruct t as [[]| | |]; try done. simpl. destruct (Get "RootPath" "" c) as [p []]; intros [= <-]; simpl; [|lia].
  destruct (IsInitialized p w); simpl; lia.
Qed.

Lemma after_left t w o : operation t = Some o → (left_ (after t w) < left_ t)%nat.
Proof. destruct t as [[]| | |]; simpl; try done; try lia. destruct (Init env p c w).1; simpl; lia. Qed.

Lemma step_total s oe s' : step s oe s' → (total s' < total s)%nat.
Proof.
  intros [i t t' Ht Hsi|i t o e w' Ht Ho Hr]; unfold total; simpl.
  - pose proof (sum_list_insert left_ _ i t t' Ht). apply silent_left in Hsi. lia.
  - pose proof (sum_list_insert left_ _ i t (after t (wld s)) Ht). apply (after_left t (wld s)) in Ho. lia.
Qed.

Lemma run_bounded n s es s' : run n s es s' → (n + total s' ≤ total s)%nat.
Proof. induction 1 as [|n s oe s1 es s2 Hs _ IH]; [lia|]. apply step_total in Hs. lia. Qed.

Lemma total_bound s : (total s ≤ 3 * length (tasks s))%nat.
Proof.
  unfold total. induction (tasks s) as [|t ts IH]; [done|]. rewrite fmap_cons.
  assert (left_ t ≤ 3)%nat by (destruct t as [[]| | |]; simpl; lia). simpl sum_list. simpl length. lia.
Qed.

(** ** Alone *)

(** A [CreateOrOpen] that nobody interrupts. *)
Lemma create_alone c w :
  ∃ n es, run n (mkState w [TCall (OCreateOrOpen c)]) es
    (mkState (CreateOrOpen env c w).2 [TDone (id_result (CreateOrOpen env c w).1)]).
Proof.
  assert (∀ p w, run 1 (mkState w [TOpen p]) [(run_op env (OOpen p) w).1]
    (mkState (Open env p w).2 [TDone (id_result (Open env p w).1)])) as Hopen.
  { intros p w1. eapply (run_cons 0 _ (Some _) _ []); [|constructor].
    apply (step_operation (mkState w1 [TOpen p]) 0 (TOpen p) (OOpen p)); [done..|]. simpl. by destruct (Open env p w1). }
  unfold CreateOrOpen. destruct (Get "RootPath" "" c) as [p []] eqn:Hg.
  2:{ exists 1, []. eapply (run_cons 0 _ None _ []); [|constructor].
      apply (step_silent (mkState w [TCall (OCreateOrOpen c)]) 0 (TCall (OCreateOrOpen c))); [done|]. simpl. by rewrite Hg. }
  assert (step (mkState w [TCall (OCreateOrOpen c)]) None
    (mkState w [if IsInitialized p w then TOpen p else TInit p c])) as H1.
  { apply (step_silent (mkState w [TCall (OCreateOrOpen c)]) 0 (TCall (OCreateOrOpen c))); [done|]. simpl. by rewrite Hg. }
  destruct (IsInitialized p w) eqn:Hi.
  { eexists 2, _. eapply (run_cons 1 _ None); [exact H1|apply Hopen]. }
  assert (step (mkState w [TInit p c]) (Some Other) (mkState (Init env p c w).2 [after (TInit p c) w])) as H2.
  { by apply (step_operation (mkState w [TInit p c]) 0 (TInit p c) (OInit p c)). }
  simpl in H2. unfold mbind, st_mbind. destruct (Init env p c w) as [[c'|e|x] w1]; simpl in H2.
  - eexists 3, _. eapply (run_cons 2 _ None); [exact H1|]. eapply (run_cons 1 _ (Some _)); [exact H2|apply Hopen].
  - eexists 2, _. eapply (run_cons 1 _ None); [exact H1|]. eapply (run_cons 0 _ (Some _)); [exact H2|constructor].
  - eexists 2, _. eapply (run_cons 1 _ None); [exact H1|]. eapply (run_cons 0 _ (Some _)); [exact H2|constructor].
Qed.

(** A path that was opened, and is opened again. *)
Lemma reopened c p w id w' text :
  Get "RootPath" "" c = (p, true) → os_read (configPath p) (wfs w) = inr text → Open env p w = (Ok id, w') → (CreateOrOpen env c w').1 = Ok id.
Proof.
  intros Hg Hread HO. pose proof (Open_grows env p w) as Hgr. rewrite HO in Hgr.
  unfold Open in HO. destruct (isInitialized p w) eqn:Hi; [|done].
  assert (∃ n, ActiveMap w' !! p = Some (mkActive id n)) as [n Ha].
  { unfold opener_Open in HO. destruct (ActiveMap w !! p) as [ar|].
    - injection HO as <- <-. eexists. apply lookup_insert_eq.
    - destruct (open env p w) as [[f|?|?] w1]; [|done..]. injection HO as <- <-. eexists. apply lookup_insert_eq. }
  assert (isInitialized p w' = true) as Hi'.
  { apply (os_read_grows _ _ _ _ Hgr) in Hread. unfold os_read in Hread.
    destruct (os_stat _ _) as [|m] eqn:E; [done|]. by eapply Exists_stat. }
  unfold CreateOrOpen, IsInitialized. rewrite Hg, Hi'. unfold Open. rewrite Hi'. unfold opener_Open. by rewrite Ha.
Qed.
End sections.

(** ** Properties *)

(** Who sets a configuration. *)
Definition setter (t : task) : bool := match t with TCall (OSetConfig _ _) => true | _ => false end.

Lemma from_setter t o : from t o → setter t = false → sets_config o = false.
Proof.
  destruct t as [[]| | |]; simpl; try done; try (by intros ->); try (by intros [-> | ->]).
  by intros (p & _ & [-> | ->]).
Qed.

(** Whatever calls goroutines make and however their locked sections follow
    each other, the outcome is that of the sections as calls one after the
    other: the invariant of the package holds, the reference counts are the
    opens less the closes in the order in which they happened, and unless
    somebody sets a configuration no file that was written is changed.  No run
    is longer than three sections per call. *)
Theorem sections_sequential env n s es s' :
  repo_laws env → inv (wld s) → run env n s es s' →
  (∃ os, run_ops env os (wld s) = (es, wld s') ∧ Forall (λ o, ∃ t, t ∈ tasks s ∧ from t o) os) ∧
  inv (wld s') ∧ (∀ p, refcount (wld s') p = ledger p (refcount (wld s) p) es) ∧
  (existsb setter (tasks s) = false → ∀ p text,
     os_read p (wfs (wld s)) = inr text → os_read p (wfs (wld s')) = inr text) ∧
  (n ≤ 3 * length (tasks s))%nat.
Proof.
  intros laws Hinv Hrun. destruct (run_sequential env n s es s' Hrun) as (os & Hos & Hfrom).
  destruct (run_ops_spec env laws os _ _ _ Hinv Hos) as [Hinv' Hcnt].
  split_and!; [by exists os|done|done| |].
  - intros Hset p text Hread. eapply os_read_grows; [|exact Hread].
    pose proof (run_ops_grows env os (wld s)) as Hg. rewrite Hos in Hg. apply Hg.
    apply not_true_iff_false. intros (o & Ho & Hsc)%existsb_exists. rewrite <- list_elem_of_In in Ho.
    rewrite Forall_forall in Hfrom. destruct (Hfrom o Ho) as (t & Ht & Hto).
    apply not_true_iff_false in Hset. apply Hset, existsb_exists. exists t.
    split; [by apply list_elem_of_In|]. destruct (setter t) eqn:E; [done|]. by rewrite (from_setter t o) in Hsc.
  - apply run_bounded in Hrun. etransitivity; [|apply (total_bound s)]. lia.
Qed.

(** Two nodes that are created on the same new path at the same time: the
    look for the configuration and its writing are separate sections, so it can
    happen that both see none, and then the second one fails, although the
    repository is there and opened by the first.  One after the other, in
    either order, both would have got it, as the same object. *)
Theorem create_race env c1 c2 p w c' w1 id w2 :
  Get "RootPath" "" c1 = (p, true) → Get "RootPath" "" c2 = (p, true) → isInitialized p w = false →
  Init env p c1 w = (Ok c', w1) → Open env p w1 = (Ok id, w2) →
  (∃ n es, run env n (mkState w [TCall (OCreateOrOpen c1); TCall (OCreateOrOpen c2)]) es
     (mkState w2 [TDone (Ok (Some id)); TDone (Err "already initialized")])) ∧
  CreateOrOpen env c1 w = (Ok id, w2) ∧ (CreateOrOpen env c2 w2).1 = Ok id.
Proof.
  intros H1 H2 Hi HI HO. pose proof (Init_Ok _ _ _ _ _ _ HI) as (Hi1 & _ & text & _ & Hread).
  assert (CreateOrOpen env c1 w = (Ok id, w2)) as Hc.
  { unfold CreateOrOpen, IsInitialized. rewrite H1, Hi. unfold mbind, st_mbind. by rewrite HI. }
  split_and!; [|done|by eapply reopened].
  exists 5%nat. eexists.
  eapply (run_cons env 4 _ None); [by eapply (step_silent env (mkState _ _) 0); [done|simpl; rewrite H1; unfold IsInitialized; rewrite Hi]|].
  eapply (run_cons env 3 _ None); [by eapply (step_silent env (mkState _ _) 1); [done|simpl; rewrite H2; unfold IsInitialized; rewrite Hi]|].
  eapply (run_cons env 2 _ (Some _)); [by eapply (step_operation env (mkState _ _) 0)|]. simpl. rewrite HI. simpl.
  assert (Init env p c2 w1 = (Err "already initialized", w1)) as Hfail by (unfold Init; by rewrite Hi1).
  eapply (run_cons env 1 _ (Some _)); [by eapply (step_operation env (mkState _ _) 1)|]. simpl. rewrite Hfail. simpl.
  eapply (run_cons env 0 _ (Some _)); [|].
  - eapply (step_operation env (mkState _ _) 0); [done..|]. simpl. rewrite HO. done.
  - simpl. rewrite HO. constructor.
Qed.

(** ** Witnesses *)

Lemma create_race_witness : ∃ n es,
  run sample_repo_env n
    (mkState sample_world [TCall (OCreateOrOpen sample_root); TCall (OCreateOrOpen sample_root)]) es
    (mkState (Open sample_repo_env "repo" sample_init).2
       [TDone (Ok (Some 0%nat)); TDone (Err "already initialized")]).
Proof.
  apply (create_race sample_repo_env sample_root sample_root "repo" sample_world (Some sample_saved) sample_init).
  - by vm_compute.
  - by vm_compute.
  - by vm_compute.
  - apply sample_init_saved.
  - refine (eq_trans (surjective_pairing _) (f_equal (λ r, (r, _)) _)). by vm_compute.
Defined.
