(* ===== verification/FsLocks.v ===== *)
(** * The locks of [modules/repo/fsrepo/fsrepo.go]

    The package has two mutexes: [pkgLock], which every exported function takes,
    and the one of the opener, which [repoOpener.Open] and [repoOpener.Close]
    take inside it.  Here a call of the package is a program: a tree of lock and
    unlock operations and of accesses to the state of the package, in the order
    of the code, with the deferred unlocks on every way out.  Goroutines run such
    programs one operation at a time.  The relation of [FsConc], in which a
    locked section is one step, is the specification. *)

From S2P Require Import Prelude Utf8 Json JsonText Files Config Base64 Options Datastore FsRepo FsConc.

(** ** Programs *)

Inductive mutex := pkgLock | openerMtx.

(** [Act]: an access to the state; what follows depends on what it found.
    [Local]: something of the goroutine's own. *)
Inductive prog :=
| Ret (r : res (option nat))
| Lock (l : mutex) (k : prog)
| Unlock (l : mutex) (k : prog)
| Act (f : world → world) (k : world → prog)
| Local (k : prog).

(** A call that accesses the state, and what follows its result. *)
Definition Do {A : Type} (c : ST world A) (k : res A → prog) : prog :=
  Act (λ w, (c w).2) (λ w, k (c w).1).

(** The rest of a function after a result: on an error it returns. *)
Definition check {A B : Type} (r : res A) (ret : res B → prog) (k : A → prog) : prog :=
  match r with Ok a => k a | Err e => ret (Err e) | Panic x => ret (Panic x) end.

Definition Try {A B : Type} (c : ST world A) (ret : res B → prog) (k : A → prog) : prog :=
  Do c (λ r, check r ret k).

Definition look {A : Type} (f : world → A) : ST world A := λ w, (Ok (f w), w).

Section programs.
Context (env : repo_env).

(** *** [repoOpener] *)

Definition opener_Open_prog (p : string) (ret : res nat → prog) : prog :=
  let ret r := Unlock openerMtx (ret r) in
  Lock openerMtx (
    Try (look (λ w, ActiveMap w !! p)) ret (λ ar,
    match ar with
    | Some ar =>
      Do (λ w, (Ok (Active ar), set_active (<[p := mkActive (Active ar) (RefCnt ar + 1)]> (ActiveMap w)) w)) ret
    | None =>
      Try (λ w, (wrap "failed opening config" (openConfig (mkFsRepo p None None false) w), w)) ret (λ r,
      Try (st_wrap "failed opening datastore" (openDatastore env r)) ret (λ r,
      check (wrap "failed opening KV store" (openStore env r)) ret (λ rp,
      Do (λ w, let (id, w') := alloc rp w in (Ok id, set_active (<[p := mkActive id 1]> (ActiveMap w')) w')) ret)))
    end)).

Definition opener_Close_prog (p : string) (ret : res unit → prog) : prog :=
  let ret r := Unlock openerMtx (ret r) in
  Lock openerMtx (
    Try (look (λ w, ActiveMap w !! p)) ret (λ ar,
    match ar with
    | Some ar =>
      let n := (RefCnt ar - 1)%Z in
      if (0 <? n)%Z then Do (λ w, (Ok (), set_active (<[p := mkActive (Active ar) n]> (ActiveMap w)) w)) ret
      else Do (λ w, (Ok (), set_active (base.delete p (ActiveMap w)) w)) (λ _ : res unit, Do (close env (Active ar)) ret)
    | None => ret (Ok ())
    end)).

(** *** The exported functions *)

Definition IsInitialized_prog (p : string) (ret : bool → prog) : prog :=
  Lock pkgLock (Act id (λ w, Unlock pkgLock (ret (isInitialized p w)))).

Definition Init_prog (p : string) (c : JsonConfig) (ret : res JsonConfig → prog) : prog :=
  let ret r := Unlock pkgLock (ret r) in
  Lock pkgLock (
    Try (look (isInitialized p)) ret (λ b : bool,
    if b then ret (Err "already initialized")
    else
      Try (st_wrap "failed creating directories" (with_fs (MkdirIfNotExists p))) ret (λ _,
      Try (st_wrap "failed creating directories" (with_fs (MkdirIfNotExists (datastorePath p)))) ret (λ _,
      check (if (Get "Identity" (Some (∅ : gmap string goval)) c).2 then Ok c
             else wrap "failed creating identity" (initIdentity env c)) ret (λ c',
      check (wrap "failed reading config" (Reader c')) ret (λ confRdr,
      Try (st_wrap "failed creating config" (with_fs (WriteToFile confRdr (configPath p)))) ret (λ _,
      ret (Ok c')))))))).

Definition Open_prog (p : string) (ret : res nat → prog) : prog :=
  let ret r := Unlock pkgLock (ret r) in
  Lock pkgLock (
    Try (look (isInitialized p)) ret (λ b : bool,
    if b then opener_Open_prog p ret else ret (Err "not initialized"))).

Definition Close_prog (id : nat) (ret : res unit → prog) : prog :=
  let ret r := Unlock pkgLock (ret r) in
  Lock pkgLock (Try (deref id (λ f, mret (path f))) ret (λ p, opener_Close_prog p ret)).

Definition SetConfig_prog (id : nat) (c : JsonConfig) (ret : res unit → prog) : prog :=
  let ret r := Unlock pkgLock (ret r) in
  Lock pkgLock (
    Try (deref id (λ f w,
      (Ok (path f), set_heap (<[id := mkFsRepo (path f) c (rootDS f) (kvStore f)]> (heap w)) w))) ret (λ p,
    check (Reader c) ret (λ confRdr,
    Do (with_fs (WriteToFile confRdr (configPath p))) ret))).

(** [CreateOrOpen] holds no lock of its own: from its call of [Init], and from
    its beginning. *)
Definition create_Open (p : string) : prog := Open_prog p (λ r, Ret (id_result r)).

Definition create_Init (p : string) (c : JsonConfig) : prog :=
  Init_prog p c (λ r, match r with Ok _ => create_Open p | r => Ret (unit_result r) end).

Definition CreateOrOpen_prog (c : JsonConfig) : prog :=
  match Get "RootPath" "" c with
  | (_, false) => Local (Ret (Err "root path not specified"))
  | (p, true) => IsInitialized_prog p (λ b, if b then create_Open p else create_Init p c)
  end.

(** The program of what a goroutine has still to do. *)
Definition prog_of (t : task) : prog :=
  match t with
  | TCall (OInit p c) => Init_prog p c (λ r, Ret (unit_result r))
  | TCall (OOpen p) => Open_prog p (λ r, Ret (id_result r))
  | TCall (OClose id) => Close_prog id (λ r, Ret (unit_result r))
  | TCall (OSetConfig id c) => SetConfig_prog id c (λ r, Ret (unit_result r))
  | TCall (OCreateOrOpen c) => CreateOrOpen_prog c
  | TInit p c => create_Init p c
  | TOpen p => create_Open p
  | TDone r => Ret r
  end.
End programs.

(** ** Goroutines *)

Record mstate := mkMState {
  mw : world;
  pkg : option nat;        (* who holds [pkgLock] *)
  opn : option nat;        (* who holds the opener's mutex *)
  gors : list prog;
}.

Definition holder (l : mutex) (s : mstate) : option nat :=
  match l with pkgLock => pkg s | openerMtx => opn s end.

Definition set_holder (l : mutex) (o : option nat) (gs : list prog) (s : mstate) : mstate :=
  match l with
  | pkgLock => mkMState (mw s) o (opn s) gs
  | openerMtx => mkMState (mw s) (pkg s) o gs
  end.

Inductive mstep (s : mstate) : mstate → Prop :=
| m_lock i l k :
    gors s !! i = Some (Lock l k) → holder l s = None →
    mstep s (set_holder l (Some i) (<[i := k]> (gors s)) s)
| m_unlock i l k :
    gors s !! i = Some (Unlock l k) → is_Some (holder l s) →
    mstep s (set_holder l None (<[i := k]> (gors s)) s)
| m_act i f k :
    gors s !! i = Some (Act f k) →
    mstep s (mkMState (f (mw s)) (pkg s) (opn s) (<[i := k (mw s)]> (gors s)))
| m_local i k :
    gors s !! i = Some (Local k) →
    mstep s (mkMState (mw s) (pkg s) (opn s) (<[i := k]> (gors s))).

(** Goroutines that make the given calls. *)
Definition spawned (env : repo_env) (w : world) (ts : list task) : mstate :=
  mkMState w None None (prog_of env <$> ts).

(** ** Lemmas: the locked sections *)

(** The rest of a section, run without interruption: until [pkgLock] is given
    back. *)
Fixpoint finish (p : prog) (w : world) : world * prog :=
  match p with
  | Ret r => (w, Ret r)
  | Unlock pkgLock k => (w, k)
  | Lock _ k | Unlock openerMtx k | Local k => finish k w
  | Act f k => finish (k w) (f w)
  end.

(** A program that does what a stateful call does, and goes on with its
    result. *)
Definition performs {A : Type} (p : prog) (c : ST world A) (ret : res A → prog) : Prop :=
  ∀ w, finish p w = finish (ret (c w).1) (c w).2.

Lemma performs_Try {A B} (c : ST world A) (d : A → ST world B) ret k :
  (∀ a, performs (k a) (d a) ret) → performs (Try c ret k) (c ≫= d) ret.
Proof.
  intros Hk w. unfold Try, Do, mbind, st_mbind. simpl. destruct (c w) as [[a|e|x] w']; simpl; [apply Hk|done..].
Qed.

Lemma performs_check {A B} (r : res A) (d : A → ST world B) ret k :
  (∀ a, performs (k a) (d a) ret) → performs (check r ret k) (st_lift r ≫= d) ret.
Proof. intros Hk w. unfold mbind, st_mbind, st_lift. destruct r as [a|e|x]; simpl; [apply Hk|done..]. Qed.

Lemma performs_Do {A} (c : ST world A) ret : performs (Do c ret) c ret.
Proof. by intros w. Qed.

Lemma performs_ret {A} (a : A) (ret : res A → prog) : performs (ret (Ok a)) (mret a) ret.
Proof. by intros w. Qed.

Lemma performs_eq {A} p (c d : ST world A) ret : (∀ w, c w = d w) → performs p c ret → performs p d ret.
Proof. intros Hcd Hc w. by rewrite <- Hcd. Qed.

Section sections.
Context (env : repo_env).

Lemma finish_opener_Open p ret w :
  finish (opener_Open_prog env p ret) w = finish (ret (opener_Open env p w).1) (opener_Open env p w).2.
Proof.
  cbn. unfold opener_Open. destruct (ActiveMap w !! p) as [ar|]; [done|].
  unfold open, mbind, st_mbind, st_lift.
  cbn. destruct (wrap "failed opening config" (openConfig (mkFsRepo p None None false) w)) as [r|e|x]; [|done..].
  cbn. destruct (st_wrap "failed opening datastore" (openDatastore env r) w) as [[r1|e|x] w1]; [|done..].
  cbn. by destruct (wrap "failed opening KV store" (openStore env r1)).
Qed.

Lemma finish_opener_Close p ret w :
  finish (opener_Close_prog env p ret) w = finish (ret (opener_Close env p w).1) (opener_Close env p w).2.
Proof.
  cbn. unfold opener_Close. destruct (ActiveMap w !! p) as [ar|]; [|done]. cbn. by destruct (0 <? RefCnt ar - 1)%Z.
Qed.

(** The body of a function under [pkgLock]: what is after the lock. *)
Definition body (p : prog) : prog := match p with Lock _ k => k | p => p end.

Lemma finish_Init p c ret w :
  finish (body (Init_prog env p c ret)) w = ((Init env p c w).2, ret (Init env p c w).1).
Proof.
  change (finish (body (Init_prog env p c ret)) w =
    finish (Unlock pkgLock (ret (Init env p c w).1)) (Init env p c w).2).
  unfold Init_prog, body, Init. unfold Try at 1, Do at 1. cbn -[Try]. destruct (isInitialized p w); [done|].
  revert w. apply (performs_eq _ (_ ← st_wrap "failed creating directories" (with_fs (MkdirIfNotExists p));
    _ ← st_wrap "failed creating directories" (with_fs (MkdirIfNotExists (datastorePath p)));
    c' ← st_lift (if (Get "Identity" (Some (∅ : gmap string goval)) c).2 then Ok c
                  else wrap "failed creating identity" (initIdentity env c));
    confRdr ← st_lift (wrap "failed reading config" (Reader c'));
    _ ← st_wrap "failed creating config" (with_fs (WriteToFile confRdr (configPath p)));
    mret c') _ (λ r, Unlock pkgLock (ret r))).
  2:{ apply performs_Try. intros ?. apply performs_Try. intros ?. apply performs_check. intros c'.
      apply performs_check. intros rd. apply performs_Try. intros ?. apply (performs_ret c' (λ r, Unlock pkgLock (ret r))). }
  intros w. unfold initRepo, mbind, st_mbind, st_wrap, st_lift, mret, st_mret.
  destruct (with_fs (MkdirIfNotExists p) w) as [[[]|e|x] w1]; [|done..]. simpl.
  destruct (with_fs (MkdirIfNotExists (datastorePath p)) w1) as [[[]|e|x] w2]; [|done..]. simpl.
  by destruct ((Get "Identity" _ c).2).
Qed.

Lemma finish_Open p ret w :
  finish (body (Open_prog env p ret)) w = ((Open env p w).2, ret (Open env p w).1).
Proof.
  unfold Open_prog, body, Open. cbn -[opener_Open_prog]. destruct (isInitialized p w); [|done].
  by rewrite finish_opener_Open.
Qed.

Lemma finish_Close id ret w :
  finish (body (Close_prog env id ret)) w = ((Close env id w).2, ret (Close env id w).1).
Proof.
  unfold Close_prog, body, Close, deref. cbn -[opener_Close_prog]. destruct (heap w !! id) as [f|]; [|done].
  cbn -[opener_Close_prog]. by rewrite finish_opener_Close.
Qed.

Lemma finish_SetConfig id c ret w :
  finish (body (SetConfig_prog id c ret)) w = ((SetConfig id c w).2, ret (SetConfig id c w).1).
Proof.
  cbn. unfold SetConfig, deref. destruct (heap w !! id) as [f|]; [|done].
  unfold mbind, st_mbind, st_lift. cbn. by destruct (Reader c).
Qed.

(** What a task does when it gets [pkgLock]: one step of the specification. *)
Lemma locked_section t k : prog_of env t = Lock pkgLock k → ∀ w,
  (∃ t', silent t w = Some t' ∧ finish k w = (w, prog_of env t')) ∨
  (∃ o, operation t = Some o ∧ finish k w = ((run_op env o w).2, prog_of env (after env t w))).
Proof.
  intros Hk w. assert (k = body (prog_of env t)) as -> by by rewrite Hk.
  destruct t as [[p c|p|id|id c|c]|p c|p|r]; try done.
  - right. eexists. split; [done|]. cbn [prog_of]. by rewrite finish_Init.
  - right. eexists. split; [done|]. cbn [prog_of]. rewrite finish_Open. simpl. by destruct (Open env p w).
  - right. eexists. split; [done|]. cbn [prog_of]. by rewrite finish_Close.
  - right. eexists. split; [done|]. cbn [prog_of]. by rewrite finish_SetConfig.
  - left. simpl in Hk |- *. unfold CreateOrOpen_prog in *. destruct (Get "RootPath" "" c) as [p []]; [|done].
    eexists. split; [done|]. simpl. unfold IsInitialized. by destruct (isInitialized p w).
  - right. eexists. split; [done|]. cbn [prog_of]. unfold create_Init. rewrite finish_Init. simpl.
    by destruct (Init env p c w).1.
  - right. eexists. split; [done|]. cbn [prog_of]. unfold create_Open. rewrite finish_Open. simpl.
    by destruct (Open env p w).
Qed.

Lemma local_section t k : prog_of env t = Local k → ∀ w, ∃ t', silent t w = Some t' ∧ k = prog_of env t'.
Proof.
  destruct t as [[p c|p|id|id c|c]|p c|p|r]; try done. simpl. unfold CreateOrOpen_prog.
  destruct (Get "RootPath" "" c) as [p []]; [done|]. intros [= <-] w. by eexists.
Qed.

(** ** Lemmas: brackets and lengths *)

(** The locks are taken in their order and given back, and the state is only
    accessed under [pkgLock]; [pk] and [mx]: whether they are held. *)
Fixpoint bracketed (pk mx : bool) (p : prog) : Prop :=
  match p with
  | Ret _ => pk = false ∧ mx = false
  | Lock pkgLock k => pk = false ∧ mx = false ∧ bracketed true false k
  | Lock openerMtx k => pk = true ∧ mx = false ∧ bracketed true true k
  | Unlock openerMtx k => pk = true ∧ mx = true ∧ bracketed true false k
  | Unlock pkgLock k => pk = true ∧ mx = false ∧ bracketed false false k
  | Act _ k => pk = true ∧ ∀ w, bracketed true mx (k w)
  | Local k => bracketed pk mx k
  end.

(** No more than [n] operations. *)
Fixpoint within (p : prog) (n : nat) : Prop :=
  match p, n with
  | Ret _, _ => True
  | _, O => False
  | Lock _ k, S n | Unlock _ k, S n | Local k, S n => within k n
  | Act _ k, S n => ∀ w, within (k w) n
  end.

Lemma within_mono p : ∀ n m, (n ≤ m)%nat → within p n → within p m.
Proof.
  induction p as [r|l k IH|l k IH|f k IH|k IH]; intros [|n] [|m] Hle; simpl; try done; try lia;
    try (apply IH; lia). intros Hk w. apply (IH w n); [lia|done].
Qed.

(** The operations left of a task. *)
Definition opsLimit (t : task) : nat :=
  match t with
  | TCall (OCreateOrOpen _) => 18
  | TCall (OInit _ _) => 6
  | TCall _ => 9
  | TInit _ _ => 15
  | TOpen _ => 9
  | TDone _ => 0
  end.

Ltac by_cases := repeat match goal with
  | |- bracketed _ _ (match ?x with _ => _ end) => destruct x; simpl
  | |- bracketed _ _ (check ?x _ _) => destruct x; simpl
  | |- within (match ?x with _ => _ end) _ => destruct x; simpl
  | |- within (check ?x _ _) _ => destruct x; simpl
  | |- _ ∧ _ => split
  | |- ∀ _, _ => intro
  end; try done.

Lemma open_bracketed p : bracketed false false (create_Open env p).
Proof. simpl. by_cases. Qed.

Lemma open_within p n : within (create_Open env p) (9 + n).
Proof. simpl. by_cases. Qed.

Lemma init_bracketed p c ret : (∀ r, bracketed false false (ret r)) → bracketed false false (Init_prog env p c ret).
Proof. intros Hr. simpl. by_cases; apply Hr. Qed.

Lemma init_within p c ret n : (∀ r, within (ret r) n) → within (Init_prog env p c ret) (6 + n).
Proof. intros Hr. simpl. by_cases; (eapply within_mono; [|apply Hr]; lia). Qed.

Lemma create_init_bracketed p c : bracketed false false (create_Init env p c).
Proof. apply init_bracketed. intros [c'|e|x]; [apply open_bracketed|done..]. Qed.

Lemma create_init_within p c : within (create_Init env p c) 15.
Proof. apply (init_within _ _ _ 9). intros [c'|e|x]; [apply (open_within p 0)|done..]. Qed.

Lemma prog_bracketed t : bracketed false false (prog_of env t).
Proof.
  destruct t as [[p c|p|id|id c|c]|p c|p|r]; cbn [prog_of].
  - by apply init_bracketed.
  - exact (open_bracketed p).
  - simpl. by_cases.
  - simpl. by_cases.
  - unfold CreateOrOpen_prog. destruct (Get "RootPath" "" c) as [p []]; [|done]. cbn -[create_Open create_Init].
    split_and!; try done. intros w. split_and!; try done.
    destruct (isInitialized p w); [apply open_bracketed|apply create_init_bracketed].
  - apply create_init_bracketed.
  - apply open_bracketed.
  - done.
Qed.

Lemma prog_within t : within (prog_of env t) (opsLimit t).
Proof.
  destruct t as [[p c|p|id|id c|c]|p c|p|r]; cbn [prog_of opsLimit].
  - by apply (init_within _ _ _ 0).
  - exact (open_within p 0).
  - simpl. by_cases.
  - simpl. by_cases.
  - unfold CreateOrOpen_prog. destruct (Get "RootPath" "" c) as [p []]; [|done]. cbn -[create_Open create_Init].
    intros w. destruct (isInitialized p w); [exact (open_within p 6)|apply create_init_within].
  - apply create_init_within.
  - exact (open_within p 0).
  - done.
Qed.
End sections.

(** ** Lemmas: the simulation *)

Section simulation.
Context (env : repo_env).

(** A state and its specification: a goroutine outside the lock is a task; the
    one that holds [pkgLock] will, when its section is over, have made the step
    that the specification has made already; and only it may hold the other
    mutex. *)
Record simulates (s : mstate) (a : state) : Prop := mkSimulates {
  sim_length : length (gors s) = length (tasks a);
  sim_outside i g t :
    gors s !! i = Some g → tasks a !! i = Some t → pkg s ≠ Some i → g = prog_of env t;
  sim_free : pkg s = None → mw s = wld a ∧ opn s = None;
  sim_inside i :
    pkg s = Some i → ∃ g t, gors s !! i = Some g ∧ tasks a !! i = Some t ∧
      finish g (mw s) = (wld a, prog_of env t) ∧
      (opn s = None ∧ bracketed true false g ∨ opn s = Some i ∧ bracketed true true g);
}.

(** What a goroutine is allowed to do. *)
Lemma simulated_bracketed s a i g : simulates s a → gors s !! i = Some g →
  (pkg s ≠ Some i ∧ bracketed false false g) ∨
  (pkg s = Some i ∧ (opn s = None ∧ bracketed true false g ∨ opn s = Some i ∧ bracketed true true g)).
Proof.
  intros [Hl Ho _ Hi] Hg. destruct (decide (pkg s = Some i)) as [E|E].
  - destruct (Hi i E) as (g' & t & Hg' & _ & _ & Hb). right. assert (g' = g) as -> by congruence. done.
  - left. split; [done|]. assert (is_Some (tasks a !! i)) as [t Ht].
    { apply lookup_lt_is_Some. rewrite <- Hl. by eapply lookup_lt_Some. }
    rewrite (Ho i g t Hg Ht E). apply prog_bracketed.
Qed.

(** A step inside the section: the specification has done it. *)
Lemma inside_step s a i g' w' opn' :
  simulates s a → pkg s = Some i →
  (∀ g, gors s !! i = Some g → finish g' w' = finish g (mw s)) →
  (opn' = None ∧ bracketed true false g' ∨ opn' = Some i ∧ bracketed true true g') →
  simulates (mkMState w' (Some i) opn' (<[i := g']> (gors s))) a.
Proof.
  intros [Hl Ho Hf Hi] Hp Hfin Hb. destruct (Hi i Hp) as (g & t & Hg & Ht & Hfi & _).
  split; simpl; [by rewrite length_insert| |done|].
  - intros j x t' Hx Ht' Hne. rewrite list_lookup_insert_ne in Hx by congruence. apply (Ho j); [done..|congruence].
  - intros j [= <-]. exists g', t. split_and!; [|done|by rewrite (Hfin g Hg)|done].
    apply list_lookup_insert_eq. by eapply lookup_lt_Some.
Qed.

(** Beginning a section: the specification makes its step. *)
Lemma section_begins s a i k t :
  simulates s a → gors s !! i = Some (Lock pkgLock k) → tasks a !! i = Some t → pkg s = None →
  ∃ n es a', run env n a es a' ∧ simulates (mkMState (mw s) (Some i) (opn s) (<[i := k]> (gors s))) a'.
Proof.
  intros Hsim Hg Ht Hp. pose proof (simulated_bracketed _ _ _ _ Hsim Hg) as [[_ Hb]|[? _]]; [|congruence].
  destruct Hb as (_ & _ & Hb). destruct Hsim as [Hl Ho Hf Hi]. destruct (Hf Hp) as [Hw Hopn].
  assert (prog_of env t = Lock pkgLock k) as Hk by (symmetry; apply (Ho i); [done..|congruence]).
  assert (∀ w' t', finish k (mw s) = (w', prog_of env t') →
    simulates (mkMState (mw s) (Some i) (opn s) (<[i := k]> (gors s))) (mkState w' (<[i := t']> (tasks a)))) as Hsim'.
  { intros w' t' Hfin. split; simpl; [by rewrite !length_insert| |done|].
    - intros j x u Hx Hu Hne. rewrite list_lookup_insert_ne in Hx by congruence. rewrite list_lookup_insert_ne in Hu by congruence. apply (Ho j); [done..|congruence].
    - intros j [= <-]. exists k, t'. split_and!; [..|done|by left];
        (apply list_lookup_insert_eq; by eapply lookup_lt_Some). }
  destruct (locked_section env t k Hk (mw s)) as [(t' & Hs & Hfin)|(o & Hop & Hfin)]; rewrite Hw in *.
  - eexists 1%nat, _, _. split; [|by apply Hsim'].
    eapply (run_cons env 0 _ None _ []); [by eapply step_silent|constructor].
  - destruct (run_op env o (wld a)) as [e w'] eqn:Hr. eexists 1%nat, _, _. split; [|by apply Hsim'].
    eapply (run_cons env 0 _ (Some e) _ []); [by eapply step_operation|constructor].
Qed.

(** Ending it. *)
Lemma section_ends s a i k :
  simulates s a → gors s !! i = Some (Unlock pkgLock k) → pkg s = Some i → opn s = None →
  simulates (mkMState (mw s) None (opn s) (<[i := k]> (gors s))) a.
Proof.
  intros [Hl Ho Hf Hi] Hg Hp Hopn. destruct (Hi i Hp) as (g & t & Hg' & Ht & Hfin & _).
  rewrite Hg in Hg'. injection Hg' as <-. simpl in Hfin. injection Hfin as Hw Hk.
  split; simpl; [by rewrite length_insert| |done|done].
  intros j x u Hx Hu _. destruct (decide (i = j)) as [<-|Hne].
  - rewrite list_lookup_insert_eq in Hx by (by eapply lookup_lt_Some). congruence.
  - rewrite list_lookup_insert_ne in Hx by done. apply (Ho j); [done..|congruence].
Qed.

Lemma local_step s a i k t :
  simulates s a → gors s !! i = Some (Local k) → tasks a !! i = Some t → pkg s ≠ Some i →
  ∃ n es a', run env n a es a' ∧ simulates (mkMState (mw s) (pkg s) (opn s) (<[i := k]> (gors s))) a'.
Proof.
  intros [Hl Ho Hf Hi] Hg Ht Hp. assert (prog_of env t = Local k) as Hk by (symmetry; by apply (Ho i)).
  destruct (local_section env t k Hk (wld a)) as (t' & Hs & ->).
  exists 1%nat. eexists _, (mkState (wld a) (<[i := t']> (tasks a))). split.
  { eapply (run_cons env 0 _ None _ []); [by eapply step_silent|constructor]. }
  split; simpl; [by rewrite !length_insert| |done|].
  - intros j x u Hx Hu Hne. destruct (decide (i = j)) as [<-|Hij].
    + rewrite list_lookup_insert_eq in Hx by (by eapply lookup_lt_Some).
      rewrite list_lookup_insert_eq in Hu by (by eapply lookup_lt_Some). congruence.
    + rewrite list_lookup_insert_ne in Hx by done. rewrite list_lookup_insert_ne in Hu by done. by apply (Ho j).
  - intros j Hj. destruct (Hi j Hj) as (g & u & Hgj & Huj & Hrest). exists g, u.
    rewrite !list_lookup_insert_ne by congruence. done.
Qed.

Lemma simulates_step s a s' : simulates s a → mstep s s' →
  ∃ n es a', run env n a es a' ∧ simulates s' a'.
Proof.
  intros Hsim Hstep. assert (∀ s'', simulates s'' a → ∃ n es a', run env n a es a' ∧ simulates s'' a') as Hstay.
  { intros s'' Hs''. exists 0%nat, [], a. split; [constructor|done]. }
  assert (∀ i g, gors s !! i = Some g → is_Some (tasks a !! i)) as Htask.
  { intros i g Hg. apply lookup_lt_is_Some. rewrite <- (sim_length _ _ Hsim). by eapply lookup_lt_Some. }
  destruct Hstep as [i l k Hg Hh|i l k Hg Hh|i f k Hg|i k Hg];
    pose proof (simulated_bracketed _ _ _ _ Hsim Hg) as Hb.
  - destruct l; simpl in *.
    + destruct (Htask i _ Hg) as [t Ht]. by eapply section_begins.
    + destruct Hb as [[_ [? _]]|[Hp [[_ (_ & _ & Hk)]|[? _]]]]; [done| |congruence].
      apply Hstay. rewrite Hp. apply (inside_step s); [done..| |by right]. intros g' Hg'. by replace g' with (Lock openerMtx k) by congruence.
  - destruct l; simpl in *.
    + destruct Hb as [[_ [? _]]|[Hp [[Hopn _]|[_ (_ & ? & _)]]]]; [done| |done].
      apply Hstay. by apply section_ends.
    + destruct Hb as [[_ [? _]]|[Hp [[_ (_ & ? & _)]|[_ (_ & _ & Hk)]]]]; [done|done|].
      apply Hstay. rewrite Hp. apply (inside_step s); [done..| |by left]. intros g' Hg'. by replace g' with (Unlock openerMtx k) by congruence.
  - simpl in Hb. destruct Hb as [[_ [? _]]|[Hp Hb]]; [done|]. apply Hstay. rewrite Hp. apply (inside_step s); [done..| |].
    + intros g' Hg'. by replace g' with (Act f k) by congruence.
    + destruct Hb as [[-> [_ Hk]]|[-> [_ Hk]]]; [by left|by right].
  - simpl in Hb. destruct Hb as [[Hp _]|[Hp Hb]].
    + destruct (Htask i _ Hg) as [t Ht]. by eapply local_step.
    + apply Hstay. rewrite Hp. apply (inside_step s); [done..| |done]. intros g' Hg'. by replace g' with (Local k) by congruence.
Qed.

Lemma sections_app n1 n2 a es1 a1 es2 a2 :
  run env n1 a es1 a1 → run env n2 a1 es2 a2 → run env (n1 + n2) a (es1 ++ es2) a2.
Proof.
  induction 1 as [a|n a oe a1' es a2' Hs _ IH]; intros H2; [done|]. rewrite <- (assoc_L (++)). simpl.
  econstructor; [exact Hs|by apply IH].
Qed.

Lemma simulates_steps n s s' : nsteps mstep n s s' → ∀ a, simulates s a →
  ∃ m es a', run env m a es a' ∧ simulates s' a'.
Proof.
  induction 1 as [s|n s s1 s2 Hs _ IH]; intros a Hsim.
  { exists 0%nat, [], a. split; [constructor|done]. }
  destruct (simulates_step s a s1 Hsim Hs) as (m1 & es1 & a1 & Hr1 & Hsim1).
  destruct (IH a1 Hsim1) as (m2 & es2 & a2 & Hr2 & Hsim2). eexists _, _, a2. split; [by eapply sections_app|done].
Qed.

Lemma spawned_simulates w ts : simulates (spawned env w ts) (mkState w ts).
Proof.
  split; simpl; [by rewrite length_fmap| |done|done].
  intros i g t Hg Ht _. rewrite list_lookup_fmap, Ht in Hg. by injection Hg as <-.
Qed.

(** ** Lemmas: progress *)

(** Whoever has not finished can go on, or waits for one who can. *)
Lemma no_deadlock s a i g : simulates s a → gors s !! i = Some g → (∀ r, g ≠ Ret r) → ∃ s', mstep s s'.
Proof.
  intros Hsim Hg Hr. destruct (pkg s) as [j|] eqn:Hp.
  - destruct (sim_inside s a Hsim j Hp) as (x & t & Hx & _ & _ & Hb).
    destruct x as [r|[] k|[] k|f k|k]; simpl in Hb.
    + naive_solver.
    + naive_solver.
    + destruct Hb as [[Ho _]|[_ (_ & ? & _)]]; [|done]. eexists. by apply (m_lock s j openerMtx k).
    + eexists. apply (m_unlock s j pkgLock k Hx). simpl. by rewrite Hp.
    + destruct Hb as [[_ (_ & ? & _)]|[Ho _]]; [done|]. eexists. apply (m_unlock s j openerMtx k Hx). simpl. by rewrite Ho.
    + eexists. by apply (m_act s j f k).
    + eexists. by apply (m_local s j k).
  - pose proof (simulated_bracketed _ _ _ _ Hsim Hg) as [[_ Hb]|[? _]]; [|congruence].
    destruct g as [r|[] k|[] k|f k|k]; simpl in Hb; try (by destruct Hb).
    + by destruct (Hr r).
    + eexists. by apply (m_lock s i pkgLock k).
    + eexists. by apply (m_local s i k).
Qed.

(** Every operation uses up one of those a goroutine has. *)
Lemma step_within s s' ns : mstep s s' → Forall2 within (gors s) ns →
  ∃ ns', Forall2 within (gors s') ns' ∧ (S (sum_list ns') ≤ sum_list ns)%nat.
Proof.
  intros Hstep Hns. assert (∀ i g g', gors s !! i = Some g → (∀ n, within g n → ∃ m, n = S m ∧ within g' m) →
    ∃ ns', Forall2 within (<[i := g']> (gors s)) ns' ∧ (S (sum_list ns') ≤ sum_list ns)%nat) as Hone.
  { intros i g g' Hg Hw. destruct (Forall2_lookup_l _ _ _ _ _ Hns Hg) as (n & Hn & Hgn).
    destruct (Hw n Hgn) as (m & -> & Hm). exists (<[i := m]> ns). split; [by apply Forall2_insert|].
    pose proof (sum_list_insert id ns i (S m) m Hn) as Hs. rewrite !list_fmap_id in Hs. change (id (S m)) with (S m) in Hs. change (id m) with m in Hs. lia. }
  destruct Hstep as [i l k Hg _|i l k Hg _|i f k Hg|i k Hg].
  - assert (gors (set_holder l (Some i) (<[i := k]> (gors s)) s) = <[i := k]> (gors s)) as -> by by destruct l.
    eapply Hone; [done|]. intros [|n] Hn; [done|by exists n].
  - assert (gors (set_holder l None (<[i := k]> (gors s)) s) = <[i := k]> (gors s)) as -> by by destruct l.
    eapply Hone; [done|]. intros [|n] Hn; [done|by exists n].
  - eapply Hone; [done|]. intros [|n] Hn; [done|exists n; split; [done|apply Hn]].
  - eapply Hone; [done|]. intros [|n] Hn; [done|by exists n].
Qed.

Lemma steps_within n s s' : nsteps mstep n s s' → ∀ ns, Forall2 within (gors s) ns → (n ≤ sum_list ns)%nat.
Proof.
  induction 1 as [s|n s s1 s2 Hs _ IH]; intros ns Hns; [lia|].
  destruct (step_within s s1 ns Hs Hns) as (ns' & Hns' & Hle). specialize (IH ns' Hns'). lia.
Qed.

Lemma spawned_within w ts : Forall2 within (gors (spawned env w ts)) (replicate (length ts) 18%nat).
Proof.
  simpl. induction ts as [|t ts IH]; [constructor|]. simpl. constructor; [|done].
  eapply within_mono; [|apply prog_within]. destruct t as [[]| | |]; simpl; lia.
Qed.
End simulation.

(** ** Property *)

(** C10: the package can be used from any number of goroutines.  Whatever calls
    they make, and however the scheduler interleaves their lock operations and
    their accesses to the state, the accesses are made under [pkgLock], and
    whenever nobody holds it the state and the results are those of a sequence
    of calls, one after the other, in which a [CreateOrOpen] counts as its look
    for the configuration, its [Init] and its [Open], between which others may
    come.  So the invariant of the package holds then, the reference counts are
    the opens less the closes of that sequence, and unless one of the calls sets
    a configuration every file that was there is unchanged.  Every goroutine
    returns: no run has more than 18 operations per call, and as long as one has
    not returned there is one that can go on. *)
Theorem concurrent_calls env w ts n s :
  repo_laws env → inv w → nsteps mstep n (spawned env w ts) s →
  (∀ i f k, gors s !! i = Some (Act f k) → pkg s = Some i) ∧
  (pkg s = None → ∃ m es a,
     run env m (mkState w ts) es a ∧ mw s = wld a ∧ gors s = prog_of env <$> tasks a ∧
     (∃ os, run_ops env os w = (es, mw s) ∧ Forall (λ o, ∃ t, t ∈ ts ∧ from t o) os) ∧
     inv (mw s) ∧ (∀ p, refcount (mw s) p = ledger p (refcount w p) es) ∧
     (existsb setter ts = false → ∀ p text, os_read p (wfs w) = inr text → os_read p (wfs (mw s)) = inr text)) ∧
  (n ≤ 18 * length ts)%nat ∧
  (∀ i g, gors s !! i = Some g → (∀ r, g ≠ Ret r) → ∃ s', mstep s s').
Proof.
  intros laws Hinv Hrun.
  destruct (simulates_steps env n _ _ Hrun _ (spawned_simulates env w ts)) as (m & es & a & Ha & Hsim).
  split_and!.
  - intros i f k Hi. destruct (simulated_bracketed env _ _ _ _ Hsim Hi) as [[_ [? _]]|[? _]]; done.
  - intros Hp. destruct (sections_sequential env m (mkState w ts) es a laws Hinv Ha) as (Hos & Hinv' & Hcnt & Hfiles & _).
    destruct Hsim as [Hl Ho Hf _]. destruct (Hf Hp) as [Hw _]. exists m, es, a. rewrite Hw. simpl in *.
    split_and!; try done. apply list_eq. intros i. rewrite list_lookup_fmap.
    destruct (gors s !! i) as [g|] eqn:Hg.
    + destruct (tasks a !! i) as [t|] eqn:Ht; [|apply lookup_ge_None in Ht; apply lookup_lt_Some in Hg; lia].
      simpl. f_equal. apply (Ho i); [done..|congruence].
    + apply lookup_ge_None in Hg. by rewrite (lookup_ge_None_2 (tasks a) i) by lia.
  - pose proof (steps_within _ _ _ Hrun _ (spawned_within env w ts)) as Hle. rewrite sum_list_replicate in Hle. lia.
  - intros i g. by eapply no_deadlock.
Qed.

(** ** Witness *)

(** The scheduler lets goroutine [i] make its next operation. *)
Definition turn (i : nat) (s : mstate) : option mstate :=
  match gors s !! i with
  | Some (Lock l k) =>
    match holder l s with None => Some (set_holder l (Some i) (<[i := k]> (gors s)) s) | Some _ => None end
  | Some (Unlock l k) =>
    match holder l s with Some _ => Some (set_holder l None (<[i := k]> (gors s)) s) | None => None end
  | Some (Act f k) => Some (mkMState (f (mw s)) (pkg s) (opn s) (<[i := k (mw s)]> (gors s)))
  | Some (Local k) => Some (mkMState (mw s) (pkg s) (opn s) (<[i := k]> (gors s)))
  | Some (Ret _) | None => None
  end.

Fixpoint turns (sched : list nat) (s : mstate) : option mstate :=
  match sched with [] => Some s | i :: rest => turn i s ≫= turns rest end.

Lemma turn_step i s s' : turn i s = Some s' → mstep s s'.
Proof.
  unfold turn. destruct (gors s !! i) as [[r|l k|l k|f k|k]|] eqn:Hg; [done| | | | |done].
  - destruct (holder l s) eqn:Hh; intros [= <-]. by apply m_lock.
  - destruct (holder l s) eqn:Hh; intros [= <-]. apply m_unlock; [done|by rewrite Hh].
  - intros [= <-]. by apply m_act.
  - intros [= <-]. by apply m_local.
Qed.

Lemma turns_steps l s s' : turns l s = Some s' → nsteps mstep (length l) s s'.
Proof.
  revert s. induction l as [|i l IH]; simpl; intros s; [intros [= <-]; constructor|].
  intros (s1 & Hs1 & Hs')%bind_Some. econstructor; [by eapply turn_step|by apply IH].
Qed.

(** One goroutine opens a repository that is open once while another closes it:
    the second gets the lock first, and the first opens the repository again. *)
Definition sample_ts : list task := [TCall (OOpen "repo"); TCall (OClose 0)].

Definition sample_schedule : list nat :=
  [1; 1; 1; 1; 1; 1; 1; 1; 0; 0; 0; 0; 0; 0; 0; 0; 0].

Definition sample_end : mstate :=
  default (spawned sample_repo_env sample_open sample_ts)
    (turns sample_schedule (spawned sample_repo_env sample_open sample_ts)).

Lemma sample_turns :
  nsteps mstep 17 (spawned sample_repo_env sample_open sample_ts) sample_end.
Proof.
  apply (turns_steps sample_schedule). unfold sample_end.
  destruct (turns sample_schedule (spawned sample_repo_env sample_open sample_ts)) as [s|] eqn:Hs; [done|].
  assert (is_Some (turns sample_schedule (spawned sample_repo_env sample_open sample_ts))) as [s' Hs'].
  { apply is_Some_alt. by vm_compute. }
  congruence.
Qed.

Lemma concurrent_calls_witness :
  inv (mw sample_end) ∧ refcount (mw sample_end) "repo" = 1%Z ∧
  ∃ m es a, run sample_repo_env m (mkState sample_open sample_ts) es a ∧
    refcount (mw sample_end) "repo" = ledger "repo" (refcount sample_open "repo") es.
Proof.
  destruct (concurrent_calls sample_repo_env sample_open sample_ts 17 sample_end
    sample_laws sample_open_inv sample_turns) as (_ & Hfree & _).
  destruct Hfree as (m & es & a & Hrun & _ & _ & _ & Hinv & Hcnt & _); [by vm_compute|].
  split_and!; [exact Hinv|by vm_compute|exists m, es, a; split; [exact Hrun|apply Hcnt]].
Defined.
