(* ===== verification/InmemRepo.v ===== *)
(** * The in-memory repository: [modules/repo/inmem/inmem.go]

    The repository holds the caller's configuration, a map datastore and a KV
    store on top of it.  The key packages answer through the same [repo_env] as
    for the on-disk repository. *)

From S2P Require Import Prelude Utf8 Json JsonText Files Config Base64 Options Datastore FsRepo.

(** ** Operations *)

(** [closes]: the log of [Close] calls on the datastore and on the store. *)
Inductive part := MapDatastore | KVStore.
Record inmemRepo := mkInmem { c : JsonConfig; closes : list part }.

Section inmem.
Context (env : repo_env).

(** The target of [Get] is a map, not a pointer to one. *)
Definition initIdentity (c : JsonConfig) : res JsonConfig :=
  if GetNonPointer "Identity" c then Ok c
  else
    skbytes ← new_key env;
    id ← new_id env;
    Set_ "Identity" (identity_record skbytes id) c.

Definition CreateOrOpen (c : JsonConfig) : res inmemRepo :=
  c' ← initIdentity c; Ok (mkInmem c' []).

Definition Config (i : inmemRepo) : JsonConfig := c i.

Definition SetConfig (c' : JsonConfig) : ST inmemRepo unit := λ i, (Ok (), mkInmem c' (closes i)).

(** The errors of the two calls are dropped. *)
Definition Close : ST inmemRepo unit := λ i,
  (Ok (), mkInmem (c i) (closes i ++ [MapDatastore; KVStore])).

Definition Status (i : inmemRepo) : string := "In-mem repository".

End inmem.

(** ** Lemmas *)

Lemma GetNonPointer_false key j : GetNonPointer key j = false.
Proof.
  unfold GetNonPointer, Get_with. destruct (map_get j key) as [v|]; [|done].
  by destruct (json_marshal v).
Qed.

(** ** Properties *)

(** The in-memory repository never keeps an identity it is given.  A node
    built with [WithP2PPrivateKey] starts with that key's identity when its
    repository is on disk, and with a newly generated one when it is in
    memory, because the lookup there passes a map where a pointer to it is
    needed and so always fails. *)
Theorem inmem_replaces_identity env m sk id sk' id' (w w' : world) p c' r :
  Options.WithP2PPrivateKey (Ok sk) (Ok id) (Some m) = Ok c' →
  new_key env = Ok sk' → new_id env = Ok id' →
  CreateOrOpen env c' = Ok (mkInmem (Some (<["Identity" := identity_record sk' id']> m)) []) ∧
  (FsRepo.Init env p c' w = (Ok r, w') → r = c').
Proof.
  unfold Options.WithP2PPrivateKey, set_. rewrite Set_default_get. intros [= <-] Hk Hi.
  assert ((Get "Identity" (Some (∅ : gmap string goval))
             (Some (<["Identity" := identity_record sk id]> m))).2 = true) as Hget.
  { by eapply identity_readable, Set_default_get. }
  split.
  - unfold CreateOrOpen, initIdentity. rewrite GetNonPointer_false, Hk, Hi. simpl.
    unfold mbind, res_mbind, res_bind. unfold Set_, map_set. by rewrite insert_insert_eq.
  - unfold FsRepo.Init. destruct (isInitialized p w); [done|]. rewrite Hget.
    unfold mbind, st_mbind, mret, st_mret, st_lift.
    destruct (st_wrap _ _ w) as [[[]|?|?] w1]; [|done..].
    destruct (wrap _ (Reader _)); [|done..].
    destruct (st_wrap _ _ w1) as [[[]|?|?] w2]; [|done..]. by intros [= <-].
Qed.

Lemma inmem_replaces_identity_witness :
  (r ← CreateOrOpen sample_repo_env (Some {[ "Identity" := identity_record "mine" "me" ]});
   Ok (Get "Identity" (Some (∅ : gmap string string)) (Config r))) =
  Ok (Some {[ "ID" := "id"; "PrivKey" := EncodeToString "key" ]}, true).
Proof.
  destruct (inmem_replaces_identity sample_repo_env ∅ "mine" "me" "key" "id" sample_world sample_world
    "repo" (Some {[ "Identity" := identity_record "mine" "me" ]}) None) as [H _];
    [reflexivity..|]. rewrite H. by vm_compute.
Defined.
