(* ===== verification/Repo.v ===== *)
(** * The repository interface: [modules/repo/repo.go]

    Both repositories implement one interface; [RepoI] has its methods and
    [RepoLaws] what its users rely on: the configuration is readable, and it is
    the one that was set last, even if saving it failed.  On disk a saved
    configuration also outlives the repository object. *)

From S2P Require Import Prelude Utf8 Json JsonText Files Config Base64 Options Datastore FsRepo InmemRepo.

(** ** The interface *)

(** [R] are the references to repositories and [W] the state they are in; a
    datastore or a store is reported by whether it is there. *)
Class RepoI (R W : Type) := {
  repo_Config : R → ST W JsonConfig;
  repo_SetConfig : R → JsonConfig → ST W unit;
  repo_Datastore : R → ST W bool;
  repo_Store : R → ST W bool;
  repo_Status : R → ST W repo_status;
  repo_Close : R → ST W unit;
}.

Class RepoLaws (R W : Type) `{RepoI R W} := {
  live : R → W → Prop;                       (* the reference points to a repository *)
  Config_live r w : live r w → ∃ c, repo_Config r w = (Ok c, w);
  SetConfig_live r c w : live r w → live r (repo_SetConfig r c w).2;
  SetConfig_Config r c w : live r w →
    (repo_Config r (repo_SetConfig r c w).2).1 = Ok c;
  Close_live r w : live r w → live r (repo_Close r w).2;
  Close_Config r w : live r w → (repo_Config r (repo_Close r w).2).1 = (repo_Config r w).1;
}.

(** ** On disk *)

Section on_disk.
Context (env : repo_env) (range : list (string * Mount) → list (string * Mount)).

#[export] Instance fs_RepoI : RepoI nat world := {|
  repo_Config := FsRepo.Config;
  repo_SetConfig := FsRepo.SetConfig;
  repo_Datastore id := ds ← Datastore_ id; mret (bool_decide (is_Some ds));
  repo_Store := FsRepo.Store;
  repo_Status id := FsRepo.Status env id range;
  repo_Close := FsRepo.Close env;
|}.

(** [SetConfig] replaces the configuration of its object before it writes the
    file. *)
Lemma SetConfig_heap id c w f :
  heap w !! id = Some f →
  heap (FsRepo.SetConfig id c w).2 = <[id := mkFsRepo (path f) c (rootDS f) (kvStore f)]> (heap w).
Proof.
  intros Hid. unfold FsRepo.SetConfig, deref. rewrite Hid.
  set (call := st_lift (Reader c) ≫= _).
  assert (moves files_only call) as Hm.
  { unfold call. auto using with_fs_files with msuite typeclass_instances. }
  match goal with |- heap (call ?w1).2 = _ => specialize (Hm w1) end. by destruct Hm as [-> _].
Qed.

(** [Close] changes neither the files nor the configurations. *)
Lemma close_frame id w :
  wfs (close env id w).2 = wfs w ∧
  ∀ i f, heap w !! i = Some f → ∃ f', heap (close env id w).2 !! i = Some f' ∧ cfg f' = cfg f ∧ path f' = path f.
Proof.
  unfold close. destruct (heap w !! id) as [g|] eqn:Hg; [|by eauto].
  destruct (if kvStore g then _ else _) as [c1 e1].
  destruct (match rootDS g with Some ds => _ | None => _ end) as [c2 e2]. simpl. split; [done|].
  intros i f Hi. destruct (decide (id = i)) as [->|Hne].
  - rewrite lookup_insert_eq. eexists. split; [done|]. by simplify_eq.
  - rewrite lookup_insert_ne by done. by eauto.
Qed.

Lemma opener_Close_frame p w :
  wfs (opener_Close env p w).2 = wfs w ∧
  ∀ i f, heap w !! i = Some f →
    ∃ f', heap (opener_Close env p w).2 !! i = Some f' ∧ cfg f' = cfg f ∧ path f' = path f.
Proof.
  unfold opener_Close. destruct (ActiveMap w !! p) as [ar|]; [|by eauto].
  destruct (0 <? RefCnt ar - 1)%Z; [by eauto|].
  apply (close_frame (Active ar) (set_active (base.delete p (ActiveMap w)) w)).
Qed.

Lemma Close_frame id w :
  wfs (FsRepo.Close env id w).2 = wfs w ∧
  ∀ i f, heap w !! i = Some f →
    ∃ f', heap (FsRepo.Close env id w).2 !! i = Some f' ∧ cfg f' = cfg f ∧ path f' = path f.
Proof.
  unfold FsRepo.Close, deref. destruct (heap w !! id); [apply opener_Close_frame|by eauto].
Qed.

#[export] Program Instance fs_RepoLaws : RepoLaws nat world := {|
  live id w := is_Some (heap w !! id);
|}.
Next Obligation.
  intros id w [f Hf]. exists (cfg f). simpl. unfold FsRepo.Config, deref. by rewrite Hf.
Qed.
Next Obligation.
  intros id c w [f Hf]. simpl. rewrite (SetConfig_heap _ _ _ _ Hf), lookup_insert_eq. by eexists.
Qed.
Next Obligation.
  intros id c w [f Hf]. simpl. unfold FsRepo.Config, deref.
  by rewrite (SetConfig_heap _ _ _ _ Hf), lookup_insert_eq.
Qed.
Next Obligation.
  intros id w [f Hf]. simpl. destruct (Close_frame id w) as [_ Hc].
  destruct (Hc id f Hf) as (f' & -> & _). by eexists.
Qed.
Next Obligation.
  intros id w [f Hf]. simpl. destruct (Close_frame id w) as [_ Hc].
  destruct (Hc id f Hf) as (f' & Hf' & Hcfg & _). unfold FsRepo.Config, deref.
  rewrite Hf', Hf. simpl. by rewrite Hcfg.
Qed.
End on_disk.

(** ** In memory *)

(** The state is the one repository. *)
#[export] Instance inmem_RepoI : RepoI unit inmemRepo := {|
  repo_Config _ := λ i, (Ok (InmemRepo.Config i), i);
  repo_SetConfig _ := InmemRepo.SetConfig;
  repo_Datastore _ := mret true;
  repo_Store _ := mret true;
  repo_Status _ := λ i, (Ok (StText (InmemRepo.Status i)), i);
  repo_Close _ := InmemRepo.Close;
|}.

#[export] Program Instance inmem_RepoLaws : RepoLaws unit inmemRepo := {| live _ _ := True |}.
Solve Obligations with naive_solver.

(** ** A client of the interface *)

(** Any repository: after a sequence of [SetConfig] calls, whatever they
    return, with closes in between, the configuration is the last one set. *)
Section client.
Context {R W : Type} `{RepoLaws R W}.

Inductive repo_call := CallSetConfig (c : JsonConfig) | CallClose.

Definition run_call (r : R) (w : W) (k : repo_call) : W :=
  match k with
  | CallSetConfig c => (repo_SetConfig r c w).2
  | CallClose => (repo_Close r w).2
  end.

Definition last_config (c0 : JsonConfig) (ks : list repo_call) : JsonConfig :=
  foldl (λ c k, match k with CallSetConfig c' => c' | CallClose => c end) c0 ks.

Lemma run_calls_config r ks : ∀ w c0,
  live r w → (repo_Config r w).1 = Ok c0 →
  (repo_Config r (foldl (run_call r) w ks)).1 = Ok (last_config c0 ks).
Proof.
  induction ks as [|[c|] ks IH]; intros w c0 Hl Hc; [done|..]; simpl; apply IH.
  - by apply SetConfig_live.
  - by apply SetConfig_Config.
  - by apply Close_live.
  - by rewrite Close_Config.
Qed.
End client.

(** ** Properties *)

Lemma SetConfig_saved id m w w1 f :
  heap w !! id = Some f → FsRepo.SetConfig id (Some m) w = (Ok (), w1) →
  ∃ text, Reader (Some m) = Ok text ∧ os_read (configPath (path f)) (wfs w1) = inr text.
Proof.
  intros Hid. unfold FsRepo.SetConfig, deref. rewrite Hid. unfold mbind, st_mbind, st_lift.
  destruct (Reader (Some m)) as [text|?|?]; [|done..]. unfold with_fs, with_ds, on_fs.
  match goal with |- context [WriteToFile text ?p ?g] => destruct (WriteToFile text p g) as [r f'] eqn:Hw end.
  intros [= -> <-]. exists text. split; [done|]. by eapply WriteToFile_read.
Qed.

(** The last close forgets the path. *)
Lemma last_Close_inactive env id f w :
  heap w !! id = Some f → refcount w (path f) = 1%Z →
  ActiveMap (FsRepo.Close env id w).2 !! path f = None.
Proof.
  intros Hid Hr. unfold FsRepo.Close, deref. rewrite Hid. unfold opener_Close, refcount in *.
  destruct (ActiveMap w !! path f) as [ar|] eqn:Ha; [|done]. rewrite Hr. simpl.
  unfold close. simpl. destruct (heap w !! Active ar) as [g|]; [|apply lookup_delete_eq].
  destruct (if kvStore g then _ else _) as [c1 e1].
  destruct (match rootDS g with Some ds => _ | None => _ end) as [c2 e2]. apply lookup_delete_eq.
Qed.

(** C29: a configuration that is set is kept.  While a repository is open, every
    reader of it gets the configuration set last, also if saving it failed and
    after it was closed; and a configuration that was saved is there for the
    next time: after the last close, opening the path again gives a
    configuration that reads like it. *)
Theorem set_config_survives env id f w ks c m w1 w2 id' w3 :
  repo_laws env → inv w → heap w !! id = Some f → cfg f = c →
  (FsRepo.Config id (foldl (run_call (H:=fs_RepoI env (λ l, l)) id) w ks)).1 = Ok (last_config c ks) ∧
  (refcount w (path f) = 1%Z → wf_config m → FsRepo.SetConfig id (Some m) w = (Ok (), w1) →
   (FsRepo.Close env id w1).2 = w2 → FsRepo.Open env (path f) w2 = (Ok id', w3) →
   ∃ saved, (FsRepo.Config id' w3).1 = Ok saved ∧ reads_like saved (Some m)).
Proof.
  intros laws Hinv Hid Hc. split.
  - apply (run_calls_config (H:=fs_RepoI env (λ l, l)) (H0:=fs_RepoLaws env (λ l, l)) id ks w c); [by eexists|].
    simpl. unfold FsRepo.Config, deref. rewrite Hid. simpl. by rewrite Hc.
  - intros Hr Hm HS <- HO. destruct (SetConfig_saved _ _ _ _ _ Hid HS) as (text & HR & Hread).
    pose proof (SetConfig_heap id (Some m) w f Hid) as Hh.
    destruct (SetConfig_spec id (Some m) w Hinv) as [Hinv1 Ha]. rewrite HS in Hh, Hinv1, Ha.
    simpl in Hh, Hinv1, Ha. set (f1 := mkFsRepo (path f) (Some m) (rootDS f) (kvStore f)) in *.
    assert (heap w1 !! id = Some f1) as Hid1 by by rewrite Hh, lookup_insert_eq.
    assert (ActiveMap (FsRepo.Close env id w1).2 !! path f = None) as Hnone.
    { apply (last_Close_inactive env id f1); [done|]. unfold refcount. by rewrite Ha. }
    assert (inv (FsRepo.Close env id w1).2) as Hinv2.
    { unfold FsRepo.Close, deref. rewrite Hid1.
      destruct (opener_Close env (path f1) w1) as [r w2] eqn:E. by eapply opener_Close_spec. }
    destruct (Close_frame env id w1) as [Hfs _].
    exists (Some (reloaded m)). split; [|by apply reloaded_reads_like].
    unfold FsRepo.Open in HO. destruct (isInitialized _ _); [|done].
    eapply opener_Open_config; [exact Hinv2|done|done|by rewrite Hfs|done|done].
Qed.

(** ** Witness *)

Definition sample_new : gmap string goval :=
  {[ "RootPath" := GString "repo"; "Identity" := identity_record "key" "id"; "UseAuth" := GBool true ]}.

Definition sample_set : world := (FsRepo.SetConfig 0 (Some sample_new) sample_open).2.
Definition sample_closed : world := (FsRepo.Close sample_repo_env 0 sample_set).2.
Definition sample_again : world := (FsRepo.Open sample_repo_env "repo" sample_closed).2.

Lemma set_config_survives_witness :
  ∃ saved, (FsRepo.Config 1 sample_again).1 = Ok saved ∧ IsSet "UseAuth" saved = Ok true.
Proof.
  assert (∃ f, heap sample_open !! 0%nat = Some f ∧ path f = "repo") as (f & Hf & Hp).
  { assert (path <$> heap sample_open !! 0%nat = Some "repo") as H by by vm_compute.
    destruct (heap sample_open !! 0%nat) as [f|]; [|done]. injection H as H. by exists f. }
  destruct (set_config_survives sample_repo_env 0 f sample_open [] (cfg f) sample_new
    sample_set sample_closed 1 sample_again) as [_ H].
  - apply sample_laws.
  - apply sample_open_inv.
  - exact Hf.
  - reflexivity.
  - rewrite Hp in H. destruct H as (saved & Hs & Hi).
    + by vm_compute.
    + refine (bool_decide_unpack _ _). by vm_compute.
    + refine (eq_trans (surjective_pairing _) (f_equal (λ r, (r, _)) _)). by vm_compute.
    + reflexivity.
    + refine (eq_trans (surjective_pairing _) (f_equal (λ r, (r, _)) _)). by vm_compute.
    + exists saved. split; [exact Hs|]. rewrite (like_IsSet _ _ Hi). by vm_compute.
Defined.
