(* ===== verification/ConfigShare.v ===== *)
(** * Shared configuration objects

    A configuration is a pointer to a map: [Config] of a repository hands out
    the repository's own object, [SetConfig] keeps the caller's, [Init] adds an
    identity to the caller's, and [Open] loads a new one.  [FsRepo] and
    [InmemRepo] have the values; here are the objects: who changes one changes
    it for everybody who has it.  The operations are those of
    [modules/repo/fsrepo/fsrepo.go] and [modules/repo/inmem/inmem.go] on
    pointers, over those on values. *)

From S2P Require Import Prelude Utf8 Json JsonText Files Config Base64 Options Datastore FsRepo InmemRepo Repo.

(** ** State *)

(** [base]: the package, whose [cfg] fields are not looked at; [ptrs]: the
    [cfg] pointer of each repository object; [objs]: the objects. *)
Record shared := mkShared {
  base : world;
  ptrs : gmap nat nat;
  objs : gmap nat JsonConfig;
  next : nat;
}.

Definition content (s : shared) (id : nat) : JsonConfig := default None (ptrs s !! id ≫= λ p, objs s !! p).

Definition with_cfg (c : JsonConfig) (f : fsRepo) : fsRepo := mkFsRepo (path f) c (rootDS f) (kvStore f).

(** The package as [FsRepo] has it: every repository with what its object
    holds. *)
Definition view (s : shared) : world :=
  set_heap (map_imap (λ id f, Some (with_cfg (content s id) f)) (heap (base s))) (base s).

Definition nil_deref {A : Type} : res A := Panic "invalid memory address or nil pointer dereference".

Definition the_object {A : Type} (q : nat) (k : JsonConfig → ST shared A) : ST shared A := λ s,
  match objs s !! q with Some c => k c s | None => (nil_deref, s) end.

(** ** Operations *)

Section operations.
Context (env : repo_env).

(** A new object, [DefaultConfig] or one of the application's own. *)
Definition new_object (c : JsonConfig) : ST shared nat := λ s,
  (Ok (next s), mkShared (base s) (ptrs s) (<[next s := c]> (objs s)) (S (next s))).

(** [c.Set] and [c.Get] through the pointer. *)
Definition obj_Set (q : nat) (key : string) (v : goval) : ST shared unit := the_object q (λ c s,
  match Set_ key v c with
  | Ok c' => (Ok (), mkShared (base s) (ptrs s) (<[q := c']> (objs s)) (next s))
  | Err e => (Err e, s)
  | Panic x => (Panic x, s)
  end).

(** The caller's object after [Init]. *)
Definition Init_object (p : string) (c : JsonConfig) (w : world) : JsonConfig :=
  if isInitialized p w then c
  else match (initRepo p w).1 with
       | Ok _ => if (Get "Identity" (Some (∅ : gmap string goval)) c).2 then c
                 else match FsRepo.initIdentity env c with Ok c' => c' | _ => c end
       | _ => c
       end.

Definition sh_Init (p : string) (q : nat) : ST shared unit := the_object q (λ c s,
  let (r, w') := Init env p c (view s) in
  (_ ← r; Ok (), mkShared w' (ptrs s) (<[q := Init_object p c (view s)]> (objs s)) (next s))).

(** [Open]: a repository object that is new has a new configuration object,
    with what was loaded. *)
Definition sh_Open (p : string) : ST shared nat := λ s,
  let (r, w') := Open env p (view s) in
  match r with
  | Ok id =>
    match ptrs s !! id, heap w' !! id with
    | None, Some f => (r, mkShared w' (<[id := next s]> (ptrs s)) (<[next s := cfg f]> (objs s)) (S (next s)))
    | _, _ => (r, mkShared w' (ptrs s) (objs s) (next s))
    end
  | _ => (r, mkShared w' (ptrs s) (objs s) (next s))
  end.

Definition sh_CreateOrOpen (q : nat) : ST shared nat := the_object q (λ c s,
  match Get "RootPath" "" c with
  | (_, false) => (Err "root path not specified", s)
  | (p, true) =>
    if IsInitialized p (view s) then sh_Open p s
    else (_ ← sh_Init p q; sh_Open p) s
  end).

Definition sh_Close (id : nat) : ST shared unit := λ s,
  let (r, w') := FsRepo.Close env id (view s) in (r, mkShared w' (ptrs s) (objs s) (next s)).

(** [Config] hands out the pointer. *)
Definition sh_Config (id : nat) : ST shared nat := λ s,
  match ptrs s !! id with Some p => (Ok p, s) | None => (nil_deref, s) end.

Definition sh_SetConfig (id q : nat) : ST shared unit := the_object q (λ c s,
  let (r, w') := FsRepo.SetConfig id c (view s) in
  (r, mkShared w' (match heap (base s) !! id with Some _ => <[id := q]> (ptrs s) | None => ptrs s end) (objs s) (next s))).

(** In memory: the repository keeps the caller's object. *)
Definition im_CreateOrOpen (q : nat) : ST shared nat := the_object q (λ c s,
  match InmemRepo.initIdentity env c with
  | Ok c' => (Ok q, mkShared (base s) (ptrs s) (<[q := c']> (objs s)) (next s))
  | Err e => (Err e, s)
  | Panic x => (Panic x, s)
  end).

(** ** Histories *)

Inductive access :=
| CNew (c : JsonConfig)
| CSet (q : nat) (key : string) (v : goval)
| CInit (p : string) (q : nat)
| COpen (p : string)
| CCreateOrOpen (q : nat)
| CClose (id : nat)
| CSetConfig (id q : nat).

Definition run_access (s : shared) (k : access) : shared :=
  match k with
  | CNew c => (new_object c s).2
  | CSet q key v => (obj_Set q key v s).2
  | CInit p q => (sh_Init p q s).2
  | COpen p => (sh_Open p s).2
  | CCreateOrOpen q => (sh_CreateOrOpen q s).2
  | CClose id => (sh_Close id s).2
  | CSetConfig id q => (sh_SetConfig id q s).2
  end.

Definition run_all (ks : list access) (s : shared) : shared := foldl run_access s ks.

(** Whether a call replaces the configuration of a repository, and whether it
    hands an object to a repository, which may add an identity to it. *)
Definition replaces (id : nat) (k : access) : bool :=
  match k with CSetConfig id' _ => bool_decide (id' = id) | _ => false end.
Definition saves (k : access) : bool := match k with CSetConfig _ _ => true | _ => false end.
Definition hands (q : nat) (k : access) : bool :=
  match k with CInit _ q' | CCreateOrOpen q' => bool_decide (q' = q) | _ => false end.

(** What the [Set] calls on an object leave in it; one that panics leaves it. *)
Definition touched (q : nat) (c : JsonConfig) (k : access) : JsonConfig :=
  match k with
  | CSet q' key v => if decide (q' = q) then match Set_ key v c with Ok c' => c' | _ => c end else c
  | _ => c
  end.
End operations.

(** ** Lemmas *)

(** Pointers of repositories point to objects, and new objects are new. *)
Record good (s : shared) : Prop := mkGood {
  good_inv : inv (base s);
  good_ptr : ∀ id, is_Some (heap (base s) !! id) ↔ is_Some (ptrs s !! id);
  good_obj : ∀ id p, ptrs s !! id = Some p → is_Some (objs s !! p);
  good_next : ∀ p c, objs s !! p = Some c → (p < next s)%nat;
}.

Lemma view_lookup s id : heap (view s) !! id = with_cfg (content s id) <$> heap (base s) !! id.
Proof. unfold view. simpl. rewrite map_lookup_imap. by destruct (heap (base s) !! id). Qed.

Lemma Config_view s id f : heap (base s) !! id = Some f → (FsRepo.Config id (view s)).1 = Ok (content s id).
Proof. intros Hf. unfold FsRepo.Config, deref. by rewrite view_lookup, Hf. Qed.

Lemma inv_view s : inv (base s) → inv (view s).
Proof.
  intros [I1 I2 I3 I4 I5 I6].
  assert (∀ id g, heap (view s) !! id = Some g → ∃ f, heap (base s) !! id = Some f ∧ g = with_cfg (content s id) f) as Hv.
  { intros id g. rewrite view_lookup. intros (f & ? & Hf)%fmap_Some. eauto. }
  split; simpl.
  - intros p ar Ha. destruct (I1 p ar Ha) as (? & f & Hf & ? & ?). split; [done|].
    exists (with_cfg (content s (Active ar)) f). split; [|done].
    change (heap (view s) !! Active ar = Some (with_cfg (content s (Active ar)) f)). by rewrite view_lookup, Hf.
  - intros id g (f & Hf & ->)%Hv. eauto.
  - intros id g (f & Hf & ->)%Hv. apply (I3 id f Hf).
  - intros id g h (f & Hf & ->)%Hv. apply (I4 id f h Hf).
  - done.
  - intros id id' g g' h (f & Hf & ->)%Hv (f' & Hf' & ->)%Hv. apply (I6 id id' f f' h Hf Hf').
Qed.

Lemma view_live s id : is_Some (heap (view s) !! id) ↔ is_Some (heap (base s) !! id).
Proof. rewrite view_lookup. apply fmap_is_Some. Qed.

Section steps.
Context (env : repo_env) (laws : repo_laws env).

Lemma Open_heap p w r w' :
  inv w → Open env p w = (r, w') →
  heap w' = heap w ∨ ∃ f, r = Ok (fresh w) ∧ heap w' = <[fresh w := f]> (heap w).
Proof.
  intros Hinv. unfold Open, opener_Open. destruct (isInitialized p w); [|intros [= _ <-]; by left].
  destruct (ActiveMap w !! p) as [ar|]; [intros [= _ <-]; by left|].
  destruct (open env p w) as [r1 w1] eqn:Ho. apply open_spec in Ho as [(Hh & Hf & _) _]; [|apply (inv_closed w Hinv)].
  destruct r1 as [f|e|x]; intros [= <- <-]; simpl; [right|by left..].
  exists f. by rewrite Hh, Hf.
Qed.

Lemma Close_live_heap id w i : is_Some (heap (FsRepo.Close env id w).2 !! i) ↔ is_Some (heap w !! i).
Proof.
  unfold FsRepo.Close, deref. destruct (heap w !! id) as [f|]; [|done]. unfold opener_Close.
  destruct (ActiveMap w !! path f) as [ar|]; [|done]. destruct (0 <? RefCnt ar - 1)%Z; [done|].
  unfold close. simpl. destruct (heap w !! Active ar) as [g|] eqn:Hg; [|done].
  destruct (if kvStore g then _ else _) as [c1 e1].
  destruct (match rootDS g with Some ds => _ | None => _ end) as [c2 e2]. simpl.
  destruct (decide (Active ar = i)) as [<-|Hne]; [|by rewrite lookup_insert_ne].
  rewrite lookup_insert_eq, Hg. by split; eexists.
Qed.

(** What a call does to everybody's objects. *)
Record moved (k : access) (s s' : shared) : Prop := mkMoved {
  m_good : good s';
  m_ptr : ∀ id p, ptrs s !! id = Some p → replaces id k = false → ptrs s' !! id = Some p;
  m_obj : ∀ q c, objs s !! q = Some c → hands q k = false → objs s' !! q = Some (touched q c k);
  m_files : saves k = false → grows (wfs (base s)) (wfs (base s'));
}.

(** Only the package changes; only an object changes. *)
Lemma good_world s w' :
  good s → inv w' → (∀ i, is_Some (heap w' !! i) ↔ is_Some (heap (base s) !! i)) →
  good (mkShared w' (ptrs s) (objs s) (next s)).
Proof. intros [_ G2 G3 G4] Hinv Hh. split; simpl; [done| |done|done]. intros i. by rewrite Hh. Qed.

Lemma good_object s q c c' :
  good s → objs s !! q = Some c → good (mkShared (base s) (ptrs s) (<[q := c']> (objs s)) (next s)).
Proof.
  intros [G1 G2 G3 G4] Hq. split; simpl; [done|done| |].
  - intros id p Hp. destruct (decide (q = p)) as [->|]; [rewrite lookup_insert_eq; eauto|].
    rewrite lookup_insert_ne by done. eauto.
  - intros p d [[-> _]|[_ Hp]]%lookup_insert_Some; eauto.
Qed.

Lemma moved_none k s : good s → (∀ q c, hands q k = false → objs s !! q = Some c → touched q c k = c) → moved k s s.
Proof. intros Hg Ht. split; [done|done| |reflexivity]. intros q c Hq Hh. by rewrite (Ht q c). Qed.

Lemma next_free s : good s → objs s !! next s = None.
Proof. intros Hg. apply eq_None_not_Some. intros [d Hd]. pose proof (good_next s Hg _ _ Hd). lia. Qed.

Lemma Init_moved p q s : good s → moved (CInit p q) s (sh_Init env p q s).2.
Proof.
  intros Hg. unfold sh_Init, the_object. destruct (objs s !! q) as [c|] eqn:Hq; [|by apply moved_none].
  pose proof (Init_files env p c (view s)) as Hf. pose proof (Init_grows env p c (view s)) as Hgr.
  destruct (Init env p c (view s)) as [r w']. simpl in *. destruct Hf as (Hh & Hfr). split; simpl.
  - apply (good_object (mkShared w' (ptrs s) (objs s) (next s)) q c); [|done]. apply good_world; [done| |].
    + eapply inv_ds_only; [apply files_ds; by split|]. by apply inv_view, good_inv.
    + intros i. rewrite Hh. apply view_live.
  - done.
  - intros q' c' Hq' Hne%bool_decide_eq_false. by rewrite lookup_insert_ne.
  - by intros _.
Qed.

Lemma Open_moved p s : good s → moved (COpen p) s (sh_Open env p s).2.
Proof.
  intros Hg. pose proof (inv_view s (good_inv s Hg)) as Hinv. unfold sh_Open.
  pose proof (Open_grows env p (view s)) as Hgr. destruct (Open env p (view s)) as [r w'] eqn:HO. simpl in Hgr.
  pose proof (Open_heap _ _ _ _ Hinv HO) as Hh. destruct (Open_spec env p _ _ _ Hinv HO) as [Hinv' Hr].
  destruct Hh as [Hh|(f & -> & Hh)].
  - assert (moved (COpen p) s (mkShared w' (ptrs s) (objs s) (next s))) as Hm.
    { split; [|done|done|by intros _]. apply good_world; [done..|]. intros i. rewrite Hh. apply view_live. }
    destruct r as [id|e|x]; [|done..]. destruct (ptrs s !! id) eqn:Hp; [done|]. exfalso.
    destruct Hr as (_ & (g & Hi & _) & _). rewrite Hh in Hi.
    assert (is_Some (ptrs s !! id)) as Hs by (apply (good_ptr s Hg), view_live; by exists g).
    rewrite Hp in Hs. by apply is_Some_None in Hs.
  - change (fresh (view s)) with (fresh (base s)) in *. assert (ptrs s !! fresh (base s) = None) as Hp.
    { apply eq_None_not_Some. intros [g Hi]%(good_ptr s Hg). pose proof (inv_fresh _ (good_inv s Hg) _ _ Hi). lia. }
    pose proof (next_free s Hg) as Hn.
    rewrite Hp, Hh, lookup_insert_eq. destruct Hg as [G1 G2 G3 G4]. split; simpl.
    + split; simpl; [done| | |].
      * intros i. rewrite Hh. destruct (decide (fresh (base s) = i)) as [<-|]; [rewrite !lookup_insert_eq; by split; eexists|].
        rewrite !lookup_insert_ne by done. rewrite view_live. apply G2.
      * intros i o [[_ <-]|[_ Ho]]%lookup_insert_Some; [rewrite lookup_insert_eq; by eexists|].
        destruct (G3 i o Ho) as [c Hc]. exists c. rewrite lookup_insert_ne; [done|]. congruence.
      * intros o c [[<- _]|[_ Ho]]%lookup_insert_Some; [lia|]. apply G4 in Ho. lia.
    + intros i o Ho _. rewrite lookup_insert_ne; [done|congruence].
    + intros q c Hq _. rewrite lookup_insert_ne; [done|congruence].
    + by intros _.
Qed.

Lemma CreateOrOpen_moved q s : good s → moved (CCreateOrOpen q) s (sh_CreateOrOpen env q s).2.
Proof.
  intros Hg. unfold sh_CreateOrOpen, the_object. destruct (objs s !! q) as [c|] eqn:Hq; [|by apply moved_none].
  destruct (Get "RootPath" "" c) as [p []]; [|by apply moved_none].
  destruct (IsInitialized p (view s)).
  { destruct (Open_moved p s Hg) as [? Hp Ho Hf].
    split; [done|intros; by apply Hp|intros q' c' Hq' _; by apply (Ho q' c')|intros _; by apply Hf]. }
  pose proof (Init_moved p q s Hg) as HI. unfold mbind, st_mbind. destruct (sh_Init env p q s) as [r s1].
  simpl in HI. destruct HI as [Hg1 Hp1 Ho1 Hf1].
  assert (moved (CCreateOrOpen q) s s1) as H1 by (by split).
  destruct r as [[]|e|x]; [|done..]. destruct (Open_moved p s1 Hg1) as [Hg2 Hp2 Ho2 Hf2]. split; [done| | |].
  - intros id o Ho _. apply Hp2; [by apply Hp1|done].
  - intros q' c' Hq' Hh. apply (Ho2 q' c'); [|done]. by apply Ho1.
  - intros _. etransitivity; [by apply Hf1|by apply Hf2].
Qed.

Lemma Close_moved id s : good s → moved (CClose id) s (sh_Close env id s).2.
Proof.
  intros Hg. pose proof (inv_view s (good_inv s Hg)) as Hinv. unfold sh_Close.
  destruct (FsRepo.Close env id (view s)) as [r w'] eqn:HC.
  pose proof (Close_live_heap id (view s)) as Hh. pose proof (Close_grows env id (view s)) as Hgr.
  rewrite HC in Hh, Hgr. split; simpl; [|done|done|by intros _].
  apply good_world; [done| |intros i; rewrite <- view_live; apply Hh].
  unfold FsRepo.Close, deref in HC. destruct (heap (view s) !! id); [|by injection HC as _ <-].
  by eapply opener_Close_spec.
Qed.

Lemma SetConfig_moved id q s : good s → moved (CSetConfig id q) s (sh_SetConfig id q s).2.
Proof.
  intros Hg. unfold sh_SetConfig, the_object. destruct (objs s !! q) as [c|] eqn:Hq; [|by apply moved_none].
  pose proof (inv_view s (good_inv s Hg)) as Hinv. destruct (SetConfig_spec id c (view s) Hinv) as [Hinv' _].
  pose proof (SetConfig_heap id c (view s)) as Hh.
  destruct (heap (base s) !! id) as [f|] eqn:Hf.
  - assert (heap (view s) !! id = Some (with_cfg (content s id) f)) as Hv by (by rewrite view_lookup, Hf).
    specialize (Hh _ Hv). destruct (FsRepo.SetConfig id c (view s)) as [r w']. simpl in *.
    destruct Hg as [G1 G2 G3 G4]. split; simpl; [split; simpl| | |done].
    + done.
    + intros i. rewrite Hh. destruct (decide (id = i)) as [<-|]; [rewrite !lookup_insert_eq; by split; eexists|].
      rewrite !lookup_insert_ne by done. change (is_Some (heap (view s) !! i) ↔ is_Some (ptrs s !! i)).
      rewrite view_live. apply G2.
    + intros i o [[_ <-]|[_ Ho]]%lookup_insert_Some; eauto.
    + done.
    + intros i o Ho Hne%bool_decide_eq_false. by rewrite lookup_insert_ne.
    + by intros q' c' Hq' _.
  - assert (FsRepo.SetConfig id c (view s) = (Panic "nil pointer dereference", view s)) as ->.
    { unfold FsRepo.SetConfig, deref. by rewrite view_lookup, Hf. }
    split; simpl; [|done|by intros q' c' Hq' _|done].
    apply good_world; [done..|]. intros i. apply view_live.
Qed.

Lemma New_moved c s : good s → moved (CNew c) s (new_object c s).2.
Proof.
  intros Hg. pose proof (next_free s Hg) as Hn.
  destruct Hg as [G1 G2 G3 G4]. split; simpl; [split; simpl|done| |reflexivity].
  - done.
  - done.
  - intros id p Hp. destruct (G3 id p Hp) as [d Hd]. exists d. rewrite lookup_insert_ne; [done|congruence].
  - intros p d [[<- _]|[_ Hp]]%lookup_insert_Some; [lia|]. apply G4 in Hp. lia.
  - intros q d Hq _. rewrite lookup_insert_ne; [done|congruence].
Qed.

Lemma Set_moved q key v s : good s → moved (CSet q key v) s (obj_Set q key v s).2.
Proof.
  intros Hg. unfold obj_Set, the_object. destruct (objs s !! q) as [c|] eqn:Hq.
  2:{ apply moved_none; [done|]. intros q' c' _ Hq'. simpl in *. case_decide; [congruence|done]. }
  destruct (Set_ key v c) as [c'|e|x] eqn:HS.
  2,3: apply moved_none; [done|]; intros q' d _ Hq'; simpl in *; case_decide; [|done]; simplify_eq; by rewrite HS.
  split; simpl; [by eapply good_object|done| |reflexivity].
  intros q' d Hq' _. case_decide as E; [subst; rewrite lookup_insert_eq; simplify_eq; by rewrite HS|].
  by rewrite lookup_insert_ne.
Qed.

Lemma access_moved k s : good s → moved k s (run_access env s k).
Proof.
  intros Hg. destruct k; simpl;
    auto using New_moved, Set_moved, Init_moved, Open_moved, CreateOrOpen_moved, Close_moved, SetConfig_moved.
Qed.

Lemma all_moved id q c ks : ∀ s, good s → ptrs s !! id = Some q → objs s !! q = Some c →
  existsb (replaces id) ks = false → existsb (hands q) ks = false →
  let s' := run_all env ks s in
  good s' ∧ ptrs s' !! id = Some q ∧ objs s' !! q = Some (foldl (touched q) c ks) ∧
  (existsb saves ks = false → grows (wfs (base s)) (wfs (base s'))).
Proof.
  revert c. induction ks as [|k ks IH]; intros c s Hg Hp Hq Hr Hh; [done|]. simpl in Hr, Hh.
  apply orb_false_iff in Hr as [Hr Hrs]. apply orb_false_iff in Hh as [Hh Hhs].
  destruct (access_moved k s Hg) as [Hg1 Hp1 Ho1 Hf1].
  destruct (IH (touched q c k) (run_access env s k)) as (H1 & H2 & H3 & H4); [done|auto|auto|done..|].
  split_and!; [done..|]. simpl. intros [Hs Hss]%orb_false_iff. etransitivity; [by apply Hf1|by apply H4].
Qed.
(** A path that is not in use gets a new object. *)
Lemma Open_new_object p s id s' :
  good s → ActiveMap (base s) !! p = None → sh_Open env p s = (Ok id, s') →
  ∃ f w', Open env p (view s) = (Ok id, w') ∧ heap w' !! id = Some f ∧
    ptrs s' !! id = Some (next s) ∧ objs s' = <[next s := cfg f]> (objs s).
Proof.
  intros Hg Ha HO. pose proof (inv_view s (good_inv s Hg)) as Hinv. unfold sh_Open in HO.
  destruct (Open env p (view s)) as [r w'] eqn:HOw. destruct r as [i|e|x]; [|by simplify_eq..].
  assert (∃ f, i = fresh (base s) ∧ heap w' !! i = Some f) as (f & Hi & Hw).
  { unfold Open, opener_Open in HOw. destruct (isInitialized p (view s)); [|done].
    change (ActiveMap (view s)) with (ActiveMap (base s)) in HOw. rewrite Ha in HOw.
    destruct (open env p (view s)) as [[g|?|?] w1] eqn:Ho; [|done..].
    apply open_spec in Ho as [(_ & Hfr & _) _]; [|apply (inv_closed _ Hinv)].
    injection HOw as <- <-. exists g. split; [done|apply lookup_insert_eq]. }
  assert (ptrs s !! i = None) as Hpi.
  { apply eq_None_not_Some. intros [g Hl]%(good_ptr s Hg). pose proof (inv_fresh _ (good_inv s Hg) _ _ Hl). lia. }
  rewrite Hpi, Hw in HO. injection HO as <- <-. exists f, w'. split_and!; [done|done|apply lookup_insert_eq|done].
Qed.
End steps.

(** ** Properties *)

(** C30: the configuration of a repository is one object.  Whatever is done with
    the package and with configuration objects, [Config] of a repository object
    hands out the same object to everybody until somebody sets another one, and
    as long as the object is not handed to [Init] or [CreateOrOpen] either, what
    is read there is what all the [Set] calls on the object left, by whomever;
    but none of it is saved: when the path is no longer in use and is
    opened again, without a [SetConfig] in between, there is a new object that
    reads like the configuration saved before. *)
Theorem config_object_shared env ks s id q c f m text id' s'' :
  repo_laws env → good s → sh_Config id s = (Ok q, s) → objs s !! q = Some c →
  existsb (replaces id) ks = false → existsb (hands q) ks = false →
  let s' := run_all env ks s in
  sh_Config id s' = (Ok q, s') ∧ (FsRepo.Config id (view s')).1 = Ok (foldl (touched q) c ks) ∧
  (existsb saves ks = false → heap (base s) !! id = Some f →
   os_read (configPath (path f)) (wfs (base s)) = inr text → Reader (Some m) = Ok text → wf_config m →
   ActiveMap (base s') !! path f = None → sh_Open env (path f) s' = (Ok id', s'') →
   ∃ q' saved, sh_Config id' s'' = (Ok q', s'') ∧ objs s' !! q' = None ∧
     objs s'' !! q' = Some saved ∧ reads_like saved (Some m)).
Proof.
  intros laws Hg Hc Hq Hr Hh s'.
  assert (ptrs s !! id = Some q) as Hp.
  { unfold sh_Config in Hc. destruct (ptrs s !! id); [by injection Hc as ->|done]. }
  destruct (all_moved env laws id q c ks s Hg Hp Hq Hr Hh) as (Hg' & Hp' & Hq' & Hf'). fold s' in Hg', Hp', Hq', Hf'.
  split_and!.
  - unfold sh_Config. by rewrite Hp'.
  - destruct (proj2 (good_ptr s' Hg' id)) as [g Hi]; [by eexists|].
    rewrite (Config_view s' id g Hi). unfold content. by rewrite Hp'; simpl; rewrite Hq'.
  - intros Hs Hf Hread HR Hm Ha HO. eapply os_read_grows in Hread; [|by apply Hf'].
    destruct (Open_new_object env (path f) s' id' s'' Hg' Ha HO) as (g & w' & HOw & Hw & Hpn & Hon).
    exists (next s'), (cfg g). rewrite Hon, lookup_insert_eq.
    split_and!; [unfold sh_Config; by rewrite Hpn|by apply next_free|done|].
    unfold Open in HOw. destruct (isInitialized _ _); [|done].
    apply (opener_Open_config env _ _ _ _ text m (inv_view s' (good_inv s' Hg'))) in HOw; [|done..].
    unfold FsRepo.Config, deref in HOw. rewrite Hw in HOw. injection HOw as ->. by apply reloaded_reads_like.
Qed.

(** The object a repository is created with.  On disk a path that is not in
    use gets an object of its own, so that what the caller does with the passed
    one afterwards does not reach the repository; in memory the repository keeps
    the passed object, and every change of it is one of the repository's. *)
Theorem passed_object env s q c p id s1 :
  good s → objs s !! q = Some c → Get "RootPath" "" c = (p, true) → ActiveMap (base s) !! p = None →
  sh_CreateOrOpen env q s = (Ok id, s1) →
  (∃ q' saved, sh_Config id s1 = (Ok q', s1) ∧ q' ≠ q ∧
     ∀ key v, (FsRepo.Config id (view (obj_Set q key v s1).2)).1 = Ok saved) ∧
  ∀ r s2, im_CreateOrOpen env q s = (Ok r, s2) → ∃ c2, objs s2 !! r = Some c2 ∧
    ∀ key v, objs (obj_Set q key v s2).2 !! r = Some (touched q c2 (CSet q key v)).
Proof.
  intros Hg Hq Hroot Ha HC. split.
  - pose proof (CreateOrOpen_moved env q s Hg) as [Hg1 _ _ _]. rewrite HC in Hg1.
    unfold sh_CreateOrOpen, the_object in HC. rewrite Hq, Hroot in HC.
    assert (∃ s0, good s0 ∧ is_Some (objs s0 !! q) ∧ ActiveMap (base s0) !! p = None ∧
      sh_Open env p s0 = (Ok id, s1)) as (s0 & Hg0 & [c0 Hq0] & Ha0 & HO).
    { destruct (IsInitialized p (view s)); [exists s; split_and!; [done|by exists c|done|done]|].
      pose proof (Init_moved env p q s Hg) as [HgI _ _ _]. unfold mbind, st_mbind in HC.
      destruct (sh_Init env p q s) as [[[]|?|?] sI] eqn:HI; [|done..]. exists sI.
      unfold sh_Init, the_object in HI. rewrite Hq in HI. pose proof (Init_files env p c (view s)) as (_ & _ & HA & _).
      destruct (Init env p c (view s)) as [rI w']. injection HI as _ <-. simpl in *.
      split_and!; [done|rewrite lookup_insert_eq; by eexists|by rewrite HA|done]. }
    destruct (Open_new_object env p s0 id s1 Hg0 Ha0 HO) as (f & w' & HOw & Hw & Hp & Ho).
    assert (next s0 ≠ q) as Hne by (intros <-; rewrite next_free in Hq0; done).
    exists (next s0), (cfg f). split_and!; [unfold sh_Config; by rewrite Hp|done|]. intros key v.
    destruct (Set_moved q key v s1 Hg1) as [Hg2 Hp2 Ho2 _]. specialize (Hp2 _ _ Hp eq_refl).
    destruct (proj2 (good_ptr _ Hg2 id)) as [g Hi]; [by eexists|].
    rewrite (Config_view _ id g Hi). unfold content. rewrite Hp2. simpl.
    rewrite (Ho2 (next s0) (cfg f)); [|by rewrite Ho, lookup_insert_eq|done]. simpl. by rewrite decide_False.
  - intros r s2 HI. unfold im_CreateOrOpen, the_object in HI. rewrite Hq in HI.
    destruct (InmemRepo.initIdentity env c) as [c'|?|?]; [|done..]. injection HI as <- <-.
    exists c'. simpl. rewrite lookup_insert_eq. split; [done|]. intros key v.
    unfold obj_Set, the_object. simpl. rewrite lookup_insert_eq, decide_True by done.
    destruct (Set_ key v c'); simpl; by rewrite lookup_insert_eq.
Qed.

(** ** Witnesses *)

(** A node creates a repository with its own object [0]. *)
Definition sample_start : shared := mkShared sample_world ∅ {[ 0%nat := sample_root ]} 1.
Definition sample_created : shared := (sh_CreateOrOpen sample_repo_env 0 sample_start).2.

(** Another one opens it, sets something in the object [1] of the repository,
    and both close it; it is opened again. *)
Definition sample_accesses : list access :=
  [COpen "repo"; CSet 1 "UseAuth" (GBool true); CClose 0; CClose 0].
Definition sample_after : shared := run_all sample_repo_env sample_accesses sample_created.
Definition sample_reopened : shared := (sh_Open sample_repo_env "repo" sample_after).2.

Lemma sample_start_good : good sample_start.
Proof.
  split; simpl.
  - apply sample_inv.
  - intros id. rewrite lookup_empty. by split; intros [? ?].
  - intros id p Hp. by rewrite lookup_empty in Hp.
  - intros p c [<- _]%lookup_singleton_Some. lia.
Qed.

Lemma passed_object_witness : ∃ q' saved,
  sh_Config 0 sample_created = (Ok q', sample_created) ∧ q' ≠ 0%nat ∧
  (FsRepo.Config 0 (view (obj_Set 0 "UseAuth" (GBool true) sample_created).2)).1 = Ok saved.
Proof.
  destruct (passed_object sample_repo_env sample_start 0 sample_root "repo" 0 sample_created) as [(q' & saved & H1 & H2 & H3) _].
  - apply sample_start_good.
  - reflexivity.
  - by vm_compute.
  - by vm_compute.
  - refine (eq_trans (surjective_pairing _) (f_equal (λ r, (r, _)) _)). by vm_compute.
  - exists q', saved. by split_and!.
Defined.

(** The repository's object after it was created. *)
Definition sample_object : JsonConfig := default None (objs sample_created !! 1%nat).
Definition sample_text : string := match Reader (Some sample_saved) with Ok text => text | _ => "" end.

Lemma config_object_shared_witness :
  (FsRepo.Config 0 (view sample_after)).1 = Ok (touched 1 sample_object (CSet 1 "UseAuth" (GBool true))) ∧
  ∃ q' saved, sh_Config 1 sample_reopened = (Ok q', sample_reopened) ∧
    objs sample_reopened !! q' = Some saved ∧ IsSet "UseAuth" saved = Ok false.
Proof.
  assert (∃ f, heap (base sample_created) !! 0%nat = Some f ∧ path f = "repo") as (f & Hf & Hp).
  { assert (path <$> heap (base sample_created) !! 0%nat = Some "repo") as H by by vm_compute.
    destruct (heap (base sample_created) !! 0%nat) as [f|]; [|done]. injection H as H. by exists f. }
  destruct (config_object_shared sample_repo_env sample_accesses sample_created 0 1 sample_object f sample_saved sample_text
    1 sample_reopened) as (_ & H2 & H3).
  - apply sample_laws.
  - apply (CreateOrOpen_moved sample_repo_env 0 sample_start), sample_start_good.
  - unfold sh_Config. assert (ptrs sample_created !! 0%nat = Some 1%nat) as -> by by vm_compute. done.
  - unfold sample_object. assert (is_Some (objs sample_created !! 1%nat)) as [d ->]; [|done].
    refine (bool_decide_unpack _ _). by vm_compute.
  - by vm_compute.
  - by vm_compute.
  - split; [exact H2|]. rewrite Hp in H3.
    destruct H3 as (q' & saved & H4 & _ & H5 & H6).
    + by vm_compute.
    + exact Hf.
    + by vm_compute.
    + by vm_compute.
    + refine (bool_decide_unpack _ _). by vm_compute.
    + by vm_compute.
    + refine (eq_trans (surjective_pairing _) (f_equal (λ r, (r, _)) _)). by vm_compute.
    + exists q', saved. split_and!; [done..|]. rewrite (like_IsSet _ _ H6). by vm_compute.
Defined.
