(* ===== verification/Protocols.v ===== *)
(** * Request-response protocols: [modules/protocols/protocols.go]

    A message travels as a frame: two length bytes, little-endian, and the
    marshalled message.  The stream delivers the bytes in chunks that need not
    be the ones written; the reader is the [bufio.Reader] the code puts on top
    of it.  [SendMsg] and the handler that [Register] installs are the two ends
    of an exchange. *)

From S2P Require Import Prelude Utf8.
Local Open Scope Z_scope.

Abbreviation bytes := (list Z).

(** ** [encoding/binary] *)

Definition PutUint16 (v : Z) : bytes := [Z.land v 255; Z.land (Z.shiftr v 8) 255].

Definition Uint16 (b : bytes) : Z :=
  match b with
  | b0 :: b1 :: _ => Z.lor b0 (Z.shiftl b1 8)
  | _ => 0
  end.

(** ** Streams *)

(** What is left to read: the buffered bytes, the chunks the stream has still
    to deliver, and how it ends ([io.EOF], or the error of a reset). *)
Record rdr := mkRdr { buffered : bytes; chunks : list bytes; stream_end : error }.

Definition EOF : error := "EOF".
Definition ErrUnexpectedEOF : error := "unexpected EOF".

Definition newReader (stream : list bytes) (fin : error) : rdr := mkRdr [] stream fin.

(** One [Read] of the stream into a buffer of [n] bytes. *)
Definition stream_Read (n : nat) (r : rdr) : res bytes * rdr :=
  match chunks r with
  | [] => (Err (stream_end r), r)
  | c :: cs => (Ok (take n c),
      mkRdr (buffered r) (match drop n c with [] => cs | rest => rest :: cs end) (stream_end r))
  end.

Definition bufSize : nat := 4096.

(** [bufio.Reader.Read] with a buffer of [n] bytes: at most one read of the
    stream. *)
Definition Read (n : nat) (r : rdr) : res bytes * rdr :=
  match n, buffered r with
  | O, _ => (Ok [], r)
  | _, [] =>
    if (bufSize <=? n)%nat then stream_Read n r
    else match stream_Read bufSize r with
         | (Ok got, r') => (Ok (take n got), mkRdr (drop n got) (chunks r') (stream_end r'))
         | e => e
         end
  | _, b => (Ok (take n b), mkRdr (drop n b) (chunks r) (stream_end r))
  end.

Definition contents (r : rdr) : bytes := buffered r ++ concat (chunks r).

(** A bound on the number of reads that can succeed. *)
Definition pending (r : rdr) : nat :=
  length (buffered r) + sum_list_with (λ c, S (length c)) (chunks r).

(** [io.ReadFull]. *)
Fixpoint read_full (fuel n : nat) (acc : bytes) (r : rdr) : res bytes * rdr :=
  if (n =? 0)%nat then (Ok acc, r)
  else match fuel with
       | O => (Err "out of fuel", r)
       | S fuel =>
         match Read n r with
         | (Ok got, r') => read_full fuel (n - length got) (acc ++ got) r'
         | (Err e, r') =>
           (Err (if decide (e = EOF ∧ acc ≠ []) then ErrUnexpectedEOF else e), r')
         | (Panic p, r') => (Panic p, r')
         end
       end.

Definition ReadFull (n : nat) (r : rdr) : res bytes * rdr := read_full (S (pending r)) n [] r.

(** The writing side: the buffers handed to the stream, and the error of each
    call of [Write], counted from 0. *)
Record wtr := mkWtr { sent : list bytes; write_err : nat → option error }.

Definition newWriter (write_err : nat → option error) : wtr := mkWtr [] write_err.

Definition Write (b : bytes) : ST wtr unit := λ w,
  match write_err w (length (sent w)) with
  | Some e => (Err e, w)
  | None => (Ok (), mkWtr (sent w ++ [b]) (write_err w))
  end.

(** ** Messages *)

(** The [Message] interface; [Unmarshal] decodes into the value it is called
    on. *)
Class Message (A : Type) := {
  Marshal : A → res bytes;
  Unmarshal : bytes → A → res A;
}.

Definition ReadMsg `{Message A} (msg : A) (r : rdr) : res A * rdr :=
  match Read 2 r with
  | (Ok got, r1) =>
    let length := Uint16 (got ++ replicate (2 - length got) 0) in
    match ReadFull (Z.to_nat length) r1 with
    | (Ok buf, r2) => (Unmarshal buf msg, r2)
    | (Err e, r2) => (Err e, r2)
    | (Panic p, r2) => (Panic p, r2)
    end
  | (Err e, r1) => (Err e, r1)
  | (Panic p, r1) => (Panic p, r1)
  end.

Definition WriteMsg `{Message A} (msg : A) : ST wtr unit :=
  msgBuf ← st_lift (Marshal msg);
  _ ← Write (PutUint16 (uint16 (Z.of_nat (length msgBuf))));
  Write msgBuf.

(** ** The two ends of an exchange *)

Record Protocol (Req Resp : Type) := mkProtocol {
  HandleMsg : Req → string → res Resp;
  ReqFactory : Req;
  RespFactory : Resp;
}.
Arguments HandleMsg {Req Resp} p.
Arguments ReqFactory {Req Resp} p.
Arguments RespFactory {Req Resp} p.

(** What the handler did: the buffers it wrote back, and whether it reset the
    stream. *)
Record handled := mkHandled { replied : list bytes; Reset : bool }.

Section exchange.
Context {Req Resp : Type} `{Message Req, Message Resp}.

(** The stream handler that [Register] installs. *)
Definition Register (p : Protocol Req Resp) (stream : rdr) (werr : nat → option error)
    (RemotePeer : string) : handled :=
  match ReadMsg (ReqFactory p) stream with
  | (Ok req, _) =>
    match HandleMsg p req RemotePeer with
    | Ok resp =>
      match WriteMsg resp (newWriter werr) with
      | (Ok _, w) => mkHandled (sent w) false
      | (_, w) => mkHandled (sent w) true
      end
    | _ => mkHandled [] true
    end
  | _ => mkHandled [] true
  end.

(** [SendMsg]: [NewStream] is what opening a stream returns: the errors of the
    writes on it, and the bytes that come back for the ones that were sent. *)
Definition SendMsg (p : Protocol Req Resp) (msg : Req)
    (NewStream : res ((nat → option error) * (list bytes → rdr))) : res Resp :=
  match NewStream with
  | Ok (werr, reply) =>
    match WriteMsg msg (newWriter werr) with
    | (Ok _, w) => (ReadMsg (RespFactory p) (reply (sent w))).1
    | (Err e, _) => Err e
    | (Panic x, _) => Panic x
    end
  | Err e => Err e
  | Panic x => Panic x
  end.

(** A stream between the two ends: [deliver] cuts what was sent into chunks;
    after the handler returns the stream ends, with an error if it was reset. *)
Definition connected (p : Protocol Req Resp) (deliver : list bytes → list bytes)
    (RemotePeer : string) (bs : list bytes) : rdr :=
  let h := Register p (newReader (deliver bs) EOF) (λ _, None) RemotePeer in
  newReader (deliver (replied h)) (if Reset h then "stream reset" else EOF).
End exchange.

(** ** Lemmas *)

Ltac Zify.zify_post_hook ::= Z.to_euclidean_division_equations.

Lemma lor_high a b : 0 ≤ a < 256 → Z.lor a (Z.shiftl b 8) = a + b * 256.
Proof.
  intros Ha. assert (Z.land a (Z.shiftl b 8) = 0) as Hd.
  { apply Z.bits_inj'. intros n Hn. rewrite Z.land_spec, Z.bits_0.
    destruct (Z.ltb_spec n 8); [rewrite Z.shiftl_spec_low by lia; apply andb_false_r|].
    replace a with (a mod 2 ^ 8) by (apply Z.mod_small; lia).
    by rewrite Z.mod_pow2_bits_high by lia. }
  rewrite <- Z.lxor_lor, <- Z.add_nocarry_lxor by done. by rewrite Z.shiftl_mul_pow2.
Qed.

Lemma PutUint16_div v : 0 ≤ v < 2 ^ 16 → PutUint16 v = [v mod 256; v / 256].
Proof.
  intros Hv. unfold PutUint16. rewrite !(Z.land_ones _ 8), Z.shiftr_div_pow2 by lia.
  change (2 ^ 8) with 256. f_equal. f_equal. lia.
Qed.

Lemma Uint16_put v : 0 ≤ v < 2 ^ 16 → Uint16 (PutUint16 v) = v.
Proof. intros Hv. rewrite PutUint16_div by done. simpl. rewrite lor_high by lia. lia. Qed.

(** [Read] takes bytes from the front, and makes progress. *)
Lemma stream_Read_spec n r res r' :
  (0 < n)%nat → stream_Read n r = (res, r') →
  buffered r' = buffered r ∧ stream_end r' = stream_end r ∧
  match res with
  | Ok got => concat (chunks r) = got ++ concat (chunks r') ∧ (length got ≤ n)%nat ∧
              (length got + pending r' ≤ pending r)%nat ∧ (pending r' < pending r)%nat
  | Err e => e = stream_end r ∧ r' = r ∧ chunks r = []
  | Panic _ => False
  end.
Proof.
  intros Hn. unfold stream_Read. destruct (chunks r) as [|c cs] eqn:Hc; intros [= <- <-]; [done|].
  simpl. unfold pending. rewrite Hc. simpl. split_and!; [done..| | | |].
  - rewrite <- (take_drop n c) at 1. rewrite <- (assoc_L (++)). f_equal. by destruct (drop n c).
  - rewrite length_take. lia.
  - rewrite length_take. pose proof (length_drop c n) as Hd.
    destruct (drop n c) as [|x rest]; simpl in *; lia.
  - pose proof (length_drop c n) as Hd.
    destruct (drop n c) as [|x rest]; simpl in *; lia.
Qed.

Lemma Read_spec n r res r' :
  (0 < n)%nat → Read n r = (res, r') →
  stream_end r' = stream_end r ∧
  match res with
  | Ok got => contents r = got ++ contents r' ∧ (length got ≤ n)%nat ∧ (pending r' < pending r)%nat
  | Err e => e = stream_end r ∧ contents r = []
  | Panic _ => False
  end.
Proof.
  intros Hn. unfold Read, contents, pending. destruct n as [|n]; [lia|].
  destruct (buffered r) as [|b bs] eqn:Hb.
  - destruct (Nat.leb_spec bufSize (S n)).
    + intros Hr. apply stream_Read_spec in Hr as (Hb' & He & Hr); [|done]. split; [done|].
      unfold pending in Hr. rewrite Hb', Hb in *. destruct res as [got|e|]; [| |done].
      * destruct Hr as (Hc & Hl & _ & Hlt). done.
      * destruct Hr as (He' & _ & Hc). by rewrite Hc.
    + destruct (stream_Read bufSize r) as [r0 r1] eqn:Hr.
      apply stream_Read_spec in Hr as (Hb' & He & Hr); [|unfold bufSize; lia].
      unfold pending in Hr. rewrite Hb', Hb in Hr.
      destruct r0 as [got|e|]; intros [= <- <-]; [|destruct Hr as (He' & _ & Hc); by rewrite Hc|done].
      destruct Hr as (Hc & Hl & Hp & Hlt). simpl in *. split_and!; [done|..].
      * rewrite Hc, (assoc_L (++)). f_equal. by rewrite (take_drop (S n) got).
      * rewrite length_take. lia.
      * pose proof (length_drop got (S n)). simpl in *. lia.
  - intros [= <- <-]. simpl. split_and!; [done|..].
    + f_equal. rewrite (assoc_L (++)). f_equal. by rewrite take_drop.
    + rewrite length_take. lia.
    + rewrite length_drop. lia.
Qed.

Lemma read_full_spec fuel : ∀ n acc r,
  (pending r < fuel)%nat →
  ∃ r', stream_end r' = stream_end r ∧
    if (n <=? length (contents r))%nat
    then read_full fuel n acc r = (Ok (acc ++ take n (contents r)), r') ∧
         contents r' = drop n (contents r)
    else ∃ e, read_full fuel n acc r = (Err e, r').
Proof.
  induction fuel as [|fuel IH]; intros n acc r Hf; [lia|].
  simpl. destruct (Nat.eqb_spec n 0) as [->|Hn].
  { exists r. simpl. by rewrite app_nil_r. }
  destruct (Read n r) as [res r1] eqn:Hr. apply Read_spec in Hr as [He Hr]; [|lia].
  destruct res as [got|e|]; [|destruct Hr as [_ Hc]; rewrite Hc; exists r1; simpl|done].
  - destruct Hr as (Hc & Hl & Hp). rewrite Hc.
    destruct (IH (n - length got)%nat (acc ++ got) r1) as (r' & He' & IH'); [lia|].
    exists r'. split; [congruence|]. rewrite length_app.
    destruct (Nat.leb_spec (n - length got) (length (contents r1)));
      destruct (Nat.leb_spec n (length got + length (contents r1))); try lia; [|done].
    destruct IH' as [-> ->]. rewrite take_app, drop_app, (take_ge got n), (drop_ge got n) by done.
    by rewrite (assoc_L (++)).
  - destruct (Nat.leb_spec n 0); [lia|]. eauto.
Qed.

(** [io.ReadFull] never runs out of fuel: it returns the bytes, or an error if
    the stream ends before them. *)
Lemma ReadFull_spec n r :
  ∃ r', stream_end r' = stream_end r ∧
    if (n <=? length (contents r))%nat
    then ReadFull n r = (Ok (take n (contents r)), r') ∧ contents r' = drop n (contents r)
    else ∃ e, ReadFull n r = (Err e, r').
Proof. apply (read_full_spec (S (pending r)) n []). lia. Qed.

(** The bytes of a message on the wire. *)
Definition frame (b : bytes) : bytes := PutUint16 (uint16 (Z.of_nat (length b))) ++ b.

(** The first read of the stream gets both length bytes. *)
Definition prompt (r : rdr) : Prop :=
  buffered r = [] ∧ match chunks r with c :: _ => (2 ≤ length c)%nat | [] => True end.

Lemma Read_prompt r :
  prompt r → (2 ≤ length (contents r))%nat →
  ∃ r', Read 2 r = (Ok (take 2 (contents r)), r') ∧ contents r' = drop 2 (contents r).
Proof.
  intros [Hb Hp] Hlen. unfold contents in *. rewrite Hb in *.
  destruct (Read 2 r) as [res r'] eqn:Hr. pose proof Hr as Hs.
  apply Read_spec in Hs as [_ Hs]; [|lia]. unfold contents in Hs. rewrite Hb in Hs. simpl in Hs.
  unfold Read in Hr. rewrite Hb in Hr. simpl in Hr. unfold stream_Read in Hr.
  destruct (chunks r) as [|c cs] eqn:Hc; [simpl in Hlen; lia|].
  destruct res as [got|e|]; [|done|done].
  assert (length got = 2%nat) as Hg.
  { injection Hr as <- _. rewrite take_take, length_take. unfold bufSize. lia. }
  destruct Hs as (Hs & _). exists r'. simpl in *. rewrite Hs.
  by rewrite take_app_length', drop_app_length' by lia.
Qed.

Section messages.
Context `{Message A}.

Lemma WriteMsg_sent (msg : A) b :
  Marshal msg = Ok b →
  ∃ w, WriteMsg msg (newWriter (λ _, None)) = (Ok (), w) ∧ concat (sent w) = frame b.
Proof.
  intros Hm. unfold WriteMsg, mbind, st_mbind, st_lift. rewrite Hm. simpl.
  eexists. split; [done|]. simpl. by rewrite app_nil_r.
Qed.

(** A reader whose stream starts with the frame of [b] gets the first bytes of
    [b], as many as the two length bytes can say. *)
Lemma ReadMsg_frame (msg : A) b rest r :
  prompt r → contents r = frame b ++ rest →
  let n := Z.to_nat (uint16 (Z.of_nat (length b))) in
  ∃ r', ReadMsg msg r = (Unmarshal (take n b) msg, r') ∧ contents r' = drop n b ++ rest.
Proof.
  intros Hp Hc n. unfold frame in Hc.
  pose proof (uint16_bound (Z.of_nat (length b))) as Hu.
  assert ((n ≤ length b)%nat) as Hn.
  { unfold n, uint16. pose proof (Z.mod_le (Z.of_nat (length b)) (2 ^ 16)). lia. }
  destruct (Read_prompt r) as (r1 & HR & Hc1); [done|rewrite Hc; simpl; lia|].
  rewrite Hc in HR, Hc1. set (h := PutUint16 (uint16 (Z.of_nat (length b)))) in *.
  change (take 2 ((h ++ b) ++ rest)) with h in HR.
  change (drop 2 ((h ++ b) ++ rest)) with (b ++ rest) in Hc1.
  unfold ReadMsg. rewrite HR. change (replicate (2 - length h) 0) with (@nil Z).
  rewrite app_nil_r. unfold h. rewrite Uint16_put by done. fold n.
  destruct (ReadFull_spec n r1) as (r2 & _ & HF). rewrite Hc1, length_app in HF.
  destruct (Nat.leb_spec n (length b + length rest)); [|lia]. destruct HF as [HF Hc2].
  rewrite HF. exists r2. rewrite Hc2, take_app_le, drop_app_le by done. done.
Qed.
End messages.

(** ** Properties *)

(** A network that loses nothing and cuts the bytes as it likes. *)
Record network := mkNetwork {
  deliver : list bytes → list bytes;
  deliver_bytes bs : concat (deliver bs) = concat bs;
  deliver_nothing : deliver [] = [];
}.

(** What the reader relies on beyond that: the two length bytes come in the
    first chunk.  [split_header_misread] is what happens without it. *)
Definition header_together (net : network) : Prop :=
  ∀ bs, (2 ≤ length (concat bs))%nat →
    match deliver net bs with c :: _ => (2 ≤ length c)%nat | [] => True end.

Section properties.
Context {Req Resp : Type} `{Message Req, Message Resp}.

(** A whole exchange. *)
Lemma exchange_spec (p : Protocol Req Resp) (net : network) peer req b :
  header_together net →
  Marshal req = Ok b → Z.of_nat (length b) < 2 ^ 16 → Unmarshal b (ReqFactory p) = Ok req →
  let result := SendMsg p req (Ok (λ _, None, connected p (deliver net) peer)) in
  match HandleMsg p req peer with
  | Ok resp => ∀ rb, Marshal resp = Ok rb → Z.of_nat (length rb) < 2 ^ 16 →
                 Unmarshal rb (RespFactory p) = Ok resp → result = Ok resp
  | _ => result = Err "stream reset"
  end.
Proof.
  intros Hnet Hm Hlen Hu result. unfold result, SendMsg.
  destruct (WriteMsg_sent req b Hm) as (w & -> & Hw).
  unfold connected, Register.
  set (r := newReader (deliver net (sent w)) EOF).
  assert (prompt r) as Hr by (split; [done|apply Hnet; rewrite Hw; simpl; lia]).
  destruct (ReadMsg_frame (ReqFactory p) b [] r Hr) as (r1 & HR & _).
  { unfold contents. simpl. by rewrite deliver_bytes, Hw, app_nil_r. }
  rewrite HR. rewrite uint16_small, Nat2Z.id, take_ge, Hu by lia.
  assert (∀ e, (ReadMsg (RespFactory p) (newReader (deliver net []) e)).1 = Err e) as Hempty.
  { intros e. by rewrite deliver_nothing. }
  destruct (HandleMsg p req peer) as [resp|e|x]; simpl; [|apply Hempty..].
  intros rb Hrm Hrlen Hru. destruct (WriteMsg_sent resp rb Hrm) as (w2 & -> & Hw2). simpl.
  set (r2 := newReader (deliver net (sent w2)) EOF).
  destruct (ReadMsg_frame (RespFactory p) rb [] r2) as (r3 & HR2 & _).
  { split; [done|apply Hnet; rewrite Hw2; simpl; lia]. }
  { unfold contents. simpl. by rewrite deliver_bytes, Hw2, app_nil_r. }
  rewrite HR2. simpl. by rewrite uint16_small, Nat2Z.id, take_ge by lia.
Qed.

(** C18: an exchange delivers.  If the peer's handler answers, [SendMsg] returns
    exactly its response to exactly the request that was sent; if the handler
    fails, [SendMsg] returns the error of a reset stream.  This is for messages
    of fewer than 2^16 bytes that their types can read back, over a network
    that brings the two length bytes of a message together; it may cut the
    rest as it likes. *)
Theorem exchange_roundtrip (p : Protocol Req Resp) (net : network) peer req b :
  header_together net →
  Marshal req = Ok b → Z.of_nat (length b) < 2 ^ 16 → Unmarshal b (ReqFactory p) = Ok req →
  let result := SendMsg p req (Ok (λ _, None, connected p (deliver net) peer)) in
  match HandleMsg p req peer with
  | Ok resp => ∀ rb, Marshal resp = Ok rb → Z.of_nat (length rb) < 2 ^ 16 →
                 Unmarshal rb (RespFactory p) = Ok resp → result = Ok resp
  | _ => result = Err "stream reset"
  end.
Proof. apply exchange_spec. Qed.

(** C40: a message of 2^16 bytes or more is cut without an error: the writer
    reports success, the reader, if the two length bytes reach it together,
    unmarshals only the first [length mod 2^16]
    bytes, and the rest stays in the stream. *)
Theorem long_message_cut (req msg : Req) b r :
  Marshal req = Ok b → 2 ^ 16 ≤ Z.of_nat (length b) →
  prompt r → contents r = concat (sent (WriteMsg req (newWriter (λ _, None))).2) →
  (WriteMsg req (newWriter (λ _, None))).1 = Ok () ∧
  let n := Z.to_nat (Z.of_nat (length b) mod 2 ^ 16) in
  (ReadMsg msg r).1 = Unmarshal (take n b) msg ∧
  contents (ReadMsg msg r).2 = drop n b ∧ drop n b ≠ [].
Proof.
  intros Hm Hlen Hr Hc. destruct (WriteMsg_sent req b Hm) as (w & Hw & Hs).
  rewrite Hw in *. split; [done|]. intros n. simpl in Hc. rewrite Hs in Hc.
  destruct (ReadMsg_frame msg b [] r Hr) as (r' & HR & Hc'); [by rewrite app_nil_r|].
  rewrite HR. simpl. rewrite app_nil_r in Hc'. split_and!; [done|done|].
  intros E. apply (f_equal length) in E. rewrite length_drop in E. simpl in E.
  pose proof (Z.mod_pos_bound (Z.of_nat (length b)) (2 ^ 16)). unfold n in E. lia.
Qed.

(** The reader trusts one read for the two length bytes: when the first of
    them arrives alone, it takes it for the whole length and the second for the
    first byte of the message. *)
Theorem split_header_misread (req msg : Req) b x y fin :
  Marshal req = Ok b → frame b = x :: y :: b → Z.to_nat x ≠ 0%nat → (Z.to_nat x ≤ S (length b))%nat →
  let r := newReader [[x]; y :: b] fin in
  contents r = concat (sent (WriteMsg req (newWriter (λ _, None))).2) ∧
  (ReadMsg msg r).1 = Unmarshal (take (Z.to_nat x) (y :: b)) msg.
Proof.
  intros Hm Hf Hx Hle r. destruct (WriteMsg_sent req b Hm) as (w & Hw & Hs).
  rewrite Hw. simpl snd. rewrite Hs, Hf. split; [unfold contents; simpl; by rewrite app_nil_r|].
  unfold ReadMsg, r, newReader. simpl. rewrite Z.lor_0_r.
  destruct (ReadFull_spec (Z.to_nat x) (mkRdr [] [y :: b] fin)) as (r2 & _ & HF).
  unfold contents in HF. simpl in HF. rewrite app_nil_r in HF.
  destruct (Nat.leb_spec (Z.to_nat x) (S (length b))); [|lia].
  destruct HF as [HF _]. by rewrite HF.
Qed.
End properties.

(** Byte strings as messages, and a network that cuts after the second byte. *)
#[export] Instance raw_message : Message bytes := {| Marshal b := Ok b; Unmarshal b _ := Ok b |}.

Definition cut (bs : list bytes) : list bytes :=
  match concat bs with
  | [] => []
  | l => [take 2 l; drop 2 l]
  end.

Lemma cut_bytes bs : concat (cut bs) = concat bs.
Proof.
  unfold cut. destruct (concat bs) as [|x l] eqn:E; [done|].
  rewrite concat_cons, concat_cons, app_nil_r. apply take_drop.
Qed.

Definition cut_network : network := mkNetwork cut cut_bytes eq_refl.

Lemma cut_prompt : header_together cut_network.
Proof.
  intros bs Hl. simpl. unfold cut. destruct (concat bs) as [|x l]; [done|]. rewrite length_take. lia.
Qed.

Definition echo : Protocol bytes bytes :=
  mkProtocol _ _ (λ req _, match req with [] => Err "empty" | _ => Ok (rev req) end) [] [].

Lemma exchange_roundtrip_witness :
  SendMsg echo [1; 2; 3] (Ok (λ _, None, connected echo cut "peer")) = Ok [3; 2; 1].
Proof.
  apply (exchange_roundtrip echo cut_network "peer" [1; 2; 3] [1; 2; 3] cut_prompt) with (rb := [3; 2; 1]);
    reflexivity.
Defined.

Definition long_length : nat := Z.to_nat 65538.
Definition long_message : bytes := replicate long_length 7.

Lemma long_length_Z : Z.of_nat long_length = 65538.
Proof. by apply Z2Nat.id. Qed.

Lemma raw_frame (b : bytes) :
  prompt (newReader [frame b] EOF) ∧
  contents (newReader [frame b] EOF) = concat (sent (WriteMsg b (newWriter (λ _, None))).2).
Proof.
  split; [|done]. split; [done|]. simpl. lia.
Qed.

Lemma long_message_cut_witness :
  (ReadMsg [] (newReader [frame long_message] EOF)).1 = Ok [7; 7].
Proof.
  assert (Z.of_nat (length long_message) = 65538) as Hl.
  { unfold long_message. rewrite length_replicate. apply long_length_Z. }
  destruct (long_message_cut long_message [] long_message (newReader [frame long_message] EOF))
    as (_ & H & _).
  - reflexivity.
  - rewrite Hl. done.
  - apply raw_frame.
  - apply raw_frame.
  - rewrite H, Hl. change (Z.to_nat (65538 mod 2 ^ 16)) with 2%nat. unfold long_message.
    rewrite take_replicate, Nat.min_l; [reflexivity|].
    apply Nat2Z.inj_le. rewrite long_length_Z. done.
Defined.

Lemma split_header_misread_witness :
  (ReadMsg [] (newReader [[3]; [0; 8; 9; 10]] EOF)).1 = Ok [0; 8; 9].
Proof.
  destruct (split_header_misread [8; 9; 10] [] [8; 9; 10] 3 0 EOF) as [_ H];
    [reflexivity|reflexivity|done|simpl; lia|exact H].
Defined.
