(* ===== verification/ProtocolsSvc.v ===== *)
(** * The protocols service: [New] and [Register] of
      [modules/protocols/protocols.go]

    The service keeps a host.  [Register] installs a stream handler under the
    protocol's identifier and gives the protocol a sender.  The host is a class:
    it has a handler per identifier, and a stream that is opened to it for an
    identifier is given to that handler, or the negotiation returns an error,
    while the stream stays open until one
    of the two sides resets it or both have closed it.  One exchange is
    [Protocols.SendMsg] and [Protocols.Register]. *)

From S2P Require Import Prelude Utf8 Protocols.
Local Open Scope Z_scope.

(** ** Hosts *)

(** What a stream handler does with a stream from a peer. *)
Definition stream_handler : Type := rdr → (nat → option error) → string → handled.

(** [negotiate]: who gets a stream that is opened to the host for an identifier,
    or the error of opening it. *)
Class StreamHost (H : Type) := {
  SetStreamHandler : string → stream_handler → H → H;
  negotiate : H → string → error + stream_handler;
}.

Class StreamHostLaws (H : Type) `{StreamHost H} := {
  set_handler id f h id' :
    negotiate (SetStreamHandler id f h) id' = if decide (id' = id) then inr f else negotiate h id';
}.

(** ** The service *)

Record service (H : Type) := mkService { svc_host : H }.
Arguments mkService {H} svc_host.
Arguments svc_host {H} s.

Definition New {H : Type} (h : H) : service H := mkService h.

(** A protocol of any types, with its identifier. *)
Record anyProtocol := mkAny {
  a_Req : Type;
  a_Resp : Type;
  a_req : Message a_Req;
  a_resp : Message a_Resp;
  a_ID : string;
  a_proto : Protocol a_Req a_Resp;
}.
#[export] Existing Instance a_req.
#[export] Existing Instance a_resp.

Section service.
Context {H : Type} `{StreamHost H}.

(** What opening a stream to a host for an identifier gives, over a network
    that cuts the bytes: the error of the negotiation, or a stream at whose
    other end the handler runs. *)
Definition NewStream (cut : list bytes → list bytes) (self : string) (remote : H) (id : string) :
    res ((nat → option error) * (list bytes → rdr)) :=
  match negotiate remote id with
  | inl e => Err e
  | inr f => Ok (λ _, None, λ bs,
      let h := f (newReader (cut bs) EOF) (λ _, None) self in
      newReader (cut (replied h)) (if Reset h then "stream reset" else EOF))
  end.

(** The sender: what [SetSender] hands to the protocol, for a stream to the
    given host. *)
Definition Sender (a : anyProtocol) : Type :=
  (list bytes → list bytes) → string → H → a_Req a → res (a_Resp a).

Definition svc_Register (a : anyProtocol) (s : service H) : service H * Sender a :=
  (mkService (SetStreamHandler (a_ID a) (Protocols.Register (a_proto a)) (svc_host s)),
   λ cut self remote req, SendMsg (a_proto a) req (NewStream cut self remote (a_ID a))).

(** Several protocols, in turn. *)
Definition register_all (l : list anyProtocol) (s : service H) : service H :=
  foldl (λ s a, (svc_Register a s).1) s l.

(** ** Streams that stay *)

(** The stream at the responding host: the handler never closes it, so it is
    there until it is reset. *)
Definition left_open (h : handled) : bool := negb (Reset h).

(** The streams a host has left after serving the requests of a list, each the
    chunks that arrived and the peer. *)
Definition streams_left (f : stream_handler) (reqs : list (list bytes * string)) : nat :=
  length (List.filter (λ r, left_open (f (newReader r.1 EOF) (λ _, None) r.2)) reqs).

(** ** Lemmas *)

Context `{!StreamHostLaws H}.

(** The last protocol registered under an identifier has its streams. *)
Lemma register_all_handler l : ∀ s id,
  negotiate (svc_host (register_all l s)) id =
  match last (filter (λ a, a_ID a = id) l) with
  | Some a => inr (Protocols.Register (a_proto a))
  | None => negotiate (svc_host s) id
  end.
Proof.
  induction l as [|a l IH]; intros s id; [done|].
  change (register_all (a :: l) s) with (register_all l (svc_Register a s).1). rewrite IH. simpl svc_host.
  rewrite set_handler, filter_cons. destruct (decide (a_ID a = id)) as [E|E].
  - rewrite (decide_True (P:=id = a_ID a)) by done. destruct (filter _ l) as [|x l']; [done|].
    rewrite last_cons_cons. destruct (last (x :: l')) eqn:L; [done|]. by apply last_None in L.
  - rewrite (decide_False (P:=id = a_ID a)) by congruence. done.
Qed.

(** An exchange through the handler of a protocol. *)
Lemma NewStream_connected cut self remote (a : anyProtocol) :
  negotiate remote (a_ID a) = inr (Protocols.Register (a_proto a)) →
  NewStream cut self remote (a_ID a) = Ok (λ _, None, connected (a_proto a) cut self).
Proof. intros Hh. unfold NewStream. by rewrite Hh. Qed.

(** What the handler does with a request that arrives whole. *)
Lemma served_request (a : anyProtocol) (net : network) self req b bs :
  header_together net → Marshal req = Ok b → Z.of_nat (length b) < 2 ^ 16 → Unmarshal b (ReqFactory (a_proto a)) = Ok req →
  concat bs = frame b →
  let h := Protocols.Register (a_proto a) (newReader (deliver net bs) EOF) (λ _, None) self in
  match HandleMsg (a_proto a) req self with
  | Ok resp => ∀ rb, Marshal resp = Ok rb → Reset h = false ∧ concat (replied h) = frame rb
  | _ => Reset h = true ∧ replied h = []
  end.
Proof.
  intros Hnet Hm Hlen Hu Hbs h. unfold h, Protocols.Register. set (r := newReader (deliver net bs) EOF).
  assert (prompt r) as Hr by (split; [done|apply Hnet; rewrite Hbs; simpl; lia]).
  destruct (ReadMsg_frame (ReqFactory (a_proto a)) b [] r Hr) as (r1 & HR & _).
  { unfold contents. simpl. by rewrite deliver_bytes, Hbs, app_nil_r. }
  rewrite HR. rewrite uint16_small, Nat2Z.id, take_ge, Hu by lia.
  destruct (HandleMsg (a_proto a) req self) as [resp|e|x]; [|done..].
  intros rb Hrm. destruct (WriteMsg_sent resp rb Hrm) as (w & -> & Hw). done.
Qed.

(** ** Properties *)

(** C19: protocols do not disturb each other.  On a host where any number of
    protocols were registered, of whatever message types, the sender of a
    protocol that was not replaced by a later one of the same identifier gets
    the response of that protocol's own handler, and the error of a reset
    stream if it fails: for messages of fewer than 2^16 bytes that their types
    can read back, over a network that brings the two length bytes together.
    And where no protocol has the identifier, the sender reports the error the
    host gave before the registrations. *)
Theorem protocols_routed l (h : H) (a : anyProtocol) (net : network) (self : string) (req : a_Req a) b :
  let remote := svc_host (register_all l (New h)) in
  let result := (svc_Register a (New h)).2 (deliver net) self remote req in
  (last (filter (λ x, a_ID x = a_ID a) l) = Some a →
   header_together net →
   Marshal req = Ok b → Z.of_nat (length b) < 2 ^ 16 → Unmarshal b (ReqFactory (a_proto a)) = Ok req →
   match HandleMsg (a_proto a) req self with
   | Ok resp => ∀ rb, Marshal resp = Ok rb → Z.of_nat (length rb) < 2 ^ 16 →
                  Unmarshal rb (RespFactory (a_proto a)) = Ok resp → result = Ok resp
   | _ => result = Err "stream reset"
   end) ∧
  (∀ e, filter (λ x, a_ID x = a_ID a) l = [] → negotiate h (a_ID a) = inl e → result = Err e).
Proof.
  intros remote result. pose proof (register_all_handler l (New h) (a_ID a)) as Hh. fold remote in Hh.
  split.
  - intros Hl Hnet Hm Hlen Hu. rewrite Hl in Hh. unfold result, svc_Register. simpl.
    rewrite (NewStream_connected _ _ _ _ Hh). by apply exchange_spec with (b := b).
  - intros e Hl Hn. rewrite Hl in Hh. simpl in Hh. unfold result, svc_Register, NewStream. simpl.
    by rewrite Hh, Hn.
Qed.

(** Every answered request leaves a stream behind.  The handler resets a
    stream when something fails, but closes none: after any list of requests
    that arrive whole, the responding host has one stream left for each one the
    protocol answered. *)
Theorem streams_left_open (a : anyProtocol) (net : network) (reqs : list (a_Req a * bytes * list bytes * string)) :
  header_together net →
  Forall (λ '(req, b, bs, self),
    Marshal req = Ok b ∧ Z.of_nat (length b) < 2 ^ 16 ∧ Unmarshal b (ReqFactory (a_proto a)) = Ok req ∧
    concat bs = frame b ∧
    ∀ resp, HandleMsg (a_proto a) req self = Ok resp → ∃ rb, Marshal resp = Ok rb) reqs →
  streams_left (Protocols.Register (a_proto a)) ((λ '(_, _, bs, self), (deliver net bs, self)) <$> reqs) =
  length (List.filter (λ '(req, _, _, self), is_ok (HandleMsg (a_proto a) req self)) reqs).
Proof.
  intros Hnet. unfold streams_left. induction 1 as [|[[[req b] bs] self] reqs (Hm & Hlen & Hu & Hbs & Hresp) _ IH]; [done|].
  rewrite fmap_cons. cbn [List.filter fst snd].
  pose proof (served_request a net self req b bs Hnet Hm Hlen Hu Hbs) as Hs. cbv zeta in Hs.
  destruct (HandleMsg (a_proto a) req self) as [resp|e|x] eqn:Hh.
  - destruct (Hresp resp eq_refl) as (rb & Hrb). destruct (Hs rb Hrb) as [Hr _].
    unfold left_open at 1. rewrite Hr. simpl. by rewrite IH.
  - destruct Hs as [Hr _]. unfold left_open at 1. rewrite Hr. simpl. done.
  - destruct Hs as [Hr _]. unfold left_open at 1. rewrite Hr. simpl. done.
Qed.
End service.

(** ** Witnesses *)

(** A host that is its table of handlers. *)
Abbreviation table := (gmap string stream_handler).

#[export] Instance table_host : StreamHost table := {|
  SetStreamHandler id f h := <[id := f]> h;
  negotiate h id := match h !! id with Some f => inr f | None => inl "protocol not supported" end;
|}.

#[export] Instance table_host_laws : StreamHostLaws table.
Proof.
  split. intros id f h id'. simpl. case_decide as E; [subst; by rewrite lookup_insert_eq|].
  by rewrite lookup_insert_ne.
Qed.

Definition sample_echo (id : string) : anyProtocol := mkAny bytes bytes _ _ id echo.
Definition sample_mute : anyProtocol :=
  mkAny bytes bytes _ _ "/mute" (mkProtocol _ _ (λ _ _, Err "no") [] []).

(** Three protocols, the first replaced by a later one. *)
Lemma protocols_routed_witness :
  (svc_Register (sample_echo "/echo") (New (∅ : table))).2 cut "me"
    (svc_host (register_all [sample_echo "/echo"; sample_mute; sample_echo "/echo"] (New ∅))) [1; 2] = Ok [2; 1].
Proof.
  refine (proj1 (protocols_routed [sample_echo "/echo"; sample_mute; sample_echo "/echo"] (∅ : table)
    (sample_echo "/echo") cut_network "me" [1; 2] [1; 2]) _ cut_prompt _ _ _ [2; 1] _ _ _); reflexivity.
Defined.

Lemma streams_left_open_witness :
  streams_left (Protocols.Register echo) [(cut [frame [1]], "a"); (cut [frame []], "b"); (cut [frame [2]], "c")] = 2%nat.
Proof.
  refine (streams_left_open (sample_echo "/echo") cut_network
    [([1], [1], [frame [1]], "a"); ([], [], [frame []], "b"); ([2], [2], [frame [2]], "c")] cut_prompt _).
  repeat constructor; eexists; reflexivity.
Defined.
