(* ===== verification/Mesher.v ===== *)
(** * The mesh: [modules/node/internal/mesher/mesher.go]

    When a peer connects, a node sends it the other peers it knows; the
    receiver connects to the ones it is not connected to, and answers with the
    ones it is connected to in the end.  The host is the class [Host], with
    what the code relies on in [HostLaws]. *)

From S2P Require Import Prelude.

Abbreviation peerID := string (only parsing).

Record AddrInfo := mkAddrInfo { ID : peerID; Addrs : list string }.
#[export] Instance addrinfo_eq_dec : EqDecision AddrInfo.
Proof. solve_decision. Defined.

(** ** The host interface *)

Class Host (H : Type) := {
  host_ID : H → peerID;
  Peers : H → list peerID;                    (* Network().Peers() *)
  Connected : H → peerID → bool;              (* Connectedness(p) == Connected *)
  PeerInfo : H → peerID → AddrInfo;           (* Peerstore().PeerInfo(p) *)
  AddAddrs : peerID → list string → H → H;    (* with the permanent TTL *)
  Connect : AddrInfo → H → option error * H;
}.

Class HostLaws (H : Type) `{Host H} := {
  PeerInfo_ID h p : ID (PeerInfo h p) = p;
  Connect_ok i h h' : Connect i h = (None, h') → Connected h' (ID i) = true;
  Connect_keeps i h q : Connected h q = true → Connected (Connect i h).2 q = true;
  AddAddrs_connected p l h q : Connected (AddAddrs p l h) q = Connected h q;
  AddAddrs_info p l h a : a ∈ l → a ∈ Addrs (PeerInfo (AddAddrs p l h) p);
}.

(** ** Operations *)

Definition peersList : Type := list AddrInfo.

Section mesher.
Context {H : Type} `{Host H}.

Definition getPeersFor (pr : peerID) (h : H) : peersList :=
  foldl (λ req p,
    if decide (p = pr ∨ p = host_ID h) then req
    else let info := PeerInfo h p in
         match Addrs info with [] => req | _ => req ++ [info] end) [] (Peers h).

(** The loop of [checkAndAddPeers], with the successful peers so far. *)
Fixpoint check_peers (peers : peersList) (successful : peersList) (h : H) : peersList * H :=
  match peers with
  | [] => (successful, h)
  | p :: peers =>
    if Connected h (ID p) then check_peers peers (successful ++ [p]) h
    else match Connect p h with
         | (Some err, h') => check_peers peers successful h'
         | (None, h') => check_peers peers (successful ++ [p]) (AddAddrs (ID p) (Addrs p) h')
         end
  end.

Definition checkAndAddPeers (peers : peersList) (h : H) : peersList * H := check_peers peers [] h.

(** A request of the protocol always is a [peersList]: [ReqFactory] makes it. *)
Definition HandleMsg (req : peersList) : ST H peersList := λ h,
  let (resp, h') := checkAndAddPeers req h in (Ok resp, h').

(** [BroadcastPeers]: [send] is the sender the protocols service set. *)
Definition BroadcastPeers (send : peerID → peersList → res peersList) (p : peerID) (h : H) : res unit :=
  match getPeersFor p h with
  | [] => Ok ()
  | req => _ ← send p req; Ok ()
  end.

(** The worker of [New], on the peers that connect one after another: errors
    are logged. *)
Definition broadcaster (send : peerID → peersList → res peersList) (h : H) (newPeers : list peerID) :
    list (option error) :=
  (λ p, match BroadcastPeers send p h with Ok _ => None | Err e => Some e | Panic e => Some e end)
    <$> newPeers.

(** [New]: the notifier is installed once the worker has been accepted. *)
Definition New (GoFunc : option error) : res bool :=
  match GoFunc with Some err => Err err | None => Ok true end.

End mesher.

(** ** Lemmas *)

Section proofs.
Context {H : Type} `{HostLaws H}.

Lemma getPeersFor_filter pr (h : H) :
  getPeersFor pr h =
  filter (λ i, Addrs i ≠ []) (PeerInfo h <$> filter (λ p, p ≠ pr ∧ p ≠ host_ID h) (Peers h)).
Proof.
  unfold getPeersFor. match goal with |- foldl ?g [] _ = _ => set (f := g) end.
  cut (∀ acc ps, foldl f acc ps =
    acc ++ filter (λ i, Addrs i ≠ []) (PeerInfo h <$> filter (λ p, p ≠ pr ∧ p ≠ host_ID h) ps)).
  { intros Hf. apply Hf. }
  intros acc ps. revert acc.
  induction ps as [|p ps IH]; intros acc; simpl; [by rewrite app_nil_r|]. unfold f at 2. simpl.
  case_decide as Hp.
  - rewrite filter_cons_False by tauto. apply IH.
  - rewrite filter_cons_True by tauto. simpl. destruct (Addrs (PeerInfo h p)) eqn:Ha.
    + rewrite filter_cons_False by (rewrite Ha; tauto). apply IH.
    + rewrite filter_cons_True by by rewrite Ha. rewrite IH, <- (assoc_L (++)). done.
Qed.

(** A loop only adds connections. *)
Lemma check_peers_keeps ps : ∀ acc (h : H) q,
  Connected h q = true → Connected (check_peers ps acc h).2 q = true.
Proof.
  induction ps as [|p ps IH]; intros acc h q Hq; simpl; [done|].
  destruct (Connected h (ID p)); [by apply IH|].
  pose proof (Connect_keeps p h q Hq) as Hk. destruct (Connect p h) as [[err|] h']; apply IH; [done|].
  by rewrite AddAddrs_connected.
Qed.

(** The host after one round of the loop. *)
Definition checked (p : AddrInfo) (h : H) : H :=
  if Connected h (ID p) then h
  else match Connect p h with
       | (Some _, h') => h'
       | (None, h') => AddAddrs (ID p) (Addrs p) h'
       end.

Lemma check_peers_host p ps acc (h : H) :
  (check_peers (p :: ps) acc h).2 = (check_peers ps [] (checked p h)).2.
Proof.
  assert (∀ ps acc acc' (h : H), (check_peers ps acc h).2 = (check_peers ps acc' h).2) as Hacc.
  { clear. induction ps as [|p ps IH]; intros acc acc' h; simpl; [done|].
    destruct (Connected h (ID p)); [apply IH|]. destruct (Connect p h) as [[err|] h']; apply IH. }
  simpl. unfold checked. destruct (Connected h (ID p)); [apply Hacc|].
  destruct (Connect p h) as [[err|] h']; apply Hacc.
Qed.

(** The loop over [ps] dialled [i], and that dial failed: on the host as it was
    after the peers before [i], which was not connected to it. *)
Definition dial_failed (ps : peersList) (h : H) (i : AddrInfo) : Prop :=
  ∃ ps1 ps2 e, ps = ps1 ++ i :: ps2 ∧
    let h1 := (check_peers ps1 [] h).2 in
    Connected h1 (ID i) = false ∧ (Connect i h1).1 = Some e.

Lemma dial_failed_cons p ps (h : H) i : dial_failed ps (checked p h) i → dial_failed (p :: ps) h i.
Proof.
  intros (ps1 & ps2 & e & -> & Hf). exists (p :: ps1), ps2, e. split; [done|]. cbv zeta in *.
  by rewrite check_peers_host.
Qed.

Lemma check_peers_spec ps : ∀ acc (h : H),
  ∃ ok, (check_peers ps acc h).1 = acc ++ ok ∧ ok `sublist_of` ps ∧
    (∀ i, i ∈ ok → Connected (check_peers ps acc h).2 (ID i) = true) ∧
    (∀ i, i ∈ ps → i ∈ ok ∨ dial_failed ps h i).
Proof.
  induction ps as [|p ps IH]; intros acc h; simpl.
  { exists []. rewrite app_nil_r. split_and!; [done..|set_solver|set_solver]. }
  assert (∀ h1 : H, h1 = checked p h → Connected h1 (ID p) = true →
    ∃ ok, (check_peers ps (acc ++ [p]) h1).1 = acc ++ ok ∧ ok `sublist_of` p :: ps ∧
    (∀ i, i ∈ ok → Connected (check_peers ps (acc ++ [p]) h1).2 (ID i) = true) ∧
    (∀ i, i ∈ p :: ps → i ∈ ok ∨ dial_failed (p :: ps) h i)) as Htake.
  { intros h1 Eh1 Hh1. destruct (IH (acc ++ [p]) h1) as (ok & He & Hs & Hc & Ht). exists (p :: ok).
    rewrite He, <- (assoc_L (++)). split_and!; [done|by apply sublist_skip| |].
    - intros i [->|Hi]%elem_of_cons; [by apply check_peers_keeps|by apply Hc].
    - intros i [->|Hi]%elem_of_cons; [left; left|].
      destruct (Ht i Hi); [left; by right|right; apply dial_failed_cons; by rewrite <- Eh1]. }
  assert (checked p h = checked p h) as Echk by done. unfold checked in Echk at 2.
  destruct (Connected h (ID p)) eqn:Hcon; [by apply Htake|].
  destruct (Connect p h) as [[err|] h'] eqn:Hdial.
  - destruct (IH acc h') as (ok & He & Hs & Hc & Ht). exists ok.
    split_and!; [done|by apply sublist_cons|done|].
    intros i [->|Hi]%elem_of_cons.
    + right. exists [], ps, err. simpl. by rewrite Hcon, Hdial.
    + destruct (Ht i Hi); [by left|right; apply dial_failed_cons; by rewrite Echk].
  - apply Htake; [done|]. rewrite AddAddrs_connected. by eapply Connect_ok.
Qed.
End proofs.

(** ** Properties *)

(** A node tells a new peer about exactly the peers it is connected to that
    have an address, never about the peer itself nor about the node, and it
    stays silent (sends nothing, whatever the sender would do) when there are
    none. *)
Theorem broadcast_request {H} `{HostLaws H} (h : H) pr send :
  (∀ i, i ∈ getPeersFor pr h ↔
     i = PeerInfo h (ID i) ∧ ID i ∈ Peers h ∧ ID i ≠ pr ∧ ID i ≠ host_ID h ∧ Addrs i ≠ []) ∧
  BroadcastPeers send pr h =
    if decide (getPeersFor pr h = []) then Ok () else (_ ← send pr (getPeersFor pr h); Ok ()).
Proof.
  split; [|unfold BroadcastPeers; by destruct (getPeersFor pr h)].
  intros i. rewrite getPeersFor_filter, list_elem_of_filter, list_elem_of_fmap.
  setoid_rewrite list_elem_of_filter. split.
  - intros (Ha & p & -> & (Hpr & Hself) & Hin). by rewrite !PeerInfo_ID.
  - intros (Hi & Hin & Hpr & Hself & Ha). split; [done|]. by exists (ID i).
Qed.

(** Handling a request connects: every peer the answer lists is connected
    afterwards, the answer lists requested peers in their order, and leaves out
    only peers that were dialled without success; no connection is lost. *)
Theorem handle_connects {H} `{HostLaws H} (h : H) req :
  ∃ resp h', HandleMsg req h = (Ok resp, h') ∧ resp `sublist_of` req ∧
    (∀ i, i ∈ resp → Connected h' (ID i) = true) ∧
    (∀ i, i ∈ req → i ∈ resp ∨ dial_failed req h i) ∧
    (∀ q, Connected h q = true → Connected h' q = true).
Proof.
  destruct (check_peers_spec req [] h) as (ok & He & Hs & Hc & Ht).
  unfold HandleMsg, checkAndAddPeers.
  pose proof (λ q, check_peers_keeps req [] h q) as Hk.
  destruct (check_peers req [] h) as [resp h']. simpl in *. subst resp.
  exists ok, h'. by split_and!.
Qed.

(** ** A host *)

(** A host that can reach the peers with an address in [reachable]. *)
Record sim_host := mkSim {
  sim_id : peerID;
  sim_peers : list peerID;
  sim_book : gmap string (list string);
}.

#[export] Instance sim_host_ops : Host sim_host := {|
  host_ID := sim_id;
  Peers := sim_peers;
  Connected h p := bool_decide (p ∈ sim_peers h);
  PeerInfo h p := mkAddrInfo p (default [] (sim_book h !! p));
  AddAddrs p l h := mkSim (sim_id h) (sim_peers h)
    (<[p := default [] (sim_book h !! p) ++ l]> (sim_book h));
  Connect i h :=
    if decide ("unreachable" ∈ Addrs i) then (Some "dial failed", h)
    else (None, mkSim (sim_id h) (ID i :: sim_peers h) (sim_book h));
|}.

#[export] Instance sim_host_laws : HostLaws sim_host.
Proof.
  split; simpl.
  - done.
  - intros i h h'. case_decide; [done|]. intros [= <-]. apply bool_decide_true. left.
  - intros i h q Hq%bool_decide_eq_true. case_decide; simpl; [by apply bool_decide_true|].
    apply bool_decide_true. by right.
  - done.
  - intros p l h a Ha. rewrite lookup_insert_eq. simpl. set_solver.
Qed.

(** Its dials of reachable peers succeed. *)
Lemma sim_dials ps (h : sim_host) i : "unreachable" ∉ Addrs i → ¬ dial_failed ps h i.
Proof.
  intros Hi (ps1 & ps2 & e & _ & _ & Hf). revert Hf. generalize (check_peers ps1 [] h).2. intros h1.
  cbn. by rewrite decide_False.
Qed.

Definition sample_host : sim_host :=
  mkSim "A" ["B"; "C"; "D"] {[ "C" := ["/ip4/c"]; "D" := ["unreachable"]; "B" := ["/ip4/b"] ]}.

(** A node [A] with peers [B], [C] and [D]: [B] hears of the other two and
    connects to the one it can reach. *)
Lemma broadcast_request_witness :
  mkAddrInfo "C" ["/ip4/c"] ∈ getPeersFor "B" sample_host ∧
  mkAddrInfo "B" ["/ip4/b"] ∉ getPeersFor "B" sample_host.
Proof.
  destruct (broadcast_request sample_host "B" (λ _ l, Ok l)) as [H _]. split.
  - apply H. split_and!; try done; simpl; set_solver.
  - rewrite H. naive_solver.
Defined.

Lemma handle_connects_witness :
  ∃ resp h', HandleMsg (getPeersFor "B" sample_host) (mkSim "B" ["A"] ∅) = (Ok resp, h') ∧
    resp = [mkAddrInfo "C" ["/ip4/c"]] ∧ Connected h' "C" = true.
Proof.
  destruct (handle_connects (mkSim "B" ["A"] ∅) (getPeersFor "B" sample_host))
    as (resp & h' & He & _ & Hc & _).
  exists resp, h'. split; [exact He|].
  assert (resp = [mkAddrInfo "C" ["/ip4/c"]]) as ->.
  { assert (Ok resp = Ok [mkAddrInfo "C" ["/ip4/c"]]) as [=]; [|done].
    rewrite <- (f_equal fst He : _ = Ok resp). by vm_compute. }
  split; [done|]. apply (Hc (mkAddrInfo "C" ["/ip4/c"])). left.
Defined.
