(* ===== verification/Mesh.v ===== *)
(** * The mesh over the wire: [mesher.go] on top of [protocols.go]

    The mesher registers itself as a protocol: its requests and responses are
    lists of peers in JSON.  Here an exchange of two nodes is put together, from
    the request of one, through the frames on the stream, to the connections of
    the other.  How the peer library prints addresses is an argument. *)

From S2P Require Import Prelude Utf8 Protocols Mesher.

(** ** The protocol *)

Section mesh.
Context {H : Type} `{HostLaws H} `{Message peersList}.

Definition mesh_ID : string := "/msuite/mesher/1.0.0".

(** The mesher of a node as a protocol: the factories make empty lists. *)
Definition mesh_protocol (h : H) : Protocol peersList peersList :=
  mkProtocol _ _ (λ req _, (Mesher.HandleMsg req h).1) [] [].

(** The sender [Register] gives to the mesher of a node, for a stream to the
    node with the host [h]. *)
Definition mesh_send (net : network) (self : peerID) (h : H) : peerID → peersList → res peersList :=
  λ _ req, SendMsg (mesh_protocol h) req (Ok (λ _, None, connected (mesh_protocol h) (deliver net) self)).

(** ** Property *)

(** Knowledge of peers spreads.  When a node tells a new peer about its
    other peers, over a network that brings the two length bytes together, the
    exchange succeeds, and afterwards the peer is connected to every one of them
    that has an address, except those it dialled without success; it loses no
    connection. *)
Theorem mesh_spreads (net : network) (a b : H) buf :
  let req := getPeersFor (host_ID b) a in
  header_together net →
  (∀ l bs, Marshal l = Ok bs → Unmarshal bs ([] : peersList) = Ok l) →
  Marshal req = Ok buf → (Z.of_nat (length buf) < 2 ^ 16)%Z →
  (∀ l, l `sublist_of` req → ∃ bs, Marshal l = Ok bs ∧ Z.of_nat (length bs) < 2 ^ 16)%Z →
  BroadcastPeers (mesh_send net (host_ID a) b) (host_ID b) a = Ok () ∧
  let b' := (Mesher.HandleMsg req b).2 in
  (∀ q, q ∈ Peers a → q ≠ host_ID a → q ≠ host_ID b → Addrs (PeerInfo a q) ≠ [] →
     Connected b' q = true ∨ dial_failed req b (PeerInfo a q)) ∧
  (∀ q, Connected b q = true → Connected b' q = true).
Proof.
  intros req Hnet Hcodec Hm Hlen Hsub. unfold Mesher.HandleMsg, checkAndAddPeers.
  destruct (check_peers_spec req [] b) as (ok & He & Hs & Hc & Ht). simpl in He. split; [|split].
  - unfold BroadcastPeers. fold req. destruct req as [|i l] eqn:E; [done|]. rewrite <- E in *.
    destruct (Hsub ok Hs) as (rb & Hrm & Hrlen).
    pose proof (exchange_spec (mesh_protocol b) net (host_ID a) req buf Hnet Hm Hlen (Hcodec _ _ Hm)) as HX.
    assert (Protocols.HandleMsg (mesh_protocol b) req (host_ID a) = Ok ok) as Hh.
    { cbn. unfold Mesher.HandleMsg, checkAndAddPeers.
      destruct (check_peers req [] b). cbn in He |- *. by subst. }
    cbv zeta in HX. rewrite Hh in HX. unfold mesh_send.
    by rewrite (HX rb Hrm Hrlen (Hcodec _ _ Hrm)).
  - intros q Hq Ha Hb Hne.
    assert (PeerInfo a q ∈ req) as Hin.
    { unfold req. rewrite getPeersFor_filter. apply list_elem_of_filter. split; [done|].
      apply list_elem_of_fmap_2, list_elem_of_filter. done. }
    destruct (Ht _ Hin) as [Hok|Hf]; [left|by right]. apply Hc in Hok. rewrite PeerInfo_ID in Hok.
    by destruct (check_peers req [] b).
  - intros q Hq. apply (check_peers_keeps req [] b) in Hq. by destruct (check_peers req [] b).
Qed.
End mesh.

(** ** Witness *)

(** A codec: the bits of the number stdpp gives to a list of peers, one per
    byte. *)
#[local] Instance addrinfo_countable : Countable AddrInfo :=
  inj_countable' (λ i, (ID i, Addrs i)) (λ p, mkAddrInfo p.1 p.2) (λ '(mkAddrInfo _ _), eq_refl).

Fixpoint bits (p : positive) : list Z :=
  match p with
  | xH => []
  | xO p => 0%Z :: bits p
  | xI p => 1%Z :: bits p
  end.

Definition unbits : list Z → positive := foldr (λ b p, if (b =? 0)%Z then xO p else xI p) xH.

Lemma unbits_bits p : unbits (bits p) = p.
Proof. induction p as [p IH|p IH|]; simpl; by rewrite ?IH. Qed.

#[local] Instance peers_message : Message peersList := {|
  Marshal l := Ok (bits (encode l));
  Unmarshal bs _ := match decode (unbits bs) with Some l => Ok l | None => Err "not a list of peers" end;
|}.

(** The node [B] hears of [C] and [D] from [A], and ends up connected to the one
    it can reach. *)
Lemma mesh_spreads_witness :
  BroadcastPeers (mesh_send cut_network "A" (mkSim "B" ["A"] ∅)) "B" sample_host = Ok () ∧
  Connected (Mesher.HandleMsg (getPeersFor "B" sample_host) (mkSim "B" ["A"] ∅)).2 "C" = true.
Proof.
  assert (getPeersFor "B" sample_host =
    [mkAddrInfo "C" ["/ip4/c"]; mkAddrInfo "D" ["unreachable"]]) as E by by vm_compute.
  destruct (mesh_spreads cut_network sample_host (mkSim "B" ["A"] ∅)
    (bits (encode (getPeersFor "B" sample_host)))) as (HB & Ht & _).
  - apply cut_prompt.
  - intros l bs [= <-]. simpl. by rewrite unbits_bits, countable.decode_encode.
  - reflexivity.
  - rewrite E. by vm_compute.
  - change (host_ID (mkSim "B" ["A"] ∅)) with "B". rewrite E. intros l Hl. eexists. split; [done|].
    apply sublist_cons_r in Hl as [Hl|(l1 & -> & Hl)];
      apply sublist_cons_r in Hl as [Hl|(l2 & -> & Hl)];
      apply sublist_nil_r in Hl as ->; by vm_compute.
  - split; [exact HB|]. destruct (Ht "C") as [Hc|Hf]; [right; left|done..| |].
    + exact Hc.
    + apply sim_dials in Hf; [done|]. refine (bool_decide_unpack _ _). by vm_compute.
Defined.
