(* ===== verification/MeshJson.v ===== *)
(** * The messages of the mesh: [peersList] of [mesher.go] in JSON

    [Mesh] has the exchange for any way to write a list of peers; here it is the
    one of the code, [encoding/json].  How the peer library writes one peer is
    an argument: a JSON value that it reads back. *)

From S2P Require Import Prelude Utf8 Json JsonText Base64 Protocols Mesher Mesh.

(** ** The codec *)

(** [AddrInfo.MarshalJSON]; [AddrInfo.UnmarshalJSON] is the [Target]. *)
Class AddrInfoJSON `{Target AddrInfo} := { info_json : AddrInfo → json }.

Class AddrInfoLaws `{AddrInfoJSON} := {
  info_valid i : valid_json (info_json i);
  info_back i : unmarshal (info_json i) zero = (i, true);
}.

Section codec.
Context `{AddrInfoJSON}.

(** The lists of the mesher are built with [append] from nil: an empty one is
    nil. *)
Definition peersList_json (l : peersList) : json :=
  match l with [] => JNull | _ => JArr (info_json <$> l) end.

Definition peersList_Marshal (l : peersList) : res bytes := Ok (bytes_of (text_of compact (peersList_json l))).

Definition peersList_Unmarshal (buf : bytes) (l : peersList) : res peersList :=
  match json_unmarshal (string_of buf) (l : list AddrInfo) with
  | (l', None) => Ok l'
  | (_, Some err) => Err err
  end.

#[export] Instance peersList_Message : Message peersList := {|
  Marshal := peersList_Marshal;
  Unmarshal := peersList_Unmarshal;
|}.
End codec.

(** ** Lemmas *)

Section lemmas.
Context `{AddrInfoLaws}.






End lemmas.

(** ** Property *)


(** ** Witness *)

(** One peer as an object with its identifier and its addresses; the texts are
    base64, so that any bytes come back. *)
Definition sample_addr (j : json) : option string :=
  match j with
  | JStr t => match DecodeString t with Ok x => Some x | _ => None end
  | _ => None
  end.

Lemma sample_addrs l : mapM sample_addr ((λ a, JStr (EncodeToString a)) <$> l) = Some l.
Proof. apply mapM_fmap_Some. intros a. simpl. by rewrite DecodeString_EncodeToString. Qed.

#[local] Instance sample_target : Target AddrInfo := {|
  zero := mkAddrInfo "" [];
  unmarshal j old :=
    match j with
    | JObj [("ID", JStr id); ("Addrs", JArr addrs)] =>
      match DecodeString id, mapM sample_addr addrs with
      | Ok id, Some addrs => (mkAddrInfo id addrs, true)
      | _, _ => (old, false)
      end
    | _ => (old, false)
    end;
|}.

#[local] Instance sample_json : AddrInfoJSON := {|
  info_json i := JObj [("ID", JStr (EncodeToString (ID i)));
                       ("Addrs", JArr ((λ a, JStr (EncodeToString a)) <$> Addrs i))];
|}.

#[local] Instance sample_json_laws : AddrInfoLaws.
Proof.
  split.
  - intros [id addrs]. simpl. constructor. repeat constructor; simpl; try apply EncodeToString_utf8.
    apply Forall_fmap, Forall_forall. intros a _. constructor. apply EncodeToString_utf8.
  - intros [id addrs]. simpl. rewrite DecodeString_EncodeToString.
    by rewrite sample_addrs.
Qed.

