(* ===== verification/MeshWorker.v ===== *)
(** * The broadcaster of the mesher: [New] of
      [modules/node/internal/mesher/mesher.go]

    Every new connection of the host calls the notifier, which sends the peer on
    an unbuffered channel; one task receives from it and broadcasts.  Calls of
    the notifier run concurrently, each blocked until the task takes its peer:
    this is the relation [step]. *)

From S2P Require Import Prelude Mesher.

(** ** State *)

(** The task: handed to the task manager, at its [select], broadcasting to a
    peer, or returned. *)
Inductive worker := Queued | AtSelect | Broadcasting (p : peerID) | Returned.

#[export] Instance worker_eq_dec : EqDecision worker.
Proof. solve_decision. Defined.

Record state := mkState {
  blocked : list peerID;       (* calls of the notifier that wait *)
  task : worker;
  ctx_done : bool;             (* the task's context *)
  connected : list peerID;     (* what the notifier was called with, in order *)
  broadcast : list peerID;     (* the peers [BroadcastPeers] has returned for *)
}.

(** [New] has handed the task to the task manager, which need not have started
    it yet, and installed the notifier. *)
Definition installed : state := mkState [] Queued false [] [].

(** ** Steps *)

(** [Env] steps are the network's and the task manager's, [Task] steps the
    task's own. *)
Inductive label := Env | Task.

Inductive step : label → state → state → Prop :=
| ConnectedF s p :
    step Env s (mkState (blocked s ++ [p]) (task s) (ctx_done s) (connected s ++ [p]) (broadcast s))
| cancelled s :
    step Env s (mkState (blocked s) (task s) true (connected s) (broadcast s))
| scheduled s :
    task s = Queued →
    step Env s (mkState (blocked s) AtSelect (ctx_done s) (connected s) (broadcast s))
| receive s l1 p l2 :
    task s = AtSelect → blocked s = l1 ++ p :: l2 →
    step Task s (mkState (l1 ++ l2) (Broadcasting p) (ctx_done s) (connected s) (broadcast s))
| broadcast_returns s p :
    task s = Broadcasting p →
    step Task s (mkState (blocked s) AtSelect (ctx_done s) (connected s) (broadcast s ++ [p]))
| select_done s :
    task s = AtSelect → ctx_done s = true →
    step Task s (mkState (blocked s) Returned (ctx_done s) (connected s) (broadcast s)).

Definition any_step (s s' : state) : Prop := ∃ l, step l s s'.

(** ** Lemmas *)

(** What the task has in hand. *)
Definition in_hand (s : state) : list peerID :=
  match task s with Broadcasting p => [p] | _ => [] end.

(** Every call of the notifier is in one place. *)
Definition accounted (s : state) : Prop := connected s ≡ₚ blocked s ++ in_hand s ++ broadcast s.

Lemma accounted_step s s' : any_step s s' → accounted s → accounted s'.
Proof.
  intros [l Hs] Ha. destruct Hs as [s p|s|s Ht|s l1 p l2 Ht Hb|s p Ht|s Ht Hd]; unfold accounted, in_hand in *;
    simpl in *; try rewrite Ht in Ha; simpl in *; [|done|done| | |done].
  - rewrite Ha. by rewrite <- !(assoc_L (++)), (comm (++) [p]), <- !(assoc_L (++)).
  - rewrite Ha, Hb. rewrite <- (assoc_L (++)). simpl. by rewrite Permutation_middle, <- (assoc_L (++)).
  - rewrite Ha. by rewrite (comm (++) (broadcast s) [p]).
Qed.

Lemma accounted_reachable s : rtc any_step installed s → accounted s.
Proof.
  intros Hr. cut (accounted installed → accounted s); [intros H; apply H; constructor|].
  induction Hr as [s|s1 s2 s3 Hs _ IH]; [done|]. intros Ha. by apply IH, (accounted_step s1).
Qed.

(** Once the task has returned, nothing is received any more. *)
Lemma returned_blocked s s' : rtc any_step s s' → task s = Returned →
  task s' = Returned ∧ broadcast s' = broadcast s ∧ ∃ l, blocked s' = blocked s ++ l.
Proof.
  induction 1 as [s|s1 s2 s3 [l Hs] _ IH]; intros Ht.
  { split_and!; [done..|]. exists []. by rewrite app_nil_r. }
  destruct Hs as [s p|s|s Ht'|s l1 p l2 Ht'|s p Ht'|s Ht' ?]; try congruence; simpl in *;
    destruct (IH Ht) as (H1 & H2 & k & H3); split_and!; try done; [|by exists k].
  exists (p :: k). by rewrite H3, <- (assoc_L (++)).
Qed.

(** Before the task runs, all calls of the notifier wait. *)
Lemma queued_waiting s : rtc any_step installed s → task s = Queued → blocked s = connected s ∧ broadcast s = [].
Proof.
  intros Hr. cut ((task installed = Queued → blocked installed = connected installed ∧ broadcast installed = []) →
    task s = Queued → blocked s = connected s ∧ broadcast s = []); [intros H; by apply H|].
  induction Hr as [s|s1 s2 s3 [l Hs] _ IH]; [done|]. intros Ha. apply IH.
  destruct Hs as [s p|s|s Ht'|s l1 p l2 Ht'|s p Ht'|s Ht' ?]; simpl in *; try done.
  intros Ht. destruct (Ha Ht) as [-> ->]. done.
Qed.

(** From a state with a live task, the peers that wait can be served. *)
Lemma serve_blocked n : ∀ s, length (blocked s) = n → task s = AtSelect →
  ∃ s', rtc (step Task) s s' ∧ blocked s' = [] ∧ task s' = AtSelect ∧
    broadcast s' = broadcast s ++ blocked s ∧ connected s' = connected s.
Proof.
  induction n as [|n IH]; intros s Hn Ht; destruct (blocked s) as [|p l] eqn:Hb; try done.
  { exists s. rewrite app_nil_r. by split_and!. }
  set (s1 := mkState l (Broadcasting p) (ctx_done s) (connected s) (broadcast s)).
  set (s2 := mkState l AtSelect (ctx_done s) (connected s) (broadcast s ++ [p])).
  destruct (IH s2) as (s' & Hr & H1 & H2 & H3 & H4); [simpl in *; lia|done|].
  exists s'. split_and!; [|done|done| |done].
  - eapply rtc_l; [by apply (receive s [] p l)|]. eapply rtc_l; [by apply (broadcast_returns s1 p)|]. done.
  - rewrite H3. simpl. by rewrite <- (assoc_L (++)).
Qed.

(** ** Properties *)

(** C21: every new connection is announced, as long as the task runs.  In every
    state the notifier and the task can get into, each call of the notifier is
    in exactly one place: waiting, in the hands of the task, or done.  Before
    the task manager starts the task all of them wait, and it can start it; while
    the task is at its [select], its own steps alone can serve all that wait.
    But once the task has returned, the calls that wait, and all later ones,
    wait for ever: the host keeps a goroutine for each. *)
Theorem mesh_worker_accounts s :
  rtc any_step installed s →
  connected s ≡ₚ blocked s ++ in_hand s ++ broadcast s ∧
  (task s = Queued → blocked s = connected s ∧ ∃ s', step Env s s' ∧ task s' = AtSelect ∧ blocked s' = blocked s) ∧
  (task s = AtSelect →
     ∃ s', rtc (step Task) s s' ∧ blocked s' = [] ∧ broadcast s' = broadcast s ++ blocked s) ∧
  (task s = Returned → ∀ s', rtc any_step s s' →
     broadcast s' = broadcast s ∧ ∃ l, blocked s' = blocked s ++ l ∧ connected s' ≡ₚ connected s ++ l).
Proof.
  intros Hr. apply accounted_reachable in Hr as Ha. split_and!; [done| | |].
  - intros Ht. destruct (queued_waiting s Hr Ht) as [Hb _]. split; [done|]. eexists. by split; [apply scheduled|].
  - intros Ht. destruct (serve_blocked _ s eq_refl Ht) as (s' & H1 & H2 & _ & H3 & _). by eauto.
  - intros Ht s' Hs'. destruct (returned_blocked s s' Hs' Ht) as (Ht' & Hb & l & Hl). split; [done|].
    exists l. split; [done|].
    assert (accounted s') as Ha' by (apply accounted_reachable; by etransitivity).
    unfold accounted, in_hand in *. rewrite Ht in Ha. rewrite Ht' in Ha'. simpl in *.
    rewrite Ha', Ha, Hb, Hl, <- !(assoc_L (++)). f_equiv. apply (comm (++)).
Qed.

(** ** Witness *)

(** Two peers connect; the first is announced, then the context ends, and the
    second call of the notifier never returns. *)
Definition sample_returned : state := mkState ["B"] Returned true ["A"; "B"] ["A"].

Lemma sample_reachable : rtc any_step installed sample_returned.
Proof.
  eapply rtc_l; [exists Env; apply (ConnectedF _ "A")|]. simpl.
  eapply rtc_l; [exists Env; by apply scheduled|]. simpl.
  eapply rtc_l; [exists Env; apply (ConnectedF _ "B")|]. simpl.
  eapply rtc_l; [exists Task; by apply (receive _ [] "A" ["B"])|]. simpl.
  eapply rtc_l; [exists Task; by apply (broadcast_returns _ "A")|]. simpl.
  eapply rtc_l; [exists Env; apply cancelled|]. simpl.
  eapply rtc_l; [exists Task; by apply select_done|]. simpl. reflexivity.
Qed.

Lemma mesh_worker_accounts_witness :
  ["A"; "B"] ≡ₚ ["B"] ++ [] ++ ["A"] ∧
  broadcast (mkState ["B"; "C"] Returned true ["A"; "B"; "C"] ["A"]) = ["A"].
Proof.
  destruct (mesh_worker_accounts sample_returned sample_reachable) as (Ha & _ & _ & Hb).
  split; [exact Ha|].
  destruct (Hb eq_refl (mkState ["B"; "C"] Returned true ["A"; "B"; "C"] ["A"])) as [H _]; [|exact H].
  eapply rtc_l; [exists Env; apply (ConnectedF _ "C")|]. simpl. reflexivity.
Defined.
