(* ===== verification/Events.v ===== *)
(** * Events: [modules/events/events.go]

    Handlers are registered per topic in a [sync.Map]; [Broadcast] publishes an
    envelope of the topic and the marshalled event; the listener decodes each
    envelope that arrives and calls the handlers of its topic.  [run] is the
    listener with registrations between messages; [race] has registrations from
    several goroutines, where the load and the store of the map are separate
    steps. *)

From S2P Require Import Prelude Utf8 Json JsonText Base64.

(** ** The envelope *)

(** A Go byte slice in a JSON document: base64 text. *)
Record blob := Blob { unblob : string }.

#[export] Instance target_blob : Target blob := {|
  zero := Blob "";
  unmarshal j old :=
    match j with
    | JStr s => match DecodeString s with
                | Ok b => (Blob b, true)
                | _ => (old, false)
                end
    | JNull => (Blob "", true)
    | _ => (old, false)
    end;
|}.

Record eventMsg := mkEventMsg { Topic : string; Msg : blob }.

Definition eventMsg_json (e : eventMsg) : json :=
  JObj [("Topic", jstr (Topic e)); ("Msg", JStr (EncodeToString (unblob (Msg e))))].

Definition eventMsg_Marshal (e : eventMsg) : string := text_of compact (eventMsg_json e).

#[export] Instance target_eventMsg : Target eventMsg := {|
  zero := mkEventMsg "" (Blob "");
  unmarshal j old :=
    match j with
    | JObj l =>
      foldl (λ acc kv,
        if field_match "Topic" kv.1 then
          field_into Topic (λ t e, mkEventMsg t (Msg e)) kv.2 acc
        else if field_match "Msg" kv.1 then
          field_into Msg (λ m e, mkEventMsg (Topic e) m) kv.2 acc
        else acc) (old, true) l
    | JNull => (old, true)
    | _ => (old, false)
    end;
|}.

Definition eventMsg_Unmarshal (buf : string) (e : eventMsg) : eventMsg * option error :=
  json_unmarshal buf e.

(** ** Handlers *)

Section events.
Context {V : Type}.

(** A handler: the topic of the events its factory makes, how they unmarshal,
    and a name for the function called with the result. *)
Record evHandler := mkHandler {
  h_topic : string;
  h_Unmarshal : string → res V;
  h_name : nat;
}.

Abbreviation handlers := (gmap string (list evHandler)).

(** [NewEventsSvc]: the topic is joined, the listener subscribed and its task
    started; no handlers yet. *)
Definition NewEventsSvc {T Sub : Type} (Join : string → res T) (Subscribe : T → res Sub)
    (tm_Go : option error) : res (T * Sub * handlers) :=
  eTopic ← Join "events";
  sub ← Subscribe eTopic;
  match tm_Go with Some err => Err err | None => Ok (eTopic, sub, ∅) end.

(** The two accesses of [RegisterHandler]. *)
Definition load_handlers (topic : string) (m : handlers) : list evHandler := default [] (m !! topic).

Definition store_handlers (topic : string) (l : list evHandler) (m : handlers) : handlers :=
  <[topic := l]> m.

Definition RegisterHandler (h : evHandler) (m : handlers) : handlers :=
  store_handlers (h_topic h) (load_handlers (h_topic h) m ++ [h]) m.

(** [Broadcast]: the bytes handed to [Publish]. *)
Definition Broadcast (topic : string) (body : res string) : res string :=
  buf ← body; Ok (eventMsg_Marshal (mkEventMsg topic (Blob buf))).

(** The calls for one message: the name of the handler and its event. *)
Definition call_handler (buf : string) (h : evHandler) : option (nat * V) :=
  match h_Unmarshal h buf with Ok v => Some (h_name h, v) | _ => None end.

Definition dispatch (data : string) (m : handlers) : list (nat * V) :=
  match eventMsg_Unmarshal data zero with
  | (ev, None) =>
    match m !! Topic ev with
    | None => []
    | Some hdlrs => omap (call_handler (unblob (Msg ev))) hdlrs
    end
  | (_, Some _) => []
  end.

(** The loop of [Execute], with what [Next] returns and the registrations in
    between; it ends with the context. *)
Inductive step :=
| Next (msg : res string)
| Registered (h : evHandler).

Fixpoint run (steps : list step) (m : handlers) : list (nat * V) :=
  match steps with
  | [] => []
  | Next (Ok data) :: steps => dispatch data m ++ run steps m
  | Next _ :: steps => run steps m
  | Registered h :: steps => run steps (RegisterHandler h m)
  end.

Fixpoint registered (steps : list step) : list evHandler :=
  match steps with
  | [] => []
  | Registered h :: steps => h :: registered steps
  | _ :: steps => registered steps
  end.

(** ** Registrations from several goroutines *)

Inductive thread :=
| Starts (h : evHandler)
| Loaded (h : evHandler) (l : list evHandler)
| Done (h : evHandler).

Definition thread_handler (t : thread) : evHandler :=
  match t with Starts h | Loaded h _ | Done h => h end.

Inductive race : handlers * list thread → handlers * list thread → Prop :=
| race_load m ts i h :
    ts !! i = Some (Starts h) →
    race (m, ts) (m, <[i := Loaded h (load_handlers (h_topic h) m)]> ts)
| race_store m ts i h l :
    ts !! i = Some (Loaded h l) →
    race (m, ts) (store_handlers (h_topic h) (l ++ [h]) m, <[i := Done h]> ts).

(** ** Lemmas *)

Lemma eventMsg_roundtrip e :
  valid_utf8 (Topic e) → eventMsg_Unmarshal (eventMsg_Marshal e) zero = (e, None).
Proof.
  intros Hv. unfold eventMsg_Unmarshal, eventMsg_Marshal, json_unmarshal.
  rewrite parse_text_of; [|apply compact_ws|].
  - cbn [unmarshal target_eventMsg eventMsg_json foldl].
    change (field_match "Topic" "Topic") with true. change (field_match "Topic" "Msg") with false.
    change (field_match "Msg" "Msg") with true. unfold field_into. cbn.
    rewrite DecodeString_EncodeToString. simpl. rewrite Hv. by destruct e as [t [b]].
  - unfold eventMsg_json. constructor.
    repeat (constructor; [split; [reflexivity|]|]); [apply valid_jstr| |constructor].
    constructor. apply EncodeToString_utf8.
Qed.

Lemma register_lookup h m t :
  load_handlers t (RegisterHandler h m) =
  load_handlers t m ++ (if decide (h_topic h = t) then [h] else []).
Proof.
  unfold RegisterHandler, store_handlers, load_handlers. case_decide as E.
  - subst. by rewrite lookup_insert_eq.
  - by rewrite lookup_insert_ne, app_nil_r.
Qed.

Definition registers (hs : list evHandler) (m : handlers) : handlers := foldl (flip RegisterHandler) m hs.

Lemma registers_lookup hs : ∀ m t,
  load_handlers t (registers hs m) = load_handlers t m ++ filter (λ h, h_topic h = t) hs.
Proof.
  induction hs as [|h hs IH]; intros m t; simpl; [by rewrite app_nil_r|].
  rewrite IH, register_lookup, <- (assoc_L (++)). f_equal.
  rewrite filter_cons. by case_decide.
Qed.

Lemma run_app pre : ∀ post m,
  run (pre ++ post) m = run pre m ++ run post (registers (registered pre) m).
Proof.
  induction pre as [|[[data| |]|h] pre IH]; intros post m; simpl; try done.
  - by rewrite IH, <- (assoc_L (++)).
Qed.

Lemma dispatch_broadcast topic buf m :
  valid_utf8 topic →
  dispatch (eventMsg_Marshal (mkEventMsg topic (Blob buf))) m =
  omap (call_handler buf) (load_handlers topic m).
Proof.
  intros Hv. unfold dispatch, load_handlers. rewrite eventMsg_roundtrip by done. simpl.
  by destruct (m !! topic).
Qed.

(** Every list a goroutine has loaded or stored has registered handlers only. *)
Definition race_inv (s : handlers * list thread) : Prop :=
  let good t l := Forall (λ h, h_topic h = t ∧ h ∈ thread_handler <$> s.2) l in
  (∀ t l, s.1 !! t = Some l → good t l) ∧
  (∀ h l, Loaded h l ∈ s.2 → good (h_topic h) l).

Lemma race_handlers s s' : race s s' → thread_handler <$> s'.2 = thread_handler <$> s.2.
Proof.
  destruct 1 as [m ts i h Hi|m ts i h l Hi]; simpl; rewrite list_fmap_insert; simpl;
    apply list_insert_id; by rewrite list_lookup_fmap, Hi.
Qed.

Lemma race_inv_step s s' : race s s' → race_inv s → race_inv s'.
Proof.
  intros Hstep. pose proof (race_handlers s s' Hstep) as Hth. unfold race_inv. rewrite Hth.
  destruct Hstep as [m ts i h Hi|m ts i h l Hi]; simpl in *; intros [Hm Hl].
  - split; [done|]. intros h' l' [j Hj]%list_elem_of_lookup.
    apply list_lookup_insert_Some in Hj as [(_ & [= <- <-] & _)|[_ Hj]];
      [|by apply Hl, list_elem_of_lookup_2 with j].
    unfold load_handlers. destruct (m !! h_topic h) eqn:E; [by apply Hm|constructor].
  - split.
    + unfold store_handlers. intros t l' [[<- <-]|[_ Ht]]%lookup_insert_Some; [|by apply Hm].
      apply Forall_app. split; [by apply Hl, list_elem_of_lookup_2 with i|].
      repeat constructor. apply list_elem_of_fmap. exists (Loaded h l).
      split; [done|by eapply list_elem_of_lookup_2].
    + intros h' l' [j Hj]%list_elem_of_lookup.
      apply list_lookup_insert_Some in Hj as [(_ & [=] & _)|[_ Hj]].
      by apply Hl, list_elem_of_lookup_2 with j.
Qed.

(** ** Properties *)

(** C36: a broadcast event reaches exactly the handlers registered for its topic
    before it arrives, in the order of their registration, each with the event
    as its own [Unmarshal] decodes the broadcast bytes; a handler that cannot
    decode it is skipped.  Messages that are lost or malformed before or after
    do not change that. *)
Theorem broadcast_delivers topic buf data pre post :
  valid_utf8 topic → Broadcast topic (Ok buf) = Ok data →
  run (pre ++ Next (Ok data) :: post) ∅ =
  run pre ∅ ++ omap (call_handler buf) (filter (λ h, h_topic h = topic) (registered pre))
    ++ run post (registers (registered pre) ∅).
Proof.
  intros Hv Hb%(inj Ok). subst data. rewrite run_app. cbn [run]. rewrite dispatch_broadcast by done.
  by rewrite registers_lookup.
Qed.

(** However registrations from several goroutines interleave, the map holds
    only registered handlers, each under its own topic. *)
Theorem race_only_registered hs m ts t l :
  rtc race (∅, Starts <$> hs) (m, ts) → m !! t = Some l →
  Forall (λ h, h_topic h = t ∧ h ∈ hs) l.
Proof.
  intros Hrtc Ht.
  assert (thread_handler <$> ts = hs) as Hhs.
  { eapply (rtc_ind_r (λ s, thread_handler <$> s.2 = hs) (∅, Starts <$> hs)) in Hrtc; simpl in *; try done.
    - rewrite <- list_fmap_compose. apply list_fmap_id.
    - intros y z _ Hst Hy. by rewrite (race_handlers y z Hst). }
  assert (race_inv (m, ts)) as [Hm _].
  { eapply (rtc_ind_r race_inv (∅, Starts <$> hs)); [|intros; by eapply race_inv_step|done].
    split; simpl; [by intros ??|]. intros h l' (? & ? & _)%list_elem_of_fmap. done. }
  specialize (Hm t l Ht). simpl in Hm. by rewrite Hhs in Hm.
Qed.

(** But the load and the store are not one step: two handlers for a topic
    that register at the same time can end up with one of them lost. *)
Theorem race_loses_handler h1 h2 :
  h_topic h1 = h_topic h2 →
  rtc race (∅, [Starts h1; Starts h2]) ({[ h_topic h2 := [h2] ]}, [Done h1; Done h2]).
Proof.
  intros Ht.
  eapply rtc_l; [by apply (race_load _ _ 0 h1)|]. simpl.
  eapply rtc_l; [by apply (race_load _ _ 1 h2)|]. simpl.
  eapply rtc_l; [by apply (race_store _ _ 0 h1 [])|]. simpl.
  eapply rtc_l; [by apply (race_store _ _ 1 h2 [])|]. simpl.
  unfold store_handlers. rewrite Ht, insert_insert_eq. done.
Qed.
End events.

Definition sample_handler (topic : string) (n : nat) : evHandler (V:=string) :=
  mkHandler topic (λ b, if decide (b = "") then Err "empty" else Ok b) n.

Definition sample_event : string := eventMsg_Marshal (mkEventMsg "jobs" (Blob "go")).

Lemma broadcast_delivers_witness :
  run [Registered (sample_handler "jobs" 1); Next (Err "lost"); Registered (sample_handler "news" 2);
       Registered (sample_handler "jobs" 3); Next (Ok sample_event)] ∅ = [(1, "go"); (3, "go")].
Proof.
  apply (broadcast_delivers "jobs" "go" sample_event
    [Registered (sample_handler "jobs" 1); Next (Err "lost"); Registered (sample_handler "news" 2);
     Registered (sample_handler "jobs" 3)] []); by vm_compute.
Defined.

Lemma race_only_registered_witness :
  Forall (λ h, h_topic h = "jobs" ∧ h ∈ [sample_handler "jobs" 1; sample_handler "jobs" 2])
    [sample_handler "jobs" 2].
Proof.
  apply (race_only_registered [sample_handler "jobs" 1; sample_handler "jobs" 2]
    {[ "jobs" := [sample_handler "jobs" 2] ]} [Done (sample_handler "jobs" 1); Done (sample_handler "jobs" 2)]
    "jobs"); [|reflexivity].
  eapply rtc_l; [by apply (race_load _ _ 0)|]. eapply rtc_l; [by apply (race_load _ _ 1)|].
  eapply rtc_l; [by apply (race_store _ _ 0)|]. eapply rtc_l; [by apply (race_store _ _ 1)|]. done.
Defined.

Lemma race_loses_handler_witness :
  rtc race (∅, [Starts (sample_handler "jobs" 1); Starts (sample_handler "jobs" 2)])
    ({[ "jobs" := [sample_handler "jobs" 2] ]},
     [Done (sample_handler "jobs" 1); Done (sample_handler "jobs" 2)]).
Proof. apply (race_loses_handler (sample_handler "jobs" 1) (sample_handler "jobs" 2)). reflexivity. Defined.
