(* ===== verification/SharedStorage.v ===== *)
(** * Shared storage: [modules/sharedStorage/sharedStorage.go]

    The provider hands out one replicated store, and keeps the callbacks of its
    users per namespace; the replication library ([antsdb]) calls [Put] and
    [Delete] for every key that changes.  A callback is the name of an object
    with a [Put] and a [Delete] method. *)

From S2P Require Import Prelude Utf8 Json JsonText Files Config.

Abbreviation Callback := nat (only parsing).

(** The calls a change makes. *)
Inductive cb_call := CbPut (cb : Callback) (key : string) | CbDelete (cb : Callback) (key : string).

(** ** Operations *)

Section storage.
Context {St : Type}.

Record impl := mkImpl { shStore : St; callbacks : gmap string (list Callback) }.

Definition defaultRootNs : string := "msuite".

(** The channel the store replicates on. *)
Definition root_ns (cfg : JsonConfig) : string :=
  let rootNs := (Get "SharedStoreNs" "" cfg).1 in
  if decide (rootNs = "") then defaultRootNs else rootNs.

Definition NewSharedStoreProvider (cfg : JsonConfig) (antsdb_New : string → res St) : res impl :=
  st ← antsdb_New (root_ns cfg); Ok (mkImpl st ∅).

(** The loop of [Put] and [Delete]; [range] is the order of iterating the map. *)
Definition notify (call : Callback → string → cb_call) (key : string)
    (range : list (string * list Callback) → list (string * list Callback)) (i : impl) : list cb_call :=
  range (map_to_list (callbacks i)) ≫= λ '(k, cbs),
    if String.prefix k key then (λ cb, call cb key) <$> cbs else [].

Definition Put := notify CbPut.
Definition Delete := notify CbDelete.

Definition SharedStorage (ns : string) (callback : option Callback) : ST impl St := λ i,
  match callback with
  | None => (Ok (shStore i), i)
  | Some callback =>
    let cbs := match callbacks i !! ns with
               | None => [callback]
               | Some cbs => cbs ++ [callback]
               end in
    (Ok (shStore i), mkImpl (shStore i) (<[ns := cbs]> (callbacks i)))
  end.

Definition request_all (rs : list (string * option Callback)) (i : impl) : impl :=
  foldl (λ i r, (SharedStorage r.1 r.2 i).2) i rs.

(** ** Lemmas *)

(** The callbacks a list of requests registers under the prefixes of a key. *)
Definition interested (key : string) (rs : list (string * option Callback)) : list Callback :=
  omap (λ r, if String.prefix r.1 key then r.2 else None) rs.

(** The callbacks of the map, in some order. *)
Definition watching (key : string) (i : impl) : list Callback :=
  map_to_list (callbacks i) ≫= λ '(k, cbs), if String.prefix k key then cbs else [].

Lemma watching_insert key ns cbs (i : impl) :
  callbacks i !! ns = None →
  watching key (mkImpl (shStore i) (<[ns := cbs]> (callbacks i))) ≡ₚ
  (if String.prefix ns key then cbs else []) ++ watching key i.
Proof.
  intros Hns. unfold watching. simpl. rewrite map_to_list_insert by done. by rewrite bind_cons.
Qed.

Lemma watching_delete key ns cbs (i : impl) :
  callbacks i !! ns = Some cbs →
  watching key i ≡ₚ (if String.prefix ns key then cbs else []) ++
                    watching key (mkImpl (shStore i) (base.delete ns (callbacks i))).
Proof.
  intros Hns. rewrite <- (watching_insert key ns cbs (mkImpl (shStore i) (base.delete ns (callbacks i)))).
  - simpl. by rewrite insert_delete_id.
  - apply lookup_delete_eq.
Qed.

Lemma watching_request key ns o (i : impl) :
  watching key (SharedStorage ns o i).2 ≡ₚ watching key i ++ interested key [(ns, o)].
Proof.
  destruct o as [cb|]; unfold SharedStorage; cbn [snd].
  2:{ assert (interested key [(ns, None)] = []) as ->
        by (unfold interested; simpl; by destruct (String.prefix ns key)).
      by rewrite app_nil_r. }
  assert (interested key [(ns, Some cb)] = if String.prefix ns key then [cb] else []) as ->.
  { unfold interested. simpl. by destruct (String.prefix ns key). }
  destruct (callbacks i !! ns) as [cbs|] eqn:Hns.
  - rewrite <- (insert_delete_eq (callbacks i)).
    pose proof (watching_insert key ns (cbs ++ [cb])
      (mkImpl (shStore i) (base.delete ns (callbacks i)))) as Hins.
    simpl in Hins. rewrite Hins by apply lookup_delete_eq.
    rewrite (watching_delete key ns cbs i) by done.
    case_match; simpl; [|by rewrite app_nil_r]. rewrite <- !(assoc_L (++)). f_equiv. apply (comm (++)).
  - rewrite watching_insert by done. case_match; [apply (comm (++))|by rewrite app_nil_r].
Qed.

Lemma watching_requests key rs : ∀ i : impl,
  watching key (request_all rs i) ≡ₚ watching key i ++ interested key rs.
Proof.
  induction rs as [|[ns o] rs IH]; intros i; simpl; [by rewrite app_nil_r|].
  unfold request_all in *. simpl. rewrite IH, watching_request, <- (assoc_L (++)). f_equiv.
  unfold interested. simpl. by repeat case_match.
Qed.

Lemma notify_watching call key range i :
  (∀ l, range l ≡ₚ l) → notify call key range i ≡ₚ (λ cb, call cb key) <$> watching key i.
Proof.
  intros Hr. unfold notify, watching. rewrite (Hr (map_to_list (callbacks i))).
  induction (map_to_list (callbacks i)) as [|[k cbs] l IH]; [done|].
  rewrite !bind_cons, fmap_app, IH. by case_match.
Qed.

(** ** Properties *)

(** A change of a key is reported exactly to the callbacks whose namespace
    is a prefix of the key, once per registration, whatever the order in which
    the provider iterates its map; registering changes no earlier
    registration and every user gets the same store. *)
Theorem callbacks_fire (st : St) rs key range :
  (∀ l, range l ≡ₚ l) →
  let i := request_all rs (mkImpl st ∅) in
  Put key range i ≡ₚ (λ cb, CbPut cb key) <$> interested key rs ∧
  Delete key range i ≡ₚ (λ cb, CbDelete cb key) <$> interested key rs ∧
  ∀ ns o, (SharedStorage ns o i).1 = Ok st.
Proof.
  intros Hr i.
  assert (watching key i ≡ₚ interested key rs) as Hw.
  { unfold i. rewrite watching_requests. unfold watching. simpl. by rewrite map_to_list_empty. }
  assert (shStore i = st) as Hst.
  { unfold i. clear. generalize (∅ : gmap string (list nat)). unfold request_all.
    induction rs as [|[ns [cb|]] rs IH]; intros m; simpl; [done|apply IH|apply IH]. }
  split_and!.
  - unfold Put. by rewrite notify_watching, Hw.
  - unfold Delete. by rewrite notify_watching, Hw.
  - intros ns [cb|]; simpl; by rewrite Hst.
Qed.

(** Namespaces are not separated: a callback registered for a namespace
    also hears of every key of a namespace whose name starts with it. *)
Theorem namespace_overlap (st : St) ns suffix id cb range :
  (∀ l, range l ≡ₚ l) →
  Put (ns +:+ suffix +:+ id) range (SharedStorage ns (Some cb) (mkImpl st ∅)).2 =
    [CbPut cb (ns +:+ suffix +:+ id)].
Proof.
  intros Hr. apply Permutation_singleton_r. unfold Put.
  rewrite notify_watching, watching_request by done.
  assert (String.prefix ns (ns +:+ suffix +:+ id) = true) as Hp.
  { clear. generalize (suffix +:+ id). intros t.
    induction ns as [|c ns IH]; [by destruct t|]. simpl. by destruct (Ascii.ascii_dec c c). }
  assert (interested (ns +:+ suffix +:+ id) [(ns, Some cb)] = [cb]) as ->.
  { unfold interested. simpl. by rewrite Hp. }
  unfold watching. simpl. by rewrite map_to_list_empty.
Qed.
End storage.

Lemma callbacks_fire_witness :
  Put "ab/1" reverse (request_all [("ab", Some 1); ("acl", None); ("a", Some 2); ("c", Some 3)]
    (mkImpl () ∅)) ≡ₚ [CbPut 1 "ab/1"; CbPut 2 "ab/1"].
Proof.
  apply (callbacks_fire () [("ab", Some 1); ("acl", None); ("a", Some 2); ("c", Some 3)] "ab/1" reverse).
  intros l. apply reverse_Permutation.
Defined.

Lemma namespace_overlap_witness :
  Put "ab/1" id (SharedStorage "a" (Some 2) (mkImpl () ∅)).2 = [CbPut 2 "ab/1"].
Proof. apply (namespace_overlap () "a" "b/" "1" 2 id). done. Defined.
