(* ===== verification/StorageLock.v ===== *)
(** * The lock of the shared storage: [modules/sharedStorage/sharedStorage.go]

    The callbacks are kept under a [sync.RWMutex].  [Put] and [Delete], which
    the replication library calls from its own goroutines, hold it for reading
    while they call the callbacks; [SharedStorage] holds it for writing while it
    adds one.  A writer that waits for the readers keeps new readers out.  What
    a callback does is up to the application: here it returns, or calls
    [SharedStorage] itself.  The operations on the map are those of
    [SharedStorage]. *)

From S2P Require Import Prelude Utf8 Json JsonText Files Config SharedStorage.

Section lock.
Context {St : Type}.

(** What a callback does when it is called: [Some (ns, cb)] if it calls
    [SharedStorage(ns, cb)]. *)
Context (registers : nat → option (string * nat)).

Definition callback_of (c : cb_call) : nat := match c with CbPut cb _ | CbDelete cb _ => cb end.

(** [Put(key)] or [Delete(key)]. *)
Inductive change := PutOf (key : string) | DeleteOf (key : string).

Definition calls_of (c : change) (range : list (string * list nat) → list (string * list nat))
    (i : impl (St:=St)) : list cb_call :=
  match c with PutOf key => Put key range i | DeleteOf key => Delete key range i end.

Definition wanted (c : change) (i : impl (St:=St)) : list cb_call :=
  match c with
  | PutOf key => (λ cb, CbPut cb key) <$> watching key i
  | DeleteOf key => (λ cb, CbDelete cb key) <$> watching key i
  end.

(** A goroutine: a notification before [RLock], in its loop with the calls still
    to make and those made, inside a callback that wants the lock for writing
    (and has announced it or not yet); a registration before [Lock], waiting for
    the readers, and holding it; one that returned. *)
Inductive gor :=
| NStart (c : change)
| NRun (c : change) (todo made : list cb_call)
| NInner (ns : string) (cb : nat) (announced : bool) (c : change) (todo made : list cb_call)
| RStart (ns : string) (cb : nat)
| RWait (ns : string) (cb : nat)
| RHold (ns : string) (cb : nat)
| GDone.

(** The provider, the readers that hold the lock, the writer that has announced
    itself, and the goroutines. *)
Record state := mkState {
  prov : impl (St:=St);
  readers : nat;
  writer : option nat;
  gors : list gor;
}.

Definition set_gor (i : nat) (g : gor) (s : state) : list gor := <[i := g]> (gors s).

(** What other parts of the program see of a step: a registration that took
    effect, or a notification that returned, with the calls it made. *)
Inductive event := ERegister (ns : string) (cb : nat) | ENotify (c : change) (made : list cb_call).

Inductive step (s : state) : option event → state → Prop :=
| n_lock i c range :
    gors s !! i = Some (NStart c) → writer s = None → (∀ l, range l ≡ₚ l) →
    step s None (mkState (prov s) (S (readers s)) None (set_gor i (NRun c (calls_of c range (prov s)) []) s))
| n_call i c x todo made :
    gors s !! i = Some (NRun c (x :: todo) made) → registers (callback_of x) = None →
    step s None (mkState (prov s) (readers s) (writer s) (set_gor i (NRun c todo (made ++ [x])) s))
| n_inner i c x todo made ns cb :
    gors s !! i = Some (NRun c (x :: todo) made) → registers (callback_of x) = Some (ns, cb) →
    step s None (mkState (prov s) (readers s) (writer s) (set_gor i (NInner ns cb false c todo (made ++ [x])) s))
| n_announce i c todo made ns cb :
    gors s !! i = Some (NInner ns cb false c todo made) → writer s = None →
    step s None (mkState (prov s) (readers s) (Some i) (set_gor i (NInner ns cb true c todo made) s))
| n_acquire i c todo made ns cb :
    gors s !! i = Some (NInner ns cb true c todo made) → writer s = Some i → readers s = 0%nat →
    step s (Some (ERegister ns cb))
      (mkState (SharedStorage ns (Some cb) (prov s)).2 0 None (set_gor i (NRun c todo made) s))
| n_unlock i c made :
    gors s !! i = Some (NRun c [] made) →
    step s (Some (ENotify c made)) (mkState (prov s) (pred (readers s)) (writer s) (set_gor i GDone s))
| r_announce i ns cb :
    gors s !! i = Some (RStart ns cb) → writer s = None →
    step s None (mkState (prov s) (readers s) (Some i) (set_gor i (RWait ns cb) s))
| r_acquire i ns cb :
    gors s !! i = Some (RWait ns cb) → readers s = 0%nat →
    step s None (mkState (prov s) 0 (writer s) (set_gor i (RHold ns cb) s))
| r_store i ns cb :
    gors s !! i = Some (RHold ns cb) →
    step s (Some (ERegister ns cb))
      (mkState (SharedStorage ns (Some cb) (prov s)).2 (readers s) None (set_gor i GDone s)).

Inductive run : nat → state → list event → state → Prop :=
| run_nil s : run 0 s [] s
| run_cons n s oe s1 es s2 : step s oe s1 → run n s1 es s2 → run (S n) s (option_list oe ++ es) s2.

(** ** The sequential specification *)

(** The registrations of a history, in the order in which they took effect. *)
Definition registered (es : list event) : list (string * option nat) :=
  omap (λ e, match e with ERegister ns cb => Some (ns, Some cb) | ENotify _ _ => None end) es.

(** Each notification calls the callbacks registered before it, once per
    registration. *)
Fixpoint legal (p : impl (St:=St)) (es : list event) : Prop :=
  match es with
  | [] => True
  | ERegister ns cb :: es => legal (SharedStorage ns (Some cb) p).2 es
  | ENotify c made :: es => made ≡ₚ wanted c p ∧ legal p es
  end.

(** ** The invariant *)

(** Who holds the lock for reading, has announced itself as a writer, or
    writes. *)
Definition reads (g : gor) : nat := match g with NRun _ _ _ | NInner _ _ _ _ _ _ => 1 | _ => 0 end.
Definition announces (g : gor) : bool :=
  match g with RWait _ _ | RHold _ _ | NInner _ _ true _ _ _ => true | _ => false end.
Definition writes (g : gor) : bool := match g with RHold _ _ => true | _ => false end.

Definition quiet (x : cb_call) : Prop := registers (callback_of x) = None.

(** The calls of a running notification, made and to make, are those of the
    callbacks the provider has now, and those it came back from do not
    register. *)
Definition up_to_date (p : impl (St:=St)) (g : gor) : Prop :=
  match g with
  | NRun c todo made => made ++ todo ≡ₚ wanted c p ∧ Forall quiet made
  | NInner _ _ _ c todo made => made ++ todo ≡ₚ wanted c p ∧ List.Exists (λ x, ¬ quiet x) made
  | _ => True
  end.

Record inv (s : state) : Prop := mkInv {
  inv_readers : readers s = sum_list (reads <$> gors s);
  inv_writer : ∀ i g, gors s !! i = Some g → announces g = true ↔ writer s = Some i;
  inv_range : ∀ i, writer s = Some i → is_Some (gors s !! i);
  inv_excl : ∀ i g, gors s !! i = Some g → writes g = true → readers s = 0%nat;
  inv_fresh : ∀ i g, gors s !! i = Some g → up_to_date (prov s) g;
}.

(** Goroutines that have not begun. *)
Definition unborn (g : gor) : bool := match g with NStart _ | RStart _ _ => true | _ => false end.

Lemma inv_start p gs : forallb unborn gs = true → inv (mkState p 0 None gs).
Proof.
  intros Hgs%forallb_Forall. rewrite Forall_lookup in Hgs. constructor; simpl.
  - symmetry. induction gs as [|g gs IH]; [done|]. rewrite fmap_cons. simpl sum_list.
    rewrite IH by (intros i; apply (Hgs (S i))). specialize (Hgs 0%nat g eq_refl). by destruct g.
  - intros i g Hg. specialize (Hgs i g Hg). by destruct g.
  - done.
  - done.
  - intros i g Hg. specialize (Hgs i g Hg). by destruct g.
Qed.

Lemma reader_counted s i g : inv s → gors s !! i = Some g → (reads g ≤ readers s)%nat.
Proof. intros Hinv Hg. rewrite (inv_readers s Hinv). by eapply (sum_list_elem reads). Qed.

Lemma calls_wanted c range p : (∀ l, range l ≡ₚ l) → calls_of c range p ≡ₚ wanted c p.
Proof. intros Hr. destruct c; simpl; unfold Put, Delete; by apply notify_watching. Qed.

(** One goroutine moves: the readers are counted, the lock is announced, kept
    or let go, nobody reads beside a writer, and the callbacks change only when
    nobody reads. *)
Lemma inv_set s i g g' p r w :
  inv s → gors s !! i = Some g →
  (r + reads g = readers s + reads g')%nat →
  (announces g' = announces g ∧ w = writer s) ∨ (writer s = None ∧ w = Some i ∧ announces g' = true) ∨
    (writer s = Some i ∧ w = None ∧ announces g' = false) →
  (writes g' = true → r = 0%nat) → (r ≤ readers s)%nat ∨ writer s = None →
  up_to_date p g' → p = prov s ∨ readers s = 0%nat →
  inv (mkState p r w (set_gor i g' s)).
Proof.
  intros Hinv Hg Hr Hw He Hle Hf Hp. unfold set_gor. constructor; simpl.
  - pose proof (sum_list_insert reads (gors s) i g g' Hg). pose proof (inv_readers s Hinv). lia.
  - pose proof (inv_writer s Hinv i g Hg) as Hgi.
    intros j h [(-> & <- & _)|[Hj Hh]]%list_lookup_insert_Some.
    + destruct Hw as [[-> ->]|[(_ & -> & ->)|(_ & -> & ->)]]; naive_solver.
    + pose proof (inv_writer s Hinv j h Hh) as Hjh.
      destruct Hw as [[_ ->]|[(Hn & -> & _)|(Hn & -> & _)]]; [done|rewrite Hn in Hjh; naive_solver..].
  - intros j Hj. rewrite lookup_lt_is_Some, length_insert, <- lookup_lt_is_Some. destruct Hw as [[_ Hw]|[(_ & Hw & _)|(_ & Hw & _)]]; simplify_eq.
    + by apply (inv_range s Hinv).
    + by exists g.
  - intros j h [(-> & <- & _)|[Hj Hh]]%list_lookup_insert_Some Hwr; [auto|].
    pose proof (inv_excl s Hinv j h Hh Hwr). destruct Hle as [?|Hn]; [lia|].
    assert (announces h = true) as Ha by (by destruct h). apply (inv_writer s Hinv j h Hh) in Ha. congruence.
  - intros j h [(-> & <- & _)|[Hj Hh]]%list_lookup_insert_Some; [done|].
    destruct Hp as [-> | H0]; [by apply (inv_fresh s Hinv j)|].
    pose proof (reader_counted s j h Hinv Hh) as Hc. rewrite H0 in Hc. destruct h; simpl in *; done || lia.
Qed.

Lemma lock_inv_step s oe s' : inv s → step s oe s' → inv s'.
Proof.
  intros Hinv Hs. destruct Hs as [i c range Hg Hw Hr|i c x todo made Hg Hq|i c x todo made ns cb Hg Hq|
    i c todo made ns cb Hg Hw|i c todo made ns cb Hg Hw H0|i c made Hg|i ns cb Hg Hw|i ns cb Hg H0|i ns cb Hg];
    pose proof (inv_fresh s Hinv _ _ Hg) as Hf; pose proof (reader_counted s _ _ Hinv Hg) as Hc; simpl in Hf, Hc;
    eapply (inv_set _ _ _ _ _ _ _ Hinv Hg); simpl; auto; try lia.
  all: try (left; split; [done|by rewrite Hw]).
  - split; [by apply calls_wanted|done].
  - destruct Hf as [Hf Hm]. rewrite <- app_assoc. split; [done|]. apply Forall_app. by split; [|repeat constructor].
  - destruct Hf as [Hf Hm]. rewrite <- app_assoc. split; [done|]. apply Exists_app. right. constructor. unfold quiet. by rewrite Hq.
  - right; right. split_and!; try done. by apply (inv_writer s Hinv i _ Hg).
  - right. by apply (inv_excl s Hinv i _ Hg).
Qed.

(** A goroutine that holds the lock for reading and wants it for writing: it
    never gets it, and neither does anybody else. *)
Definition inner (g : gor) : option (string * nat * change * list cb_call * list cb_call) :=
  match g with NInner ns cb _ c todo made => Some (ns, cb, c, todo, made) | _ => None end.

Lemma inner_stuck s i x oe s' :
  inv s → gors s !! i ≫= inner = Some x → step s oe s' →
  gors s' !! i ≫= inner = Some x ∧ prov s' = prov s ∧ match oe with Some (ERegister _ _) => False | _ => True end.
Proof.
  intros Hinv Hi Hs. destruct (gors s !! i) as [gi|] eqn:Hgi; [|done]. simpl in Hi.
  pose proof (reader_counted s _ _ Hinv Hgi) as Hc. assert (reads gi = 1%nat) as Hri by (by destruct gi).
  assert (∀ j g g', gors s !! j = Some g → inner g = None ∨ inner g' = inner g →
    set_gor j g' s !! i ≫= inner = Some x) as Hother.
  { intros j g g' Hj Hne. unfold set_gor. destruct (decide (j = i)) as [->|].
    - rewrite list_lookup_insert_eq by (by eapply lookup_lt_Some). simplify_eq. simpl. destruct Hne; congruence.
    - rewrite list_lookup_insert_ne by done. by rewrite Hgi. }
  destruct Hs as [j ? ? Hg|j ? ? ? ? Hg|j ? ? ? ? ? ? Hg|j ? ? ? ? ? Hg|j ? ? ? ? ? Hg|j ? ? Hg|j ? ? Hg|j ? ? Hg|j ? ? Hg];
    simpl; try lia; try (split_and!; [eapply Hother; eauto|done..]).
  pose proof (inv_excl s Hinv _ _ Hg eq_refl). lia.
Qed.

(** ** Histories *)

Lemma step_legal s oe s' : inv s → step s oe s' →
  legal (prov s) (option_list oe) ∧ prov s' = request_all (registered (option_list oe)) (prov s) ∧
  Forall (λ e, match e with ENotify _ made => Forall quiet made | _ => True end) (option_list oe).
Proof.
  intros Hinv Hs. destruct Hs; simpl; split_and!; try done; try by repeat constructor.
  - pose proof (inv_fresh s Hinv _ _ H) as [Hf _]. by rewrite app_nil_r in Hf.
  - pose proof (inv_fresh s Hinv _ _ H) as [_ Hf]. by repeat constructor.
Qed.

Lemma legal_app p es1 es2 :
  legal p (es1 ++ es2) ↔ legal p es1 ∧ legal (request_all (registered es1) p) es2.
Proof.
  revert p. induction es1 as [|[ns cb|c made] es1 IH]; intros p; simpl.
  - naive_solver.
  - by rewrite IH.
  - rewrite IH. naive_solver.
Qed.

Lemma run_legal n s es s' : inv s → run n s es s' →
  inv s' ∧ legal (prov s) es ∧ prov s' = request_all (registered es) (prov s) ∧
  Forall (λ e, match e with ENotify _ made => Forall quiet made | _ => True end) es.
Proof.
  intros Hinv Hr. induction Hr as [|n s oe s1 es s2 Hs _ IH]; [done|].
  destruct (step_legal _ _ _ Hinv Hs) as (Hl & Hp & Hq).
  destruct IH as (Hinv2 & Hl2 & Hp2 & Hq2); [by eapply lock_inv_step|]. split_and!; [done| | |by apply Forall_app].
  - apply legal_app. rewrite <- Hp. by split.
  - unfold registered. rewrite omap_app. unfold request_all. rewrite foldl_app. rewrite Hp2, Hp. done.
Qed.

Lemma run_stuck n s es s' i x : inv s → run n s es s' → gors s !! i ≫= inner = Some x →
  gors s' !! i ≫= inner = Some x ∧ prov s' = prov s ∧ registered es = [].
Proof.
  intros Hinv Hr. induction Hr as [|n s oe s1 es s2 Hs _ IH]; [done|]. intros Hx.
  destruct (inner_stuck _ _ _ _ _ Hinv Hx Hs) as (Hx1 & Hp1 & He).
  destruct IH as (? & Hp2 & He2); [by eapply lock_inv_step|done|]. split_and!; [done|by rewrite Hp2|].
  unfold registered in *. rewrite omap_app, He2. destruct oe as [[]|]; done.
Qed.

(** ** Progress *)

(** A registration still to come, and the steps a goroutine has left when at most
    [m] callbacks watch a key. *)
Definition pending (g : gor) : nat := match g with RStart _ _ | RWait _ _ | RHold _ _ => 1 | _ => 0 end.
Definition work (m : nat) (g : gor) : nat :=
  match g with
  | NStart _ => m + 2
  | NRun _ todo _ => S (length todo)
  | NInner _ _ _ _ _ _ | GDone => 0
  | RStart _ _ => 3
  | RWait _ _ => 2
  | RHold _ _ => 1
  end.
Definition finished (g : gor) : bool := match g with GDone => true | _ => false end.

Definition bounded (m : nat) (s : state) : Prop :=
  ∀ key, (length (watching key (prov s)) + sum_list (pending <$> gors s) ≤ m)%nat.

Lemma wanted_length c p : length (wanted c p) = length (watching (match c with PutOf k | DeleteOf k => k end) p).
Proof. destruct c; simpl; by rewrite length_fmap. Qed.

Lemma watching_grows key ns cb (p : impl (St:=St)) :
  (length (watching key (SharedStorage ns (Some cb) p).2) ≤ S (length (watching key p)))%nat.
Proof.
  rewrite watching_request, length_app. unfold interested. simpl. destruct (String.prefix ns key); simpl; lia.
Qed.

Section quiet.
Context (Hquiet : ∀ cb, registers cb = None).

Lemma nobody_inner s i g : inv s → gors s !! i = Some g → inner g = None.
Proof.
  intros Hinv Hg. pose proof (inv_fresh s Hinv i g Hg) as Hf. destruct g; try reflexivity.
  destruct Hf as [_ (x & _ & Hx)%Exists_exists]. destruct Hx. apply Hquiet.
Qed.

Lemma lock_step_work m s oe s' : inv s → step s oe s' → bounded m s →
  bounded m s' ∧ (sum_list (work m <$> gors s') < sum_list (work m <$> gors s))%nat.
Proof.
  intros Hinv Hs Hb. pose proof (λ i g, nobody_inner s i g Hinv) as Hn.
  assert (∀ i g g' (p : impl (St:=St)), gors s !! i = Some g → (work m g' < work m g)%nat →
    (∀ key, (length (watching key p) + pending g' ≤ length (watching key (prov s)) + pending g)%nat) →
    (∀ key, (length (watching key p) + sum_list (pending <$> set_gor i g' s) ≤ m)%nat) ∧
    (sum_list (work m <$> set_gor i g' s) < sum_list (work m <$> gors s))%nat) as Hset.
  { intros i g g' p Hg Hw Hp. unfold set_gor. split.
    - intros key. pose proof (sum_list_insert pending _ i g g' Hg). specialize (Hb key). specialize (Hp key). lia.
    - pose proof (sum_list_insert (work m) _ i g g' Hg). lia. }
  destruct Hs as [i c range Hg Hw Hr|i c x todo made Hg Hq|i c x todo made ns cb Hg Hq|
    i c todo made ns cb Hg Hw|i c todo made ns cb Hg Hw H0|i c made Hg|i ns cb Hg Hw|i ns cb Hg H0|i ns cb Hg];
    try (by rewrite Hquiet in Hq); try (by apply Hn in Hg);
    unfold bounded; simpl; apply (Hset _ _ _ _ Hg); simpl; try done; try lia.
  - rewrite calls_wanted, wanted_length by done. pose proof (Hb (match c with PutOf k | DeleteOf k => k end)). lia.
  - intros key. pose proof (watching_grows key ns cb (prov s)) as Hk. simpl in Hk. lia.
Qed.

Lemma lock_run_work m n s es s' : inv s → run n s es s' → bounded m s →
  (n + sum_list (work m <$> gors s') ≤ sum_list (work m <$> gors s))%nat.
Proof.
  intros Hinv Hr. induction Hr as [|n s oe s1 es s2 Hs _ IH]; intros Hb; [done|].
  destruct (lock_step_work m _ _ _ Hinv Hs Hb) as (Hb1 & Hlt). specialize (IH (lock_inv_step _ _ _ Hinv Hs) Hb1). lia.
Qed.

(** Somebody can move as long as not everybody is done: a reader; else the
    writer, which no reader keeps out; else anybody, as the lock is free. *)
Lemma somebody_moves s i g : inv s →
  gors s !! i = Some g → finished g = false → ∃ oe s', step s oe s'.
Proof.
  intros Hinv Hg Hf. pose proof (λ i g, nobody_inner s i g Hinv) as Hn.
  assert (∀ j c todo made, gors s !! j = Some (NRun c todo made) → ∃ oe s', step s oe s') as Hrun.
  { intros j c [|x todo] made Hj; eexists _, _; [by eapply n_unlock|by eapply n_call; [|apply Hquiet]]. }
  destruct (decide (readers s = 0%nat)) as [H0|H0].
  - destruct (writer s) as [j|] eqn:Hw.
    + destruct (inv_range s Hinv j Hw) as [h Hh]. pose proof (proj2 (inv_writer s Hinv j h Hh) Hw) as Ha.
      destruct h; try done; [by apply Hn in Hh| |]; eexists _, _; [by eapply r_acquire|by eapply r_store].
    + destruct g; try done; [|by eapply Hrun|by apply Hn in Hg| | |];
        try (by pose proof (proj1 (inv_writer s Hinv i _ Hg) eq_refl); simplify_eq).
      * eexists _, _. by eapply (n_lock s i c id).
      * eexists _, _. by eapply r_announce.
  - rewrite (inv_readers s Hinv) in H0.
    assert (∃ j h, gors s !! j = Some h ∧ reads h ≠ 0%nat) as (j & h & Hj & Hh).
    { clear -H0. induction (gors s) as [|h gs IH]; [done|]. rewrite fmap_cons in H0. simpl in H0.
      destruct (decide (reads h = 0%nat)) as [E|E]; [|by exists 0%nat, h].
      destruct IH as (j & k & ? & ?); [lia|]. by exists (S j), k. }
    destruct h; try done; [by eapply Hrun|by apply Hn in Hj].
Qed.
End quiet.

(** ** A callback that registers *)

Lemma not_quiet x : ¬ quiet x → ∃ ns cb, registers (callback_of x) = Some (ns, cb).
Proof. unfold quiet. destruct (registers (callback_of x)) as [[ns cb]|]; [eauto|done]. Qed.

Lemma into_inner p c todo : ∀ made, List.Exists (λ x, ¬ quiet x) todo →
  ∃ n ns cb todo' made', run n (mkState p 1 None [NRun c todo made]) []
    (mkState p 1 (Some 0%nat) [NInner ns cb true c todo' made']).
Proof.
  induction todo as [|x todo IH]; intros made Hx; [by apply Exists_nil in Hx|].
  destruct (decide (registers (callback_of x) = None)) as [Hq|Hq].
  - apply Exists_cons in Hx as [?|Hx]; [done|]. destruct (IH (made ++ [x]) Hx) as (n & ns & cb & t' & m' & Hr).
    exists (S n), ns, cb, t', m'. eapply (run_cons n _ None _ []); [|exact Hr].
    by apply (n_call (mkState p 1 None [NRun c (x :: todo) made]) 0).
  - apply not_quiet in Hq as (ns & cb & Hq). exists 2, ns, cb, todo, (made ++ [x]).
    eapply (run_cons 1 _ None _ []); [by eapply (n_inner (mkState p 1 None [NRun c (x :: todo) made]) 0)|].
    eapply (run_cons 0 _ None _ []); [|constructor].
    by apply (n_announce (mkState p 1 None [NInner ns cb false c todo (made ++ [x])]) 0).
Qed.

Lemma inner_alone p ns cb c todo made oe s' :
  ¬ step (mkState p 1 (Some 0%nat) [NInner ns cb true c todo made]) oe s'.
Proof. inversion 1 as [i|i|i|i|i|i|i|i|i]; destruct i; simplify_eq/=. Qed.

(** ** Properties *)

(** C38: registrations and notifications from any number of goroutines.  The
    callbacks a notification calls are exactly those whose registration took
    effect before it returned, each once, as if the calls had been made one
    after the other; no notification is under way while a registration writes;
    and unless a callback itself registers, every run ends, with every
    goroutine done: a run of [m] registrations and watchers at most has [m + 3]
    steps per goroutine at most, and one that is not over can go on. *)
Theorem storage_linearizable p gs n es s' :
  forallb unborn gs = true → run n (mkState p 0 None gs) es s' →
  legal p es ∧ prov s' = request_all (registered es) p ∧
  (∀ i j g h, gors s' !! i = Some g → gors s' !! j = Some h → writes g = true → reads h = 0%nat) ∧
  ((∀ cb, registers cb = None) →
     (∀ m, bounded m (mkState p 0 None gs) → (n ≤ (m + 3) * length gs)%nat) ∧
     ∀ i g, gors s' !! i = Some g → finished g = false → ∃ oe s'', step s' oe s'').
Proof.
  intros Hgs Hr. pose proof (inv_start p gs Hgs) as Hinv0.
  destruct (run_legal _ _ _ _ Hinv0 Hr) as (Hinv & Hl & Hp & _).
  assert (∀ i g, gs !! i = Some g → unborn g = true) as Hu by (by apply Forall_lookup, forallb_Forall).
  split_and!; [done|done| |].
  - intros i j g h Hg Hh Hw. pose proof (inv_excl s' Hinv i g Hg Hw). pose proof (reader_counted s' j h Hinv Hh). lia.
  - intros Hq. split.
    + intros m Hb. pose proof (lock_run_work Hq m _ _ _ _ Hinv0 Hr Hb) as Hw.
      assert (sum_list (work m <$> gs) ≤ (m + 3) * length gs)%nat; [|simpl in Hw; lia].
      clear -Hu. induction gs as [|g gs IH]; [simpl; lia|]. rewrite fmap_cons. simpl sum_list. simpl length.
      specialize (IH (λ i, Hu (S i))). specialize (Hu 0%nat g eq_refl). destruct g; simpl in *; done || lia.
    + intros i g. by apply somebody_moves.
Qed.

(** C39: a callback that itself asks for a shared storage with a callback, which
    a node that reacts to a change may well do, stops the storage for good: the
    notification that calls it holds the lock for reading while it waits for it
    for writing.  Such a notification can be reached whenever one of the
    watchers of the changed key registers; it never returns, whoever else runs
    (those that return have called no such callback); and from then on no
    registration takes effect. *)
Theorem storage_deadlock p c gs :
  forallb unborn gs = true → List.Exists (λ x, ¬ quiet x) (wanted c p) →
  (∃ n s', run n (mkState p 0 None [NStart c]) [] s' ∧ ∀ oe s'', ¬ step s' oe s'') ∧
  (∀ n es s' c' made, run n (mkState p 0 None gs) es s' → ENotify c' made ∈ es → ∀ x, x ∈ made → quiet x) ∧
  (∀ n1 es1 s1 n2 es2 s2 i x, run n1 (mkState p 0 None gs) es1 s1 → gors s1 !! i ≫= inner = Some x →
     run n2 s1 es2 s2 → gors s2 !! i ≫= inner = Some x ∧ prov s2 = prov s1 ∧ registered es2 = []).
Proof.
  intros Hgs Hx. pose proof (inv_start p gs Hgs) as Hinv. split_and!.
  - destruct (into_inner p c (calls_of c id p) []) as (n & ns & cb & t' & m' & Hr).
    { assert (calls_of c id p ≡ₚ wanted c p) as -> by (by apply calls_wanted). done. }
    eexists (S n), _. split; [|apply inner_alone]. eapply (run_cons n _ None _ []); [|exact Hr].
    by apply (n_lock (mkState p 0 None [NStart c]) 0 c id).
  - intros n es s' c' made Hr Hin. destruct (run_legal _ _ _ _ Hinv Hr) as (_ & _ & _ & Hq).
    rewrite Forall_forall in Hq. specialize (Hq _ Hin). by rewrite Forall_forall in Hq.
  - intros n1 es1 s1 n2 es2 s2 i x Hr1 Hx1 Hr2. eapply run_stuck; [|exact Hr2|exact Hx1].
    by eapply (run_legal _ _ _ _ Hinv Hr1).
Qed.
End lock.

(** ** Witnesses *)

Definition no_register (cb : nat) : option (string * nat) := None.

(** A registration, and then a change of a key it watches. *)
Lemma sample_lock_run : run no_register 6
  (mkState (mkImpl () ∅) 0 None [RStart "a" 1; NStart (PutOf "ab")])
  [ERegister "a" 1; ENotify (PutOf "ab") [CbPut 1 "ab"]]
  (mkState (mkImpl () {["a" := [1%nat]]}) 0 None [GDone; GDone]).
Proof.
  eapply (run_cons _ 5 _ None _ [_; _]); [by eapply (r_announce _ (mkState _ _ _ _) 0)|].
  eapply (run_cons _ 4 _ None _ [_; _]); [by eapply (r_acquire _ (mkState _ _ _ _) 0)|].
  eapply (run_cons _ 3 _ (Some _) _ [_]); [by eapply (r_store _ (mkState _ _ _ _) 0)|].
  eapply (run_cons _ 2 _ None _ [_]); [by eapply (n_lock _ (mkState _ _ _ _) 1 _ id)|].
  eapply (run_cons _ 1 _ None _ [_]); [by eapply (n_call _ (mkState _ _ _ _) 1)|].
  eapply (run_cons _ 0 _ (Some _) _ []); [by eapply (n_unlock _ (mkState _ _ _ _) 1)|constructor].
Qed.

Lemma storage_linearizable_witness :
  [CbPut 1 "ab"] ≡ₚ wanted (PutOf "ab") (SharedStorage "a" (Some 1%nat) (mkImpl () ∅)).2.
Proof.
  destruct (storage_linearizable no_register _ [RStart "a" 1; NStart (PutOf "ab")] _ _ _ eq_refl sample_lock_run) as ([H _] & _).
  exact H.
Defined.

(** The callback [1] asks for the storage of [b] when it hears of a change. *)
Lemma storage_deadlock_witness : ∃ n s',
  run (λ cb, if decide (cb = 1%nat) then Some ("b", 2%nat) else None) n
    (mkState (mkImpl () {["a" := [1%nat]]}) 0 None [NStart (PutOf "ab")]) [] s' ∧
  ∀ oe s'', ¬ step (λ cb, if decide (cb = 1%nat) then Some ("b", 2%nat) else None) s' oe s''.
Proof.
  apply (storage_deadlock _ (mkImpl () {["a" := [1%nat]]}) (PutOf "ab") []); [done|].
  change (wanted (PutOf "ab") (mkImpl () {["a" := [1%nat]]})) with [CbPut 1 "ab"]. by constructor.
Defined.
