(* ===== verification/Status.v ===== *)
(** * Status reports: [modules/diag/status/status.go] and the reporters of the
      node, the servers and the P2P host

    The manager maps names to reporters; the HTTP endpoint prints their answers
    as indented JSON. *)

From S2P Require Import Prelude Utf8 Json JsonText Files Config.

(** ** The manager *)

(** A [Reporter], by what its [Status] method returns in the current state. *)
Abbreviation manager := (gmap string goval).

Definition New : manager := ∅.

Definition AddReporter (key : string) (reporter : goval) (m : manager) : manager :=
  <[key := reporter]> m.

(** [Range] visits every entry once, in some order. *)
Definition Status (range : list (string * goval) → list (string * goval)) (m : manager) :
    gmap string goval :=
  foldl (λ ret kv, <[kv.1 := kv.2]> ret) ∅ (range (map_to_list m)).

(** What the handler of [/status] writes: the status code and the body. *)
Definition RegisterHTTP (range : list (string * goval) → list (string * goval)) (m : manager) :
    Z * string :=
  match json_marshal_indent (GMap (map_to_list (Status range m))) with
  | Ok buf => (200%Z, buf)
  | Err e => (500%Z, "Failed to get status Err:" +:+ e)
  | Panic p => (500%Z, p)
  end.

(** ** Reporters *)

(** [grpcReporter]: [stopped] is whether the channel is closed. *)
Definition grpcReporter (stopped : bool) : goval :=
  GString (if stopped then "stopped" else "running").

Definition httpReporter (port : Z) (stopped : bool) : goval :=
  GString (if stopped then "stopped" else "running on port " +:+ itoa port).

Definition svcsReporter (c : JsonConfig) : goval :=
  match Get "Services" ([] : list string) c with
  | (svcs, true) => GStrings (Some svcs)
  | (_, false) => GString "no services configured"
  end.

(** [tmReporter] hands on what the task manager says. *)
Definition tmReporter {TM : Type} (tm_Status : TM → goval) (tm : TM) : goval := tm_Status tm.

(** The reporters [node.New] adds itself. *)
Definition node_reporters {TM : Type} (tm_Status : TM → goval) (repo : goval) (tm : TM) (c : JsonConfig)
    (st : manager) : manager :=
  AddReporter "Services" (svcsReporter c)
    (AddReporter "TaskManager" (tmReporter tm_Status tm) (AddReporter "Repository" repo st)).

(** ** Lemmas *)

Lemma Status_id range m : (∀ l, range l ≡ₚ l) → Status range m = m.
Proof.
  intros Hr. unfold Status. rewrite <- (list_to_map_to_list (M:=gmap string) m) at 2.
  pose proof (NoDup_fst_map_to_list m) as Hnd.
  rewrite <- (list_to_map_proper (range (map_to_list m)) (map_to_list m));
    [|by rewrite (Hr (map_to_list m))|done].
  assert (NoDup (range (map_to_list m)).*1) as Hnd' by by rewrite (Hr (map_to_list m)).
  revert Hnd'. generalize (range (map_to_list m)) as l. clear. intros l.
  rewrite <- (right_id_L ∅ (∪) (list_to_map l)). generalize (∅ : gmap string goval) as acc.
  induction l as [|[k v] l IH]; intros acc; simpl; [by rewrite (left_id_L ∅ (∪))|].
  intros [Hni Hnd]%NoDup_cons. rewrite IH by done.
  rewrite <- insert_union_l, insert_union_r; [done|]. by apply not_elem_of_list_to_map_1.
Qed.

(** ** Properties *)

(** The status endpoint shows the last reporter added under each name, and
    nothing else: after any sequence of [AddReporter] calls, whatever the order
    of iteration, the document it serves decodes to the map of the last
    reports. *)
Theorem status_shows_last range (rs : list (string * goval)) m :
  (∀ l, range l ≡ₚ l) → m = foldl (λ m r, AddReporter r.1 r.2 m) New rs → wf_config m →
  (∀ k, Status range m !! k = snd <$> last (filter (λ r, r.1 = k) rs)) ∧
  ∃ body, RegisterHTTP range m = (200%Z, body) ∧
    json_unmarshal body DefaultConfig = (Some (reloaded m), None).
Proof.
  intros Hr -> Hwf. rewrite Status_id by done. split.
  - intros k. clear Hwf. induction rs as [|[k' v] l IH] using rev_ind; [done|].
    rewrite foldl_app, filter_app. simpl. unfold AddReporter at 1. simpl.
    rewrite filter_cons, filter_nil. case_decide; simpl in *; subst.
    + by rewrite lookup_insert_eq, last_snoc.
    + rewrite lookup_insert_ne by done. rewrite app_nil_r. apply IH.
  - unfold RegisterHTTP. rewrite Status_id by done.
    destruct (wf_config_marshal _ Hwf) as (l & Hm & _). unfold json_marshal_indent. rewrite Hm.
    eexists. split; [done|]. by apply reloaded_text; [apply indented_ws| |].
Qed.

Definition sample_reports : list (string * goval) :=
  [("GRPC Server", grpcReporter false); ("HTTP Server", httpReporter 8080 false);
   ("Services", svcsReporter (Some sample_config)); ("GRPC Server", grpcReporter true)].

Lemma status_shows_last_witness :
  Status reverse (foldl (λ m r, AddReporter r.1 r.2 m) New sample_reports) !! "GRPC Server"
  = Some (GString "stopped").
Proof.
  destruct (status_shows_last reverse sample_reports
    (foldl (λ m r, AddReporter r.1 r.2 m) New sample_reports)) as [H _].
  - intros l. apply reverse_Permutation.
  - reflexivity.
  - refine (bool_decide_unpack _ _). by vm_compute.
  - rewrite H. by vm_compute.
Defined.
