(* ===== verification/ServerHook.v ===== *)
(** * Starting the servers: the hooks of [modules/node/grpc/grpc.go] and
      [modules/node/http/http.go]

    Both servers are started by the same code: the start hook spawns a
    goroutine that closes the channel [started], serves until the server ends
    and closes the channel [stopped]; the hook itself waits for [started] or for
    the end of the start context, and registers a reporter that looks at
    [stopped].  The goroutine, the hook, the server library and the context
    interleave freely: this is the relation [step]. *)

From S2P Require Import Prelude Utf8 Json JsonText Files Config Status.

(** ** The two servers *)

(** What differs: the name of the reporter, and what it says when [stopped] is
    open or closed. *)
Record server := mkServer { srv_key : string; srv_report : bool → goval }.

Definition grpc_server : server := mkServer "GRPC Server" grpcReporter.
Definition http_server (port : Z) : server := mkServer "HTTP Server" (httpReporter port).

(** ** State *)

(** Where the hook is, and what it returned ([None] is nil). *)
Inductive hook_pc := AtSelect | AtAddReporter | Returned (err : option error).

(** Where the goroutine is. *)
Inductive go_pc := AtCloseStarted | InServe | AtCloseStopped | Exited.

#[export] Instance hook_pc_eq_dec : EqDecision hook_pc.
Proof. solve_decision. Defined.
#[export] Instance go_pc_eq_dec : EqDecision go_pc.
Proof. solve_decision. Defined.

Record state := mkState {
  hook_at : hook_pc;
  go_at : go_pc;
  started : bool;                        (* the channels are closed *)
  stopped : bool;
  ctx_err : option error;                (* the start context has ended *)
  reporters : gmap string (bool → goval);  (* as functions of [stopped] *)
}.

(** What the status manager shows. *)
Definition report (s : state) : manager := (λ r, r (stopped s)) <$> reporters s.

(** The hook is called: the goroutine has been spawned. *)
Definition called (rs : gmap string (bool → goval)) : state :=
  mkState AtSelect AtCloseStarted false false None rs.

(** ** Steps *)

(** [Hook] steps are the hook's own and the goroutine's up to the call of
    [Serve]; the others are up to the server and to the caller of the hook. *)
Inductive label := Hook | Other.

Inductive step (srv : server) : label → state → state → Prop :=
| close_started s :
    go_at s = AtCloseStarted →
    step srv Hook s (mkState (hook_at s) InServe true (stopped s) (ctx_err s) (reporters s))
| Serve_returns s :
    go_at s = InServe →
    step srv Other s (mkState (hook_at s) AtCloseStopped (started s) (stopped s) (ctx_err s) (reporters s))
| close_stopped s :
    go_at s = AtCloseStopped →
    step srv Other s (mkState (hook_at s) Exited (started s) true (ctx_err s) (reporters s))
| ctx_ends s e :
    ctx_err s = None →
    step srv Other s (mkState (hook_at s) (go_at s) (started s) (stopped s) (Some e) (reporters s))
| select_ctx s e :
    hook_at s = AtSelect → ctx_err s = Some e →
    step srv Hook s (mkState (Returned (Some e)) (go_at s) (started s) (stopped s) (ctx_err s) (reporters s))
| select_started s :
    hook_at s = AtSelect → started s = true →
    step srv Hook s (mkState AtAddReporter (go_at s) (started s) (stopped s) (ctx_err s) (reporters s))
| add_reporter s :
    hook_at s = AtAddReporter →
    step srv Hook s (mkState (Returned None) (go_at s) (started s) (stopped s) (ctx_err s)
                       (<[srv_key srv := srv_report srv]> (reporters s))).

Definition grpc_OnStart := step grpc_server.
Definition http_OnStart (port : Z) := step (http_server port).

(** [run srv n s s']: from [s] to [s'] with [n] steps of the hook. *)
Inductive run (srv : server) : nat → state → state → Prop :=
| run_nil s : run srv 0 s s
| run_hook n s s' s'' : run srv n s s' → step srv Hook s' s'' → run srv (S n) s s''
| run_other n s s' s'' : run srv n s s' → step srv Other s' s'' → run srv n s s''.

(** ** Lemmas *)

(** The channels are closed exactly when the goroutine has passed that point,
    and the reporters change exactly when the hook returns nil. *)
Record inv (srv : server) (rs : gmap string (bool → goval)) (s : state) : Prop := mkInv {
  inv_started : started s = bool_decide (go_at s ≠ AtCloseStarted);
  inv_stopped : stopped s = bool_decide (go_at s = Exited);
  inv_add : hook_at s = AtAddReporter → started s = true;
  inv_err e : hook_at s = Returned (Some e) → ctx_err s = Some e;
  inv_reporters : reporters s =
    if decide (hook_at s = Returned None) then <[srv_key srv := srv_report srv]> rs else rs;
}.

Lemma inv_called srv rs : inv srv rs (called rs).
Proof. by split. Qed.

Lemma server_inv_step srv rs l s s' : step srv l s s' → inv srv rs s → inv srv rs s'.
Proof.
  intros Hstep [I1 I2 I3 I4 I5]. destruct Hstep as [s H|s H|s H|s e H|s e H1 H2|s H1 H2|s H]; split; simpl in *;
    try done; try (by rewrite I1, H); try (by rewrite I2, H).
  - intros e' He'. rewrite (I4 e' He') in H. done.
  - by intros e' [= <-].
  - rewrite I5. by rewrite !decide_False by congruence.
  - rewrite I5. by rewrite !decide_False by congruence.
  - by rewrite I5, H.
Qed.

Lemma run_inv srv rs n s : run srv n (called rs) s → inv srv rs s.
Proof.
  intros Hrun. remember (called rs) as s0 eqn:E. induction Hrun as [s|n s s1 s2 H IH Hs|n s s1 s2 H IH Hs].
  - subst. apply inv_called.
  - eapply server_inv_step; eauto.
  - eapply server_inv_step; eauto.
Qed.

(** What the hook has left to do. *)
Definition hook_work (s : state) : nat :=
  match hook_at s with AtSelect => 2 | AtAddReporter => 1 | Returned _ => 0 end +
  match go_at s with AtCloseStarted => 1 | _ => 0 end.

Lemma step_work srv l s s' : step srv l s s' →
  match l with Hook => (hook_work s' < hook_work s)%nat | Other => hook_work s' = hook_work s end.
Proof.
  destruct 1 as [s H|s H|s H|s e H|s e H1 H2|s H1 H2|s H]; unfold hook_work; simpl;
    rewrite ?H, ?H1; try done; lia.
Qed.

Lemma run_work srv n s s' : run srv n s s' → (n + hook_work s' ≤ hook_work s)%nat.
Proof.
  induction 1 as [s|n s s1 s2 _ IH Hs%step_work|n s s1 s2 _ IH Hs%step_work]; lia.
Qed.

(** The hook is never stuck: [started] will be closed. *)
Lemma hook_progress srv rs s : inv srv rs s →
  (∃ r, hook_at s = Returned r) ∨ ∃ s', step srv Hook s s'.
Proof.
  intros [I1 _ _ _ _]. destruct (hook_at s) eqn:Hh; [|by eauto using add_reporter|by eauto].
  right. destruct (decide (go_at s = AtCloseStarted)) as [E|E]; [by eauto using close_started|].
  eexists. apply select_started; [done|]. by rewrite I1, bool_decide_true.
Qed.

(** ** Properties *)

(** C24: starting a server ends.  However the goroutine, the server and the
    context interleave, the start hook returns after at most three steps of its
    own: as long as it has not returned one of them is possible, and no more
    than three ever happen.  It returns an error only if the start context has
    ended, and then that error. *)
Theorem server_start_live srv rs n s :
  run srv n (called rs) s →
  (n ≤ 3)%nat ∧
  ((∃ r, hook_at s = Returned r) ∨ ∃ s', step srv Hook s s') ∧
  (∀ e, hook_at s = Returned (Some e) → ctx_err s = Some e).
Proof.
  intros Hrun. pose proof (run_inv _ _ _ _ Hrun) as Hinv. split_and!.
  - apply run_work in Hrun. unfold hook_work in Hrun. simpl in Hrun. lia.
  - by eapply hook_progress.
  - apply Hinv.
Qed.

(** The status page tells the truth about a server.  In every state of the
    start and of the time after it, the reporters are the ones there were, plus
    the server's own exactly if the hook has returned nil; it says stopped
    exactly if the goroutine has ended, and any other reporter answers as
    before. *)
Theorem server_status_true srv rs n s k :
  run srv n (called rs) s →
  report s !! k =
    if decide (hook_at s = Returned None ∧ k = srv_key srv)
    then Some (srv_report srv (bool_decide (go_at s = Exited)))
    else (λ r, r (bool_decide (go_at s = Exited))) <$> rs !! k.
Proof.
  intros [_ I2 _ _ I5]%run_inv. unfold report. rewrite lookup_fmap, I5, I2.
  case_decide as Hr; [|by rewrite decide_False by tauto].
  destruct (decide (k = srv_key srv)) as [->|Hne].
  - by rewrite decide_True, lookup_insert_eq.
  - by rewrite decide_False, lookup_insert_ne by naive_solver.
Qed.

(** A server that cannot serve is started successfully: the hook can return
    nil, with a live context, although [Serve] has already failed, for instance
    because the port is taken; only the status page shows it. *)
Theorem server_start_hides_failure srv rs :
  ∃ n s, run srv n (called rs) s ∧ hook_at s = Returned None ∧ ctx_err s = None ∧
    go_at s = Exited ∧ report s !! srv_key srv = Some (srv_report srv true).
Proof.
  exists 3%nat. eexists. split_and!.
  - eapply run_hook; [eapply run_other; [eapply run_other; [eapply run_hook;
      [eapply run_hook; [apply run_nil|by apply close_started]|by apply select_started]|]|]|].
    + by apply Serve_returns.
    + by apply close_stopped.
    + by apply add_reporter.
  - done.
  - done.
  - done.
  - unfold report. simpl. by rewrite lookup_fmap, lookup_insert_eq.
Qed.

(** ** Witnesses *)

(** The gRPC server starts and serves. *)
Definition sample_serving : state :=
  mkState (Returned None) InServe true false None {[ "GRPC Server" := grpcReporter ]}.

Lemma sample_run : run grpc_server 3 (called ∅) sample_serving.
Proof.
  eapply run_hook; [eapply run_hook; [eapply run_hook; [apply run_nil|]|]|].
  - by apply close_started.
  - by apply select_started.
  - by apply (add_reporter grpc_server).
Qed.

Lemma server_start_live_witness :
  ∃ r, hook_at sample_serving = Returned r ∧ ∀ e, r = Some e → ctx_err sample_serving = Some e.
Proof.
  destruct (server_start_live grpc_server ∅ 3 sample_serving sample_run) as (_ & _ & He).
  exists None. split; [reflexivity|]. intros e Hr. apply He. exact (f_equal Returned Hr).
Defined.

Lemma server_status_true_witness :
  report sample_serving !! "GRPC Server" = Some (GString "running").
Proof.
  rewrite (server_status_true grpc_server ∅ 3 sample_serving "GRPC Server" sample_run). reflexivity.
Defined.
