(* ===== verification/Mux.v ===== *)
(** * The listener multiplexer: [modules/grpc/mux/mux.go]

    [Mux] merges several listeners into one for the gRPC server.  [Start] gives
    each listener a goroutine that accepts connections and sends them to one
    channel, from which [Accept] receives.  The calls are functions; what runs
    concurrently (connections that arrive, the goroutines, and [Accept] in the
    server) is the step relation [step], over a state with the connections that
    wait at each listener and a record of what happened to each connection. *)

From S2P Require Import Prelude.

(** ** State *)

Abbreviation conn := nat (only parsing).

(** A [net.Listener]: its identity, its address, and what closing it returns. *)
Record listener := mkListener { l_id : nat; l_addr : string; l_close : option error }.

Record MuxListener := mkMuxListener { ml_Start : error + listener; ml_Tag : string }.

(** A goroutine of [Execute]: its tag, its listener, and the connection it is
    about to send, if any. *)
Record worker := mkWorker { w_tag : string; w_listener : nat; w_conn : option conn }.

Record Mux := mkMux {
  muxDone : bool;                     (* muxCtx is cancelled *)
  listeners : list MuxListener;
  connChan : list conn;
  wg : Z;
  status : gmap string string;
  addrs : list string;
  closers : list listener;
  workers : list worker;              (* the goroutines that run *)
}.

Definition chanCap : nat := 50.

(** ** Operations *)

Definition updateStatus (key value : string) (m : Mux) : Mux :=
  mkMux (muxDone m) (listeners m) (connChan m) (wg m) (<[key := value]> (status m))
    (addrs m) (closers m) (workers m).

Definition New (ls : list MuxListener) : Mux :=
  foldl (λ m v, updateStatus (ml_Tag v) "not running" m) (mkMux false ls [] 0 ∅ [] [] []) ls.

Definition Status (m : Mux) : gmap string string := status m.

(** What the task manager and the context answer for one listener: the task is
    refused, scheduled, or accepted but the start context is done first. *)
Inductive sched := Refused (e : error) | Scheduled | CtxDone (e : error).

(** [m.closers = append(..)], [m.addrs = append(..)], [m.wg.Add(1)]. *)
Definition add_listener (l : listener) (m : Mux) : Mux :=
  mkMux (muxDone m) (listeners m) (connChan m) (wg m + 1) (status m)
    (addrs m ++ [l_addr l]) (closers m ++ [l]) (workers m).

Definition go_worker (tag : string) (l : listener) (m : Mux) : Mux :=
  mkMux (muxDone m) (listeners m) (connChan m) (wg m) (status m) (addrs m) (closers m)
    (workers m ++ [mkWorker tag (l_id l) None]).

(** The loop of [Start]; [tm] answers for each listener in turn. *)
Fixpoint start_from (ls : list MuxListener) (tm : list sched) : ST Mux unit := λ m,
  match ls, tm with
  | v :: ls, a :: tm =>
    match ml_Start v with
    | inl e => (Err e, m)
    | inr l =>
      let m := add_listener l m in
      match a with
      | Refused e =>
        start_from ls tm (updateStatus (ml_Tag v) ("failed to start err: " +:+ e) m)
      | Scheduled =>
        start_from ls tm (updateStatus (ml_Tag v) "running" (go_worker (ml_Tag v) l m))
      | CtxDone e => (Err e, go_worker (ml_Tag v) l m)
      end
    end
  | _, _ => (Ok (), m)
  end.

Definition Start (tm : list sched) : ST Mux unit := λ m, start_from (listeners m) tm m.

Definition Addr (m : Mux) : string :=
  match addrs m with a :: _ => a | [] => "0.0.0.0:0" end.

(** [Close] up to its wait: the context is cancelled and every listener closed;
    the errors are collected. *)
Definition close_begin (m : Mux) : list error * Mux :=
  (omap l_close (closers m),
   mkMux true (listeners m) (connChan m) (wg m) (status m) (addrs m) (closers m) (workers m)).

(** The end of [Close], in the state three seconds later: the wait was
    successful exactly if the group is empty. *)
Definition close_end (errs : list error) (m : Mux) : list error :=
  if (wg m =? 0)%Z then errs else errs ++ ["failed to stop listeners"].

Definition MuxListener_Name (tag : string) : string := "MuxListener_" +:+ tag.

(** ** Concurrent steps *)

(** The history of the connections, each with the listener it came to: all that
    came, those sent to the channel, those returned by [Accept], and those
    dropped by a goroutine that was told to stop. *)
Record history := mkHistory {
  h_arrived : list (nat * conn);
  h_sent : list (nat * conn);
  h_returned : list conn;
  h_dropped : list (nat * conn);
}.

(** The multiplexer; the connections that wait at each listener; whether the
    context of the tasks has ended, which is the task manager's and not
    [muxCtx]; and the history. *)
Record sys := mkSys {
  mx : Mux;
  backlogs : gmap nat (list conn);
  tasks_done : bool;
  hist : history;
}.

Definition backlog_of (l : nat) (s : sys) : list conn := default [] (backlogs s !! l).

Definition set_workers (ws : list worker) (m : Mux) : Mux :=
  mkMux (muxDone m) (listeners m) (connChan m) (wg m) (status m) (addrs m) (closers m) ws.
Definition set_chan (ch : list conn) (m : Mux) : Mux :=
  mkMux (muxDone m) (listeners m) ch (wg m) (status m) (addrs m) (closers m) (workers m).
(** The goroutine returns: [defer m.wg.Done()]. *)
Definition worker_exit (i : nat) (m : Mux) : Mux :=
  mkMux (muxDone m) (listeners m) (connChan m) (wg m - 1) (status m) (addrs m) (closers m)
    (base.delete i (workers m)).

Definition has_conn (c : option conn) (w : worker) : worker := mkWorker (w_tag w) (w_listener w) c.

(** [Execute] and [Accept], one communication at a time, between connections
    that arrive and the end of the tasks' context. *)
Inductive step : sys → sys → Prop :=
| step_arrive m q d h l c :
    step (mkSys m q d h)
      (mkSys m (<[l := default [] (q !! l) ++ [c]]> q) d
         (mkHistory (h_arrived h ++ [(l, c)]) (h_sent h) (h_returned h) (h_dropped h)))
| step_tasks_done m q d h : step (mkSys m q d h) (mkSys m q true h)
| step_accept m q d h i w c cs :
    workers m !! i = Some w → w_conn w = None → q !! w_listener w = Some (c :: cs) →
    step (mkSys m q d h)
      (mkSys (set_workers (<[i := has_conn (Some c) w]> (workers m)) m) (<[w_listener w := cs]> q) d h)
| step_accept_err m q d h i w e :
    workers m !! i = Some w → w_conn w = None →
    step (mkSys m q d h)
      (mkSys (worker_exit i (updateStatus (w_tag w) ("failed with err: " +:+ e) m)) q d h)
| step_send m q d h i w c :
    workers m !! i = Some w → w_conn w = Some c → (length (connChan m) < chanCap)%nat →
    step (mkSys m q d h)
      (mkSys (set_chan (connChan m ++ [c]) (set_workers (<[i := has_conn None w]> (workers m)) m)) q d
         (mkHistory (h_arrived h) (h_sent h ++ [(w_listener w, c)]) (h_returned h) (h_dropped h)))
| step_ctx_done m q h i w c :
    workers m !! i = Some w → w_conn w = Some c →
    step (mkSys m q true h)
      (mkSys (worker_exit i m) q true
         (mkHistory (h_arrived h) (h_sent h) (h_returned h) (h_dropped h ++ [(w_listener w, c)])))
| step_Accept m q d h c ch :
    connChan m = c :: ch →
    step (mkSys m q d h)
      (mkSys (set_chan ch m) q d
         (mkHistory (h_arrived h) (h_sent h) (h_returned h ++ [c]) (h_dropped h)))
| step_Accept_eof m q d h : muxDone m = true → step (mkSys m q d h) (mkSys m q d h).

(** ** Lemmas *)

(** The connections of one listener in a history, and in the hands of its
    goroutine. *)
Definition at_listener (l : nat) (cs : list (nat * conn)) : list conn :=
  omap (λ x, if decide (x.1 = l) then Some x.2 else None) cs.

Definition held (l : nat) (ws : list worker) : list conn :=
  omap (λ w, if decide (w_listener w = l) then w_conn w else None) ws.

(** [leaked]: how many units of the group have no goroutine. *)
Definition leaked (m : Mux) : Z := wg m - Z.of_nat (length (workers m)).

Record inv (s : sys) : Prop := mkInv {
  inv_fifo : (h_sent (hist s)).*2 = h_returned (hist s) ++ connChan (mx s);
  inv_order l : at_listener l (h_arrived (hist s)) =
    at_listener l (h_sent (hist s)) ++ held l (workers (mx s)) ++
    at_listener l (h_dropped (hist s)) ++ backlog_of l s;
  inv_one : NoDup (w_listener <$> workers (mx s));
  inv_dead l : l ∈ w_listener <$> workers (mx s) → at_listener l (h_dropped (hist s)) = [];
  inv_dropped : h_dropped (hist s) ≠ [] → tasks_done s = true;
  inv_cap : (length (connChan (mx s)) ≤ chanCap)%nat;
}.

Lemma at_listener_snoc l cs l' c :
  at_listener l (cs ++ [(l', c)]) = at_listener l cs ++ (if decide (l' = l) then [c] else []).
Proof. unfold at_listener. rewrite omap_app. simpl. by case_decide. Qed.

Lemma held_other l ws : l ∉ w_listener <$> ws → held l ws = [].
Proof.
  induction ws as [|w ws IH]; [done|]. rewrite fmap_cons, not_elem_of_cons. intros [Hne Hni].
  unfold held in *. simpl. rewrite decide_False by done. by apply IH.
Qed.

(** What a listener's goroutine holds when one goroutine is replaced or gone. *)
Lemma held_split l (ws1 ws2 : list worker) w :
  NoDup (w_listener <$> ws1 ++ w :: ws2) →
  held l (ws1 ++ w :: ws2) =
    if decide (w_listener w = l) then option_list (w_conn w) else held l (ws1 ++ ws2).
Proof.
  rewrite fmap_app, fmap_cons, NoDup_app, NoDup_cons. intros (_ & Hd & Hn & _).
  assert (held l (ws1 ++ w :: ws2) = held l ws1 ++ held l [w] ++ held l ws2) as ->.
  { unfold held. by rewrite <- !omap_app. }
  unfold held at 2. simpl. case_decide as E.
  - subst l. rewrite (held_other _ ws1), (held_other _ ws2); [by destruct (w_conn w)|done|].
    intros Hin. apply (Hd _ Hin). left.
  - unfold held. by rewrite omap_app.
Qed.

Lemma worker_at {m i w} : workers m !! i = Some w →
  ∃ ws1 ws2, workers m = ws1 ++ w :: ws2 ∧ base.delete i (workers m) = ws1 ++ ws2 ∧
    ∀ w', <[i := w']> (workers m) = ws1 ++ w' :: ws2.
Proof.
  intros (ws1 & ws2 & -> & ->)%list_elem_of_split_length. exists ws1, ws2.
  split_and!; [done|by rewrite delete_middle|]. intros w'. clear. induction ws1; simpl; congruence.
Qed.

(** Replacing a goroutine by itself with another connection in hand. *)
Lemma held_insert l m i w c :
  NoDup (w_listener <$> workers m) → workers m !! i = Some w →
  held l (<[i := has_conn c w]> (workers m)) =
    (if decide (w_listener w = l) then option_list c else held l (workers m)) ∧
  w_listener <$> (<[i := has_conn c w]> (workers m)) = w_listener <$> workers m.
Proof.
  intros Hnd Hw. destruct (worker_at Hw) as (ws1 & ws2 & E & _ & Hi). rewrite E in Hnd.
  assert (w_listener <$> ws1 ++ has_conn c w :: ws2 = w_listener <$> ws1 ++ w :: ws2) as El
    by by rewrite !fmap_app.
  rewrite Hi, E, El. split; [|done]. rewrite held_split by by rewrite El. rewrite (held_split l ws1 ws2 w Hnd).
  simpl. by case_decide.
Qed.

Lemma held_delete l m i w :
  NoDup (w_listener <$> workers m) → workers m !! i = Some w →
  held l (base.delete i (workers m)) = (if decide (w_listener w = l) then [] else held l (workers m)) ∧
  NoDup (w_listener <$> base.delete i (workers m)) ∧
  (w_listener w ∉ (w_listener <$> base.delete i (workers m))) ∧
  (∀ l', l' ∈ w_listener <$> base.delete i (workers m) → l' ∈ w_listener <$> workers m).
Proof.
  intros Hnd Hw. destruct (worker_at Hw) as (ws1 & ws2 & E & -> & _). rewrite E in *.
  pose proof Hnd as Hnd'. rewrite fmap_app, fmap_cons, NoDup_app, NoDup_cons in Hnd'.
  destruct Hnd' as (H1 & Hd & H2 & H3).
  assert (w_listener w ∉ w_listener <$> ws1 ++ ws2) as Hni.
  { rewrite fmap_app, elem_of_app. intros [Hin|Hin]; [apply (Hd _ Hin); left|done]. }
  split_and!; [|rewrite fmap_app; apply NoDup_app; set_solver|done|rewrite !fmap_app, fmap_cons; set_solver].
  rewrite (held_split l ws1 ws2 w Hnd). case_decide as El; [|done]. subst l. by apply held_other.
Qed.

Lemma backlog_insert m q d h l cs l' :
  backlog_of l' (mkSys m (<[l := cs]> q) d h) = if decide (l = l') then cs else default [] (q !! l').
Proof. unfold backlog_of. simpl. case_decide; [subst; by rewrite lookup_insert_eq|by rewrite lookup_insert_ne]. Qed.

(** The hand of a goroutine in the list. *)
Lemma held_lookup m i w :
  NoDup (w_listener <$> workers m) → workers m !! i = Some w →
  held (w_listener w) (workers m) = option_list (w_conn w) ∧ w_listener w ∈ w_listener <$> workers m.
Proof.
  intros Hnd Hw. split; [|by eapply list_elem_of_fmap_2, list_elem_of_lookup_2].
  destruct (worker_at Hw) as (ws1 & ws2 & E & _). rewrite E in *. rewrite held_split by done. by rewrite decide_True.
Qed.

Lemma inv_step s s' : step s s' → inv s → inv s'.
Proof.
  intros Hstep [Hf Ho Hn Hd Hdr Hc]. destruct Hstep as [m q d h l c|m q d h|m q d h i w c cs Hw Hh Hq
    |m q d h i w e Hw Hh|m q d h i w c Hw Hh Hlt|m q h i w c Hw Hh|m q d h c ch Hch|m q d h _]; simpl in *.
  - split; simpl; try done. intros l'. rewrite at_listener_snoc, Ho, backlog_insert. unfold backlog_of. simpl.
    case_decide; [subst; by rewrite <- !(assoc_L (++))|by rewrite app_nil_r].
  - by split.
  - pose proof (held_lookup m i w Hn Hw) as [Hhw Hin]. rewrite Hh in Hhw. simpl in Hhw.
    split; simpl; rewrite ?(proj2 (held_insert 0 m i w (Some c) Hn Hw)); try done.
    intros l'. rewrite Ho, backlog_insert, (proj1 (held_insert l' m i w (Some c) Hn Hw)). unfold backlog_of. simpl.
    case_decide; [subst|done]. rewrite Hhw, (Hd _ Hin), Hq. done.
  - destruct (held_lookup m i w Hn Hw) as [Hhw Hin]. rewrite Hh in Hhw.
    destruct (held_delete 0 m i w Hn Hw) as (_ & Hn' & Hni & Hsub). split; simpl; try done; [|by auto].
    intros l'. rewrite Ho, (proj1 (held_delete l' m i w Hn Hw)). unfold backlog_of. simpl.
    case_decide; [subst; by rewrite Hhw|done].
  - destruct (held_lookup m i w Hn Hw) as [Hhw Hin]. rewrite Hh in Hhw.
    split; simpl; rewrite ?(proj2 (held_insert 0 m i w None Hn Hw)); try done.
    + by rewrite fmap_app, Hf, <- (assoc_L (++)).
    + intros l'. rewrite Ho, at_listener_snoc, (proj1 (held_insert l' m i w None Hn Hw)). unfold backlog_of. simpl.
      case_decide; [subst; rewrite Hhw; simpl; by rewrite <- (assoc_L (++))|by rewrite app_nil_r].
    + rewrite length_app. simpl. lia.
  - destruct (held_lookup m i w Hn Hw) as [Hhw Hin]. rewrite Hh in Hhw.
    destruct (held_delete 0 m i w Hn Hw) as (_ & Hn' & Hni & Hsub). split; simpl; try done.
    + intros l'. rewrite Ho, at_listener_snoc, (proj1 (held_delete l' m i w Hn Hw)). unfold backlog_of. simpl.
      case_decide; [subst; rewrite Hhw, (Hd _ Hin); done|by rewrite app_nil_r].
    + intros l' Hl'. rewrite at_listener_snoc, decide_False by (by intros <-). rewrite app_nil_r. auto.
  - rewrite Hch in *. split; simpl in *; try done; [by rewrite Hf, <- (assoc_L (++))|lia].
  - by split.
Qed.

Lemma inv_steps s s' : rtc step s s' → inv s → inv s'.
Proof. induction 1; eauto using inv_step. Qed.

(** The goroutines pay back what was added for them, and nothing else. *)
Lemma leaked_steps s s' : rtc step s s' → leaked (mx s') = leaked (mx s).
Proof.
  induction 1 as [s|s s1 s' Hstep _ IH]; [done|]. rewrite IH. clear IH.
  destruct Hstep as [| |m q d h i w c cs Hw|m q d h i w e Hw|m q d h i w c Hw|m q h i w c Hw| |];
    unfold leaked; simpl; rewrite ?length_insert; try done.
  - rewrite length_delete by eauto. apply lookup_lt_Some in Hw. lia.
  - rewrite length_delete by eauto. apply lookup_lt_Some in Hw. lia.
Qed.

Definition is_refused (a : sched) : bool := match a with Refused _ => true | _ => false end.

(** [Start], on the state. *)
Lemma start_from_spec ls : ∀ tm m r m',
  start_from ls tm m = (r, m') →
  connChan m' = connChan m ∧ muxDone m' = muxDone m ∧
  (leaked m ≤ leaked m')%Z ∧
  (forallb (negb ∘ is_refused) tm = true → leaked m' = leaked m) ∧
  (r = Ok () → (length tm ≤ length ls)%nat →
     leaked m' = (leaked m + Z.of_nat (length (List.filter is_refused tm)))%Z).
Proof.
  induction ls as [|v ls IH]; intros tm m r m'; simpl.
  { intros [= <- <-]. split_and!; try done. intros _. destruct tm; simpl; lia. }
  destruct tm as [|a tm]; [intros [= <- <-]; split_and!; try done; simpl; lia|].
  destruct (ml_Start v) as [e|l].
  { intros [= <- <-]. by split_and!. }
  destruct a as [e| |e]; simpl.
  - intros Hr. apply IH in Hr as (Hc & Hd & Hl & _ & Hok).
    unfold leaked in *. simpl in *. split_and!; try done; [lia|].
    intros -> Hlen. rewrite Hok by (done || lia). lia.
  - intros Hr. apply IH in Hr as (Hc & Hd & Hl & Hno & Hok).
    unfold leaked in *. simpl in *. rewrite length_app in *. simpl in *.
    split_and!; try done; [lia|intros Ht; rewrite Hno by done; lia|].
    intros -> Hlen. rewrite Hok by (done || lia). lia.
  - intros [= <- <-]. unfold leaked. simpl. rewrite length_app. simpl.
    split_and!; try done; lia.
Qed.

(** The listeners that can be opened, and the goroutines [Start] makes for
    them. *)
Definition openable (ls : list MuxListener) : list nat :=
  omap (λ v, match ml_Start v with inr l => Some (l_id l) | inl _ => None end) ls.

Lemma start_goroutines ls : ∀ tm m r m',
  start_from ls tm m = (r, m') →
  ∃ ws, workers m' = workers m ++ ws ∧ Forall (λ w, w_conn w = None) ws ∧
    (w_listener <$> ws) `sublist_of` openable ls.
Proof.
  induction ls as [|v ls IH]; intros tm m r m'; simpl.
  { intros [= <- <-]. exists []. by rewrite app_nil_r. }
  assert (∃ ws, workers m = workers m ++ ws ∧ Forall (λ w, w_conn w = None) ws ∧
    (w_listener <$> ws) `sublist_of` openable (v :: ls)) as Hnone.
  { exists []. rewrite app_nil_r. split_and!; [done..|apply sublist_nil_l]. }
  destruct tm as [|a tm]; [by intros [= <- <-]|].
  destruct (ml_Start v) as [e|l] eqn:El; [intros [= <- <-]; unfold openable in *; simpl in *; by rewrite El in *|].
  unfold openable in *. simpl in *. rewrite El in *. destruct a as [e| |e]; simpl.
  - intros (ws & Hw & Hn & Hs)%IH. exists ws. split_and!; [done..|by apply sublist_cons].
  - intros (ws & Hw & Hn & Hs)%IH. simpl in Hw. exists (mkWorker (ml_Tag v) (l_id l) None :: ws).
    rewrite Hw, <- (assoc_L (++)). split_and!; [done|by constructor|by apply sublist_skip].
  - intros [= <- <-]. eexists. split_and!; [done|by repeat constructor|]. simpl. apply sublist_skip, sublist_nil_l.
Qed.

Lemma New_spec ls :
  listeners (New ls) = ls ∧ connChan (New ls) = [] ∧ workers (New ls) = [] ∧ wg (New ls) = 0%Z ∧
  addrs (New ls) = [] ∧ closers (New ls) = [].
Proof.
  unfold New. generalize (∅ : gmap string string) as st.
  cut (∀ l st, let m := foldl (λ m v, updateStatus (ml_Tag v) "not running" m)
                 (mkMux false ls [] 0 st [] [] []) l in
       listeners m = ls ∧ connChan m = [] ∧ workers m = [] ∧ wg m = 0%Z ∧
       addrs m = [] ∧ closers m = []); [eauto|].
  induction l as [|v l IH]; intros st; simpl; [done|]. apply IH.
Qed.

Definition no_history : history := mkHistory [] [] [] [].

(** The multiplexer after its start, with nobody at the listeners. *)
Definition initial (m : Mux) : sys := mkSys m ∅ false no_history.

Lemma Start_inv ls tm r m :
  Start tm (New ls) = (r, m) → NoDup (openable ls) → inv (initial m).
Proof.
  unfold Start. destruct (New_spec ls) as (Hls & Hc & Hw & _). rewrite Hls. intros HS Hnd.
  pose proof (start_from_spec _ _ _ _ _ HS) as (Hc' & _).
  destruct (start_goroutines _ _ _ _ _ HS) as (ws & Hws & Hn & Hs). rewrite Hw in Hws. simpl in Hws.
  assert (∀ l, held l ws = []) as Hheld.
  { intros l. clear -Hn. induction Hn as [|w ws Hw _ IH]; [done|]. unfold held in *. simpl. rewrite Hw.
    by case_decide. }
  split; simpl; rewrite ?Hws, ?Hc', ?Hc; try done.
  - intros l. by rewrite Hheld.
  - by eapply sublist_NoDup.
  - simpl. lia.
Qed.

(** ** Serving *)

(** [Accept] can empty the channel. *)
Lemma drain_chan ch : ∀ s, connChan (mx s) = ch →
  ∃ s', rtc step s s' ∧ connChan (mx s') = [] ∧ workers (mx s') = workers (mx s) ∧
    backlogs s' = backlogs s ∧ h_arrived (hist s') = h_arrived (hist s).
Proof.
  induction ch as [|c ch IH]; intros [m q d h] Hch; [by eexists|].
  destruct (IH (mkSys (set_chan ch m) q d
    (mkHistory (h_arrived h) (h_sent h) (h_returned h ++ [c]) (h_dropped h)))) as (s' & Hr & Hs'); [done|].
  exists s'. split; [|done]. eapply rtc_l; [by apply step_Accept|exact Hr].
Qed.

(** A goroutine can send what it holds. *)
Lemma empty_hand s i w : workers (mx s) !! i = Some w →
  ∃ s', rtc step s s' ∧ workers (mx s') !! i = Some (has_conn None w) ∧ backlogs s' = backlogs s ∧
    h_arrived (hist s') = h_arrived (hist s).
Proof.
  intros Hw. destruct (w_conn w) as [c|] eqn:Hc.
  - destruct (drain_chan _ s eq_refl) as ([m q d h] & Hr & Hch & Hws & Hq & Ha). simpl in *.
    rewrite <- Hws in Hw. eexists. split; [|split].
    + eapply rtc_r; [exact Hr|]. apply (step_send m q d h i w c); [done..|]. rewrite Hch. unfold chanCap. simpl. lia.
    + simpl. apply list_lookup_insert_eq. by eapply lookup_lt_Some.
    + done.
  - exists s. split_and!; try done. destruct w. simpl in *. by subst.
Qed.

(** A goroutine that runs can serve all that waits at its listener. *)
Lemma serve_backlog cs : ∀ s i w,
  workers (mx s) !! i = Some w → backlog_of (w_listener w) s = cs →
  ∃ s', rtc step s s' ∧ workers (mx s') !! i = Some (has_conn None w) ∧
    backlog_of (w_listener w) s' = [] ∧ connChan (mx s') = [] ∧ h_arrived (hist s') = h_arrived (hist s).
Proof.
  induction cs as [|c cs IH]; intros s i w Hw Hq;
    destruct (empty_hand s i w Hw) as (s1 & Hr1 & Hw1 & Hq1 & Ha1).
  - destruct (drain_chan _ s1 eq_refl) as (s2 & Hr2 & Hch & Hw2 & Hq2 & Ha2). exists s2.
    split_and!; [by etransitivity|by rewrite Hw2|unfold backlog_of in *; by rewrite Hq2, Hq1|done|congruence].
  - destruct s1 as [m q d h]. simpl in *. unfold backlog_of in Hq. rewrite <- Hq1 in Hq.
    destruct (q !! w_listener w) as [cs'|] eqn:Eq; simpl in Hq; [subst cs'|done].
    edestruct (IH (mkSys (set_workers (<[i := has_conn (Some c) w]> (workers m)) m)
      (<[w_listener w := cs]> q) d h) i (has_conn (Some c) w)) as (s2 & Hr2 & Hs2).
    + simpl. apply list_lookup_insert_eq. by eapply lookup_lt_Some.
    + rewrite backlog_insert. by rewrite decide_True.
    + exists s2. simpl in Hs2. rewrite <- Ha1. split; [|done]. etransitivity; [exact Hr1|].
      eapply rtc_l; [by apply (step_accept m q d h i (has_conn None w) c cs)|exact Hr2].
Qed.

(** So the server can get all that ever came to that listener, in order. *)
Lemma serve_listener s i w :
  inv s → workers (mx s) !! i = Some w →
  ∃ s', rtc step s s' ∧ (h_sent (hist s')).*2 = h_returned (hist s') ∧
    at_listener (w_listener w) (h_sent (hist s')) = at_listener (w_listener w) (h_arrived (hist s)).
Proof.
  intros Hinv Hw. destruct (serve_backlog _ s i w Hw eq_refl) as (s' & Hr & Hw' & Hq & Hch & Ha).
  pose proof (inv_steps _ _ Hr Hinv) as [Hf Ho Hn Hd _ _]. exists s'. split_and!; [done| |].
  - by rewrite Hf, Hch, app_nil_r.
  - destruct (held_lookup (mx s') i _ Hn Hw') as [Hh Hin]. simpl in *.
    rewrite <- Ha, Ho, Hh, (Hd _ Hin), Hq. simpl. by rewrite app_nil_r.
Qed.

Lemma leaked_New ls : leaked (New ls) = 0%Z.
Proof. destruct (New_spec ls) as (_ & _ & Hw & Hg & _). unfold leaked. by rewrite Hw, Hg. Qed.

(** Once the tasks' context has ended, every goroutine can return. *)
Lemma drain n : ∀ m q h, length (workers m) = n →
  ∃ s', rtc step (mkSys m q true h) s' ∧ workers (mx s') = [].
Proof.
  induction n as [|n IH]; intros m q h Hn; [eexists; split; [done|by apply nil_length_inv]|].
  destruct (workers m) as [|w ws] eqn:Hw; [done|].
  assert (∃ m1 h1, step (mkSys m q true h) (mkSys m1 q true h1) ∧ workers m1 = ws) as (m1 & h1 & Hs & H1).
  { destruct (w_conn w) as [c|] eqn:Hc.
    - eexists _, _. split; [eapply (step_ctx_done m q h 0 w c); [by rewrite Hw|done]|]. simpl. by rewrite Hw.
    - eexists _, _. split; [eapply (step_accept_err m q true h 0 w "closed"); [by rewrite Hw|done]|].
      simpl. by rewrite Hw. }
  destruct (IH m1 q h1) as (s' & Hrtc & He); [simpl in Hn; congruence|].
  exists s'. split; [by eapply rtc_l|done].
Qed.

(** [Start] when everything works. *)
Lemma start_all_ok ls : ∀ tm m,
  Forall (λ v, ∃ l, ml_Start v = inr l) ls → tm = replicate (length ls) Scheduled →
  ∃ m', start_from ls tm m = (Ok (), m') ∧
    (∀ t, status m' !! t = if decide (t ∈ ml_Tag <$> ls) then Some "running" else status m !! t) ∧
    addrs m' = addrs m ++ omap (λ v, match ml_Start v with inr l => Some (l_addr l) | _ => None end) ls ∧
    length (workers m') = (length (workers m) + length ls)%nat.
Proof.
  induction ls as [|v ls IH]; intros tm m Hall ->.
  { exists m. simpl. split_and!; [done|done|by rewrite app_nil_r|lia]. }
  inversion Hall as [|? ? [l Hl] Hall']; subst. simpl. rewrite Hl.
  destruct (IH (replicate (length ls) Scheduled)
    (updateStatus (ml_Tag v) "running" (go_worker (ml_Tag v) l (add_listener l m))))
    as (m' & -> & Hst & Ha & Hw); [done|done|].
  exists m'. split; [done|]. simpl in *. split_and!.
  - intros t. rewrite Hst, lookup_insert. repeat case_decide; set_solver.
  - by rewrite Ha, <- (assoc_L (++)).
  - rewrite Hw, length_app. simpl. lia.
Qed.

(** ** Properties *)

(** C25: the multiplexer loses, duplicates and reorders nothing.  In every
    reachable state, what [Accept] has returned followed by the channel is what
    was sent to it, in order; for each listener, what was sent from it, what its
    goroutine holds or has dropped, and what waits at it are, in this order, the
    connections that came to it; connections are dropped only once the context
    of the tasks has ended; the channel holds 50 at most; and as long as a
    listener's goroutine runs, everything that came to the listener can get to
    the server. *)
Theorem mux_connections ls tm r m s :
  Start tm (New ls) = (r, m) → NoDup (openable ls) → rtc step (initial m) s →
  (h_sent (hist s)).*2 = h_returned (hist s) ++ connChan (mx s) ∧
  (∀ l, at_listener l (h_arrived (hist s)) =
     at_listener l (h_sent (hist s)) ++ held l (workers (mx s)) ++
     at_listener l (h_dropped (hist s)) ++ backlog_of l s) ∧
  (h_dropped (hist s) ≠ [] → tasks_done s = true) ∧
  (length (connChan (mx s)) ≤ chanCap)%nat ∧
  (∀ i w, workers (mx s) !! i = Some w →
     ∃ s', rtc step s s' ∧ (h_sent (hist s')).*2 = h_returned (hist s') ∧
       at_listener (w_listener w) (h_sent (hist s')) = at_listener (w_listener w) (h_arrived (hist s))).
Proof.
  intros HS Hnd Hrtc. pose proof (inv_steps _ _ Hrtc (Start_inv _ _ _ _ HS Hnd)) as Hinv.
  pose proof Hinv as [Hf Ho Hn Hd Hdr Hc]. split_and!; [done..|]. intros i w. by apply serve_listener.
Qed.

(** Closing waits for exactly the goroutines.  If no task was refused, then
    whatever happened before and happens during [Close], it reports "failed to
    stop listeners" exactly when a goroutine is still running, and beyond that
    only what closing the listeners returned; and when the tasks' context ends
    the goroutines can all return. *)
Theorem mux_close_waits ls tm r m m1 q1 d1 h1 :
  Start tm (New ls) = (r, m) → forallb (negb ∘ is_refused) tm = true →
  rtc step (initial m) (mkSys m1 q1 d1 h1) →
  let '(errs, m2) := close_begin m1 in
  errs = omap l_close (closers m1) ∧ muxDone m2 = true ∧
  (∀ s3, rtc step (mkSys m2 q1 d1 h1) s3 →
     close_end errs (mx s3) =
       (if decide (workers (mx s3) = []) then errs else errs ++ ["failed to stop listeners"])) ∧
  ∃ s3, rtc step (mkSys m2 q1 d1 h1) s3 ∧ close_end errs (mx s3) = errs.
Proof.
  intros HS Hno Hrtc. unfold Start in HS. apply start_from_spec in HS as (_ & _ & _ & Hl & _).
  specialize (Hl Hno). rewrite leaked_New in Hl. pose proof (leaked_steps _ _ Hrtc) as Hl1. simpl in Hl1.
  unfold close_begin. set (m2 := mkMux true _ _ _ _ _ _ _).
  assert (∀ s3, rtc step (mkSys m2 q1 d1 h1) s3 → wg (mx s3) = Z.of_nat (length (workers (mx s3)))) as Hwg.
  { intros s3 H3. pose proof (leaked_steps _ _ H3) as Hl3. simpl in Hl3.
    assert (leaked m2 = 0%Z) as H2 by (change (leaked m2) with (leaked m1); lia).
    unfold leaked in *. lia. }
  split_and!; [done|done| |].
  - intros s3 H3. unfold close_end. rewrite (Hwg s3) by done.
    destruct (workers (mx s3)); [done|]. simpl. done.
  - destruct (drain _ m2 q1 h1 eq_refl) as (s3 & H3 & Hw). exists s3.
    assert (rtc step (mkSys m2 q1 d1 h1) s3) as H3' by (eapply rtc_l; [apply step_tasks_done|exact H3]).
    split; [done|]. unfold close_end. rewrite (Hwg s3 H3'), Hw. done.
Qed.

(** A task the manager refuses is still waited for: after a [Start] in which
    one task was refused, and which reports no error, [Close] always ends in
    "failed to stop listeners", even when no goroutine is left. *)
Theorem mux_close_leak ls tm m m1 q1 d1 h1 s3 e :
  Start tm (New ls) = (Ok (), m) → (length tm ≤ length ls)%nat → Refused e ∈ tm →
  rtc step (initial m) (mkSys m1 q1 d1 h1) → rtc step (mkSys (close_begin m1).2 q1 d1 h1) s3 →
  "failed to stop listeners" ∈ close_end (close_begin m1).1 (mx s3).
Proof.
  intros HS Hlen Hin H1 H3. unfold Start in HS. destruct (New_spec ls) as (Hls & _).
  apply start_from_spec in HS as (_ & _ & _ & _ & Hl). rewrite Hls, leaked_New in Hl.
  specialize (Hl eq_refl Hlen). pose proof (leaked_steps _ _ H1) as L1.
  pose proof (leaked_steps _ _ H3) as L3. simpl in L1, L3.
  change (leaked (mkMux true _ _ _ _ _ _ _)) with (leaked m1) in L3.
  assert (0 < length (List.filter is_refused tm))%nat as Hpos.
  { apply list_elem_of_In in Hin.
    assert (In (Refused e) (List.filter is_refused tm)) as Hf by by apply filter_In.
    destruct (List.filter is_refused tm); simpl in *; [done|lia]. }
  unfold close_end. destruct (Z.eqb_spec (wg (mx s3)) 0) as [E|_]; [|set_solver].
  unfold leaked in *. lia.
Qed.

(** When every listener starts and every task is scheduled, [Start]
    succeeds, each tag is reported as running, each listener has its goroutine,
    and [Addr] is the address of the first listener. *)
Theorem mux_start_ok ls :
  Forall (λ v, ∃ l, ml_Start v = inr l) ls →
  ∃ m, Start (replicate (length ls) Scheduled) (New ls) = (Ok (), m) ∧
    (∀ t, t ∈ ml_Tag <$> ls → Status m !! t = Some "running") ∧
    length (workers m) = length ls ∧
    Addr m = match ls with
             | v :: _ => match ml_Start v with inr l => l_addr l | _ => "" end
             | [] => "0.0.0.0:0"
             end.
Proof.
  intros Hall. destruct (New_spec ls) as (Hls & _ & Hw & _ & Ha & _).
  destruct (start_all_ok ls (replicate (length ls) Scheduled) (New ls) Hall eq_refl)
    as (m & HS & Hst & Had & Hwk).
  exists m. unfold Start. rewrite Hls. split_and!; [done| | |].
  - intros t Ht. unfold Status. rewrite Hst. by rewrite decide_True.
  - by rewrite Hwk, Hw.
  - unfold Addr. rewrite Had, Ha. destruct ls as [|v ls]; [done|]. simpl.
    inversion Hall as [|? ? [l Hl] _]; subst. by rewrite Hl.
Qed.

(** ** Witnesses *)

Definition sample_listeners : list MuxListener :=
  [mkMuxListener (inr (mkListener 0 ":8081" None)) "TCP Port 8081";
   mkMuxListener (inr (mkListener 1 "/tmp/sock" None)) "UDS Sock /tmp/sock"].

Definition sample_started (tm : list sched) : Mux := (Start tm (New sample_listeners)).2.

(** Two connections come to the first listener and one to the second; the server
    can get both of the first, in their order. *)
Lemma mux_connections_witness :
  let m := sample_started [Scheduled; Scheduled] in
  ∃ s, rtc step (initial m) s ∧ at_listener 0 (h_arrived (hist s)) = [7; 9]%nat ∧
    ∃ s', rtc step s s' ∧ (h_sent (hist s')).*2 = h_returned (hist s') ∧
      at_listener 0 (h_sent (hist s')) = [7; 9]%nat.
Proof.
  intros m. eexists. split; [|split].
  - eapply rtc_l; [apply (step_arrive m ∅ false no_history 0 7)|].
    eapply rtc_l; [apply (step_arrive _ _ _ _ 1 8)|].
    eapply rtc_l; [apply (step_arrive _ _ _ _ 0 9)|]. apply rtc_refl.
  - reflexivity.
  - edestruct (mux_connections sample_listeners [Scheduled; Scheduled] (Ok ()) m) as (_ & _ & _ & _ & Hs).
    + reflexivity.
    + refine (bool_decide_unpack _ _). by vm_compute.
    + eapply rtc_l; [apply (step_arrive m ∅ false no_history 0 7)|].
      eapply rtc_l; [apply (step_arrive _ _ _ _ 1 8)|].
      eapply rtc_l; [apply (step_arrive _ _ _ _ 0 9)|]. apply rtc_refl.
    + exact (Hs 0%nat (mkWorker "TCP Port 8081" 0 None) eq_refl).
Defined.

Lemma mux_close_waits_witness :
  ∃ s3, rtc step (mkSys (close_begin (sample_started [Scheduled; Scheduled])).2 ∅ false no_history) s3 ∧
    close_end [] (mx s3) = [].
Proof.
  apply (mux_close_waits sample_listeners [Scheduled; Scheduled] (Ok ())
    (sample_started [Scheduled; Scheduled]) (sample_started [Scheduled; Scheduled]) ∅ false no_history);
    reflexivity.
Defined.

Lemma mux_close_leak_witness :
  let m := sample_started [Refused "no workers"; Refused "no workers"] in
  workers m = [] ∧ "failed to stop listeners" ∈ close_end (close_begin m).1 (close_begin m).2.
Proof.
  split; [reflexivity|].
  apply (mux_close_leak sample_listeners [Refused "no workers"; Refused "no workers"] _ _ ∅ false no_history
    (mkSys (close_begin (sample_started [Refused "no workers"; Refused "no workers"])).2 ∅ false no_history)
    "no workers" eq_refl); [simpl; lia|left|reflexivity|reflexivity].
Defined.

Lemma mux_start_ok_witness :
  ∃ m, Start [Scheduled; Scheduled] (New sample_listeners) = (Ok (), m) ∧ Addr m = ":8081".
Proof.
  destruct (mux_start_ok sample_listeners) as (m & HS & _ & _ & Ha).
  - repeat constructor; eauto.
  - exists m. split; [exact HS|exact Ha].
Defined.
