(* ===== verification/MuxStatus.v ===== *)
(** * The status of the listeners: [statusMtx] of [modules/grpc/mux/mux.go]

    The goroutines of the multiplexer write the status of their listeners with
    [updateStatus], under [statusMtx]; the status page asks for it with [Status]
    from the goroutines of the HTTP server, and prints what it got.  [Status]
    returns the map itself.  A write of a map is not atomic, and neither is
    going over one: here both have a beginning and an end. *)

From S2P Require Import Prelude Mux.

(** ** Goroutines *)

(** A call of [updateStatus]: before the lock, with the lock, while it writes,
    done.  A request of the status page: before the lock, inside [Status], with
    the map, while it goes over it, done with what it saw. *)
Inductive gor :=
| UStart (key value : string)
| UHold (key value : string)
| UWrite (key value : string)
| UDone
| PStart
| PHold
| PGot
| PIterate
| PDone (page : gmap string string).

Record state := mkState { mtx : option nat; smap : gmap string string; gors : list gor }.

Definition set_gor (i : nat) (g : gor) (s : state) : list gor := <[i := g]> (gors s).

Inductive step (s : state) : state → Prop :=
| u_lock i k v :
    gors s !! i = Some (UStart k v) → mtx s = None →
    step s (mkState (Some i) (smap s) (set_gor i (UHold k v) s))
| u_begin i k v :
    gors s !! i = Some (UHold k v) →
    step s (mkState (mtx s) (smap s) (set_gor i (UWrite k v) s))
| u_end i k v :
    gors s !! i = Some (UWrite k v) →
    step s (mkState None (<[k := v]> (smap s)) (set_gor i UDone s))
| p_lock i :
    gors s !! i = Some PStart → mtx s = None →
    step s (mkState (Some i) (smap s) (set_gor i PHold s))
| p_return i :
    gors s !! i = Some PHold →
    step s (mkState None (smap s) (set_gor i PGot s))
| p_begin i :
    gors s !! i = Some PGot →
    step s (mkState (mtx s) (smap s) (set_gor i PIterate s))
| p_end i :
    gors s !! i = Some PIterate →
    step s (mkState (mtx s) (smap s) (set_gor i (PDone (smap s)) s)).

(** ** Lemmas *)

Definition holds (g : gor) : bool := match g with UHold _ _ | UWrite _ _ | PHold => true | _ => false end.
Definition writes (g : gor) : bool := match g with UWrite _ _ => true | _ => false end.
Definition iterates (g : gor) : bool := match g with PIterate => true | _ => false end.

(** The lock is held by the one goroutine that is inside it. *)
Definition inv (s : state) : Prop := ∀ i g, gors s !! i = Some g → holds g = true ↔ mtx s = Some i.

(** One goroutine moves: it takes, keeps or gives back the lock. *)
Lemma inv_move s i g g' m mp :
  inv s → gors s !! i = Some g →
  (holds g' = holds g ∧ m = mtx s) ∨ (mtx s = None ∧ m = Some i ∧ holds g' = true) ∨
    (holds g = true ∧ m = None ∧ holds g' = false) →
  inv (mkState m mp (set_gor i g' s)).
Proof.
  intros Hinv Hg Hm j h. simpl. unfold set_gor. pose proof (Hinv i g Hg) as Hi.
  intros [(-> & <- & _)|[Hj Hh]]%list_lookup_insert_Some.
  - destruct Hm as [[-> ->]|[(_ & -> & ->)|(_ & -> & ->)]]; naive_solver.
  - pose proof (Hinv j h Hh) as Hjh. destruct Hm as [[_ ->]|[(Hn & -> & _)|(Hn & -> & _)]]; [done| |].
    + rewrite Hn in Hjh. naive_solver.
    + rewrite Hi in Hn. rewrite Hn in Hjh. naive_solver.
Qed.

Lemma status_inv_step s s' : inv s → step s s' → inv s'.
Proof.
  intros Hinv Hs. destruct Hs as [i k v Hg Hn|i k v Hg|i k v Hg|i Hg Hn|i Hg|i Hg|i Hg];
    eapply (inv_move _ _ _ _ _ _ Hinv Hg); simpl; auto.
Qed.

Lemma status_inv_steps s s' : inv s → rtc step s s' → inv s'.
Proof. intros Hinv Hr. induction Hr; eauto using status_inv_step. Qed.

(** Goroutines that have not begun, with the lock free. *)
Definition unborn (g : gor) : bool := match g with UStart _ _ | PStart => true | _ => false end.

Lemma inv_unborn m gs : forallb unborn gs = true → inv (mkState None m gs).
Proof.
  intros Hgs%forallb_Forall i g Hg. rewrite Forall_lookup in Hgs. specialize (Hgs i g Hg). by destruct g.
Qed.

(** ** Property *)

(** The lock of the status protects the writers from each other, but not the
    page.  Of any number of updates at most one is writing at a time, and a
    page asked for alone shows the map as it is; but with an update and a
    request of the page under way it can happen that the page goes over the map
    while the update writes to it, which the Go runtime answers by ending the
    process. *)
Theorem status_map_race m gs k v :
  forallb unborn gs = true →
  (∀ s i j g h, rtc step (mkState None m gs) s → gors s !! i = Some g → gors s !! j = Some h →
     writes g = true → writes h = true → i = j) ∧
  rtc step (mkState None m [PStart]) (mkState None m [PDone m]) ∧
  ∃ s, rtc step (mkState None m [UStart k v; PStart]) s ∧
    existsb writes (gors s) = true ∧ existsb iterates (gors s) = true.
Proof.
  intros Hgs. split_and!.
  - intros s i j g h Hr Hi Hj Hg Hh. pose proof (status_inv_steps _ _ (inv_unborn m gs Hgs) Hr) as Hinv.
    assert (holds g = true ∧ holds h = true) as [H1 H2] by (by destruct g, h).
    apply (Hinv i g Hi) in H1. apply (Hinv j h Hj) in H2. congruence.
  - eapply rtc_l; [by apply (p_lock _ 0)|]. eapply rtc_l; [by apply (p_return _ 0)|].
    eapply rtc_l; [by apply (p_begin _ 0)|]. eapply rtc_l; [by apply (p_end _ 0)|]. reflexivity.
  - exists (mkState (Some 0%nat) m [UWrite k v; PIterate]). split; [|done].
    eapply rtc_l; [by apply (p_lock _ 1)|]. eapply rtc_l; [by apply (p_return _ 1)|].
    eapply rtc_l; [by apply (p_begin _ 1)|]. eapply rtc_l; [by apply (u_lock _ 0 k v)|].
    eapply rtc_l; [by apply (u_begin _ 0 k v)|]. reflexivity.
Qed.

Lemma status_map_race_witness : ∃ s,
  rtc step (mkState None {[ "P2PGrpc" := "not running" ]} [UStart "P2PGrpc" "running"; PStart]) s ∧
  existsb writes (gors s) = true ∧ existsb iterates (gors s) = true.
Proof.
  apply (status_map_race {[ "P2PGrpc" := "not running" ]} [UStart "P2PGrpc" "running"; PStart] "P2PGrpc" "running").
  reflexivity.
Defined.
