(* ===== verification/Client.v ===== *)
(** * gRPC clients: [modules/grpc/client/client.go] and
      [modules/grpc/p2pgrpc/grpc_dialer.go]

    The P2P client dials the node itself for its own services and the first
    reachable discovered peer for the others; the static client dials configured
    addresses; the advertiser announces the node's services again and again.
    Discovery, the hosts and the connections themselves are not part of the
    program: they are arguments. *)

From S2P Require Import Prelude Utf8 Json JsonText Files Config Mesher.

(** ** Dialling *)

(** A client connection, by the target it was dialled with and the dialer that
    is used for it. *)
Inductive dialer := P2PDialer | StaticDialer.
Record ClientConn := mkConn { target : string; via : dialer }.

(** What [grpc.DialContext] does with the target and the dialer. *)
Definition DialContext := string → dialer → res ClientConn.

(** The identifier under which gRPC is spoken between peers. *)
Definition p2pgrpc_Protocol : string := "/grpc/1.0.0".

(** The context dialer of the P2P client: the target is a peer identifier. *)
Definition getDialer {N : Type} (Decode : string → error + string)
    (gostream_Dial : string → string → ST N nat) (peerIdStr : string) : ST N nat := λ n,
  match Decode peerIdStr with
  | inl err => (Err err, n)
  | inr pid => gostream_Dial pid p2pgrpc_Protocol n
  end.

Definition Dial (dial : DialContext) (peerId : string) : res ClientConn := dial peerId P2PDialer.

(** ** The P2P client *)

Record clientImpl := mkClient { svcs : list string; hostAddr : AddrInfo }.

(** The constructor also stores the host's own addresses in the dialer's peer
    store, permanently. *)
Definition NewP2PClientService {H : Type} `{Host H} (cfg : JsonConfig) (mainID : string)
    (mainAddrs : list string) (localDialer : H) : clientImpl * H :=
  let services := (Get "Services" ([] : list string) cfg).1 in
  (mkClient services (mkAddrInfo mainID mainAddrs), AddAddrs mainID mainAddrs localDialer).

(** What the [select] of [Get] receives: a peer from the channel, or the end of
    the context; the channel is closed after the last one. *)
Inductive found := Found (p : AddrInfo) | CtxDone (e : error).

Definition ErrNoPeerForSvc : error := "failed to find any usable peer for service".

Fixpoint find_peer (dial : DialContext) (connect : AddrInfo → option error) (evs : list found) :
    res ClientConn :=
  match evs with
  | [] => Err ErrNoPeerForSvc
  | CtxDone e :: _ => Err e
  | Found p :: evs =>
    match connect p with
    | Some _ => find_peer dial connect evs
    | None => Dial dial (ID p)
    end
  end.

Definition client_Get (c : clientImpl) (dial : DialContext) (connect : AddrInfo → option error)
    (FindPeers : string → error + list found) (svc : string) : res ClientConn :=
  if decide (svc ∈ svcs c) then Dial dial (ID (hostAddr c))
  else match FindPeers svc with
       | inl err => Err err
       | inr evs => find_peer dial connect evs
       end.

(** ** The static client *)

Record staticClientImpl := mkStatic { svcAddrs : gmap string string }.

Definition NewStaticClientService (c : JsonConfig) : staticClientImpl :=
  mkStatic (default ∅ (Get "StaticAddresses" (Some (∅ : gmap string string)) c).1).

Definition static_Get (c : staticClientImpl) (dial : DialContext) (svc : string) : res ClientConn :=
  match svcAddrs c !! svc with
  | None => Err "service address not configured"
  | Some addr => dial addr StaticDialer
  end.

(** The context dialer of the static client; [ctx_done] is the error of the
    context if it ends before the connection is made. *)
Definition static_dialer (ParseIP : string → bool) (Stat : string → bool)
    (net_Dial : string → string → res nat) (ctx_done : option error) (addr : string) : res nat :=
  match ctx_done with
  | Some e => Err e
  | None =>
    if ParseIP addr then net_Dial "tcp" addr
    else if Stat addr then net_Dial "unix" addr
    else Err ("transport not supported " +:+ addr)
  end.

(** ** The advertiser *)

(** Durations are in nanoseconds. *)
Definition minute : Z := 60 * 1000000000.
Definition discoveryTTL : Z := 15 * minute.
Definition retry_wait : Z := minute * 2.
Definition advertise_wait : Z := 7 * discoveryTTL / 8.

(** One round over the services, at a time: the announcements made, and whether
    one failed. *)
Fixpoint advertise (now : Z) (Advertise : Z → string → option error) (services : list string) :
    list (Z * string) * bool :=
  match services with
  | [] => ([], false)
  | svc :: services =>
    match Advertise now svc with
    | Some _ => ([], true)
    | None => let (done, failed) := advertise now Advertise services in ((now, svc) :: done, failed)
    end
  end.

(** The rounds of [Execute] until the context is done, with the announcements
    that succeeded and their times. *)
Fixpoint discovery_Execute (rounds : nat) (now : Z) (Advertise : Z → string → option error)
    (services : list string) : list (Z * string) :=
  match rounds with
  | O => []
  | S rounds =>
    let (done, failed) := advertise now Advertise services in
    done ++ discovery_Execute rounds (now + if failed : bool then retry_wait else advertise_wait)
              Advertise services
  end.

(** [NewP2PClientAdvertiser]: the services to advertise, if the task is
    started. *)
Definition NewP2PClientAdvertiser (cfg : JsonConfig) (tm_Go : option error) : res (option (list string)) :=
  match Get "Services" ([] : list string) cfg with
  | (services, true) => match tm_Go with Some err => Err err | None => Ok (Some services) end
  | (_, false) => Ok None
  end.

(** ** Lemmas *)

Definition connectable (connect : AddrInfo → option error) (p : AddrInfo) : bool :=
  match connect p with None => true | Some _ => false end.

Lemma find_peer_found dial connect ps rest :
  find_peer dial connect ((Found <$> ps) ++ rest) =
  match List.find (connectable connect) ps with
  | Some p => Dial dial (ID p)
  | None => find_peer dial connect rest
  end.
Proof.
  induction ps as [|p ps IH]; [done|]. simpl. unfold connectable at 1.
  by destruct (connect p).
Qed.

Lemma advertise_spec now Adv services :
  match (advertise now Adv services).2 with
  | false => (advertise now Adv services).1 = (λ s, (now, s)) <$> services
  | true => ∃ s e, s ∈ services ∧ Adv now s = Some e
  end.
Proof.
  induction services as [|svc services IH]; [done|]. simpl.
  destruct (Adv now svc) eqn:Ha; simpl; [exists svc; set_solver|].
  destruct (advertise now Adv services) as [done failed]. simpl in *.
  destruct failed; [naive_solver set_solver|by rewrite IH].
Qed.

(** ** Properties *)

(** A client call goes to the node itself for the services it runs, without
    discovery; otherwise to the first peer found for the service that can be
    connected to, skipping the others, with an error if none can or if the
    context ends before one is found. *)
Theorem client_get_first c dial connect FindPeers svc :
  (svc ∈ svcs c → client_Get c dial connect FindPeers svc = Dial dial (ID (hostAddr c))) ∧
  ∀ ps rest, svc ∉ svcs c → FindPeers svc = inr ((Found <$> ps) ++ rest) →
    client_Get c dial connect FindPeers svc =
    match List.find (connectable connect) ps, rest with
    | Some p, _ => Dial dial (ID p)
    | None, [] => Err ErrNoPeerForSvc
    | None, CtxDone e :: _ => Err e
    | None, _ => find_peer dial connect rest
    end.
Proof.
  unfold client_Get. split; [intros Hs; by rewrite decide_True|].
  intros ps rest Hs ->. rewrite decide_False by done. rewrite find_peer_found.
  destruct (List.find _ ps); [done|]. by destruct rest as [|[]].
Qed.

(** The announcements do not lapse: as long as the discovery service takes
    them, every service is announced again before the lifetime of its previous
    announcement is over; after a failure the next try comes two minutes
    later. *)
Theorem advertised_in_time rounds now Adv services :
  (∀ t s, s ∈ services → Adv t s = None) →
  (∀ k s, (k < rounds)%nat → s ∈ services →
     (now + Z.of_nat k * advertise_wait, s)%Z ∈ discovery_Execute rounds now Adv services) ∧
  (0 < advertise_wait < discoveryTTL)%Z ∧
  length (discovery_Execute rounds now Adv services) = (rounds * length services)%nat.
Proof.
  intros Hadv. split; [|split; [done|]].
  - revert now. induction rounds as [|n IH]; intros now k s Hk Hs; [lia|]. simpl.
    pose proof (advertise_spec now Adv services) as Ha.
    destruct (advertise now Adv services) as [done failed]. simpl in Ha.
    destruct failed; [destruct Ha as (s' & e & Hs' & He); by rewrite Hadv in He|].
    rewrite Ha. apply elem_of_app. destruct k as [|k].
    + left. apply list_elem_of_fmap. exists s. split; [f_equal; lia|done].
    + right. replace (now + Z.of_nat (S k) * advertise_wait)%Z
        with ((now + advertise_wait) + Z.of_nat k * advertise_wait)%Z by lia.
      apply IH; [lia|done].
  - revert now. induction rounds as [|n IH]; intros now; [done|]. simpl.
    pose proof (advertise_spec now Adv services) as Ha.
    destruct (advertise now Adv services) as [done failed]. simpl in Ha.
    destruct failed; [destruct Ha as (s' & e & Hs' & He); by rewrite Hadv in He|].
    by rewrite length_app, IH, Ha, length_fmap.
Qed.

Lemma client_get_first_witness :
  client_Get (mkClient ["msuite"] (mkAddrInfo "self" [])) (λ t d, Ok (mkConn t d))
    (λ p, if decide (ID p = "down") then Some "refused" else None)
    (λ _, inr (Found <$> [mkAddrInfo "down" []; mkAddrInfo "up" []])) "other"
  = Ok (mkConn "up" P2PDialer).
Proof.
  destruct (client_get_first (mkClient ["msuite"] (mkAddrInfo "self" [])) (λ t d, Ok (mkConn t d))
    (λ p, if decide (ID p = "down") then Some "refused" else None)
    (λ _, inr (Found <$> [mkAddrInfo "down" []; mkAddrInfo "up" []])) "other") as [_ H].
  rewrite (H [mkAddrInfo "down" []; mkAddrInfo "up" []] []); [reflexivity| |reflexivity].
  simpl. set_solver.
Defined.

Lemma advertised_in_time_witness :
  (787500000000%Z, "msuite") ∈ discovery_Execute 2 0 (λ _ _, None) ["msuite"].
Proof.
  destruct (advertised_in_time 2 0 (λ _ _, None) ["msuite"]) as [H _]; [done|].
  apply (H 1%nat "msuite"); [lia|left].
Defined.
