(* ===== verification/StaticDial.v ===== *)
(** * Static addresses: the dialer of [modules/grpc/client/client.go] on real
      addresses

    The dialer of the static client decides by [net.ParseIP] whether an address
    is dialled over TCP; [net.Dial] wants a host and a port.  Both functions of
    Go's [net] package are modelled here, on the bytes of an address, and put
    together with the dialer of [Client]. *)

From S2P Require Import Prelude Utf8 Json JsonText Files Config Mesher Client.
Local Open Scope Z_scope.

(** ** [net.ParseIP] *)

Definition dot : Z := 46.
Definition colon : Z := 58.

Definition is_digit (c : Z) : bool := (48 <=? c) && (c <=? 57).

Definition hex_value (c : Z) : option Z :=
  if is_digit c then Some (c - 48)
  else if (97 <=? c) && (c <=? 102) then Some (c - 97 + 10)
  else if (65 <=? c) && (c <=? 70) then Some (c - 65 + 10)
  else None.

(** Values from here on are refused. *)
Definition big : Z := 16777215.

(** [dtoi] and [xtoi]: the value of the digits in front, how many bytes they
    are, and whether there is a value. *)
Fixpoint number (base : Z) (value : Z → option Z) (n : Z) (i : nat) (s : list Z) : Z * nat * bool :=
  match s with
  | c :: s' =>
    match value c with
    | Some d =>
      let n' := n * base + d in
      if big <=? n' then (big, i, false) else number base value n' (S i) s'
    | None => (n, i, negb (i =? 0)%nat)
    end
  | [] => (n, i, negb (i =? 0)%nat)
  end.

Definition dtoi : list Z → Z * nat * bool :=
  number 10 (λ c, if is_digit c then Some (c - 48) else None) 0 0.
Definition xtoi : list Z → Z * nat * bool := number 16 hex_value 0 0.

(** The loop of [parseIPv4]: [k] numbers are left to read; [first] is whether
    this is the first one. *)
Fixpoint parseIPv4_from (k : nat) (first : bool) (s : list Z) : bool :=
  match k with
  | O => bool_decide (s = [])
  | S k =>
    match s with
    | [] => false
    | c :: s' =>
      if negb first && negb (c =? dot) then false
      else let s := if first then s else s' in
        let '(n, i, ok) := dtoi s in
        if negb ok || (255 <? n) then false
        else if (1 <? i)%nat && bool_decide (head s = Some 48) then false
        else parseIPv4_from k false (drop i s)
    end
  end.

Definition parseIPv4 (s : list Z) : bool := parseIPv4_from 4 true s.

(** The loop of [parseIPv6]: [k] groups of two bytes are left, so that the
    index [i] of the code is [16 - 2 * k]; [ellipsis]: one has been seen. *)
Fixpoint parseIPv6_from (k : nat) (ellipsis : bool) (s : list Z) : bool :=
  match k with
  | O => bool_decide (s = []) && negb ellipsis
  | S k' =>
    let '(n, c, ok) := xtoi s in
    if negb ok || (65535 <? n) then false
    else if bool_decide (s !! c = Some dot) then
      if negb ellipsis && negb (k =? 2)%nat then false
      else if (k <? 2)%nat then false
      else parseIPv4 s && (if (k =? 2)%nat then negb ellipsis else ellipsis)
    else match drop c s with
         | [] => if (k' =? 0)%nat then negb ellipsis else ellipsis
         | b :: s1 =>
           if negb (b =? colon) || bool_decide (s1 = []) then false
           else match s1 with
                | b1 :: s2 =>
                  if b1 =? colon then
                    if ellipsis then false
                    else match s2 with
                         | [] => negb (k' =? 0)%nat
                         | _ => parseIPv6_from k' true s2
                         end
                  else parseIPv6_from k' ellipsis s1
                | [] => false
                end
         end
  end.

Definition parseIPv6 (s : list Z) : bool :=
  match s with
  | a :: b :: s' =>
    if (a =? colon) && (b =? colon) then
      match s' with [] => true | _ => parseIPv6_from 8 true s' end
    else parseIPv6_from 8 false s
  | _ => parseIPv6_from 8 false s
  end.

(** The first dot or colon decides. *)
Fixpoint ParseIP_from (s rest : list Z) : bool :=
  match rest with
  | [] => false
  | c :: rest =>
    if c =? dot then parseIPv4 s
    else if c =? colon then parseIPv6 s
    else ParseIP_from s rest
  end.

(** Whether [net.ParseIP] gives an address. *)
Definition ParseIP (s : string) : bool := ParseIP_from (bytes_of s) (bytes_of s).

(** ** [net.SplitHostPort] *)

(** The positions of the last and of the first occurrence of a byte. *)
Fixpoint last_index (b : Z) (s : list Z) : option nat :=
  match s with
  | [] => None
  | c :: s =>
    match last_index b s with
    | Some i => Some (S i)
    | None => if c =? b then Some 0%nat else None
    end
  end.

Fixpoint first_index (b : Z) (s : list Z) : option nat :=
  match s with
  | [] => None
  | c :: s => if c =? b then Some 0%nat else S <$> first_index b s
  end.

Definition lbrack : Z := 91.
Definition rbrack : Z := 93.

Definition split_host_port (s : list Z) : error + (list Z * list Z) :=
  let finish host j k i :=
    if bool_decide (lbrack ∈ drop j s) then inl "unexpected '[' in address"
    else if bool_decide (rbrack ∈ drop k s) then inl "unexpected ']' in address"
    else inr (host, drop (S i) s) in
  match last_index colon s with
  | None => inl "missing port in address"
  | Some i =>
    if bool_decide (head s = Some lbrack) then
      match first_index rbrack s with
      | None => inl "missing ']' in address"
      | Some end_ =>
        if (S end_ =? length s)%nat then inl "missing port in address"
        else if (S end_ =? i)%nat then finish (take (end_ - 1) (drop 1 s)) 1%nat (S end_) i
        else if bool_decide (s !! S end_ = Some colon) then inl "too many colons in address"
        else inl "missing port in address"
      end
    else
      let host := take i s in
      if bool_decide (colon ∈ host) then inl "too many colons in address"
      else finish host 0%nat 0%nat i
  end.

Definition SplitHostPort (s : string) : error + (string * string) :=
  match split_host_port (bytes_of s) with
  | inl e => inl e
  | inr (host, port) => inr (string_of host, string_of port)
  end.

(** ** Lemmas *)

(** How many colons there are. *)
Definition colons (s : list Z) : nat := length (filter (λ c, c = colon) s).

Lemma colons_cons c s : colons (c :: s) = ((if decide (c = colon) then 1 else 0) + colons s)%nat.
Proof. unfold colons. rewrite filter_cons. by case_decide. Qed.

Lemma colons_app s s' : colons (s ++ s') = (colons s + colons s')%nat.
Proof. unfold colons. by rewrite filter_app, length_app. Qed.

(** Digits are no colons. *)
Definition plain_digits (value : Z → option Z) : Prop := value colon = None.

Lemma number_colons base value : plain_digits value → ∀ s n i m j ok,
  number base value n i s = (m, j, ok) → (i ≤ j)%nat ∧ colons (take (j - i) s) = 0%nat.
Proof.
  intros Hp. induction s as [|c s IH]; intros n i m j ok; simpl.
  { intros [= _ <- _]. split; [done|]. by rewrite take_nil. }
  destruct (value c) as [d|] eqn:Hc; [|intros [= _ <- _]; by rewrite Nat.sub_diag].
  destruct (big <=? n * base + d); [intros [= _ <- _]; by rewrite Nat.sub_diag|].
  intros [Hle Hz]%IH. split; [lia|]. replace (j - i)%nat with (S (j - S i)) by lia. simpl.
  rewrite colons_cons, decide_False, Hz; [done|]. intros ->. by rewrite Hp in Hc.
Qed.

Lemma dtoi_colons s n i ok : dtoi s = (n, i, ok) → colons (take i s) = 0%nat.
Proof. intros [_ H]%number_colons; [|done]. by rewrite Nat.sub_0_r in H. Qed.

Lemma xtoi_colons s n i ok : xtoi s = (n, i, ok) → colons s = colons (drop i s).
Proof.
  intros [_ H]%number_colons; [|done]. rewrite Nat.sub_0_r in H.
  rewrite <- (take_drop i s) at 1. by rewrite colons_app, H.
Qed.

(** An IPv4 address has no colon. *)
Lemma parseIPv4_colons k : ∀ first s, parseIPv4_from k first s = true → colons s = 0%nat.
Proof.
  induction k as [|k IH]; intros first s; simpl; [by intros ->%bool_decide_eq_true|].
  destruct s as [|c s']; [done|].
  destruct (negb first && negb (c =? dot)) eqn:Hdot; [done|].
  set (s := if first then c :: s' else s').
  destruct (dtoi s) as [[n i] ok] eqn:Hd. repeat (case_match; [done|]). intros Hr%IH.
  assert (colons s = 0%nat) as Hs.
  { rewrite <- (take_drop i s), colons_app, Hr. by rewrite (dtoi_colons _ _ _ _ Hd). }
  subst s. destruct first; [done|]. simpl in Hdot. apply negb_false_iff, Z.eqb_eq in Hdot as ->.
  by rewrite colons_cons.
Qed.

(** Without an ellipsis so far, either one comes or there are colons between
    all the groups. *)
Lemma parseIPv6_colons k : ∀ s, parseIPv6_from k false s = true →
  (2 ≤ colons s ∨ k ≤ colons s + 2)%nat.
Proof.
  induction k as [|k IH]; intros s; [lia|]. cbn [parseIPv6_from].
  destruct (xtoi s) as [[n c] ok] eqn:Hx. rewrite (xtoi_colons _ _ _ _ Hx).
  destruct (negb ok || _); [done|]. case_bool_decide as Hdot.
  { destruct (Nat.eqb_spec (S k) 2); [lia|done]. }
  destruct (drop c s) as [|b s1]; [destruct (Nat.eqb_spec k 0); [lia|done]|].
  destruct (Z.eqb_spec b colon) as [->|]; [|done]. simpl.
  destruct s1 as [|b1 s2]; [done|]. rewrite colons_cons, decide_True by done.
  case_bool_decide; [done|]. destruct (Z.eqb_spec b1 colon) as [->|].
  - intros _. rewrite colons_cons, decide_True by done. lia.
  - intros [?|?]%IH; lia.
Qed.

Lemma parseIPv6_two s : parseIPv6 s = true → (2 ≤ colons s)%nat.
Proof.
  assert (parseIPv6_from 8 false s = true → (2 ≤ colons s)%nat) as Hn.
  { intros [?|?]%parseIPv6_colons; lia. }
  unfold parseIPv6. destruct s as [|a [|b s]]; [done..|].
  destruct (Z.eqb_spec a colon) as [->|]; [|done]. destruct (Z.eqb_spec b colon) as [->|]; [|done].
  intros _. rewrite !colons_cons, !decide_True by done. lia.
Qed.

(** An address does not start with a bracket. *)
Lemma parse_bracket s : parseIPv6 (lbrack :: s) = false.
Proof. by destruct s. Qed.

(** What [ParseIP] accepts. *)
Lemma ParseIP_from_spec rest : ∀ s, ParseIP_from s rest = true → parseIPv4 s = true ∨ parseIPv6 s = true.
Proof. induction rest as [|c rest IH]; intros s; simpl; [done|]. repeat case_match; eauto. Qed.

Lemma last_index_None b s : last_index b s = None ↔ b ∉ s.
Proof.
  induction s as [|c s IH]; simpl; [set_solver|]. destruct (last_index b s) as [i|].
  - split; [done|]. rewrite elem_of_cons. intros H. exfalso. apply H. right. apply dec_stable.
    rewrite <- IH. done.
  - destruct (Z.eqb_spec c b) as [->|]; [set_solver|]. rewrite elem_of_cons. split; [|done].
    intros _ [?|?]; [congruence|]. by apply IH.
Qed.

Lemma last_index_Some b s i : last_index b s = Some i →
  s !! i = Some b ∧ b ∉ drop (S i) s.
Proof.
  revert i. induction s as [|c s IH]; intros i; simpl; [done|].
  destruct (last_index b s) as [j|] eqn:E; [intros [= <-]; by apply IH|].
  destruct (Z.eqb_spec c b) as [->|]; [|done]. intros [= <-]. split; [done|].
  by apply last_index_None.
Qed.

Lemma colons_elem s : colon ∈ s ↔ (0 < colons s)%nat.
Proof.
  induction s as [|c s IH]; [by split; [intros ?%not_elem_of_nil|intros ?%Nat.lt_irrefl]|].
  rewrite elem_of_cons, colons_cons, IH. case_decide; naive_solver lia.
Qed.

(** A host and a port have one colon between them; two colons need brackets. *)
Lemma split_no_colon s : colons s = 0%nat → ∃ e, split_host_port s = inl e.
Proof.
  intros Hc. unfold split_host_port. destruct (last_index colon s) as [i|] eqn:E; [|eauto].
  apply last_index_Some in E as [Hi _]. apply list_elem_of_lookup_2, colons_elem in Hi. lia.
Qed.

Lemma split_two_colons s : head s ≠ Some lbrack → (2 ≤ colons s)%nat → ∃ e, split_host_port s = inl e.
Proof.
  intros Hh Hc. unfold split_host_port. destruct (last_index colon s) as [i|] eqn:E; [|eauto].
  rewrite bool_decide_false by done. rewrite bool_decide_true; [eauto|].
  apply last_index_Some in E as [Hi Hn]. apply colons_elem.
  rewrite <- (take_drop i s), colons_app, (drop_S _ _ _ Hi), colons_cons, decide_True in Hc by done.
  assert (colons (drop (S i) s) = 0%nat); [|lia].
  destruct (colons (drop (S i) s)) eqn:E; [done|]. exfalso. apply Hn, colons_elem. lia.
Qed.

(** An address that [net.ParseIP] accepts has no port. *)
Lemma ip_has_no_port addr : ParseIP addr = true → ∃ e, SplitHostPort addr = inl e.
Proof.
  unfold ParseIP, SplitHostPort. intros Hp%ParseIP_from_spec.
  assert (∃ e, split_host_port (bytes_of addr) = inl e) as [e ->]; [|eauto].
  destruct Hp as [Hp|Hp].
  - apply split_no_colon. by eapply parseIPv4_colons.
  - apply split_two_colons; [|by apply parseIPv6_two].
    destruct (bytes_of addr) as [|c s]; [done|]. intros [= ->]. by rewrite parse_bracket in Hp.
Qed.

(** ** Property *)

(** A static address is never dialled over TCP with success.  [net.Dial]
    wants a host and a port, but the dialer chooses TCP only for addresses that
    [net.ParseIP] accepts, and these have no port; so every connection it makes
    is one to a unix socket that exists, and an address such as
    [10.0.0.1:8080] is refused. *)
Theorem static_never_tcp Stat net_Dial ctx_done addr :
  (∀ a e, SplitHostPort a = inl e → ∃ e', net_Dial "tcp" a = Err e') →
  (∀ c, static_dialer ParseIP Stat net_Dial ctx_done addr = Ok c →
     ParseIP addr = false ∧ Stat addr = true ∧ net_Dial "unix" addr = Ok c) ∧
  (∀ host port, SplitHostPort addr = inr (host, port) → Stat addr = false →
     ∃ e, static_dialer ParseIP Stat net_Dial ctx_done addr = Err e).
Proof.
  intros Hdial. unfold static_dialer. destruct ctx_done as [err|]; [by split; eauto|].
  destruct (ParseIP addr) eqn:Hp.
  - destruct (ip_has_no_port addr Hp) as [e He]. destruct (Hdial addr e He) as [e' ->]. by split; eauto.
  - destruct (Stat addr); [by split|]. by split; eauto.
Qed.

(** ** Examples and witness *)

Example parse_addresses :
  ParseIP <$> ["10.0.0.1"; "::1"; "fe80::1:2"; "1:2:3:4:5:6:7:8"; "::ffff:10.0.0.1"; "1:2:3:4:5:6:10.0.0.1"] =
    replicate 6 true ∧
  ParseIP <$> ["10.0.0.1:80"; "[::1]:80"; "10.0.0.256"; "10.0.0.01"; "1:2"; "1::2::3"; "1:2:3:4:5:6:7::8"; "localhost"] =
    replicate 8 false.
Proof. by vm_compute. Qed.

Example split_addresses :
  SplitHostPort "10.0.0.1:80" = inr ("10.0.0.1", "80") ∧ SplitHostPort "[::1]:80" = inr ("::1", "80") ∧
  SplitHostPort "10.0.0.1" = inl "missing port in address" ∧
  SplitHostPort "::1" = inl "too many colons in address".
Proof. by vm_compute. Qed.

(** A network where everything that has a port can be dialled, and a socket. *)
Definition sample_net_Dial (network addr : string) : res nat :=
  if decide (network = "tcp") then match SplitHostPort addr with inl e => Err e | inr _ => Ok 1%nat end
  else Ok 2%nat.

Lemma static_never_tcp_witness :
  static_dialer ParseIP (λ a, bool_decide (a = "/tmp/sock")) sample_net_Dial None "/tmp/sock" = Ok 2%nat ∧
  (∀ c, static_dialer ParseIP (λ a, bool_decide (a = "/tmp/sock")) sample_net_Dial None "10.0.0.1" ≠ Ok c) ∧
  ∃ e, static_dialer ParseIP (λ a, bool_decide (a = "/tmp/sock")) sample_net_Dial None "10.0.0.1:80" = Err e.
Proof.
  assert (∀ a e, SplitHostPort a = inl e → ∃ e', sample_net_Dial "tcp" a = Err e') as Hd.
  { intros a e H. exists e. unfold sample_net_Dial. simpl. by rewrite H. }
  split; [by vm_compute|]. split.
  - intros c Hc. apply (static_never_tcp _ _ _ _ Hd) in Hc as [Hp _]. by vm_compute in Hp.
  - destruct (static_never_tcp (λ a, bool_decide (a = "/tmp/sock")) sample_net_Dial None "10.0.0.1:80" Hd)
      as [_ H].
    apply (H "10.0.0.1" "80"); by vm_compute.
Defined.
