(* ===== verification/Services.v ===== *)
(** * Constructors of the node's services

    What the node builds from its configuration: the task manager
    ([modules/node/node.go]), the locker ([modules/node/locker/handler.go]), the
    tracer ([modules/diag/metrics/metrics.go]), the gRPC listeners
    ([modules/node/grpc/transport.go]), the identity ([modules/node/ipfs]), and
    the HTTP server ([modules/node/http/http.go]).  The packages they call are
    arguments. *)

From S2P Require Import Prelude Utf8 Json JsonText Files Config Base64 Options Acl Jwt AuthGate.
From S2P Require Import Datastore FsRepo Client.

(** ** Task manager *)

(** [taskmanager.New(min, max, ..)], by its bounds. *)
Record TaskManager := mkTM { tm_min : Z; tm_max : Z }.

Definition NewTaskManager (cfg : JsonConfig) : res TaskManager :=
  let tmCfg :=
    match Get "TMWorkers" (Some (∅ : gmap string Z)) cfg with
    | (m, true) => default ∅ m
    | (m, false) => <["Max" := 20%Z]> (<["Min" := 0%Z]> (default ∅ m))
    end in
  let at_ k := default 0%Z (tmCfg !! k) in
  if (at_ "Max" <=? 0)%Z then Err "invalid config for taskmanager workers"
  else Ok (mkTM (at_ "Min") (at_ "Max")).

(** ** Locker *)

Inductive DLocker := MemLocker | ZkLocker (host : string) (port : Z) | RedisLocker (netw host : string).

(** The locker, and whether its closing hook was added. *)
Definition NewLocker (NewZkLocker : string → Z → res unit) (c : JsonConfig) : res (DLocker * bool) :=
  match Get "Locker" "" c with
  | (_, false) => Err "Locker not configured"
  | (lk, true) =>
    if decide (lk = "inmem") then Ok (MemLocker, true)
    else if decide (lk = "zookeeper") then
      match Get "ZookeeperHost" "" c with
      | (_, false) => Err "Zookeeper host absent"
      | (host, true) =>
        match Get "ZookeeperPort" 0%Z c with
        | (_, false) => Err "Zookeeper port absent"
        | (port, true) => _ ← NewZkLocker host port; Ok (ZkLocker host port, true)
        end
      end
    else if decide (lk = "redis") then
      match Get "RedisHost" "" c with
      | (_, false) => Err "Redis host absent"
      | (host, true) =>
        match Get "RedisNetwork" "" c with
        | (_, false) => Err "Redis host absent"
        | (netw, true) => Ok (RedisLocker netw host, true)
        end
      end
    else Err "Invalid locker handler"
  end.

(** ** Tracer *)

(** The service name and the host the Jaeger tracer is made with. *)
Definition NewTracer (NewJaegerTracer : string → string → res unit) (conf : JsonConfig) :
    res (string * string) :=
  let svcName := (Get "TracingName" "default" conf).1 in
  match Get "TracingHost" "" conf with
  | (_, false) => Err "Tracing host not specified"
  | (tHost, true) => _ ← NewJaegerTracer svcName tHost; Ok (svcName, tHost)
  end.

(** ** gRPC listeners *)

(** A listener the multiplexer can start: its tag, and the network and address
    it listens on. *)
Record MuxListenerOut := mkMuxOut { out_Tag : string; out_network : string; out_address : string }.

Definition NewTCPListener (conf : JsonConfig) : res MuxListenerOut :=
  match Get "TCPPort" 0%Z conf with
  | (_, false) => Err "Port absent"
  | (portVal, true) => Ok (mkMuxOut ("TCP Port " +:+ itoa portVal) "tcp" (":" +:+ itoa portVal))
  end.

Definition NewP2PListener (h : string) : res MuxListenerOut :=
  Ok (mkMuxOut "P2PGrpc" h p2pgrpc_Protocol).

Definition NewUDSListener (conf : JsonConfig) : res MuxListenerOut :=
  match Get "UDSocket" "" conf with
  | (_, false) => Err "socket absent"
  | (sock, true) => Ok (mkMuxOut ("UDS Sock " +:+ sock) "unix" sock)
  end.

(** ** Identity *)

Definition Identity {K : Type} (UnmarshalPrivateKey : string → res K) (conf : JsonConfig) : res K :=
  match Get "Identity" (Some (∅ : gmap string goval)) conf with
  | (_, false) => Err "Identity info missing"
  | (id, true) =>
    match default ∅ id !! "PrivKey" with
    | None => Err "Private key missing"
    | Some (GString privKeyStr) =>
      pkBytes ← DecodeString privKeyStr; UnmarshalPrivateKey pkBytes
    | Some _ => Panic "interface conversion: interface {} is not string"
    end
  end.

(** ** HTTP server *)

Definition handler (R : Type) : Type := request → outcome R.
Definition Middleware (R : Type) : Type := handler R → handler R.

(** The middlewares are applied in turn: the last one is outermost. *)
Definition rootHandler {R : Type} (mux : handler R) (Mwares : list (Middleware R)) : handler R :=
  foldl (λ h v, v h) mux Mwares.

(** The address and the handler of the server. *)
Definition NewHTTPServer {R : Type} (c : JsonConfig) (mux : handler R) (Mwares : list (Middleware R)) :
    res (string * handler R) :=
  match Get "HTTPPort" 0%Z c with
  | (_, false) => Err "HTTP Port not provided"
  | (httpPort, true) => Ok (":" +:+ itoa httpPort, rootHandler mux Mwares)
  end.

(** [JWT] as a middleware. *)
Definition JWT_middleware {R : Type} (jm : JWTManager) (am : ACL) : Middleware R := λ next r,
  match JWT jm am next r with
  | Served x => x
  | HttpError code msg => HttpError code msg
  end.

(** The gateway's response option: a redirect for the gRPC header. *)
Definition responseHeaderMatcher (headers : gmap string (list string)) :
    res (gmap string (list string) * option Z) :=
  match headers !! "Grpc-Metadata-Location" with
  | None => Ok (headers, None)
  | Some (l :: _) => Ok (<["Location" := [l]]> headers, Some 302%Z)
  | Some [] => Panic "index out of range"
  end.

(** ** Lemmas *)

(** Reading a stored string. *)
Lemma Get_string key s old c : map_get c key = Some (GString s) → Get key old c = (to_valid_utf8 s, true).
Proof. intros H. by rewrite (Get_tree key old c _ _ H eq_refl). Qed.

Lemma Get_string_int key s (old : Z) c : map_get c key = Some (GString s) → Get key old c = (old, false).
Proof. intros H. by rewrite (Get_tree key old c _ _ H eq_refl). Qed.

Lemma set_all_lookup kvs : ∀ m,
  NoDup kvs.*1 →
  ∃ m', set_all kvs (Some m) = Ok (Some m') ∧
    ∀ k, m' !! k = match list_to_map (M:=gmap string string) kvs !! k with
                   | Some v => Some (GString v)
                   | None => m !! k
                   end.
Proof.
  induction kvs as [|[k v] kvs IH]; intros m; [by exists m|].
  rewrite fmap_cons, NoDup_cons. intros [Hni Hnd].
  destruct (IH (<[k := GString v]> m) Hnd) as (m' & Hm' & Hl). exists m'. split; [done|].
  intros k'. rewrite Hl. simpl. destruct (decide (k = k')) as [<-|Hne].
  - rewrite lookup_insert_eq, not_elem_of_list_to_map_1 by done. by rewrite lookup_insert_eq.
  - by rewrite !lookup_insert_ne.
Qed.

Lemma WithLocker_lookup lkr cfg m c k :
  WithLocker lkr cfg (Some m) = Ok c → k ≠ "UseLocker" →
  map_get c k = match cfg !! k with
                | Some v => Some (GString v)
                | None => if decide (k = "Locker") then Some (GString lkr) else m !! k
                end.
Proof.
  intros Hw Hk. unfold WithLocker, seq_, set_ in Hw. rewrite Set_default_get in Hw. simpl in Hw.
  destruct (set_all_lookup (map_to_list cfg) (<["Locker" := GString lkr]> (<["UseLocker" := GBool true]> m)))
    as (m' & Hm' & Hl); [apply NoDup_fst_map_to_list|].
  assert (c = Some m') as -> by (apply (inj Ok); rewrite <- Hw, <- Hm'; done).
  simpl. rewrite Hl, list_to_map_to_list. destruct (cfg !! k); [done|].
  case_decide as E; [by rewrite E, lookup_insert_eq|]. by rewrite !lookup_insert_ne.
Qed.

(** The private key in an identity record. *)
Lemma Identity_record {K} (U : string → res K) c skbytes id :
  map_get c "Identity" = Some (identity_record skbytes id) → Identity U c = U skbytes.
Proof.
  intros Hc. unfold Identity.
  rewrite (Get_tree "Identity" (Some (∅ : gmap string goval)) c _
    (JObj [("ID", jstr id); ("PrivKey", jstr (EncodeToString skbytes))]) Hc eq_refl).
  cbn -[lookup insert]. rewrite lookup_insert_eq, EncodeToString_utf8, DecodeString_EncodeToString. done.
Qed.

Lemma Identity_Get {K} (U : string → res K) c c' :
  Get "Identity" (Some (∅ : gmap string goval)) c = Get "Identity" (Some (∅ : gmap string goval)) c' →
  Identity U c = Identity U c'.
Proof. unfold Identity. by intros ->. Qed.

(** A middleware that only adds to what it wraps: a request it serves was
    served by the wrapped handler. *)
Definition transparent {R} (v : Middleware R) : Prop := ∀ h r x, v h r = Served x → h r = Served x.

Lemma rootHandler_served {R} (mux : handler R) ms r x :
  Forall transparent ms → rootHandler mux ms r = Served x → mux r = Served x.
Proof.
  unfold rootHandler. revert mux. induction ms as [|v ms IH]; intros mux Hall; [done|].
  inversion Hall; subst. simpl. intros H. by eauto.
Qed.

Lemma JWT_transparent {R} jm am : transparent (JWT_middleware (R:=R) jm am).
Proof.
  intros h r x. unfold JWT_middleware. destruct (JWT jm am h r) as [y|] eqn:E; [|done].
  intros ->. symmetry. by eapply JWT_served.
Qed.

(** ** Properties *)

(** Which lockers the start-up options can configure: the in-memory locker
    always, redis when host and network are given, and zookeeper never, because
    the option stores the port as a string and the constructor asks for an
    integer. *)
Theorem locker_from_options zk lkr cfg m c :
  WithLocker lkr cfg (Some m) = Ok c → cfg !! "Locker" = None →
  (lkr = "inmem" → NewLocker zk c = Ok (MemLocker, true)) ∧
  (lkr = "redis" → ∀ host netw, cfg !! "RedisHost" = Some host → cfg !! "RedisNetwork" = Some netw →
     NewLocker zk c = Ok (RedisLocker (to_valid_utf8 netw) (to_valid_utf8 host), true)) ∧
  (lkr = "zookeeper" → ∀ host port,
     cfg !! "ZookeeperHost" = Some host → cfg !! "ZookeeperPort" = Some port →
     NewLocker zk c = Err "Zookeeper port absent").
Proof.
  intros Hw Hl.
  assert (∀ k v, cfg !! k = Some v → k ≠ "UseLocker" → map_get c k = Some (GString v)) as Hget.
  { intros k v Hk Hne. rewrite (WithLocker_lookup lkr cfg m c k Hw Hne). by rewrite Hk. }
  assert (Get "Locker" "" c = (to_valid_utf8 lkr, true)) as HL.
  { apply Get_string. rewrite (WithLocker_lookup lkr cfg m c "Locker" Hw) by done.
    by rewrite Hl, decide_True. }
  unfold NewLocker. rewrite HL. split_and!; intros ->.
  - done.
  - intros host netw Hh Hn.
    rewrite (Get_string _ _ "" c (Hget _ _ Hh ltac:(done))).
    by rewrite (Get_string _ _ "" c (Hget _ _ Hn ltac:(done))).
  - intros host port Hh Hp.
    rewrite (Get_string _ _ "" c (Hget _ _ Hh ltac:(done))).
    by rewrite (Get_string_int _ _ 0%Z c (Hget _ _ Hp ltac:(done))).
Qed.

Definition sample_zk : gmap string string :=
  {[ "ZookeeperHost" := "localhost"; "ZookeeperPort" := "2181" ]}.
Definition sample_zk_config : JsonConfig :=
  Some {[ "UseLocker" := GBool true; "Locker" := GString "zookeeper";
          "ZookeeperHost" := GString "localhost"; "ZookeeperPort" := GString "2181" ]}.

Lemma locker_from_options_witness :
  NewLocker (λ _ _, Ok ()) sample_zk_config = Err "Zookeeper port absent".
Proof.
  destruct (locker_from_options (λ _ _, Ok ()) "zookeeper" sample_zk ∅ sample_zk_config) as (_ & _ & H).
  - reflexivity.
  - reflexivity.
  - apply (H eq_refl "localhost" "2181"); reflexivity.
Defined.

(** The identity survives.  After [Init] of a repository without one, the
    key the P2P host starts with is the generated key, both from the
    configuration in memory and from the one any later start reads from
    disk. *)
Theorem identity_survives {K} (U : string → res K) env p c w m w1 sk id saved :
  Init env p c w = (Ok (Some m), w1) → (Get "Identity" (Some (∅ : gmap string goval)) c).2 = false →
  new_key env = Ok sk → new_id env = Ok id → wf_config m →
  FromFile (configPath p) (wfs w1) = Ok saved →
  Identity U (Some m) = U sk ∧ Identity U saved = U sk.
Proof.
  intros HI Hno Hk Hi Hwf Hsaved.
  assert (map_get (Some m) "Identity" = Some (identity_record sk id)) as Hm.
  { pose proof (Init_result _ _ _ _ _ _ HI) as HR. rewrite Hno in HR.
    unfold initIdentity, mbind, res_mbind, res_bind in HR. rewrite Hk, Hi in HR.
    rewrite (Set_get _ _ _ _ "Identity" HR). by rewrite decide_True. }
  apply Init_Ok in HI as (_ & _ & text & HR & Hread).
  assert (FromFile (configPath p) (wfs w1) = Ok (Some (reloaded m))) as HF.
  { eapply FromFile_spec; [done|]. by eapply close_reloaded. }
  rewrite HF in Hsaved. apply (inj Ok) in Hsaved as <-. split; [by eapply Identity_record|].
  rewrite <- (Identity_record U (Some m) sk id Hm). apply Identity_Get. by apply Get_reloaded.
Qed.

Lemma identity_survives_witness :
  Identity (λ b, Ok (String.length b)) (Some sample_saved) = Ok 3%nat.
Proof.
  apply (identity_survives (λ b, Ok (String.length b)) sample_repo_env "repo" sample_root sample_world
    sample_saved sample_init "key" "id" (Some (reloaded sample_saved))).
  - apply sample_init_saved.
  - by vm_compute.
  - reflexivity.
  - reflexivity.
  - refine (bool_decide_unpack _ _). by vm_compute.
  - by vm_compute.
Defined.

(** The bounds of the task manager: 0 and 20 when nothing is configured;
    otherwise the option's minimum and its maximum, where a maximum below 20 is
    raised by 20, and the start fails when the result is not positive. *)
Theorem task_manager_bounds min max m c :
  (m !! "TMWorkers" = None → NewTaskManager (Some m) = Ok (mkTM 0 20)) ∧
  (WithTaskManager min max (Some m) = Ok c → in_int64 min = true → in_int64 max = true →
   let max' := (if (max <? 20)%Z then max + 20 else max)%Z in
   NewTaskManager c = if (max' <=? 0)%Z then Err "invalid config for taskmanager workers"
                      else Ok (mkTM min max')).
Proof.
  split.
  - intros Hm. unfold NewTaskManager. by rewrite Get_absent.
  - unfold WithTaskManager, set_. rewrite Set_default_get. intros <-%(inj Ok) Hmin Hmax.
    set (max' := (if (max <? 20)%Z then max + 20 else max)%Z). unfold NewTaskManager.
    assert (in_int64 max' = true) as Hmax'.
    { apply in_int64_true in Hmax. apply in_int64_true. unfold max', int64_min, int64_max in *.
      destruct (Z.ltb_spec max 20); lia. }
    assert (map_get (Some (<["TMWorkers" := GMapInt (Some (<["Min" := min]> {["Max" := max']}))]> m))
      "TMWorkers" = Some (GMapInt (Some (<["Min" := min]> {["Max" := max']})))) as Hk
      by apply lookup_insert_eq.
    rewrite (Get_tree "TMWorkers" (Some ∅) _ _ (JObj [("Max", JNum max'); ("Min", JNum min)]) Hk eq_refl).
    cbn -[lookup insert in_int64 Z.leb]. rewrite Hmax', Hmin. cbn -[lookup insert Z.leb].
    by rewrite lookup_insert_eq, lookup_insert_ne, lookup_insert_eq.
Qed.

Lemma task_manager_bounds_witness :
  ∃ c, WithTaskManager 2 5 (Some ∅) = Ok c ∧ NewTaskManager c = Ok (mkTM 2 25).
Proof.
  destruct (task_manager_bounds 2 5 ∅ (Some {[ "TMWorkers" := GMapInt (Some {[ "Min" := 2; "Max" := 25 ]}) ]}%Z))
    as [_ H].
  eexists. split; [|apply H; reflexivity]. reflexivity.
Defined.

(** A request that a server with the [JWT] middleware serves was admitted by the
    gate, whatever else is around it, as long as the other middlewares serve
    only what the handler they wrap serves. *)
Lemma http_server_gated {R} c (mux : handler R) jm am before after addr root r x :
  NewHTTPServer c mux (before ++ JWT_middleware jm am :: after) = Ok (addr, root) →
  Forall transparent before → Forall transparent after →
  root r = Served x →
  admitted am (URL_String r) (verified jm (http_token r)) ∧ mux r = Served x.
Proof.
  unfold NewHTTPServer. destruct (Get "HTTPPort" 0%Z c) as [port []]; [|done].
  intros [= <- <-] Hb Ha Hx. unfold rootHandler in Hx. rewrite foldl_app in Hx. simpl in Hx.
  apply (rootHandler_served (JWT_middleware jm am _) after) in Hx; [|done].
  split.
  - unfold JWT_middleware in Hx. apply (JWT_admitted jm am (rootHandler mux before) r).
    unfold rootHandler. destruct (JWT jm am _ r) as [y|] eqn:E; [|done].
    f_equal. by eapply JWT_served.
  - apply (rootHandler_served mux before); [done|]. by apply JWT_transparent in Hx.
Qed.
