(* ===== verification/P2PCall.v ===== *)
(** * A gRPC call between two nodes over P2P

    [NewP2PListener] ([modules/node/grpc/transport.go]) listens on the main host
    of a node for the gRPC protocol, the multiplexer ([modules/grpc/mux/mux.go])
    takes the connections from there to the gRPC server, and the client of
    another node ([modules/grpc/client/client.go] and its dialer in
    [modules/grpc/p2pgrpc]) finds the node and dials it.  The library that makes
    streams into connections ([gostream]) is the class [Gostream]. *)

From S2P Require Import Prelude Utf8 Json JsonText Files Config Mesher Mux Client Services.

(** ** The stream library *)

(** [bound]: the listener of a host for a protocol; [backlog]: the connections
    that wait at a listener. *)
Class Gostream (N : Type) := {
  gs_Listen : string → string → N → (error + nat) * N;
  gs_Dial : string → string → ST N nat;
  bound : N → string → string → option nat;
  backlog : N → nat → list nat;
}.

Class GostreamLaws (N : Type) `{Gostream N} := {
  listen_bound h proto n l n' : gs_Listen h proto n = (inr l, n') → bound n' h proto = Some l;
  dial_arrives h proto n l c n' :
    bound n h proto = Some l → gs_Dial h proto n = (Ok c, n') → backlog n' l = backlog n l ++ [c];
}.

(** ** The two ends *)

Section call.
Context {N : Type} `{Gostream N}.


End call.

(** ** Lemmas: the multiplexer *)






(** ** Property *)


(** ** Witness *)

(** Streams over a table of listeners with their connections; names are given
    out in order. *)
Record table_net := mkNet { tn_bound : gmap (string * string) nat; tn_queue : gmap nat (list nat); tn_next : nat }.

#[export] Instance table_gostream : Gostream table_net := {|
  gs_Listen h proto n :=
    match tn_bound n !! (h, proto) with
    | Some _ => (inl "protocol already handled", n)
    | None => (inr (tn_next n), mkNet (<[(h, proto) := tn_next n]> (tn_bound n))
                                      (<[tn_next n := []]> (tn_queue n)) (S (tn_next n)))
    end;
  gs_Dial h proto n :=
    match tn_bound n !! (h, proto) with
    | None => (Err "protocol not supported", n)
    | Some l => (Ok (tn_next n), mkNet (tn_bound n)
        (<[l := default [] (tn_queue n !! l) ++ [tn_next n]]> (tn_queue n)) (S (tn_next n)))
    end;
  bound n h proto := tn_bound n !! (h, proto);
  backlog n l := default [] (tn_queue n !! l);
|}.

#[export] Instance table_gostream_laws : GostreamLaws table_net.
Proof.
  split; simpl.
  - intros h proto n l n'. destruct (tn_bound n !! (h, proto)); [done|]. intros [= <- <-]. apply lookup_insert_eq.
  - intros h proto n l c n' Hb. rewrite Hb. intros [= <- <-]. simpl. by rewrite lookup_insert_eq.
Qed.


