(* ===== verification/Host.v ===== *)
(** * The P2P host and what runs on it: [modules/node/ipfs]

    The constructors of the host, of the local dialer and of what is built on
    them ([host.go]), and the two tasks that find peers: local discovery
    ([discovery.go]) and the bootstrapper.  The peer-to-peer packages are
    arguments; hosts are the class [Host] of the mesher, extended here by dialing
    under a context. *)

From S2P Require Import Prelude Fx Utf8 Json JsonText Files Config Status Mesher.

(** ** Constructors *)

(** The options of the main host. *)
Inductive libp2p_option :=
| NATPortMap
| ConnectionManager (low high : Z) (grace : Z)   (* the grace period in seconds *)
| EnableAutoRelay
| EnableNATService
| TlsSecurity.

Definition Libp2pOptionsExtra : list libp2p_option :=
  [NATPortMap; ConnectionManager 100 500 60; EnableAutoRelay; EnableNATService; TlsSecurity].

Section constructors.
Context {W K Ctx Hst Dht : Type}.
Context (close_host : Hst → W → option error * W) (close_dht : Dht → W → option error * W).

(** The errors of closing are dropped. *)
Definition host_hook (h : Hst) (dht : Dht) : hook W :=
  mkHook None (Some (λ w, (None, (close_dht dht (close_host h w).2).2))).

(** The host, its routing, and the hook it appends. *)
Definition Libp2p (NewMultiaddr : string → error + string)
    (SetupLibp2p : Ctx → K → list string → list libp2p_option → res (Hst * Dht))
    (ctx : Ctx) (conf : JsonConfig) (priv : K) : res (Hst * Dht * hook W) :=
  match Get "SwarmPort" 0%Z conf with
  | (_, false) => Err "Swarm Port missing"
  | (swPort, true) =>
    match NewMultiaddr ("/ip4/0.0.0.0/tcp/" +:+ itoa swPort) with
    | inl e => Err ("Invalid swarm port Err:" +:+ e)
    | inr tcpAddr =>
      hd ← SetupLibp2p ctx priv [tcpAddr] Libp2pOptionsExtra;
      Ok (hd.1, hd.2, host_hook hd.1 hd.2)
    end
  end.

Definition dialer_hook (h : Hst) : hook W := mkHook None (Some (close_host h)).

(** [libp2p.New(DefaultTransports, NoListenAddrs)]: a host that does not listen. *)
Definition LocalDialer (libp2p_New : res Hst) : res (Hst * hook W) :=
  h ← libp2p_New; Ok (h, dialer_hook h).

(** [NewNode], [Pubsub] and [NewSvcDiscovery] hand their arguments on: the peer
    is not offline, and messages are flooded. *)
Definition NewNode {DS Peer : Type} (ipfslite_New : Ctx → DS → Hst → Dht → bool → res Peer)
    (ctx : Ctx) (h : Hst) (dht : Dht) (rootDS : DS) : res Peer :=
  ipfslite_New ctx rootDS h dht false.

Definition Pubsub {PS : Type} (NewGossipSub : Ctx → Hst → bool → res PS) (ctx : Ctx) (h : Hst) : res PS :=
  NewGossipSub ctx h true.

Definition NewSvcDiscovery {Disc : Type} (NewRoutingDiscovery : Dht → Disc) (r : Dht) : Disc :=
  NewRoutingDiscovery r.
End constructors.

(** ** Status *)

(** The addresses and the peers as they print. *)
Definition p2pReporter_Status {H : Type} `{Host H} (host_Addrs : H → list string) (h : H) : goval :=
  GMap [("ID", GString (host_ID h)); ("Addrs", GStrings (Some (host_Addrs h)));
        ("Peers", GStrings (Some (Peers h)))].

Definition NewP2PReporter {H : Type} `{Host H} (host_Addrs : H → list string) (h : H) (st : manager) :
    manager :=
  AddReporter "P2P Service" (p2pReporter_Status host_Addrs h) st.

(** ** Dialing under a context *)

(** [Connect] under a context that has ended, with its error, or is live. *)
Class Dialer (H : Type) `{Host H} := {
  Connect_in : option error → AddrInfo → H → option error * H;
}.

Class DialerLaws (H : Type) `{Dialer H} := {
  dial_live i h : Connect_in None i h = Connect i h;
  dial_ended e i h : Connected h (ID i) = false →
    (∃ e', (Connect_in (Some e) i h).1 = Some e') ∧
    ∀ q, Connected (Connect_in (Some e) i h).2 q = Connected h q;
}.

(** ** Local discovery *)

Definition Rendezvous : string := "/msuite/node".

(** The notifiee, on each peer that is found. *)
Definition HandlePeerFound {H : Type} `{Host H} (pi : AddrInfo) (h : H) : H :=
  (Connect pi (AddAddrs (ID pi) (Addrs pi) h)).2.

(** [NewMDNSDiscovery]: the service asks every five minutes; its notifiee. *)
Definition NewMDNSDiscovery {H : Type} `{Host H} (NewMdnsService : Z → string → res unit) :
    res (AddrInfo → H → H) :=
  _ ← NewMdnsService 300%Z Rendezvous; Ok HandlePeerFound.

(** ** The bootstrapper *)

Fixpoint parse_addrs (NewMultiaddr : string → error + string) (addrs : list string) : res (list string) :=
  match addrs with
  | [] => Ok []
  | a :: addrs =>
    match NewMultiaddr a with
    | inl e => Err e
    | inr m => ms ← parse_addrs NewMultiaddr addrs; Ok (m :: ms)
    end
  end.

Definition parseBootstrapPeers (NewMultiaddr : string → error + string)
    (AddrInfosFromP2pAddrs : list string → res (list AddrInfo)) (addrs : list string) :
    res (list AddrInfo) :=
  maddrs ← parse_addrs NewMultiaddr addrs; AddrInfosFromP2pAddrs maddrs.

(** The peers of the task that [Bootstrapper] schedules when the application
    starts; no task if the addresses are not configured. *)
Definition Bootstrapper (NewMultiaddr : string → error + string)
    (AddrInfosFromP2pAddrs : list string → res (list AddrInfo)) (cfg : JsonConfig) :
    res (option (list AddrInfo)) :=
  match Get "BootstrapAddresses" ([] : list string) cfg with
  | (addrs, true) => peers ← parseBootstrapPeers NewMultiaddr AddrInfosFromP2pAddrs addrs; Ok (Some peers)
  | (_, false) => Ok None
  end.

Section bootstrap.
Context {H : Type} `{Dialer H}.

(** One tick.  [ctx] is the context of the start hook, which the closure of the
    task has captured: it may have ended since. *)
Definition bootstrap_tick (ctx : option error) (peers : list AddrInfo) (h : H) : H :=
  foldl (λ h p,
    if Connected h (ID p) then h
    else (Connect_in ctx p (AddAddrs (ID p) (Addrs p) h)).2) h peers.

(** What the task sees: a tick of its timer, its own context ending, and, while
    it sleeps, the network changing the host. *)
Inductive event := Tick (ctx : option error) | Net (h : H) | TaskDone.

(** The task, as long as it runs: whether it has returned, and the host. *)
Fixpoint bootstrap_task (peers : list AddrInfo) (evs : list event) (h : H) : bool * H :=
  match evs with
  | [] => (false, h)
  | Tick ctx :: evs => bootstrap_task peers evs (bootstrap_tick ctx peers h)
  | Net h' :: evs => bootstrap_task peers evs h'
  | TaskDone :: _ => (true, h)
  end.
End bootstrap.
Arguments event : clear implicits.

(** The start hook: the task is refused, or the start context ends first, or
    the task is scheduled. *)
Definition bootstrap_OnStart (GoFunc ctx_done : option error) : res unit :=
  match GoFunc, ctx_done with
  | Some err, _ => Err err
  | None, Some err => Err err
  | None, None => Ok ()
  end.

(** ** Lemmas *)

Section proofs.
Context {H : Type} `{HostLaws H} `{!Dialer H} `{!DialerLaws H}.

(** Announcing and dialing a peer. *)
Lemma dial_connects i (h : H) :
  Connected (Connect i (AddAddrs (ID i) (Addrs i) h)).2 (ID i) = true ∨
  ∃ e, (Connect i (AddAddrs (ID i) (Addrs i) h)).1 = Some e.
Proof.
  destruct (Connect i (AddAddrs (ID i) (Addrs i) h)) as [[e|] h'] eqn:E; [by right; exists e|].
  left. by eapply Connect_ok.
Qed.

Lemma dial_keeps i (h : H) q :
  Connected h q = true → Connected (Connect i (AddAddrs (ID i) (Addrs i) h)).2 q = true.
Proof. intros Hq. apply Connect_keeps. by rewrite AddAddrs_connected. Qed.

Lemma tick_cons ctx p peers (h : H) :
  bootstrap_tick ctx (p :: peers) h =
  bootstrap_tick ctx peers
    (if Connected h (ID p) then h else (Connect_in ctx p (AddAddrs (ID p) (Addrs p) h)).2).
Proof. done. Qed.




Lemma tick_ended e peers : ∀ (h : H) q,
  Connected (bootstrap_tick (Some e) peers h) q = Connected h q.
Proof.
  induction peers as [|p peers IH]; intros h q; [done|]. rewrite tick_cons, IH.
  destruct (Connected h (ID p)) eqn:Hc; [done|].
  destruct (dial_ended e p (AddAddrs (ID p) (Addrs p) h)) as [_ Hd]; [by rewrite AddAddrs_connected|].
  by rewrite Hd, AddAddrs_connected.
Qed.


End proofs.

(** ** Properties *)


(** Once the context of the start hook, which the task has captured, has ended,
    no tick connects to anybody any more. *)
Theorem bootstrap_after_start {H} `{HostLaws H} `{!Dialer H} `{!DialerLaws H} peers evs e (h : H) :
  Forall (λ ev, match ev with Tick None => False | Net _ => False | _ => True end) evs →
  ∀ q, Connected (bootstrap_task peers (Tick (Some e) :: evs) h).2 q = Connected h q.
Proof.
  intros Hevs q. simpl. rewrite <- (tick_ended e peers h q). generalize (bootstrap_tick (Some e) peers h).
  induction Hevs as [|[[e'|]|h'|] evs Hev _ IH]; intros h1; try done. simpl. by rewrite IH, tick_ended.
Qed.

(** A peer found by local discovery is connected afterwards, unless the dial
    failed, and no connection is lost. *)
Theorem found_peer_connected {H} `{HostLaws H} mdns notifiee pi (h : H) :
  NewMDNSDiscovery mdns = Ok notifiee →
  (Connected (notifiee pi h) (ID pi) = true ∨ ∃ e, (Connect pi (AddAddrs (ID pi) (Addrs pi) h)).1 = Some e) ∧
  ∀ q, Connected h q = true → Connected (notifiee pi h) q = true.
Proof.
  unfold NewMDNSDiscovery. destruct (mdns 300%Z Rendezvous); [|done..]. intros [= <-].
  split; [apply dial_connects|apply dial_keeps].
Qed.

(** ** Witness *)

#[export] Instance sim_dialer : Dialer sim_host := {|
  Connect_in ctx i h := match ctx with Some e => (Some e, h) | None => Connect i h end;
|}.

#[export] Instance sim_dialer_laws : DialerLaws sim_host.
Proof. split; [done|]. intros e i h _. split; [by exists e|done]. Qed.

