(* ===== verification/Wiring.v ===== *)
(** * Wiring: the [fx] application of [modules/node/node.go]

    The node is assembled by a dependency-injection container from constructors
    that are provided under flags of the configuration ([utils/fx.go],
    [modules/node/grpc/grpc.go], [modules/node/http/http.go],
    [modules/node/ipfs/ipfs.go], [modules/auth/auth.go],
    [modules/node/locker/handler.go]).  A constructor is here its inputs, its
    outputs and its flags; [resolve] is how the container builds a value, on
    demand and through the constructors of its inputs. *)

From S2P Require Import Prelude Utf8 Json JsonText Files Config.

(** ** Flags *)

Record flags := mkFlags {
  UsePrometheus : bool; UseTracing : bool; UseLocker : bool; UseAuth : bool;
  UseP2P : bool; UseFiles : bool; UseGRPC : bool; UseHTTP : bool;
  UseTCP : bool; UseP2PGRPC : bool; UseUDS : bool; UseStaticDiscovery : bool; UseDebug : bool;
}.

(** [c.IsSet("UseP2P") && c.IsSet(key)]: the second lookup is made only if the
    first one holds. *)
Definition IsSet_with (p2p : bool) (key : string) (c : JsonConfig) : res bool :=
  if p2p then IsSet key c else Ok false.

(** [c.IsSet(..)] for each of them, in the order of the code; a value that is no
    [bool] panics.  The modules are built before it is known whether they are
    used, so their flags are always read. *)
Definition flags_of (c : JsonConfig) : res flags :=
  a ← IsSet "UsePrometheus" c; b ← IsSet "UseTracing" c; d ← IsSet "UseLocker" c;
  e ← IsSet "UseAuth" c; f ← IsSet "UseP2P" c; g ← IsSet_with f "UseFiles" c;
  j ← IsSet "UseTCP" c; k ← IsSet_with f "UseP2PGRPC" c; l ← IsSet "UseUDS" c;
  m ← IsSet "UseStaticDiscovery" c; h ← IsSet "UseGRPC" c;
  n ← IsSet "UseDebug" c; i ← IsSet "UseHTTP" c;
  Ok (mkFlags a b d e f g h i j k l m n).

(** ** Values and constructors *)

(** The values of the container: a type, with its name where it has one. *)
Inductive key :=
| Context | CancelFunc | Repo | Config | Batching | TaskManager | StatusManager
| Registry | Tracer | DLocker | JWTManager | ACL
| PrivKey | MainHost | Routing | LocalDialer | PubSub | Discovery | IpfsPeer
| GrpcMux | ServerOptions | GrpcServer | ServerMetrics | P2PClientSvc | StaticClientSvc
| HttpMux | Gateway | EventsSvc | ProtocolsSvc | SharedStorage.

(** Value groups: several constructors add to them. *)
Inductive group := ListenerGroup | UnaryOpts | StreamOpts | HttpMiddleware.

Inductive input := Req (k : key) | Opt (k : key) | Grp (g : group).

Inductive ctor :=
| ctxCtor | repoCtor | NewTaskManager | statusNew | metricsNew | NewTracer
| NewLocker | NewJWTManager | NewAclManager
| Identity | Libp2p | LocalDialerCtor | Pubsub | NewSvcDiscovery | NewNode
| NewMuxedListener | NewTCPListener | NewP2PListener | NewUDSListener
| JwtAuthOptions | Metrics | MetricsOpts | JaegerTracerOptions | Validator | grpcRecovery
| NewP2PClientService | NewStaticClientService | OptsAggregator | grpcNew
| NewHTTPServerMux | NewGRPCGateway | httpRecovery | Logging | httpJWT | Tracing | PromMware
| NewEventsSvc | protocolsNew | NewSharedStoreProvider.

#[export] Instance ctor_eq_dec : EqDecision ctor.
Proof. solve_decision. Defined.

(** The parameters of each constructor; the lifecycle is always there. *)
Definition ctor_in (c : ctor) : list input :=
  match c with
  | ctxCtor | repoCtor | statusNew | metricsNew | LocalDialerCtor | Metrics | Validator
  | grpcRecovery | NewHTTPServerMux | NewGRPCGateway | httpRecovery | Logging | PromMware => []
  | NewTaskManager | NewTracer | NewLocker | NewJWTManager | Identity
  | NewTCPListener | NewUDSListener | NewStaticClientService => [Req Config]
  | NewAclManager => [Req Repo; Opt SharedStorage]
  | Libp2p => [Req Context; Req Config; Req PrivKey]
  | Pubsub => [Req Context; Req MainHost]
  | NewSvcDiscovery => [Req Routing]
  | NewNode => [Req Context; Req MainHost; Req Routing; Req Batching]
  | NewMuxedListener => [Req Context; Grp ListenerGroup; Opt StatusManager; Req TaskManager]
  | NewP2PListener | protocolsNew => [Req MainHost]
  | JwtAuthOptions | httpJWT => [Req JWTManager; Req ACL]
  | MetricsOpts => [Req Config; Req ServerMetrics]
  | JaegerTracerOptions | Tracing => [Req Tracer]
  | NewP2PClientService => [Req Config; Req Discovery; Req LocalDialer; Req MainHost]
  | OptsAggregator => [Grp UnaryOpts; Grp StreamOpts]
  | grpcNew => [Req ServerOptions; Req GrpcMux; Req StatusManager]
  | NewEventsSvc => [Req PubSub; Req TaskManager]
  | NewSharedStoreProvider => [Req Config; Req Batching; Req MainHost; Req Routing; Req PubSub]
  end.

(** The values each constructor returns; the others add to a group. *)
Definition ctor_out (c : ctor) : list key :=
  match c with
  | ctxCtor => [Context; CancelFunc]
  | repoCtor => [Repo; Config; Batching]
  | NewTaskManager => [TaskManager] | statusNew => [StatusManager]
  | metricsNew => [Registry] | NewTracer => [Tracer] | NewLocker => [DLocker]
  | NewJWTManager => [JWTManager] | NewAclManager => [ACL]
  | Identity => [PrivKey] | Libp2p => [MainHost; Routing] | LocalDialerCtor => [LocalDialer]
  | Pubsub => [PubSub] | NewSvcDiscovery => [Discovery] | NewNode => [IpfsPeer]
  | NewMuxedListener => [GrpcMux] | OptsAggregator => [ServerOptions] | grpcNew => [GrpcServer]
  | Metrics => [ServerMetrics] | NewP2PClientService => [P2PClientSvc]
  | NewStaticClientService => [StaticClientSvc]
  | NewHTTPServerMux => [HttpMux] | NewGRPCGateway => [Gateway]
  | NewEventsSvc => [EventsSvc] | protocolsNew => [ProtocolsSvc]
  | NewSharedStoreProvider => [SharedStorage]
  | _ => []
  end.

(** The constructor of each value. *)
Definition provider (k : key) : ctor :=
  match k with
  | Context | CancelFunc => ctxCtor
  | Repo | Config | Batching => repoCtor
  | TaskManager => NewTaskManager | StatusManager => statusNew
  | Registry => metricsNew | Tracer => NewTracer | DLocker => NewLocker
  | JWTManager => NewJWTManager | ACL => NewAclManager
  | PrivKey => Identity | MainHost | Routing => Libp2p | LocalDialer => LocalDialerCtor
  | PubSub => Pubsub | Discovery => NewSvcDiscovery | IpfsPeer => NewNode
  | GrpcMux => NewMuxedListener | ServerOptions => OptsAggregator | GrpcServer => grpcNew
  | ServerMetrics => Metrics | P2PClientSvc => NewP2PClientService
  | StaticClientSvc => NewStaticClientService
  | HttpMux => NewHTTPServerMux | Gateway => NewGRPCGateway
  | EventsSvc => NewEventsSvc | ProtocolsSvc => protocolsNew | SharedStorage => NewSharedStoreProvider
  end.

(** The constructors that add to each group. *)
Definition members (g : group) : list ctor :=
  match g with
  | ListenerGroup => [NewTCPListener; NewP2PListener; NewUDSListener]
  | UnaryOpts => [JwtAuthOptions; MetricsOpts; JaegerTracerOptions; Validator; grpcRecovery]
  | StreamOpts => [JwtAuthOptions; MetricsOpts; Validator; grpcRecovery]
  | HttpMiddleware => [httpRecovery; Logging; httpJWT; Tracing; PromMware]
  end.

(** ** Invocations *)

Inductive invoke :=
| NewMDNSDiscovery | NewP2PReporter | Bootstrapper
| MetricsRegister | NewP2PClientAdvertiser
| NewHTTPServer | httpRegister | RegisterDebug
| mesherNew | RegisterHTTP | cancelHook | reportersHook | Populate.

(** The fields of [deps]. *)
Definition deps_in : list input :=
  [Req Context; Req CancelFunc; Req Repo; Opt ACL; Opt TaskManager; Opt DLocker; Opt GrpcServer;
   Opt HttpMux; Opt Gateway; Opt MainHost; Opt Routing; Opt IpfsPeer; Opt PubSub; Opt Discovery;
   Opt JWTManager; Opt EventsSvc; Opt ProtocolsSvc; Opt P2PClientSvc; Opt StaticClientSvc;
   Opt SharedStorage; Opt Tracer; Opt Registry].

Definition invoke_in (i : invoke) : list input :=
  match i with
  | NewMDNSDiscovery => [Req Context; Req MainHost]
  | NewP2PReporter => [Req MainHost; Req StatusManager]
  | Bootstrapper => [Req Config; Req TaskManager; Req MainHost]
  | MetricsRegister => [Req Registry; Req GrpcServer; Req ServerMetrics]
  | NewP2PClientAdvertiser => [Req Config; Req Discovery; Req TaskManager]
  | NewHTTPServer => [Req Config; Req HttpMux; Req Gateway; Grp HttpMiddleware; Req StatusManager]
  | httpRegister => [Req HttpMux; Req Registry]
  | RegisterDebug => [Req HttpMux]
  | mesherNew => [Req ProtocolsSvc; Req MainHost; Req TaskManager]
  | RegisterHTTP => [Req StatusManager; Req HttpMux]
  | cancelHook => [Req CancelFunc]
  | reportersHook => [Req Config; Req TaskManager; Req StatusManager]
  | Populate => deps_in
  end.

(** ** Options *)

Inductive fx_option := Provide (c : ctor) | Invoke (i : invoke).

(** [utils/fx.go]; [fx.Options] is concatenation. *)
Definition MaybeProvide (opt : ctor) (enable : bool) : list fx_option :=
  if enable then [Provide opt] else [].
Definition MaybeInvoke (opt : invoke) (enable : bool) : list fx_option :=
  if enable then [Invoke opt] else [].
Definition MaybeOption (opt : list fx_option) (enable : bool) : list fx_option :=
  if enable then opt else [].

Definition locker_Module : list fx_option := [Provide NewLocker].
Definition auth_Module : list fx_option := [Provide NewJWTManager; Provide NewAclManager].
Definition P2PModule : list fx_option :=
  [Provide Identity; Provide Libp2p; Provide LocalDialerCtor; Provide Pubsub; Provide NewSvcDiscovery;
   Invoke NewMDNSDiscovery; Invoke NewP2PReporter; Invoke Bootstrapper].
Definition FilesModule : list fx_option := [Provide NewNode].

Definition Transport (f : flags) : list fx_option :=
  [Provide NewMuxedListener] ++
  MaybeProvide NewTCPListener (UseTCP f) ++
  MaybeProvide NewP2PListener (UseP2P f && UseP2PGRPC f) ++
  MaybeProvide NewUDSListener (UseUDS f).

Definition JwtAuth : list fx_option := [Provide JwtAuthOptions].
Definition grpcPrometheus : list fx_option :=
  [Provide Metrics; Provide MetricsOpts; Invoke MetricsRegister].

Definition grpcMiddleware (f : flags) : list fx_option :=
  MaybeOption JwtAuth (UseAuth f) ++
  MaybeOption grpcPrometheus (UsePrometheus f) ++
  MaybeOption [Provide JaegerTracerOptions] (UseTracing f) ++
  [Provide Validator; Provide grpcRecovery].

Definition grpcClient (f : flags) : list fx_option :=
  MaybeProvide NewP2PClientService (UseP2P f) ++
  MaybeInvoke NewP2PClientAdvertiser (UseP2P f && UseP2PGRPC f) ++
  MaybeProvide NewStaticClientService (UseStaticDiscovery f).

Definition grpcModule (f : flags) : list fx_option :=
  Transport f ++ grpcMiddleware f ++ grpcClient f ++ [Provide OptsAggregator; Provide grpcNew].

Definition httpPrometheus : list fx_option := [Provide PromMware; Invoke httpRegister].

Definition httpModule (f : flags) : list fx_option :=
  [Provide NewHTTPServerMux; Invoke NewHTTPServer; Provide NewGRPCGateway;
   Provide httpRecovery; Provide Logging] ++
  MaybeProvide httpJWT (UseAuth f) ++
  MaybeProvide Tracing (UseTracing f) ++
  MaybeOption httpPrometheus (UsePrometheus f) ++
  MaybeInvoke RegisterDebug (UseDebug f).

(** The options [New] gives to [fx.New]. *)
Definition app (f : flags) : list fx_option :=
  [Provide ctxCtor; Provide repoCtor; Provide NewTaskManager; Provide statusNew] ++
  MaybeProvide metricsNew (UsePrometheus f) ++
  MaybeProvide NewTracer (UseTracing f) ++
  MaybeOption locker_Module (UseLocker f) ++
  MaybeOption auth_Module (UseAuth f) ++
  MaybeOption P2PModule (UseP2P f) ++
  MaybeOption FilesModule (UseP2P f && UseFiles f) ++
  MaybeOption (grpcModule f) (UseGRPC f) ++
  MaybeOption (httpModule f) (UseHTTP f) ++
  MaybeProvide NewEventsSvc (UseP2P f) ++
  MaybeProvide protocolsNew (UseP2P f) ++
  MaybeInvoke mesherNew (UseP2P f) ++
  MaybeProvide NewSharedStoreProvider (UseP2P f) ++
  MaybeInvoke RegisterHTTP (UseHTTP f) ++
  [Invoke cancelHook; Invoke reportersHook; Invoke Populate].

(** The invocations, in their order. *)
Definition invokes (f : flags) : list invoke :=
  omap (λ o, match o with Invoke i => Some i | Provide _ => None end) (app f).

(** Whether a constructor is among the options, as a function of the flags: see
    [enabled_spec]. *)
Definition enabled (f : flags) (c : ctor) : bool :=
  match c with
  | ctxCtor | repoCtor | NewTaskManager | statusNew => true
  | metricsNew => UsePrometheus f
  | NewTracer => UseTracing f
  | NewLocker => UseLocker f
  | NewJWTManager | NewAclManager => UseAuth f
  | Identity | Libp2p | LocalDialerCtor | Pubsub | NewSvcDiscovery => UseP2P f
  | NewNode => UseP2P f && UseFiles f
  | NewMuxedListener | Validator | grpcRecovery | OptsAggregator | grpcNew => UseGRPC f
  | NewTCPListener => UseGRPC f && UseTCP f
  | NewP2PListener => UseGRPC f && (UseP2P f && UseP2PGRPC f)
  | NewUDSListener => UseGRPC f && UseUDS f
  | JwtAuthOptions => UseGRPC f && UseAuth f
  | Metrics | MetricsOpts => UseGRPC f && UsePrometheus f
  | JaegerTracerOptions => UseGRPC f && UseTracing f
  | NewP2PClientService => UseGRPC f && UseP2P f
  | NewStaticClientService => UseGRPC f && UseStaticDiscovery f
  | NewHTTPServerMux | NewGRPCGateway | httpRecovery | Logging => UseHTTP f
  | httpJWT => UseHTTP f && UseAuth f
  | Tracing => UseHTTP f && UseTracing f
  | PromMware => UseHTTP f && UsePrometheus f
  | NewEventsSvc | protocolsNew | NewSharedStoreProvider => UseP2P f
  end.

(** The members of a group that are provided. *)
Definition group_members (f : flags) (g : group) : list ctor :=
  List.filter (enabled f) (members g).

(** ** Resolution *)

Section resolve.
Context (f : flags) (fails : ctor → bool).

(** Whether calling a constructor works: it is provided, its inputs can be
    built and it returns no error.  An optional input whose constructor is not
    provided is left out; one whose constructor fails is not. *)
Fixpoint resolve (fuel : nat) (c : ctor) : bool :=
  match fuel with
  | O => false
  | S fuel =>
    enabled f c && negb (fails c) &&
    forallb (λ i, match i with
                  | Req k => resolve fuel (provider k)
                  | Opt k => negb (enabled f (provider k)) || resolve fuel (provider k)
                  | Grp g => forallb (λ c, negb (enabled f c) || resolve fuel c) (members g)
                  end) (ctor_in c)
  end.

Definition input_ok (fuel : nat) (i : input) : bool :=
  match i with
  | Req k => resolve fuel (provider k)
  | Opt k => negb (enabled f (provider k)) || resolve fuel (provider k)
  | Grp g => forallb (λ c, negb (enabled f c) || resolve fuel c) (members g)
  end.

Definition runs (fuel : nat) (i : invoke) : bool := forallb (input_ok fuel) (invoke_in i).
End resolve.

(** A constructor that returns an error is not there for anyone. *)
Lemma resolve_fails f fails n c : fails c = true → resolve f fails n c = false.
Proof. intros Hf. destruct n; [done|]. cbn [resolve]. by rewrite Hf, andb_false_r. Qed.

(** No chain of constructors is longer than this: see [wiring_complete]. *)
Definition depth : nat := 9.

Definition no_failure (c : ctor) : bool := false.

(** ** [enabled] and the options *)

Definition provides (c : ctor) (o : fx_option) : bool :=
  match o with Provide c' => bool_decide (c' = c) | Invoke _ => false end.

Lemma existsb_maybe {A} (P : A → bool) (b : bool) l :
  existsb P (if b then l else []) = b && existsb P l.
Proof. by destruct b. Qed.

Lemma enabled_spec f c : enabled f c = existsb (provides c) (app f).
Proof.
  unfold app, grpcModule, httpModule, Transport, grpcMiddleware, grpcClient,
    MaybeProvide, MaybeInvoke, MaybeOption.
  repeat first [rewrite existsb_app|rewrite existsb_maybe].
  destruct f as [a b d e p g h i j k l m n]. cbn -[bool_decide].
  destruct c; cbn; rewrite ?orb_false_r, ?andb_false_r, ?andb_true_r, ?orb_false_r; try reflexivity;
    by destruct a, b, d, e, p, g, h, i; rewrite ?orb_false_r; try reflexivity; destruct j, k, l, m, n.
Qed.

Lemma elem_of_group f g c : c ∈ group_members f g ↔ c ∈ members g ∧ enabled f c = true.
Proof. unfold group_members. by rewrite !list_elem_of_In, filter_In. Qed.

(** ** All flags *)

Definition both (P : bool → bool) : bool := P true && P false.

Lemma both_spec P b : both P = true → P b = true.
Proof. unfold both. intros [??]%andb_true_iff. by destruct b. Qed.

Definition all_flags (P : flags → bool) : bool :=
  both (λ a, both (λ b, both (λ d, both (λ e, both (λ f, both (λ g, both (λ h, both (λ i,
  both (λ j, both (λ k, both (λ l, both (λ m, both (λ n,
    P (mkFlags a b d e f g h i j k l m n)))))))))))))).

Lemma all_flags_spec P f : all_flags P = true → P f = true.
Proof.
  unfold all_flags. destruct f as [a b d e f g h i j k l m n]. intros H.
  apply (both_spec _ a), (both_spec _ b), (both_spec _ d), (both_spec _ e), (both_spec _ f),
    (both_spec _ g), (both_spec _ h), (both_spec _ i), (both_spec _ j), (both_spec _ k),
    (both_spec _ l), (both_spec _ m), (both_spec _ n) in H. exact H.
Qed.

(** ** Properties *)

Lemma ctor_out_provider c k : k ∈ ctor_out c ↔ c = provider k.
Proof.
  split; [|intros ->; destruct k; simpl; set_solver].
  destruct c; simpl; rewrite ?elem_of_cons, elem_of_nil; naive_solver.
Qed.

Lemma wiring_runs f i : i ∈ invokes f → runs f no_failure depth i = true.
Proof.
  intros Hi. assert (all_flags (λ f, forallb (runs f no_failure depth) (invokes f)) = true) as H
    by by vm_compute.
  apply (all_flags_spec _ f) in H. rewrite forallb_Forall, Forall_forall in H. by apply H.
Qed.

(** For every combination of flags the application can be assembled: no
    two constructors return the same value, and every invocation, the
    population of the dependencies included, finds each value it needs, through
    constructors that are provided under the same flags and do not depend on
    each other in a circle. *)
Theorem wiring_complete f i :
  i ∈ invokes f →
  runs f no_failure depth i = true ∧ ∀ c c' k, k ∈ ctor_out c → k ∈ ctor_out c' → c = c'.
Proof.
  intros Hi. split; [by apply wiring_runs|intros c c' k; rewrite !ctor_out_provider; congruence].
Qed.

Definition sample_flags : flags :=
  mkFlags true false false true true false true true true true false false false.

Lemma wiring_complete_witness : runs sample_flags no_failure depth MetricsRegister = true.
Proof.
  apply (wiring_complete sample_flags MetricsRegister). apply (list_elem_of_lookup_2 _ 3). reflexivity.
Defined.
