(* ===== verification/GrpcServer.v ===== *)
(** * The gRPC server: [modules/node/grpc/grpc.go] and
      [modules/node/grpc/middleware.go]

    The server is made with two chains of interceptors, for unary calls and for
    streams, which the container collects from the constructors that are
    provided.  The members of such a group come in no particular order, so what
    the chains guarantee has to hold for every order.  The chaining function
    and the interceptors of the validation, metrics, tracing and recovery
    packages are not part of the program: they are arguments, with what their
    documentation says in [ChainLaws] and [lib_laws]. *)

From S2P Require Import Prelude Utf8 Json JsonText Files Config Acl Jwt AuthGate Wiring.

(** ** Interceptors *)

(** How a call ends. *)
Inductive answer (R : Type) :=
| Reply (r : R)
| Failed (e : status_err)
| Panicked (v : string).
Arguments Reply {R} r.
Arguments Failed {R} e.
Arguments Panicked {R} v.

(** An interceptor gets the call, the full name of the method and the handler.
    A unary call is its metadata and its request; a stream is an object from
    which the metadata can be read. *)
Definition interceptor (C R : Type) : Type := C → string → (C → answer R) → answer R.

(** No interceptor. *)
Definition pass {C R : Type} : interceptor C R := λ c _ h, h c.

Definition answer_of {R : Type} (x : status_err + answer R) : answer R :=
  match x with inl e => Failed e | inr a => a end.

(** [interceptor.Unary()] and [interceptor.Stream()]. *)
Definition auth_unary {Q R : Type} (i : AuthInterceptor) : interceptor (metadata * Q) R := λ c m h,
  answer_of (Unary i c.1 c.2 m (λ md req, h (md, req))).

Definition auth_stream {S R : Type} (context : S → metadata) (i : AuthInterceptor) : interceptor S R :=
  λ s m h, answer_of (Stream i context s m h).

(** [JwtAuthOptions]: the same interceptor object makes both. *)
Definition JwtAuthOptions {Q R S : Type} (context : S → metadata) (jm : AuthGate.JWTManager) (am : AuthGate.ACL) :
    interceptor (metadata * Q) R * interceptor S R :=
  let incp := NewAuthInterceptor jm am in (auth_unary incp, auth_stream context incp).

(** [MetricsOpts]: the interceptors of the server metrics, with the histogram of
    latencies if it is asked for. *)
Definition MetricsOpts_ {U T : Type} (UnaryServerInterceptor : bool → U) (StreamServerInterceptor : bool → T)
    (c : JsonConfig) : res (U * T) :=
  latency ← IsSet "UsePrometheusLatency" c;
  Ok (UnaryServerInterceptor latency, StreamServerInterceptor latency).

(** The function given to [grpc_recovery.WithRecoveryHandler]. *)
Definition recovery_handler (p : string) : status_err := mkStatus Unknown "internal error".

(** ** The packages *)

(** [grpc_middleware.ChainUnaryServer] and [ChainStreamServer]: the first
    interceptor runs first and gets the rest of the chain as its handler. *)
Class Chain := ChainServer : ∀ {C R : Type}, list (interceptor C R) → interceptor C R.

Class ChainLaws `{Chain} := {
  chain_nil {C R} (c : C) m (h : C → answer R) : ChainServer [] c m h = h c;
  chain_cons {C R} (i : interceptor C R) ins (c : C) m h :
    ChainServer (i :: ins) c m h = i c m (λ c', ChainServer ins c' m h);
}.

(** The interceptors of the packages for one kind of call. *)
Record lib (C R : Type) := mkLib {
  lib_validator : interceptor C R;
  lib_metrics : interceptor C R;
  lib_tracing : interceptor C R;
  lib_recovery : (string → status_err) → interceptor C R;
}.
Arguments lib_validator {C R} l.
Arguments lib_metrics {C R} l.
Arguments lib_tracing {C R} l.
Arguments lib_recovery {C R} l f.

(** An interceptor that leaves the metadata of the call alone: its answer
    depends on the handler only through calls with the same metadata. *)
Definition keeps_metadata {C R : Type} (context : C → metadata) (i : interceptor C R) : Prop :=
  ∀ c m h1 h2, (∀ c', context c' = context c → h1 c' = h2 c') → i c m h1 = i c m h2.

(** An interceptor that does not panic of itself. *)
Definition calm {C R : Type} (i : interceptor C R) : Prop :=
  ∀ c m h v, (∀ c' v', h c' ≠ Panicked v') → i c m h ≠ Panicked v.

(** What the packages promise: no interceptor of theirs changes the metadata or
    panics of itself, and recovery turns a panic of what it wraps into the error
    its handler makes. *)
Record lib_laws {C R : Type} (context : C → metadata) (l : lib C R) : Prop := mkLibLaws {
  validator_keeps : keeps_metadata context (lib_validator l);
  metrics_keeps : keeps_metadata context (lib_metrics l);
  tracing_keeps : keeps_metadata context (lib_tracing l);
  recovery_keeps f : keeps_metadata context (lib_recovery l f);
  validator_calm : calm (lib_validator l);
  metrics_calm : calm (lib_metrics l);
  tracing_calm : calm (lib_tracing l);
  recovery_recovers f c m h :
    lib_recovery l f c m h = match h c with Panicked v => Failed (f v) | a => a end;
}.

(** ** The server *)

Section server.
Context `{Chain} {Q R S : Type}.

(** Server options: the interceptors of [grpc.UnaryInterceptor] and
    [grpc.StreamInterceptor]. *)
Inductive ServerOption :=
| UnaryInterceptor (i : interceptor (metadata * Q) R)
| StreamInterceptor (i : interceptor S R).

Definition OptsAggregator (UnaryOpts : list (interceptor (metadata * Q) R))
    (StreamOpts : list (interceptor S R)) : list ServerOption :=
  [UnaryInterceptor (ChainServer UnaryOpts); StreamInterceptor (ChainServer StreamOpts)].

(** How [grpc.NewServer(opts...)] answers a call with a handler. *)
Definition unary_call (opts : list ServerOption) : interceptor (metadata * Q) R :=
  match omap (λ o, match o with UnaryInterceptor i => Some i | _ => None end) opts with
  | i :: _ => i
  | [] => pass
  end.

Definition stream_call (opts : list ServerOption) : interceptor S R :=
  match omap (λ o, match o with StreamInterceptor i => Some i | _ => None end) opts with
  | i :: _ => i
  | [] => pass
  end.
End server.
Arguments ServerOption : clear implicits.

(** The interceptor each member of a group adds, [auth] being the one of
    [JwtAuthOptions]. *)
Definition member_interceptor {C R : Type} (l : lib C R) (auth : interceptor C R) (c : ctor) :
    interceptor C R :=
  match c with
  | Wiring.JwtAuthOptions => auth
  | MetricsOpts => lib_metrics l
  | JaegerTracerOptions => lib_tracing l
  | Validator => lib_validator l
  | grpcRecovery => lib_recovery l recovery_handler
  | _ => pass
  end.

(** ** Lemmas *)

(** The two authorization interceptors do the same on the call's metadata. *)
Definition checks {C R : Type} (context : C → metadata) (i : AuthInterceptor)
    (auth : interceptor C R) : Prop :=
  ∀ c m h, auth c m h = match authorize i (context c) m with Some e => Failed e | None => h c end.

Lemma auth_unary_checks {Q R} i : checks (R:=R) fst i (auth_unary (Q:=Q) i).
Proof. intros [md q] m h. unfold auth_unary, Unary. simpl. by destruct (authorize i md m). Qed.

Lemma auth_stream_checks {S R} (context : S → metadata) i :
  checks (R:=R) context i (auth_stream context i).
Proof. intros s m h. unfold auth_stream, Stream. by destruct (authorize i _ m). Qed.

Lemma checks_keeps {C R} (context : C → metadata) i (auth : interceptor C R) :
  checks context i auth → keeps_metadata context auth.
Proof. intros Hc c m h1 h2 Hh. rewrite !Hc. destruct (authorize _ _ _); [done|]. by apply Hh. Qed.

Lemma checks_calm {C R} (context : C → metadata) i (auth : interceptor C R) :
  checks context i auth → calm auth.
Proof. intros Hc c m h v Hh. rewrite Hc. by destruct (authorize _ _ _). Qed.

Lemma member_keeps {C R} (context : C → metadata) (l : lib C R) auth c :
  lib_laws context l → keeps_metadata context auth →
  keeps_metadata context (member_interceptor l auth c).
Proof.
  intros Hl Ha. destruct c; simpl; try (by intros ? ? ? ? Hh; apply Hh); try apply Hl. done.
Qed.

Lemma recovery_calm {C R} (context : C → metadata) (l : lib C R) f c m h v :
  lib_laws context l → lib_recovery l f c m h ≠ Panicked v.
Proof. intros Hl. rewrite (recovery_recovers _ _ Hl). by destruct (h c). Qed.

Lemma member_calm {C R} (context : C → metadata) (l : lib C R) auth c :
  lib_laws context l → calm auth → calm (member_interceptor l auth c).
Proof.
  intros Hl Ha. destruct c; simpl; try (by intros ? ? ? ? Hh; apply Hh); try apply Hl; [done|].
  intros c m h v _. by eapply recovery_calm.
Qed.

Section chains.
Context `{ChainLaws} {C R : Type} (context : C → metadata).

Lemma chain_app (ins js : list (interceptor C R)) c m h :
  Forall (keeps_metadata context) ins →
  ChainServer (ins ++ js) c m h = ChainServer ins c m (λ c', ChainServer js c' m h).
Proof.
  intros Hall. revert c. induction Hall as [|i ins Hi _ IH]; intros c; simpl; [by rewrite chain_nil|].
  rewrite !chain_cons. apply Hi. intros c' _. apply IH.
Qed.

(** A chain of such interceptors is one. *)
Lemma chain_keeps (ins : list (interceptor C R)) :
  Forall (keeps_metadata context) ins → keeps_metadata context (ChainServer ins).
Proof.
  induction 1 as [|i ins Hi _ IH]; intros c m h1 h2 Hh; [by rewrite !chain_nil, Hh|].
  rewrite !chain_cons. apply Hi. intros c' Hc'. apply IH. intros c'' Hc''. apply Hh. congruence.
Qed.

Lemma chain_calm (ins : list (interceptor C R)) : Forall calm ins → calm (ChainServer ins).
Proof.
  induction 1 as [|i ins Hi _ IH]; intros c m h v Hh; [rewrite chain_nil; apply Hh|].
  rewrite chain_cons. apply Hi. intros c' v'. by apply IH.
Qed.

(** A check anywhere in the chain decides: what it refuses does not depend on
    the handler, and what it admits goes through the others. *)
Lemma chain_gate i (auth : interceptor C R) before after c m h1 h2 e :
  checks context i auth → Forall (keeps_metadata context) before →
  authorize i (context c) m = Some e →
  ChainServer (before ++ auth :: after) c m h1 = ChainServer (before ++ auth :: after) c m h2.
Proof.
  intros Hc Hb Hden. rewrite !chain_app by done.
  apply chain_keeps; [done|]. intros c' Hc'. by rewrite !chain_cons, !Hc, Hc', Hden.
Qed.

Lemma chain_open i (auth : interceptor C R) before after c m h :
  checks context i auth → Forall (keeps_metadata context) before →
  authorize i (context c) m = None →
  ChainServer (before ++ auth :: after) c m h = ChainServer (before ++ pass :: after) c m h.
Proof.
  intros Hc Hb Hok. rewrite !chain_app by done.
  apply chain_keeps; [done|]. intros c' Hc'. rewrite !chain_cons, Hc, Hc', Hok. done.
Qed.

(** Recovery anywhere in the chain keeps panics inside. *)
Lemma chain_recovers (l : lib C R) f before after c m h v :
  lib_laws context l → Forall calm before → Forall (keeps_metadata context) before →
  ChainServer (before ++ lib_recovery l f :: after) c m h ≠ Panicked v.
Proof.
  intros Hl Hb Hk. rewrite chain_app by done. apply chain_calm; [done|].
  intros c' v'. rewrite chain_cons. by eapply recovery_calm.
Qed.

(** The chain made of the members of a group, in the order [cs]. *)
Lemma members_keep (l : lib C R) auth cs :
  lib_laws context l → keeps_metadata context auth →
  Forall (keeps_metadata context) (member_interceptor l auth <$> cs).
Proof. intros Hl Ha. apply Forall_fmap, Forall_forall. intros x _. by apply member_keeps. Qed.

Lemma members_calm (l : lib C R) auth cs :
  lib_laws context l → calm auth → Forall calm (member_interceptor l auth <$> cs).
Proof. intros Hl Ha. apply Forall_fmap, Forall_forall. intros x _. by eapply member_calm. Qed.
End chains.

(** ** Properties *)

(** How a server gated by [i] treats a call: what the check refuses never
    depends on the handler, and what it admits is answered as without it. *)
Definition gated `{Chain} {C R : Type} (context : C → metadata) (i : AuthInterceptor) (l : lib C R)
    (cs : list ctor) (call : interceptor C R) : Prop :=
  ∀ c m,
    match authorize i (context c) m with
    | Some e => ∀ h1 h2, call c m h1 = call c m h2
    | None => ∀ h, call c m h =
        ChainServer (member_interceptor l pass <$> cs) c m h
    end.

(** Only [JwtAuthOptions] adds the check. *)
Lemma members_no_auth {C R} (l : lib C R) a b (cs : list ctor) :
  Wiring.JwtAuthOptions ∉ cs → member_interceptor l a <$> cs = member_interceptor l b <$> cs.
Proof.
  intros Hni. apply list_fmap_ext. intros k x Hx%list_elem_of_lookup_2. by destruct x.
Qed.

(** The chain of a group with the check in it. *)
Lemma group_gated `{ChainLaws} {C R} (ctx : C → metadata) i (auth : interceptor C R) (l : lib C R) cs :
  checks ctx i auth → lib_laws ctx l → NoDup cs → Wiring.JwtAuthOptions ∈ cs →
  gated ctx i l cs (ChainServer (member_interceptor l auth <$> cs)).
Proof.
  intros Hc Hl Hnd (before & after & ->)%list_elem_of_split c m.
  apply NoDup_app in Hnd as (_ & Hd & [Hna _]%NoDup_cons).
  assert (Wiring.JwtAuthOptions ∉ before) as Hnb by (intros Hb; apply (Hd _ Hb); left).
  pose proof (members_keep ctx l auth before Hl (checks_keeps _ _ _ Hc)) as Hk.
  rewrite !fmap_app, !fmap_cons. simpl. destruct (authorize i (ctx c) m) as [e|] eqn:Ha.
  - intros h1 h2. by eapply chain_gate.
  - intros h. rewrite (chain_open ctx i) by done.
    by rewrite (members_no_auth l pass auth before Hnb), (members_no_auth l pass auth after Hna).
Qed.

Lemma group_recovers `{ChainLaws} {C R} (ctx : C → metadata) i (auth : interceptor C R) (l : lib C R) cs
    c m h v :
  checks ctx i auth → lib_laws ctx l → grpcRecovery ∈ cs →
  ChainServer (member_interceptor l auth <$> cs) c m h ≠ Panicked v.
Proof.
  intros Hc Hl (before & after & ->)%list_elem_of_split. rewrite fmap_app, fmap_cons.
  apply (chain_recovers ctx l); [done|eapply members_calm|apply members_keep]; try done.
  - by eapply checks_calm.
  - by eapply checks_keeps.
Qed.

Lemma group_nodup f g cs : cs ≡ₚ group_members f g → NoDup cs.
Proof.
  intros ->. apply NoDup_ListNoDup, List.NoDup_filter, NoDup_ListNoDup.
  apply (bool_decide_unpack _). by destruct g.
Qed.

Section theorems.
Context `{ChainLaws} {Q R S : Type} (context : S → metadata).
Context (lu : lib (metadata * Q) R) (ls : lib S R).
Hypothesis lu_laws : lib_laws fst lu.
Hypothesis ls_laws : lib_laws context ls.
Context (f : flags) (jm : AuthGate.JWTManager) (am : AuthGate.ACL) (us ss : list ctor).

(** The server's options, the groups being in the orders [us] and [ss]. *)
Definition server_opts : list (ServerOption Q R S) :=
  let auth := JwtAuthOptions context jm am in
  OptsAggregator (member_interceptor lu auth.1 <$> us) (member_interceptor ls auth.2 <$> ss).

(** The check is in both groups, wherever. *)
Lemma server_gated :
  UseGRPC f = true → UseAuth f = true →
  us ≡ₚ group_members f UnaryOpts → ss ≡ₚ group_members f StreamOpts →
  gated fst (NewAuthInterceptor jm am) lu us (unary_call server_opts) ∧
  gated context (NewAuthInterceptor jm am) ls ss (stream_call server_opts).
Proof.
  intros Hg Ha Hus Hss.
  assert (∀ g, Wiring.JwtAuthOptions ∈ members g → Wiring.JwtAuthOptions ∈ group_members f g) as Hin.
  { intros g Hm. apply elem_of_group; split; [done|]. simpl. by rewrite Hg, Ha. }
  split; apply group_gated; eauto using group_nodup.
  - apply auth_unary_checks.
  - rewrite Hus. apply Hin. left.
  - apply auth_stream_checks.
  - rewrite Hss. apply Hin. left.
Qed.

(** C4: with authentication on, the gRPC server is gated in whatever order the
    container hands it the interceptors: for unary calls and for streams, a
    call the authorization check refuses gets an answer that does not depend on
    the handler, and a call it admits is answered as by the server without the
    check. *)
Theorem grpc_server_gated :
  UseGRPC f = true → UseAuth f = true →
  us ≡ₚ group_members f UnaryOpts → ss ≡ₚ group_members f StreamOpts →
  gated fst (NewAuthInterceptor jm am) lu us (unary_call server_opts) ∧
  gated context (NewAuthInterceptor jm am) ls ss (stream_call server_opts).
Proof. apply server_gated. Qed.

(** No panic leaves the server: whatever a handler does, and in whatever
    order the container hands it the interceptors, every unary call and every
    stream ends in an answer or an error. *)
Theorem grpc_server_recovers :
  UseGRPC f = true → us ≡ₚ group_members f UnaryOpts → ss ≡ₚ group_members f StreamOpts →
  (∀ c m h v, unary_call server_opts c m h ≠ Panicked v) ∧
  (∀ c m h v, stream_call server_opts c m h ≠ Panicked v).
Proof.
  intros Hg Hus Hss.
  assert (∀ g, grpcRecovery ∈ members g → grpcRecovery ∈ group_members f g) as Hin.
  { intros g Hm. by apply elem_of_group. }
  split; intros c m h v.
  - eapply group_recovers; [apply auth_unary_checks|done|]. rewrite Hus. apply Hin. simpl. set_solver.
  - eapply group_recovers; [apply auth_stream_checks|done|]. rewrite Hss. apply Hin. simpl. set_solver.
Qed.
End theorems.

(** ** Witnesses *)

#[export] Instance sample_chain : Chain := λ C R ins c m h,
  foldr (λ i k c', i c' m k) h ins c.

#[export] Instance sample_chain_laws : ChainLaws.
Proof. by split. Qed.

(** Packages that only pass the call on, and recover. *)
Definition sample_lib {C R : Type} : lib C R :=
  mkLib C R pass pass pass
    (λ f c _ h, match h c with Panicked v => Failed (f v) | a => a end).

Lemma sample_lib_laws {C R} (context : C → metadata) : lib_laws context (sample_lib (R:=R)).
Proof.
  split; try (intros c m h1 h2 Hh; by apply Hh); try (intros c m h v Hh; by apply Hh); [|done].
  intros f c m h1 h2 Hh. simpl. by rewrite (Hh c eq_refl).
Qed.

(** The groups with authentication and metrics, in an order of their own. *)
Definition sample_order : list ctor := [grpcRecovery; Validator; Wiring.JwtAuthOptions; MetricsOpts].

Definition sample_opts : list (ServerOption string string metadata) :=
  server_opts (λ md, md) sample_lib sample_lib
    (jwt_of sample_manager (101 * second)) (acl_of sample_admin_only) sample_order sample_order.

Lemma grpc_server_gated_witness :
  unary_call sample_opts (None, "x") "/admin" (λ _, Reply "secret") =
  unary_call sample_opts (None, "x") "/admin" (λ _, Panicked "not called").
Proof.
  destruct (grpc_server_gated (λ md : metadata, md) (sample_lib (C:=metadata * string) (R:=string)) sample_lib
    (sample_lib_laws _) (sample_lib_laws _) sample_flags
    (jwt_of sample_manager (101 * second)) (acl_of sample_admin_only) sample_order sample_order) as [Hu _].
  - reflexivity.
  - reflexivity.
  - refine (bool_decide_unpack _ _). by vm_compute.
  - refine (bool_decide_unpack _ _). by vm_compute.
  - pose proof (Hu (None, "x") "/admin") as H.
    assert (∃ e, authorize (NewAuthInterceptor (jwt_of sample_manager (101 * second)) (acl_of sample_admin_only))
      (@fst metadata string (None, "x")) "/admin" = Some e) as [e He] by (eexists; by vm_compute).
    rewrite He in H. apply H.
Defined.

Lemma grpc_server_recovers_witness :
  unary_call sample_opts (None, "x") "/open" (λ _, Panicked "boom") ≠ Panicked "boom".
Proof.
  destruct (grpc_server_recovers (λ md : metadata, md) (sample_lib (C:=metadata * string) (R:=string)) sample_lib
    (sample_lib_laws _) (sample_lib_laws _) sample_flags
    (jwt_of sample_manager (101 * second)) (acl_of sample_admin_only) sample_order sample_order) as [Hu _].
  - reflexivity.
  - refine (bool_decide_unpack _ _). by vm_compute.
  - refine (bool_decide_unpack _ _). by vm_compute.
  - apply Hu.
Defined.
