(* ===== verification/HttpRoutes.v ===== *)
(** * The pages of the HTTP server: [modules/node/http/http.go],
      [modules/node/http/middleware.go] and [modules/diag/status/status.go]

    The invocations of the application register their handlers on one
    multiplexer: the gRPC gateway, the status page, the metrics and the debug
    pages; the application may add its own.  Here is which page a request gets,
    and what that means for the access control in front of it. *)

From S2P Require Import Prelude Utf8 Json JsonText Files HttpMux Config Acl Jwt AuthGate.
From S2P Require Import Datastore FsRepo Mesher Services Wiring.

(** ** Pages and registrations *)

(** The handlers, by what they serve; an application's own by a name. *)
Inductive page :=
| GatewayPage | StatusPage | MetricsPage
| PprofRedirect | PprofCmdline | PprofProfile | PprofSymbol | PprofTrace | PprofIndex | VarsPage
| AppPage (name : string).

#[export] Instance page_eq_dec : EqDecision page.
Proof. solve_decision. Defined.
#[export] Instance mux_eq_dec : EqDecision (ServeMux page).
Proof. solve_decision. Defined.

Definition NewHTTPServerMux : ServeMux page := NewServeMux.

(** [if httpIn.GRPC != nil] in [NewHTTPServer]. *)
Definition register_gateway (gateway : bool) (mux : ServeMux page) : res (ServeMux page) :=
  if gateway then Handle "/" GatewayPage mux else Ok mux.

Definition Register (mux : ServeMux page) : res (ServeMux page) := Handle "/metrics" MetricsPage mux.

Definition RegisterDebug_ (mux : ServeMux page) : res (ServeMux page) :=
  mux ← Handle "/debug/pprof" PprofRedirect mux;
  mux ← Handle "/debug/pprof/cmdline" PprofCmdline mux;
  mux ← Handle "/debug/pprof/profile" PprofProfile mux;
  mux ← Handle "/debug/pprof/symbol" PprofSymbol mux;
  mux ← Handle "/debug/pprof/trace" PprofTrace mux;
  mux ← Handle "/debug/pprof/" PprofIndex mux;
  Handle "/debug/vars" VarsPage mux.

Definition register_status (mux : ServeMux page) : res (ServeMux page) := Handle "/status" StatusPage mux.

(** The redirect of [/debug/pprof]: the location and the code. *)
Definition pprof_redirect (path query : string) : string * Z :=
  (escape (path +:+ "/") +:+ match query with EmptyString => "" | q => "?" +:+ q end, 308%Z).

(** What an invocation does to the multiplexer. *)
Definition invoke_routes (i : invoke) (mux : ServeMux page) : res (ServeMux page) :=
  match i with
  | Wiring.NewHTTPServer => register_gateway true mux
  | httpRegister => Register mux
  | RegisterDebug => RegisterDebug_ mux
  | RegisterHTTP => register_status mux
  | _ => Ok mux
  end.

(** The multiplexer of a node, after the invocations in their order. *)
Definition mux_of (f : flags) : res (ServeMux page) :=
  foldl (λ m i, m ≫= invoke_routes i) (Ok NewHTTPServerMux) (invokes f).

(** ** Requests *)

(** [r.URL.Path]. *)
Definition URL_Path (r : request) : option string := unescape (req_path r).

(** The multiplexer as a handler; a request with an invalid path is answered by
    [net/http] itself. *)
Definition serve (host : string) (mux : ServeMux page) : handler (routed page) := λ r,
  match URL_Path r with
  | None => HttpError StatusBadRequest "Bad Request"
  | Some path => Served (mux_Handler host path mux)
  end.

(** ** Specification *)

(** The page of a canonical path. *)
Definition page_of (f : flags) (path : string) : page :=
  if decide (path = "/status") then StatusPage
  else if decide (path = "/metrics" ∧ UsePrometheus f = true) then MetricsPage
  else if UseDebug f then
    if decide (path = "/debug/pprof") then PprofRedirect
    else if decide (path = "/debug/pprof/cmdline") then PprofCmdline
    else if decide (path = "/debug/pprof/profile") then PprofProfile
    else if decide (path = "/debug/pprof/symbol") then PprofSymbol
    else if decide (path = "/debug/pprof/trace") then PprofTrace
    else if decide (path = "/debug/vars") then VarsPage
    else if String.prefix "/debug/pprof/" path then PprofIndex
    else GatewayPage
  else GatewayPage.

(** ** Lemmas *)

Definition debug_pages : list (string * page) :=
  [("/debug/pprof", PprofRedirect); ("/debug/pprof/cmdline", PprofCmdline);
   ("/debug/pprof/profile", PprofProfile); ("/debug/pprof/symbol", PprofSymbol);
   ("/debug/pprof/trace", PprofTrace); ("/debug/vars", VarsPage)].

(** What a node registers, and the multiplexer this makes. *)
Definition node_regs (prom debug : bool) : list (string * page) :=
  ("/", GatewayPage) :: ("/status", StatusPage) ::
  (if prom then [("/metrics", MetricsPage)] else []) ++
  (if debug then ("/debug/pprof/", PprofIndex) :: debug_pages else []).

Definition node_mux (prom debug : bool) : ServeMux page :=
  mkServeMux (list_to_map (node_regs prom debug))
    ((if debug then [("/debug/pprof/", PprofIndex)] else []) ++ [("/", GatewayPage)]) false.

Lemma mux_of_node f : UseHTTP f = true → mux_of f = Ok (node_mux (UsePrometheus f) (UseDebug f)).
Proof.
  assert (all_flags (λ f, negb (UseHTTP f) ||
    bool_decide (mux_of f = Ok (node_mux (UsePrometheus f) (UseDebug f)))) = true) as Hall by by vm_compute.
  intros Hh. apply (all_flags_spec _ f), orb_prop in Hall as [Hall|Hall]; [by rewrite Hh in Hall|].
  by apply bool_decide_eq_true in Hall.
Qed.

Lemma node_mux_regs prom debug :
  handle_all (node_regs prom debug) NewServeMux = Ok (node_mux prom debug).
Proof. refine (bool_decide_unpack _ _). by destruct prom, debug; vm_compute. Qed.

Lemma node_mux_inv prom debug : mux_inv (node_mux prom debug).
Proof. eapply handle_all_spec; [apply node_mux_regs|apply mux_inv_new]. Qed.

Lemma node_mux_lookup prom debug p h :
  mux_m (node_mux prom debug) !! p = Some h ↔ (p, h) ∈ node_regs prom debug.
Proof.
  destruct (handle_all_spec _ _ _ (node_mux_regs prom debug)) as [_ ->]. simpl.
  rewrite lookup_empty. naive_solver.
Qed.

(** The longest pattern of a node that matches a path. *)
Lemma node_mux_match f path : rooted path = true →
  ∃ pat, mux_match path (node_mux (UsePrometheus f) (UseDebug f)) = Some (pat, page_of f path).
Proof.
  intros Hr. unfold mux_match, page_of.
  destruct (mux_m (node_mux (UsePrometheus f) (UseDebug f)) !! path) as [h|] eqn:Hl.
  - exists path. f_equal. f_equal. apply node_mux_lookup in Hl. unfold node_regs, debug_pages in Hl.
    destruct (UsePrometheus f), (UseDebug f); simpl in Hl; rewrite ?elem_of_cons, ?elem_of_nil in Hl;
      repeat (destruct Hl as [[= -> ->]|Hl]; [by vm_compute|]); done.
  - assert (∀ p h, (p, h) ∈ node_regs (UsePrometheus f) (UseDebug f) → path ≠ p) as Hne.
    { intros p h Hin ->. apply node_mux_lookup in Hin. congruence. }
    assert (String.prefix "/" path = true) as Hroot.
    { destruct path as [|c path]; [done|]. cbn in Hr |- *. apply Ascii.eqb_eq in Hr as ->. by destruct path. }
    rewrite (decide_False (P:=path = "/status")) by (eapply Hne; right; left).
    rewrite decide_False.
    2:{ intros [-> Hp]. eapply Hne; [|done]. unfold node_regs. rewrite Hp. do 2 right. left. }
    unfold node_mux. destruct (UseDebug f); cbn [mux_es Datatypes.app List.find fst]; [|by rewrite Hroot; eexists].
    assert (∀ p, p ∈ debug_pages.*1 → path ≠ p) as Hnd.
    { intros p ([q h] & -> & Hin)%list_elem_of_fmap. apply (Hne q h). unfold node_regs.
      do 2 right. apply elem_of_app. right. by right. }
    rewrite !decide_False by (apply Hnd; simpl; set_solver).
    destruct (String.prefix "/debug/pprof/" path); [by eexists|]. rewrite Hroot. by eexists.
Qed.

Lemma node_patterns prom debug p h : (p, h) ∈ node_regs prom debug →
  rooted p = true ∧ (ends_slash p = true → p = "/" ∨ p = "/debug/pprof/" ∧ debug = true).
Proof.
  assert (Forall (λ r, rooted r.1 = true ∧
    (ends_slash r.1 = false ∨ r.1 = "/" ∨ r.1 = "/debug/pprof/" ∧ debug = true)) (node_regs prom debug)) as Hall.
  { refine (bool_decide_unpack _ _). by destruct prom, debug; vm_compute. }
  rewrite Forall_forall in Hall. intros Hin. destruct (Hall _ Hin) as [Hr Hs]. simpl in *.
  split; [done|]. intros He. destruct Hs as [Hs|Hs]; [congruence|done].
Qed.

(** No pattern of a node is a directory of which it does not have the page. *)
Lemma node_mux_slash host path prom debug :
  rooted host = false → rooted path = true →
  shouldRedirect host path (node_mux prom debug) = false.
Proof.
  intros Hh Hr. unfold shouldRedirect.
  destruct (bool_decide (is_Some (mux_m _ !! path)) || _) eqn:Hhas; [done|].
  destruct (decide (path = "")) as [|Hne]; [done|].
  destruct (bool_decide (is_Some (mux_m _ !! (path +:+ "/"))) || _) eqn:Hs; [|done]. exfalso.
  apply orb_false_iff in Hhas as [Hp _]. apply bool_decide_eq_false in Hp.
  assert (∃ h, (path +:+ "/", h) ∈ node_regs prom debug) as [h Hin].
  { apply orb_true_iff in Hs as [[h Hs]%bool_decide_eq_true|[h Hs]%bool_decide_eq_true];
      apply node_mux_lookup in Hs; [by eauto|].
    destruct host as [|c host]; [by eauto|]. apply node_patterns in Hs as [Hs _].
    change (rooted (String c host) = true) in Hs. congruence. }
  apply node_patterns in Hin as [_ Hq]. destruct (Hq (ends_slash_snoc path)) as [Hq'|[Hq' ->]]; clear Hq;
    rename Hq' into Hq.
  { apply (f_equal String.length) in Hq. rewrite str_length_app in Hq. destruct path; [done|].
    simpl in Hq. lia. }
  apply Hp. assert (path = "/debug/pprof") as ->; [|exists PprofRedirect; by destruct prom].
  apply (prefix_length_eq path _ (path +:+ "/")).
  - apply prefix_app. by eexists.
  - by rewrite Hq.
  - apply (f_equal String.length) in Hq. rewrite str_length_app in Hq. simpl in Hq |- *. lia.
Qed.

Lemma cleanPath_is_rooted p : rooted (cleanPath p) = true.
Proof. destruct (cleanPath_form p) as (ws & _ & [->|[_ ->]]); done. Qed.

(** ** Properties *)

(** C32: the pages of a node.  With HTTP on, the registrations of the assembled
    application do not clash, whatever the other flags; a request for a
    canonical path gets the page its flags promise (the status page, the metrics
    and the debug pages if they are on, the gRPC gateway for everything else),
    and any other spelling of a path is redirected to the canonical one. *)
Theorem http_pages f host :
  UseHTTP f = true → rooted host = false →
  ∃ mux, mux_of f = Ok mux ∧ ∀ path,
    if decide (cleanPath path = path)
    then ∃ pat, mux_Handler host path mux = ToHandler pat (page_of f path)
    else mux_Handler host path mux = RedirectTo (cleanPath path) 301.
Proof.
  intros Hf Hh. exists (node_mux (UsePrometheus f) (UseDebug f)). split; [by apply mux_of_node|].
  intros path. unfold mux_Handler. rewrite node_mux_slash by (done || apply cleanPath_is_rooted).
  case_decide as Hc; [|done]. rewrite mux_handler_path by done.
  destruct (node_mux_match f path) as [pat ->]; [|by eauto]. rewrite <- Hc. apply cleanPath_is_rooted.
Qed.

(** An application adds pages of its own without surprises: after any
    registrations that succeed on top of the node's, a path goes to the longest
    registered pattern that matches it, the node's own patterns among them, and
    a redirect is final: the client that follows it, with the path decoded from
    the location, is not redirected again. *)
Theorem routes_longest_match f mux0 mux regs :
  UseHTTP f = true → mux_of f = Ok mux0 → handle_all regs mux0 = Ok mux →
  let all := regs ++ node_regs (UsePrometheus f) (UseDebug f) in
  (∀ path pat h, mux_match path mux = Some (pat, h) ↔
     (pat, h) ∈ all ∧ matches pat path ∧
     ∀ pat', pat' ∈ all.*1 → matches pat' path → (String.length pat' ≤ String.length pat)%nat) ∧
  (∀ host path p code, mux_Handler host path mux = RedirectTo p code →
     unescape (escape p) = Some p ∧ ∀ p' code', mux_Handler host p mux ≠ RedirectTo p' code').
Proof.
  intros Hf H0 Hall all. rewrite (mux_of_node f Hf) in H0. injection H0 as <-.
  destruct (handle_all_spec _ _ _ Hall) as [Hinv Hm]. specialize (Hinv (node_mux_inv _ _)).
  assert (∀ p h, mux_m mux !! p = Some h ↔ (p, h) ∈ all) as Hl.
  { intros p h. unfold all. by rewrite Hm, node_mux_lookup, elem_of_app. }
  assert (∀ p, is_Some (mux_m mux !! p) ↔ p ∈ all.*1) as Hd.
  { intros p. rewrite list_elem_of_fmap. split.
    - intros [h Hh%Hl]. by exists (p, h).
    - intros ([q h] & -> & Hh%Hl). by exists h. }
  split.
  - intros path pat h. rewrite (mux_match_longest mux path pat h Hinv), Hl. by setoid_rewrite Hd.
  - intros host path p code [Hr _]%redirect_once. split; [apply unescape_escape|].
    intros p' code'. rewrite Hr. apply mux_handler_no_redirect.
Qed.

(** C34: an ACL on a path does not protect other spellings of it.  The middleware
    looks up the URL as the client wrote it, the multiplexer decodes it: a
    request without any token, for the protected path with its characters
    percent-encoded, is served by the very handler of the protected path. *)
Theorem http_escape_bypass {σ} `{StoreLaws σ} `{JWTLaws} (s : σ) sp manager now t l c host mux pat h addr root :
  refines s sp → sp !! String slash t = Some l → sp !! String slash (escape_all t) = None →
  mux_Handler host (String slash t) mux = ToHandler pat h →
  Services.NewHTTPServer c (serve host mux) [JWT_middleware (jwt_of manager now) (acl_of s)] = Ok (addr, root) →
  root (mkRequest "" (String slash (escape_all t)) false "" ∅) = Served (ToHandler pat h).
Proof.
  intros Hs _ Hnone Hroute. unfold Services.NewHTTPServer. destruct (Get "HTTPPort" 0%Z c) as [port []]; [|done].
  intros [= _ <-]. set (r := mkRequest _ _ _ _ _). unfold rootHandler. simpl. unfold JWT_middleware.
  assert (serve host mux r = Served (ToHandler pat h)) as Hr.
  { unfold serve, URL_Path, r. cbn [req_path]. rewrite unescape_plain by done. rewrite unescape_all.
    simpl. by rewrite Hroute. }
  assert (JWT (jwt_of manager now) (acl_of s) (serve host mux) r = Served (serve host mux r)) as ->;
    [|by rewrite Hr].
  apply JWT_admitted. left. simpl. rewrite (refines_allowed s sp) by done. unfold Spec.allowed.
  assert (URL_String r = String slash (escape_all t)) as ->; [|rewrite Hnone; left].
  unfold URL_String, r. simpl. rewrite EscapedPath_valid, str_app_nil_r; [done|].
  cbn [validEncoded]. by rewrite validEncoded_all.
Qed.

(** ** Witnesses *)

Definition sample_http_flags : flags :=
  mkFlags true false false true false false false true false false false false true.

Lemma http_pages_witness :
  ∃ mux pat, mux_of sample_http_flags = Ok mux ∧
    mux_Handler "localhost" "/debug/pprof/heap" mux = ToHandler pat PprofIndex.
Proof.
  destruct (http_pages sample_http_flags "localhost") as (mux & Hm & Hp); [reflexivity|reflexivity|].
  specialize (Hp "/debug/pprof/heap"). rewrite decide_True in Hp by (by vm_compute).
  destruct Hp as [pat Hp]. exists mux, pat. split; [exact Hm|]. rewrite Hp. by vm_compute.
Defined.

Lemma routes_longest_match_witness :
  ∃ mux, handle_all [("/admin", AppPage "admin"); ("/app/", AppPage "app")] (node_mux true true) = Ok mux ∧
    mux_match "/app/x" mux = Some ("/app/", AppPage "app").
Proof.
  destruct (handle_all [("/admin", AppPage "admin"); ("/app/", AppPage "app")] (node_mux true true))
    as [mux|e|x] eqn:Hm; [|by vm_compute in Hm..].
  exists mux. split; [reflexivity|].
  apply (routes_longest_match sample_http_flags (node_mux true true) mux
    [("/admin", AppPage "admin"); ("/app/", AppPage "app")]); [reflexivity|by apply mux_of_node|exact Hm|].
  split_and!; [right; left|right; by vm_compute|].
  intros p Hp. unfold matches.
  assert (Forall (λ p, p = "/app/x" ∨ ends_slash p = true ∧ String.prefix p "/app/x" = true →
    (String.length p ≤ 5)%nat)
    (([("/admin", AppPage "admin"); ("/app/", AppPage "app")] ++ node_regs true true).*1)) as Hall.
  { refine (bool_decide_unpack _ _). by vm_compute. }
  rewrite Forall_forall in Hall. apply (Hall p Hp).
Defined.

Definition sample_mux : ServeMux page :=
  match handle_all [("/admin", AppPage "admin")] (node_mux true true) with Ok m => m | _ => NewServeMux end.

Lemma http_escape_bypass_witness :
  ∃ root, Services.NewHTTPServer (Some {[ "HTTPPort" := GInt 8080 ]}) (serve "localhost" sample_mux)
      [JWT_middleware (jwt_of sample_manager 0) (acl_of sample_admin_only)] = Ok (":8080", root) ∧
    root (mkRequest "" "/%61%64%6D%69%6E" false "" ∅) = Served (ToHandler "/admin" (AppPage "admin")).
Proof.
  eexists. split.
  - unfold Services.NewHTTPServer.
    assert (Get "HTTPPort" 0%Z (Some {[ "HTTPPort" := GInt 8080 ]}) = (8080%Z, true)) as -> by by vm_compute.
    reflexivity.
  - apply (http_escape_bypass sample_admin_only {[ "/admin" := 5%Z ]} sample_manager 0 "admin" 5
      (Some {[ "HTTPPort" := GInt 8080 ]}) "localhost" sample_mux "/admin" (AppPage "admin") ":8080").
    + exact sample_admin_only_refines.
    + reflexivity.
    + reflexivity.
    + by vm_compute.
    + unfold Services.NewHTTPServer.
      assert (Get "HTTPPort" 0%Z (Some {[ "HTTPPort" := GInt 8080 ]}) = (8080%Z, true)) as -> by by vm_compute.
      reflexivity.
Defined.
