(* ===== verification/HttpServer.v ===== *)
(** * The HTTP server: [modules/node/http/http.go] and
      [modules/node/http/middleware.go]

    The middlewares of the server come from the container, which collects them
    from the constructors that are provided, in no particular order.  Apart from
    [JWT] they belong to other packages: they are arguments, of which only one
    thing is asked, that they serve nothing the handler they wrap does not. *)

From S2P Require Import Prelude Utf8 Json JsonText Files HttpMux Config Acl Jwt AuthGate.
From S2P Require Import Datastore FsRepo Services Wiring GrpcServer HttpRoutes.

(** ** Middlewares *)

(** The middlewares of the packages. *)
Record http_lib (R : Type) := mkHttpLib {
  RecoveryHandler : bool → Middleware R;     (* whether the stack is printed *)
  LoggingHandler : string → Middleware R;    (* where the log is written to *)
  nethttp_Middleware : Middleware R;
  HandlerProvider : string → Middleware R;
  cors_Handler : Middleware R;
}.
Arguments RecoveryHandler {R} h.
Arguments LoggingHandler {R} h.
Arguments nethttp_Middleware {R} h.
Arguments HandlerProvider {R} h.
Arguments cors_Handler {R} h.

Record http_lib_laws {R} (l : http_lib R) : Prop := mkHttpLibLaws {
  recovery_transparent b : transparent (RecoveryHandler l b);
  logging_transparent o : transparent (LoggingHandler l o);
  tracing_transparent : transparent (nethttp_Middleware l);
  metrics_transparent id : transparent (HandlerProvider l id);
}.

Section middlewares.
Context {R : Type} (l : http_lib R).

Definition CORS : Middleware R := cors_Handler l.
Definition http_Tracing : Middleware R := λ next, nethttp_Middleware l next.
Definition http_PromMware : Middleware R := HandlerProvider l "".
Definition http_Recovery : Middleware R := RecoveryHandler l true.
Definition http_Logging : Middleware R := λ next, LoggingHandler l "stdout" next.

(** The middleware each member of the group adds. *)
Definition http_member (jm : AuthGate.JWTManager) (am : AuthGate.ACL) (c : ctor) : Middleware R :=
  match c with
  | httpRecovery => http_Recovery
  | Logging => http_Logging
  | httpJWT => JWT_middleware jm am
  | Tracing => http_Tracing
  | PromMware => http_PromMware
  | _ => λ next, next
  end.

Lemma member_transparent jm am c : http_lib_laws l → transparent (http_member jm am c).
Proof.
  intros Hl. destruct c; simpl; first [apply Hl | apply JWT_transparent | by intros h r x].
Qed.
End middlewares.

(** The check is in the group of middlewares, wherever. *)
Lemma http_group_gated {R} (l : http_lib R) f c (mux : handler R) jm am ms addr root r x :
  http_lib_laws l → UseHTTP f = true → UseAuth f = true → ms ≡ₚ group_members f HttpMiddleware →
  Services.NewHTTPServer c mux (http_member l jm am <$> ms) = Ok (addr, root) →
  root r = Served x →
  admitted am (URL_String r) (verified jm (http_token r)) ∧ mux r = Served x.
Proof.
  intros Hl Hh Ha Hms HN Hx.
  assert (httpJWT ∈ ms) as (before & after & ->)%list_elem_of_split.
  { rewrite Hms. apply elem_of_group. split; [simpl; set_solver|]. simpl. by rewrite Hh, Ha. }
  assert (∀ cs, Forall transparent (http_member l jm am <$> cs)) as Ht.
  { intros cs. apply Forall_fmap, Forall_forall. intros m _. by apply member_transparent. }
  rewrite fmap_app, fmap_cons in HN. eapply http_server_gated; [exact HN|apply Ht|apply Ht|done].
Qed.

(** ** Property *)

(** C5: with authentication on, the HTTP server of a node serves a request only
    if the gate admits it, for every combination of the other flags and in
    whatever order the container hands over the middlewares; and what it serves
    is what the multiplexer serves. *)
Theorem http_node_gated {R} (l : http_lib R) f c (mux : handler R) jm am ms addr root r x :
  http_lib_laws l → UseHTTP f = true → UseAuth f = true → ms ≡ₚ group_members f HttpMiddleware →
  Services.NewHTTPServer c mux (http_member l jm am <$> ms) = Ok (addr, root) →
  root r = Served x →
  admitted am (URL_String r) (verified jm (http_token r)) ∧ mux r = Served x.
Proof. apply http_group_gated. Qed.

(** ** Witness *)

Definition sample_http_lib {R : Type} : http_lib R :=
  mkHttpLib R (λ _ h, h) (λ _ h, h) (λ h, h) (λ _ h, h) (λ h, h).

Lemma sample_http_lib_laws {R} : http_lib_laws (sample_http_lib (R:=R)).
Proof. by split; repeat intros ?. Qed.

(** The group of a node with authentication and metrics, in an order of its own. *)
Definition sample_middlewares : list ctor := [PromMware; httpRecovery; httpJWT; Logging].

Lemma http_node_gated_witness :
  let am := acl_of sample_admin_only in
  let jm := jwt_of sample_manager (101 * second) in
  admitted am "/admin" (verified jm (http_token (sample_request ""))).
Proof.
  intros am jm. pose (mux := (λ r, Served (req_path r)) : handler string).
  refine (proj1 (http_node_gated sample_http_lib sample_http_flags (Some {[ "HTTPPort" := GInt 8080 ]}) mux jm am
    sample_middlewares ":8080" (rootHandler mux (http_member sample_http_lib jm am <$> sample_middlewares))
    (sample_request "") "/admin" _ _ _ _ _ _)).
  - apply sample_http_lib_laws.
  - reflexivity.
  - reflexivity.
  - refine (bool_decide_unpack _ _). by vm_compute.
  - unfold Services.NewHTTPServer.
    assert (Get "HTTPPort" 0%Z (Some {[ "HTTPPort" := GInt 8080 ]}) = (8080%Z, true)) as -> by by vm_compute.
    reflexivity.
  - by vm_compute.
Defined.
