(* ===== verification/Core.v ===== *)
(** * The interfaces of the library: [core/core.go]

    A service hands out the parts that are configured: an accessor returns the
    part or an error.  The interfaces are classes here; [service_typed] is what
    a caller relies on when an accessor has returned no error: every method of
    the part answers with the value of its kind, never with nil. *)

From S2P Require Import Prelude Utf8 Json JsonText Files Config Client Wiring.

(** An interface value, by the value of the container it holds; [None] is nil. *)
Definition value : Type := option key.

Definition is_nil (v : value) : bool := bool_decide (v = None).

(** ** Interfaces *)

Class P2PI (P : Type) := {
  p2p_Host : P → value;
  p2p_Routing : P → value;
  p2p_Discovery : P → value;
  p2p_Pubsub : P → value;
}.

Class AuthI (A : Type) := {
  auth_JWT : A → value;
  auth_ACL : A → value;
}.

(** [Client]: the connection and the error as Go returns them. *)
Class GRPCI (G : Type) := {
  grpc_Server : G → value;
  grpc_Client : G → string → option ClientConn * option error;
}.

Class HTTPI (H : Type) := {
  http_Mux : H → value;
  http_Gateway : H → value;
}.

(** [Start], [Stop] and [Done] are the container's. *)
Class Service (T A P G H : Type) `{AuthI A, P2PI P, GRPCI G, HTTPI H} := {
  svc_Repo : T → value;
  svc_TM : T → value;
  svc_Auth : T → res A;
  svc_P2P : T → res P;
  svc_GRPC : T → res G;
  svc_HTTP : T → res H;
  svc_Locker : T → res value;
  svc_Events : T → res value;
  svc_Protocols : T → res value;
  svc_SharedStorage {St : Type} : T → res St → res St;   (* with the provider's answer *)
  svc_Files : T → res value;
  svc_Tracing : T → res value;
  svc_Metrics : T → res value;
}.

(** ** What a caller relies on *)

(** The methods of a part that was handed out without an error. *)
Record service_typed `{Service T A P G H} (s : T) : Prop := mkTyped {
  typed_Auth a : svc_Auth s = Ok a → auth_JWT a = Some JWTManager ∧ auth_ACL a = Some ACL;
  typed_P2P p : svc_P2P s = Ok p →
    p2p_Host p = Some MainHost ∧ p2p_Routing p = Some Routing ∧
    p2p_Discovery p = Some Discovery ∧ p2p_Pubsub p = Some PubSub;
  typed_GRPC g : svc_GRPC s = Ok g → grpc_Server g = Some GrpcServer;
  typed_HTTP h : svc_HTTP s = Ok h → http_Mux h = Some HttpMux ∧ http_Gateway h = Some Gateway;
  typed_Locker v : svc_Locker s = Ok v → v = Some DLocker;
  typed_Events v : svc_Events s = Ok v → v = Some EventsSvc;
  typed_Protocols v : svc_Protocols s = Ok v → v = Some ProtocolsSvc;
  typed_Files v : svc_Files s = Ok v → v = Some IpfsPeer;
  typed_Tracing v : svc_Tracing s = Ok v → v = Some Tracer;
  typed_Metrics v : svc_Metrics s = Ok v → v = Some Registry;
}.

(** The parts that "are must". *)
Definition has_musts `{Service T A P G H} (s : T) : Prop :=
  svc_Repo s = Some Repo ∧ svc_TM s = Some TaskManager.
