(* ===== verification/Node.v ===== *)
(** * The node: [modules/node/node.go]

    [New] opens the repository, reads the flags of its configuration, assembles
    the application and copies the dependencies into the service; the accessors
    of the service ([core/core.go]) report what is configured. *)

From S2P Require Import Prelude Utf8 Json JsonText Files Config Base64 Options Datastore FsRepo.
From S2P Require Import InmemRepo Client Wiring Core.

(** ** The service *)

Inductive node_repo := OnDisk (id : nat) | InMem (r : inmemRepo).

(** [deps]: which of the values are not nil. *)
Definition deps : Type := key → bool.

Record impl := mkImpl { app_repo : node_repo; app_flags : flags; dp : deps }.

(** [New].  [fails] says which constructors return an error and [ifails] which
    invocations do: then the container stops, and the dependencies stay nil;
    its error is not looked at. *)
Definition populated (f : flags) (fails : ctor → bool) (ifails : invoke → bool) : bool :=
  forallb (λ i, runs f fails depth i && negb (ifails i)) (invokes f).

Definition New (env : repo_env) (fails : ctor → bool) (ifails : invoke → bool) (bCfg : JsonConfig) :
    ST world impl :=
  r ← (if (Get "RootPath" "" bCfg).2
       then id ← FsRepo.CreateOrOpen env bCfg; mret (OnDisk id)
       else r ← st_lift (InmemRepo.CreateOrOpen env bCfg); mret (InMem r));
  c ← (match r with
       | OnDisk id => FsRepo.Config id
       | InMem r => mret (InmemRepo.Config r)
       end);
  f ← st_lift (flags_of c);
  mret (mkImpl r f (λ k, populated f fails ifails && enabled f (provider k))).

(** ** Accessors: the value or the error *)

Section accessors.
Context (s : impl).

(** A field of [deps]. *)
Definition field (k : key) : value := if dp s k then Some k else None.

(** A field that is handed out unless it is nil. *)
Definition field_or (k : key) (e : error) : res value :=
  if is_nil (field k) then Err e else Ok (field k).

Definition Repo_ : value := field Repo.
Definition TM : value := field TaskManager.

(** The interfaces are the service itself. *)
Definition P2P : res impl :=
  if is_nil (field MainHost) || is_nil (field Routing) || is_nil (field Discovery) || is_nil (field PubSub)
  then Err "P2P not configured" else Ok s.
Definition Host_ : value := field MainHost.
Definition Routing_ : value := field Routing.
Definition Discovery_ : value := field Discovery.
Definition Pubsub_ : value := field PubSub.

Definition Files_ : res value := field_or IpfsPeer "Files service not configured".

Definition Auth : res impl :=
  if is_nil (field JWTManager) || is_nil (field ACL) then Err "Auth not configured" else Ok s.
Definition JWT_ : value := field JWTManager.
Definition ACL_ : value := field ACL.

Definition GRPC : res impl := if is_nil (field GrpcServer) then Err "GRPC service not configured" else Ok s.
Definition Server_ : value := field GrpcServer.

Definition HTTP : res impl := if is_nil (field HttpMux) then Err "HTTP service not configured" else Ok s.
Definition Mux_ : value := field HttpMux.
Definition Gateway_ : value := field Gateway.

Definition Locker : res value := field_or DLocker "Locker not configured".
Definition Protocols_ : res value := field_or ProtocolsSvc "Protocols svc not configured".
Definition Events_ : res value := field_or EventsSvc "Events not configured".

(** [call]: what the provider answers for a namespace and a callback. *)
Definition SharedStorage_ {St : Type} (call : res St) : res St :=
  if is_nil (field Wiring.SharedStorage) then Err "shared storage provider not configured" else call.

Definition Tracing_ : res value := field_or Tracer "tracing not configured".
Definition Metrics_ : res value := field_or Registry "metrics not enabled".
End accessors.

(** [Client]: the connection and the error as Go returns them; [None] is nil.
    The error of the second lookup is a variable of its own scope. *)
Definition client_svc : Type := string → error + ClientConn.

Definition Client (PCs SCs : option client_svc) (name : string) : option ClientConn * option error :=
  match PCs, SCs with
  | None, None => (None, Some "Service discovery not configured")
  | _, _ =>
    let p2p err :=
      match PCs with
      | Some get => match get name with inr conn => (Some conn, None) | inl _ => (None, err) end
      | None => (None, err)
      end in
    match SCs with
    | Some get => match get name with inr conn => (Some conn, None) | inl e => p2p (Some e) end
    | None => p2p None
    end
  end.

(** ** The interfaces *)

(** The client services of the node, by what they return for a name. *)
Section interfaces.
Context (PCs SCs : client_svc).

Definition service_Client (s : impl) (name : string) : option ClientConn * option error :=
  Client (if dp s P2PClientSvc then Some PCs else None) (if dp s StaticClientSvc then Some SCs else None) name.

#[export] Instance impl_P2P : P2PI impl := {|
  p2p_Host := Host_; p2p_Routing := Routing_; p2p_Discovery := Discovery_; p2p_Pubsub := Pubsub_;
|}.
#[export] Instance impl_Auth : AuthI impl := {| auth_JWT := JWT_; auth_ACL := ACL_ |}.
#[export] Instance impl_GRPC : GRPCI impl := {| grpc_Server := Server_; grpc_Client := service_Client |}.
#[export] Instance impl_HTTP : HTTPI impl := {| http_Mux := Mux_; http_Gateway := Gateway_ |}.

#[export] Instance impl_Service : Service impl impl impl impl impl := {|
  svc_Repo := Repo_; svc_TM := TM; svc_Auth := Auth; svc_P2P := P2P; svc_GRPC := GRPC; svc_HTTP := HTTP;
  svc_Locker := Locker; svc_Events := Events_; svc_Protocols := Protocols_;
  svc_SharedStorage St s call := SharedStorage_ s call; svc_Files := Files_; svc_Tracing := Tracing_; svc_Metrics := Metrics_;
|}.
End interfaces.

(** ** Lemmas *)

Lemma populated_no_failure f : populated f no_failure (λ _, false) = true.
Proof.
  assert (all_flags (λ f, populated f no_failure (λ _, false)) = true) as H by by vm_compute.
  by apply (all_flags_spec _ f) in H.
Qed.

Lemma Populate_invoked f : Populate ∈ invokes f.
Proof.
  unfold invokes. apply list_elem_of_omap. exists (Invoke Populate). split; [|done].
  unfold app. rewrite !elem_of_app. do 14 right. set_solver.
Qed.

(** A value of [deps] whose constructor is provided and fails. *)
Lemma populated_failure f fails ifails k :
  (Req k ∈ deps_in ∨ Opt k ∈ deps_in) → enabled f (provider k) = true → fails (provider k) = true →
  populated f fails ifails = false.
Proof.
  intros Hk He Hf. apply not_true_iff_false. unfold populated.
  rewrite forallb_Forall, Forall_forall. intros Hall.
  specialize (Hall _ (Populate_invoked f)). apply andb_true_iff in Hall as [Hr _].
  unfold runs in Hr. rewrite forallb_Forall, Forall_forall in Hr.
  pose proof (resolve_fails f fails depth (provider k) Hf) as Hn.
  destruct Hk as [Hk|Hk]; apply Hr in Hk; unfold input_ok in Hk; rewrite Hn in Hk; [done|].
  by rewrite He in Hk.
Qed.

Lemma New_dp env fails ifails bCfg w s w' :
  New env fails ifails bCfg w = (Ok s, w') →
  dp s = λ k, populated (app_flags s) fails ifails && enabled (app_flags s) (provider k).
Proof.
  unfold New, mbind, st_mbind, st_lift, mret, st_mret. intros H.
  repeat case_match; simplify_eq; done.
Qed.

Lemma field_not_nil s k : is_nil (field s k) = false → field s k = Some k.
Proof. unfold field. by destruct (dp s k). Qed.

Lemma field_or_Ok s k e v : field_or s k e = Ok v → v = Some k.
Proof.
  unfold field_or. destruct (is_nil (field s k)) eqn:E; [done|]. intros [= <-]. by apply field_not_nil.
Qed.

(** The guard of an accessor that returns the service itself. *)
Lemma guard_Ok {A} (b : bool) e (s v : A) : (if b then Err e else Ok s) = Ok v → b = false ∧ v = s.
Proof. destruct b; [done|]. by intros [= <-]. Qed.

(** The gateway is provided together with the HTTP mux. *)
Lemma gateway_with_mux f : enabled f (provider HttpMux) = true → enabled f (provider Gateway) = true.
Proof.
  assert (all_flags (λ f, implb (enabled f (provider HttpMux)) (enabled f (provider Gateway))) = true) as H
    by by vm_compute.
  apply (all_flags_spec _ f) in H. cbv beta in H. intros E. by rewrite E in H.
Qed.

(** ** Properties *)

Definition available {A} (r : res A) : bool := is_ok r.

(** The services of a node are the ones its flags ask for.  When no
    constructor and no invocation fails, each accessor of the service returns
    its value exactly if the flag (for files, both flags) is set, and the
    repository and the task manager are always there. *)
Theorem services_match_flags env bCfg w s w' :
  New env no_failure (λ _, false) bCfg w = (Ok s, w') →
  let f := app_flags s in
  available (Auth s) = UseAuth f ∧ available (P2P s) = UseP2P f ∧
  available (GRPC s) = UseGRPC f ∧ available (HTTP s) = UseHTTP f ∧
  available (Locker s) = UseLocker f ∧ available (Files_ s) = UseP2P f && UseFiles f ∧
  available (Events_ s) = UseP2P f ∧ available (Protocols_ s) = UseP2P f ∧
  available (SharedStorage_ s (Ok ())) = UseP2P f ∧ available (Tracing_ s) = UseTracing f ∧
  available (Metrics_ s) = UsePrometheus f ∧ Repo_ s = Some Repo ∧ TM s = Some TaskManager.
Proof.
  intros HN f. pose proof (New_dp _ _ _ _ _ _ _ HN) as Hdp.
  rewrite populated_no_failure in Hdp. simpl in Hdp. subst f.
  unfold Auth, P2P, GRPC, HTTP, Locker, Files_, Events_, Protocols_, SharedStorage_, Tracing_,
    Metrics_, Repo_, TM, field_or, field. rewrite Hdp. simpl.
  destruct (app_flags s) as [a b d e p g h i j k l m n]; simpl.
  destruct a, b, d, e, p, g, h, i; done.
Qed.

(** C17: the parts of a service are typed.  Whatever constructors and invocations
    failed, a part that an accessor of a new node hands out without an error
    answers every method with the value of its kind, never with nil; the
    gateway too, which the accessor does not check.  If nothing failed, the
    repository and the task manager are there as well. *)
Theorem new_service_typed PCs SCs env fails ifails bCfg w s w' :
  New env fails ifails bCfg w = (Ok s, w') →
  service_typed (H4 := impl_Service PCs SCs) s ∧
  (populated (app_flags s) fails ifails = true → has_musts (H4 := impl_Service PCs SCs) s).
Proof.
  intros HN. pose proof (New_dp _ _ _ _ _ _ _ HN) as Hdp. split.
  - split; simpl; try apply field_or_Ok.
    + intros a [[H1 H2]%orb_false_iff ->]%guard_Ok. unfold JWT_, ACL_. by rewrite !field_not_nil.
    + intros p [[[[H1 H2]%orb_false_iff H3]%orb_false_iff H4]%orb_false_iff ->]%guard_Ok.
      unfold Host_, Routing_, Discovery_, Pubsub_. by rewrite !field_not_nil.
    + intros g [H1 ->]%guard_Ok. by apply field_not_nil.
    + intros h [H1 ->]%guard_Ok. apply field_not_nil in H1 as Hm. split; [done|].
      unfold Gateway_, field in *. rewrite Hdp in Hm |- *. destruct (populated _ _ _); [|done].
      destruct (true && enabled _ (provider HttpMux)) eqn:E; [|done]. by rewrite (gateway_with_mux _ E).
  - intros Hp. split; simpl; unfold Repo_, TM, field; by rewrite Hdp, Hp.
Qed.

(** A failed assembly goes unnoticed: when the constructor of a configured
    value fails, [New] still returns a service and no error, but the service
    has nothing, not even its repository. *)
Theorem new_hides_failure env fails ifails bCfg w s w' k :
  New env fails ifails bCfg w = (Ok s, w') →
  (Req k ∈ deps_in ∨ Opt k ∈ deps_in) → enabled (app_flags s) (provider k) = true →
  fails (provider k) = true →
  Repo_ s = None ∧ TM s = None ∧ ∀ k', field s k' = None.
Proof.
  intros HN Hk He Hf. pose proof (New_dp _ _ _ _ _ _ _ HN) as Hdp.
  rewrite (populated_failure _ _ _ k) in Hdp by done. unfold Repo_, TM, field. by rewrite Hdp.
Qed.

(** The contract of [Client] is broken in exactly one case: it returns
    neither a connection nor an error if and only if discovery is the only
    configured lookup and it fails, because the error is assigned to a shadowed
    variable.  In every other case it returns one of the two, and a connection
    comes from the static addresses if they have one, else from discovery. *)
Theorem client_contract PCs SCs name :
  (Client PCs SCs name = (None, None) ↔ SCs = None ∧ ∃ get e, PCs = Some get ∧ get name = inl e) ∧
  (∀ conn e, Client PCs SCs name ≠ (Some conn, Some e)) ∧
  (∀ conn, Client PCs SCs name = (Some conn, None) ↔
     (∃ get, SCs = Some get ∧ get name = inr conn) ∨
     ((∀ get c, SCs = Some get → get name ≠ inr c) ∧ ∃ get, PCs = Some get ∧ get name = inr conn)).
Proof.
  unfold Client. split_and!.
  - repeat case_match; simplify_eq; split; intros G; simplify_eq; eauto;
      destruct G as (G1 & get & e' & G2 & G3); simplify_eq; congruence.
  - intros conn e. repeat case_match; congruence.
  - intros conn. repeat case_match; simplify_eq; split; intros G; simplify_eq; eauto;
      try (destruct G as [(get & G1 & G2)|(Hno & get & G1 & G2)]; simplify_eq; congruence).
    + right. split; [intros get c1 [= <-]; congruence|eauto].
    + destruct G as [(get & [= <-] & G2)|(Hno & _)]; [congruence|]. exfalso. by eapply Hno.
Qed.

(** ** Witnesses *)

Definition sample_node_config : JsonConfig :=
  Some {[ "UseAuth" := GBool true; "UseLocker" := GBool true ]}.

Definition sample_node_flags : flags :=
  mkFlags false false true true false false false false false false false false false.

Lemma sample_node fails : ∃ s,
  New sample_repo_env fails (λ _, false) sample_node_config sample_world = (Ok s, sample_world) ∧
  app_flags s = sample_node_flags.
Proof. eexists. split; reflexivity. Qed.

Lemma services_match_flags_witness :
  ∃ s, available (Auth s) = true ∧ available (P2P s) = false ∧ available (Locker s) = true.
Proof.
  destruct (sample_node no_failure) as (s & HN & Hf). exists s.
  destruct (services_match_flags sample_repo_env sample_node_config sample_world s sample_world HN)
    as (Ha & Hp & _ & _ & Hl & _). rewrite Ha, Hp, Hl, Hf. done.
Defined.

Lemma new_hides_failure_witness : ∃ s,
  New sample_repo_env (λ c, bool_decide (c = NewLocker)) (λ _, false) sample_node_config sample_world
    = (Ok s, sample_world) ∧ Repo_ s = None.
Proof.
  destruct (sample_node (λ c, bool_decide (c = NewLocker))) as (s & HN & Hf). exists s.
  split; [exact HN|].
  apply (new_hides_failure _ _ _ _ _ _ _ DLocker HN); [|by rewrite Hf|reflexivity].
  right. unfold deps_in. do 5 right. left.
Defined.

(** A node with authentication hands out its two managers. *)
Lemma new_service_typed_witness : ∃ s,
  New sample_repo_env no_failure (λ _, false) sample_node_config sample_world = (Ok s, sample_world) ∧
  Auth s = Ok s ∧ JWT_ s = Some JWTManager ∧ ACL_ s = Some ACL ∧ TM s = Some TaskManager.
Proof.
  destruct (sample_node no_failure) as (s & HN & Hf). exists s. split; [exact HN|].
  destruct (new_service_typed (λ _, inl "") (λ _, inl "") _ _ _ _ _ _ _ HN) as [HT HM].
  destruct HM as [_ HM]; [by rewrite Hf|].
  assert (Auth s = Ok s) as HA.
  { unfold Auth, field. rewrite (New_dp _ _ _ _ _ _ _ HN), Hf. by vm_compute. }
  destruct (typed_Auth _ HT s HA) as [HJ HC]. split_and!; assumption.
Defined.
