(* ===== verification/Lifecycle.v ===== *)
(** * Starting and stopping a node: the lifecycle hooks

    The constructors and invocations of the application append hooks to the
    container's lifecycle as they run.  When they run is up to the container:
    [valid_trace] is what it promises (each constructor at most once and after
    the constructors of its inputs, the invocations in their order), and
    [assemble] is one such run, which shows that there is one for all flags.
    The hooks run as [Fx] says. *)

From S2P Require Import Prelude Fx Utf8 Json JsonText Files Config Base64 Options Datastore FsRepo.
From S2P Require Import InmemRepo Client Wiring Node.

(** ** Running the application *)

Inductive act := Built (c : ctor) | Invoked (i : invoke).

#[export] Instance invoke_eq_dec : EqDecision invoke.
Proof. solve_decision. Defined.
#[export] Instance act_eq_dec : EqDecision act.
Proof. solve_decision. Defined.

Definition act_in (a : act) : list input :=
  match a with Built c => ctor_in c | Invoked i => invoke_in i end.

(** The constructors an input calls for. *)
Definition input_ctors (f : flags) (i : input) : list ctor :=
  match i with
  | Req k => [provider k]
  | Opt k => if enabled f (provider k) then [provider k] else []
  | Grp g => group_members f g
  end.

Definition needs (f : flags) (a : act) : list ctor := act_in a ≫= input_ctors f.

(** Every act comes after the constructors it needs. *)
Definition ordered (f : flags) (tr : list act) : Prop :=
  ∀ n a c, tr !! n = Some a → c ∈ needs f a → Built c ∈ take n tr.

Record valid_trace (f : flags) (tr : list act) : Prop := mkValid {
  trace_once : NoDup tr;
  trace_invokes : omap (λ a, match a with Invoked i => Some i | Built _ => None end) tr = invokes f;
  trace_ordered : ordered f tr;
  trace_provided c : Built c ∈ tr → enabled f c = true;
}.

(** Demand-driven construction. *)
Fixpoint build (fuel : nat) (f : flags) (tr : list act) (c : ctor) : list act :=
  if decide (Built c ∈ tr) then tr
  else match fuel with
       | O => tr
       | S fuel => foldl (build fuel f) tr (needs f (Built c)) ++ [Built c]
       end.

Definition assemble_from (f : flags) (tr : list act) (is_ : list invoke) : list act :=
  foldl (λ tr i, foldl (build depth f) tr (needs f (Invoked i)) ++ [Invoked i]) tr is_.

Definition assemble (f : flags) : list act := assemble_from f [] (invokes f).

(** ** Hooks *)

(** Which of them append a hook, with a start or a stop function; [boot]:
    whether bootstrap addresses are configured. *)
Definition has_start (boot : bool) (a : act) : bool :=
  match a with
  | Built NewMuxedListener | Built grpcNew | Invoked NewHTTPServer => true
  | Invoked Bootstrapper => boot
  | _ => false
  end.

Definition has_stop (a : act) : bool :=
  match a with
  | Built repoCtor | Built NewTaskManager | Built NewTracer | Built NewLocker
  | Built Libp2p | Built LocalDialerCtor | Built NewMuxedListener | Built grpcNew
  | Invoked NewHTTPServer | Invoked cancelHook => true
  | _ => false
  end.

(** The orders in which the functions run. *)
Definition start_order (boot : bool) (tr : list act) : list act := List.filter (has_start boot) tr.
Definition stop_order (tr : list act) : list act := reverse (List.filter has_stop tr).

(** The hook of the repository in [New]. *)
Definition go_err (r : res unit) : option error :=
  match r with Ok _ => None | Err e => Some e | Panic p => Some p end.

Definition repo_hook (env : repo_env) (id : nat) : hook world :=
  mkHook None (Some (λ w, let (r, w') := FsRepo.Close env id w in (go_err r, w'))).

(** The hooks of a node with an on-disk repository; [others] are the hooks of
    the other acts. *)
Definition act_hook (env : repo_env) (id : nat) (boot : bool) (others : act → hook world) (a : act) :
    option (hook world) :=
  if decide (a = Built repoCtor) then Some (repo_hook env id)
  else if has_start boot a || has_stop a then
    Some (mkHook (if has_start boot a then OnStart (others a) else None)
                 (if has_stop a then OnStop (others a) else None))
  else None.

Definition node_hooks (env : repo_env) (id : nat) (boot : bool) (others : act → hook world)
    (tr : list act) : list (hook world) :=
  omap (act_hook env id boot others) tr.

(** The application of a node is started and stopped; when it could not be
    assembled [App.Start] returns that error and runs nothing. *)
Definition start_stop `{Lifecycle} (assembled : bool) (hs : list (hook world)) (w : world) : world :=
  let '(e, (n, w')) := if assembled then app_Start hs w else (Some "could not build", (0%nat, w)) in
  (app_Stop hs n w').2.

(** ** Lemmas: assembling *)

(** How long the chains of constructors are. *)
Definition rank (c : ctor) : nat :=
  match c with
  | NewTaskManager | NewTracer | NewLocker | NewJWTManager | Identity | NewTCPListener
  | NewUDSListener | NewStaticClientService | MetricsOpts => 1
  | Libp2p | JaegerTracerOptions | Tracing => 2
  | Pubsub | NewSvcDiscovery | NewNode | NewP2PListener | protocolsNew => 3
  | NewSharedStoreProvider | NewMuxedListener | NewP2PClientService | NewEventsSvc => 4
  | NewAclManager => 5
  | JwtAuthOptions | httpJWT => 6
  | OptsAggregator => 7
  | grpcNew => 8
  | _ => 0
  end%nat.

Lemma elem_of_input_ctors f i c : c ∈ input_ctors f i →
  match i with Req k | Opt k => c = provider k | Grp g => c ∈ members g end.
Proof.
  destruct i as [k|k|g]; simpl.
  - by intros ->%list_elem_of_singleton.
  - destruct (enabled f (provider k)); [by intros ->%list_elem_of_singleton|by intros ?%not_elem_of_nil].
  - by intros [? _]%elem_of_group.
Qed.

(** The constructors do not depend on each other in a circle. *)
Lemma needs_rank f c c' : c' ∈ needs f (Built c) → (rank c' < rank c)%nat.
Proof.
  unfold needs. intros (i & Hi & Hin)%list_elem_of_bind. apply elem_of_input_ctors in Hi. simpl in Hin.
  assert (Forall (λ i, match i with
    | Req k | Opt k => (rank (provider k) < rank c)%nat
    | Grp g => Forall (λ c', (rank c' < rank c)%nat) (members g)
    end) (ctor_in c)) as Hall.
  { destruct c; simpl; repeat constructor. }
  rewrite Forall_forall in Hall. specialize (Hall i Hin). destruct i as [k|k|g]; [by subst..|].
  rewrite Forall_forall in Hall. by apply Hall.
Qed.

Section assembling.
Context (f : flags).

Record good (tr : list act) : Prop := mkGood {
  good_once : NoDup tr;
  good_ordered : ordered f tr;
  good_provided c : Built c ∈ tr → enabled f c = true;
}.

Lemma good_snoc tr a : good tr → a ∉ tr → (∀ c, c ∈ needs f a → Built c ∈ tr) →
  (∀ c, a = Built c → enabled f c = true) → good (tr ++ [a]).
Proof.
  intros [Hn Ho Hp] Ha Hc He. split.
  - apply NoDup_app. split_and!; [done| |apply NoDup_singleton]. intros x Hx ->%list_elem_of_singleton. done.
  - intros n b c Hb Hin. destruct (decide (n < length tr)%nat) as [Hlt|Hge].
    + rewrite lookup_app_l in Hb by done. rewrite take_app_le by lia. by eapply Ho.
    + rewrite lookup_app_r in Hb by lia.
      assert (n = length tr) as -> by (apply lookup_lt_Some in Hb; simpl in Hb; lia).
      rewrite Nat.sub_diag in Hb. injection Hb as <-. rewrite take_app_length. by apply Hc.
  - intros c [?|Hc'%list_elem_of_singleton]%elem_of_app; [by apply Hp|by apply He].
Qed.

(** What an act needs can be built when its inputs are there. *)
Lemma input_ok_needs n i c : input_ok f no_failure n i = true → c ∈ input_ctors f i →
  resolve f no_failure n c = true.
Proof.
  destruct i as [k|k|g]; simpl.
  - by intros ? ->%list_elem_of_singleton.
  - destruct (enabled f (provider k)); simpl; [by intros ? ->%list_elem_of_singleton|by intros _ ?%not_elem_of_nil].
  - rewrite forallb_Forall, Forall_forall. intros Hall [Hm He]%elem_of_group.
    specialize (Hall c Hm). by rewrite He in Hall.
Qed.

Lemma resolve_needs n c c' : resolve f no_failure (S n) c = true → c' ∈ needs f (Built c) →
  resolve f no_failure n c' = true.
Proof.
  intros Hr (i & Hi & Hin)%list_elem_of_bind. cbn [resolve] in Hr.
  apply andb_true_iff in Hr as [_ Hr]. rewrite forallb_Forall, Forall_forall in Hr.
  by eapply input_ok_needs; [apply (Hr i)|].
Qed.

Lemma resolve_enabled n c : resolve f no_failure n c = true → enabled f c = true.
Proof. destruct n; [done|]. cbn [resolve]. by intros [[? _]%andb_true_iff _]%andb_true_iff. Qed.

(** Building several constructors, given what building one of them does. *)
Lemma foldl_build (bld : list act → ctor → list act) (P : ctor → Prop) cs r :
  (∀ tr c, good tr → P c → ∃ ds, bld tr c = tr ++ (Built <$> ds) ∧ good (bld tr c) ∧
     Built c ∈ bld tr c ∧ Forall (λ d, rank d ≤ rank c)%nat ds) →
  ∀ tr, good tr → Forall P cs → Forall (λ c, rank c < r)%nat cs →
  ∃ ds, foldl bld tr cs = tr ++ (Built <$> ds) ∧ good (foldl bld tr cs) ∧
    (∀ c, c ∈ cs → Built c ∈ foldl bld tr cs) ∧ Forall (λ d, rank d < r)%nat ds.
Proof.
  intros Hb. induction cs as [|c cs IH]; intros tr Hg HP Hr; simpl.
  { exists []. rewrite app_nil_r. split_and!; [done..|by intros c ?%not_elem_of_nil|constructor]. }
  apply Forall_cons in HP as [HPc HP]. apply Forall_cons in Hr as [Hrc Hr].
  destruct (Hb tr c Hg HPc) as (d1 & E1 & G1 & I1 & R1).
  destruct (IH (bld tr c) G1 HP Hr) as (d2 & E2 & G2 & I2 & R2).
  exists (d1 ++ d2). rewrite E2. split_and!.
  - by rewrite E1, fmap_app, (assoc_L (++)).
  - by rewrite <- E2.
  - rewrite <- E2. intros c' [->|Hc']%elem_of_cons; [|by apply I2]. rewrite E2. apply elem_of_app. by left.
  - apply Forall_app. split; [|done]. eapply Forall_impl; [exact R1|]. simpl. lia.
Qed.

Lemma build_spec n : ∀ tr c, good tr → resolve f no_failure n c = true →
  ∃ ds, build n f tr c = tr ++ (Built <$> ds) ∧ good (build n f tr c) ∧
    Built c ∈ build n f tr c ∧ Forall (λ d, rank d ≤ rank c)%nat ds.
Proof.
  induction n as [|n IH]; intros tr c Hg Hr; [done|]. cbn [build]. case_decide as Hin.
  { exists []. rewrite app_nil_r. by split_and!. }
  destruct (foldl_build (build n f) (λ c, resolve f no_failure n c = true) (needs f (Built c)) (rank c)
    IH tr Hg) as (ds & E & G & I & R).
  { apply Forall_forall. intros c' Hc'. by eapply resolve_needs. }
  { apply Forall_forall. intros c' Hc'. by eapply needs_rank. }
  exists (ds ++ [c]). rewrite E in *. split_and!.
  - by rewrite fmap_app, (assoc_L (++)).
  - apply good_snoc; [done| |done|].
    + intros [?|(d & [= <-] & Hd)%list_elem_of_fmap]%elem_of_app; [done|].
      rewrite Forall_forall in R. specialize (R _ Hd). simpl in R. lia.
    + intros c' [= <-]. by eapply resolve_enabled.
  - apply elem_of_app. right. left.
  - apply Forall_app. split; [|by repeat constructor]. eapply Forall_impl; [exact R|]. simpl. lia.
Qed.

Definition invoked (a : act) : option invoke := match a with Invoked i => Some i | Built _ => None end.

Lemma omap_built ds : omap invoked (Built <$> ds) = [].
Proof. induction ds; simpl; auto. Qed.

Lemma elem_of_omap_invoked (tr : list act) i : Invoked i ∈ tr → i ∈ omap invoked tr.
Proof. intros H. apply list_elem_of_omap. by exists (Invoked i). Qed.

Lemma assemble_from_spec todo : ∀ tr, good tr → NoDup (omap invoked tr ++ todo) →
  Forall (λ i, runs f no_failure depth i = true) todo →
  good (assemble_from f tr todo) ∧ omap invoked (assemble_from f tr todo) = omap invoked tr ++ todo.
Proof.
  induction todo as [|i todo IH]; intros tr Hg Hnd Hr; [by rewrite app_nil_r|].
  change (assemble_from f tr (i :: todo)) with
    (assemble_from f (foldl (build depth f) tr (needs f (Invoked i)) ++ [Invoked i]) todo).
  apply Forall_cons in Hr as [Hi Hr]. unfold runs in Hi. rewrite forallb_Forall, Forall_forall in Hi.
  destruct (foldl_build (build depth f) (λ c, resolve f no_failure depth c = true) (needs f (Invoked i)) depth
    (build_spec depth) tr Hg) as (ds & E & G & I & _).
  { apply Forall_forall. intros c (j & Hj & Hin)%list_elem_of_bind. by eapply input_ok_needs; [apply Hi|]. }
  { apply Forall_forall. intros c _. by destruct c; vm_compute; lia. }
  assert (omap invoked (foldl (build depth f) tr (needs f (Invoked i)) ++ [Invoked i])
    = omap invoked tr ++ [i]) as Ho.
  { rewrite E, !omap_app, omap_built, app_nil_r. done. }
  destruct (IH (foldl (build depth f) tr (needs f (Invoked i)) ++ [Invoked i])) as [IH1 IH2].
  - apply good_snoc; [done| |done|done]. rewrite E. intros [Ht|(d & ? & _)%list_elem_of_fmap]%elem_of_app; [|done].
    apply elem_of_omap_invoked in Ht. apply NoDup_app in Hnd as (_ & Hd & _). apply (Hd i Ht). left.
  - by rewrite Ho, <- (assoc_L (++)).
  - done.
  - split; [done|]. rewrite IH2, Ho, <- (assoc_L (++)). done.
Qed.
End assembling.

Lemma invokes_once f : NoDup (invokes f).
Proof.
  assert (all_flags (λ f, bool_decide (NoDup (invokes f))) = true) as H by by vm_compute.
  apply (all_flags_spec _ f) in H. by apply bool_decide_eq_true in H.
Qed.

Lemma good_nil f : good f [].
Proof. split; [constructor|by intros n a c ?|by intros c ?%not_elem_of_nil]. Qed.

Lemma assemble_valid f : valid_trace f (assemble f).
Proof.
  destruct (assemble_from_spec f (invokes f) []) as [[G1 G2 G3] Ho].
  - apply good_nil.
  - simpl. apply invokes_once.
  - apply Forall_forall. intros i. apply wiring_runs.
  - split; [apply G1|apply Ho|apply G2|apply G3].
Qed.

(** ** Lemmas: order *)

(** [before l x y]: an occurrence of [x] is followed by one of [y]. *)
Definition before {A : Type} (l : list A) (x y : A) : Prop :=
  ∃ l1 l2 l3, l = l1 ++ x :: l2 ++ y :: l3.

Lemma before_reverse {A} (l : list A) x y : before l x y → before (reverse l) y x.
Proof.
  intros (l1 & l2 & l3 & ->). exists (reverse l3), (reverse l2), (reverse l1).
  by rewrite reverse_app, reverse_cons, reverse_app, reverse_cons, <- !(assoc_L (++)).
Qed.

Lemma before_filter {A} (P : A → bool) l x y :
  P x = true → P y = true → before l x y → before (List.filter P l) x y.
Proof.
  intros Hx Hy (l1 & l2 & l3 & ->). exists (List.filter P l1), (List.filter P l2), (List.filter P l3).
  rewrite List.filter_app. simpl. rewrite Hx, List.filter_app. simpl. by rewrite Hy.
Qed.

Lemma before_lookup {A} (l : list A) x y :
  before l x y ↔ ∃ i j, (i < j)%nat ∧ l !! i = Some x ∧ l !! j = Some y.
Proof.
  split.
  - intros (l1 & l2 & l3 & ->). exists (length l1), (length l1 + S (length l2))%nat. split_and!.
    + lia.
    + by rewrite list_lookup_middle.
    + rewrite lookup_app_r by lia. replace (_ - _)%nat with (S (length l2)) by lia.
      simpl. by rewrite list_lookup_middle.
  - intros (i & j & Hlt & Hi & Hj).
    apply list_elem_of_split_length in Hi as (l1 & l2 & -> & ->).
    rewrite lookup_app_r in Hj by lia.
    destruct (j - length l1)%nat as [|k] eqn:Hk; [lia|]. simpl in Hj.
    apply list_elem_of_split_length in Hj as (l3 & l4 & -> & _). by exists l1, l3, l4.
Qed.

Lemma before_trans {A} (l : list A) x y z :
  NoDup l → before l x y → before l y z → before l x z.
Proof.
  rewrite !before_lookup. intros Hnd (i & j & Hij & Hi & Hj) (j' & k & Hjk & Hj' & Hk).
  assert (j = j') as -> by (by eapply NoDup_lookup). exists i, k. split_and!; [lia|done|done].
Qed.

(** What an act needs, directly or not. *)
Definition dep (f : flags) (a b : act) : Prop := ∃ c, b = Built c ∧ c ∈ needs f a.

Lemma ordered_before f tr a b :
  ordered f tr → NoDup tr → tc (dep f) a b → a ∈ tr → before tr b a.
Proof.
  intros Ho Hnd Hd. induction Hd as [a b Hab|a b c Hab _ IH]; intros Ha.
  - destruct Hab as (c & -> & Hc). apply list_elem_of_lookup in Ha as [n Hn].
    pose proof (Ho n a c Hn Hc) as [m Hm]%list_elem_of_lookup. apply lookup_take_Some in Hm as [Hm Hlt].
    apply before_lookup. by exists m, n.
  - assert (before tr b a) as Hba.
    { destruct Hab as (c' & -> & Hc'). apply list_elem_of_lookup in Ha as [n Hn].
      pose proof (Ho n a c' Hn Hc') as [m Hm]%list_elem_of_lookup. apply lookup_take_Some in Hm as [Hm Hlt].
      apply before_lookup. by exists m, n. }
    eapply before_trans; [done| |exact Hba]. apply IH.
    destruct Hba as (l1 & l2 & l3 & ->). set_solver.
Qed.

(** Everything with a start function uses the repository. *)
Lemma start_needs_repo f boot a : has_start boot a = true → tc (dep f) a (Built repoCtor).
Proof.
  assert (dep f (Built NewTaskManager) (Built repoCtor)) as Htm by (exists repoCtor; split; [done|left]).
  assert (dep f (Built NewMuxedListener) (Built NewTaskManager)) as Hmux.
  { exists NewTaskManager. split; [done|]. unfold needs. apply list_elem_of_bind.
    exists (Req TaskManager). split; [left|]. simpl. set_solver. }
  destruct a as [[]|[]]; try done; intros _.
  - eapply tc_l; [exact Hmux|]. by apply tc_once.
  - eapply tc_l; [|eapply tc_l; [exact Hmux|by apply tc_once]].
    exists NewMuxedListener. split; [done|]. unfold needs. simpl. set_solver.
  - apply tc_once. exists repoCtor. split; [done|]. unfold needs. simpl. left.
  - apply tc_once. exists repoCtor. split; [done|]. unfold needs. simpl. left.
Qed.

(** ** Lemmas: the order of stopping *)

Definition guarded {A : Type} (b : bool) (l : list A) : list A := if b then l else [].

(** Which part has to be stopped before which other one it uses. *)
Definition stop_pairs (f : flags) : list (act * act) :=
  [(Built NewTaskManager, Built repoCtor)] ++
  guarded (UseTracing f) [(Built NewTracer, Built repoCtor)] ++
  guarded (UseLocker f) [(Built NewLocker, Built repoCtor)] ++
  guarded (UseP2P f) [(Built Libp2p, Built repoCtor)] ++
  guarded (UseHTTP f) [(Invoked NewHTTPServer, Built repoCtor)] ++
  guarded (UseGRPC f) [(Built grpcNew, Built NewMuxedListener); (Built NewMuxedListener, Built NewTaskManager)] ++
  guarded (UseGRPC f && UseTracing f) [(Built grpcNew, Built NewTracer)] ++
  guarded (UseHTTP f && UseTracing f) [(Invoked NewHTTPServer, Built NewTracer)] ++
  guarded (UseP2P f && UseGRPC f && UseP2PGRPC f) [(Built NewMuxedListener, Built Libp2p)] ++
  guarded (UseP2P f && UseGRPC f && UseAuth f) [(Built grpcNew, Built Libp2p)] ++
  guarded (UseP2P f && UseHTTP f && UseAuth f) [(Invoked NewHTTPServer, Built Libp2p)].

Definition stops_before (f : flags) (a b : act) : Prop := (a, b) ∈ stop_pairs f.
#[export] Instance stops_before_dec f a b : Decision (stops_before f a b).
Proof. unfold stops_before. apply _. Defined.

(** A chain of acts, each of which needs the next. *)
Fixpoint chain_ok (f : flags) (a : act) (l : list act) : bool :=
  match l with
  | [] => true
  | b :: l => existsb (λ c, bool_decide (b = Built c)) (needs f a) && chain_ok f b l
  end.

Lemma chain_dep f l : ∀ a b, chain_ok f a (l ++ [b]) = true → tc (dep f) a b.
Proof.
  assert (∀ a b, existsb (λ c, bool_decide (b = Built c)) (needs f a) = true → dep f a b) as Hone.
  { intros a b (c & Hc & E%bool_decide_eq_true)%existsb_exists. exists c. by rewrite list_elem_of_In. }
  induction l as [|x l IH]; intros a b; simpl; intros [H1 H2]%andb_true_iff; [by apply tc_once, Hone|].
  eapply tc_l; [by apply Hone|by apply IH].
Qed.

(** The chains behind the pairs, between their ends. *)
Definition via (a b : act) : list act :=
  match a, b with
  | Built grpcNew, Built NewTracer => [Built OptsAggregator; Built JaegerTracerOptions]
  | Invoked NewHTTPServer, Built NewTracer => [Built Tracing]
  | Built NewMuxedListener, Built Libp2p => [Built NewP2PListener]
  | Built grpcNew, Built Libp2p =>
    [Built OptsAggregator; Built JwtAuthOptions; Built NewAclManager; Built NewSharedStoreProvider]
  | Invoked NewHTTPServer, Built Libp2p => [Built httpJWT; Built NewAclManager; Built NewSharedStoreProvider]
  | _, _ => []
  end.

(** Why the first of a pair is there: it is invoked, or built for the
    population of the dependencies. *)
Definition wanted (f : flags) (a : act) : bool :=
  match a with
  | Invoked i => bool_decide (i ∈ invokes f)
  | Built NewMuxedListener => chain_ok f (Invoked Populate) [Built grpcNew; Built NewMuxedListener]
  | Built c => chain_ok f (Invoked Populate) [Built c]
  end.

Lemma stop_pairs_ok f a b : stops_before f a b →
  has_stop a = true ∧ has_stop b = true ∧ wanted f a = true ∧ tc (dep f) a b.
Proof.
  assert (all_flags (λ f, forallb (λ '(a, b),
    has_stop a && has_stop b && wanted f a && chain_ok f a (via a b ++ [b])) (stop_pairs f)) = true) as H
    by by vm_compute.
  apply (all_flags_spec _ f) in H. rewrite forallb_Forall, Forall_forall in H. intros Hab. specialize (H _ Hab).
  simpl in H. apply andb_true_iff in H as [[[H1 H2]%andb_true_iff H3]%andb_true_iff H4].
  split_and!; [done..|by eapply chain_dep].
Qed.

Lemma invoked_in f tr i : valid_trace f tr → i ∈ invokes f → Invoked i ∈ tr.
Proof. intros [_ <- _ _] ([c|j] & Ha & [= ->])%list_elem_of_omap. done. Qed.

Lemma wanted_in f tr a : valid_trace f tr → wanted f a = true → a ∈ tr.
Proof.
  intros Hv Hw. assert (∀ l b, chain_ok f (Invoked Populate) (l ++ [b]) = true → b ∈ tr) as Hb.
  { intros l b Hc%chain_dep. pose proof Hv as [Hnd _ Ho _].
    destruct (ordered_before f tr _ _ Ho Hnd Hc) as (l1 & l2 & l3 & ->); [|set_solver].
    apply (invoked_in f); [done|]. apply Populate_invoked. }
  destruct a as [c|i]; [|by eapply invoked_in, bool_decide_eq_true].
  destruct c; try (by apply (Hb [])). by apply (Hb [Built grpcNew]).
Qed.

Lemma pair_before f tr a b : valid_trace f tr → stops_before f a b → before tr b a.
Proof.
  intros Hv (_ & _ & Hw & Hd)%stop_pairs_ok. pose proof Hv as [Hnd _ Ho _].
  apply (ordered_before f); [done..|by eapply wanted_in].
Qed.

Lemma stop_pair_before f tr a b : valid_trace f tr → stops_before f a b → before (stop_order tr) a b.
Proof.
  intros Hv Hab. destruct (stop_pairs_ok f a b Hab) as (H1 & H2 & _). by apply before_reverse, before_filter, (pair_before f).
Qed.

Lemma stop_order_NoDup f tr : valid_trace f tr → NoDup (stop_order tr).
Proof.
  intros [Hnd _ _ _]. unfold stop_order. rewrite reverse_Permutation.
  apply NoDup_ListNoDup, List.NoDup_filter. by apply NoDup_ListNoDup.
Qed.

(** ** Lemmas: hooks *)

(** A hook that leaves the repositories alone. *)
Definition quiet (h : hook world) : Prop :=
  (∀ start, OnStart h = Some start → ∀ w, files_only w (start w).2) ∧
  (∀ stop, OnStop h = Some stop → ∀ w, files_only w (stop w).2).

Lemma stop_quiet hs : Forall quiet hs → ∀ w, files_only w (stop_hooks hs w).
Proof.
  induction 1 as [|h hs [_ Hq] _ IH]; intros w; simpl; [reflexivity|].
  etransitivity; [|apply IH]. destruct (OnStop h) as [stop|] eqn:E; [by apply Hq|reflexivity].
Qed.

Lemma start_quiet hs : Forall quiet hs → ∀ w, files_only w (start_hooks hs w).2.2.
Proof.
  induction 1 as [|h hs [Hq _] _ IH]; intros w; simpl; [reflexivity|].
  destruct (OnStart h) as [start|] eqn:E.
  - pose proof (Hq start eq_refl w) as Hs. destruct (start w) as [[e|] w']; simpl in *; [done|].
    specialize (IH w'). destruct (start_hooks hs w') as [e [n w'']]. simpl in *. by etransitivity.
  - specialize (IH w). by destruct (start_hooks hs w) as [e [n w'']].
Qed.

Section node.
Context (env : repo_env) (laws : repo_laws env) (id : nat) (boot : bool) (others : act → hook world).
Hypothesis others_quiet : ∀ a, quiet (others a).

Lemma act_hook_quiet a h : a ≠ Built repoCtor → act_hook env id boot others a = Some h → quiet h.
Proof.
  intros Hne. unfold act_hook. rewrite decide_False by done.
  destruct (has_start boot a || has_stop a); [|done]. intros [= <-]. destruct (others_quiet a) as [H1 H2].
  split; simpl; [destruct (has_start boot a)|destruct (has_stop a)]; done.
Qed.

Lemma node_hooks_quiet tr : Built repoCtor ∉ tr → Forall quiet (node_hooks env id boot others tr).
Proof.
  intros Hni. apply Forall_forall. intros h (a & Ha & Hh)%list_elem_of_omap.
  eapply act_hook_quiet; [|done]. by intros ->.
Qed.

(** The hook of the repository, among the others: what is before it has nothing
    to start. *)
Lemma node_hooks_split f tr : valid_trace f tr → Built repoCtor ∈ tr →
  ∃ hs1 hs2, node_hooks env id boot others tr = hs1 ++ repo_hook env id :: hs2 ∧
    Forall quiet hs1 ∧ Forall quiet hs2 ∧ Forall (λ h, OnStart h = None) hs1.
Proof.
  intros [Hnd _ Ho _] (l1 & l2 & Htr)%list_elem_of_split.
  assert (∀ a, a ∈ l1 → has_start boot a = false) as Hs.
  { intros a Ha. apply not_true_iff_false. intros Hst.
    assert (before tr (Built repoCtor) a) as Hb.
    { eapply ordered_before; [done|done|by eapply start_needs_repo|]. rewrite Htr. set_solver. }
    apply before_lookup in Hb as (i & j & Hlt & Hi & Hj).
    apply list_elem_of_lookup in Ha as [k Hk].
    assert (i = length l1) as ->.
    { eapply (NoDup_lookup tr); [done|done|]. rewrite Htr. by apply list_lookup_middle. }
    assert (j = k) as ->; [|apply lookup_lt_Some in Hk; lia].
    eapply (NoDup_lookup tr); [done|done|]. rewrite Htr, lookup_app_l; [done|by eapply lookup_lt_Some]. }
  rewrite Htr in Hnd. apply NoDup_app in Hnd as (_ & Hd & [Hn2 _]%NoDup_cons).
  assert (Built repoCtor ∉ l1) as Hn1 by (intros Hin; apply (Hd _ Hin); left).
  exists (node_hooks env id boot others l1), (node_hooks env id boot others l2).
  split_and!; [|by apply node_hooks_quiet..|].
  - rewrite Htr. unfold node_hooks. rewrite omap_app. by f_equal.
  - apply Forall_forall. intros h (a & Ha & Hh)%list_elem_of_omap. unfold act_hook in Hh.
    rewrite decide_False in Hh by (by intros ->). rewrite (Hs a Ha) in Hh. simpl in Hh.
    destruct (has_stop a); [|done]. by injection Hh as <-.
Qed.

(** Stopping the hooks around the repository's. *)
Lemma stop_releases hs1 hs2 w fr :
  Forall quiet hs1 → Forall quiet hs2 → inv w → heap w !! id = Some fr →
  let w' := stop_hooks (reverse (hs1 ++ repo_hook env id :: hs2)) w in
  inv w' ∧ ∀ p, refcount w' p = (if decide (p = path fr) then Z.max 0 (refcount w p - 1) else refcount w p)%Z.
Proof.
  intros H1 H2 Hinv Hid. rewrite reverse_app, reverse_cons, <- (assoc_L (++)). simpl.
  rewrite stop_hooks_app. simpl.
  pose proof (stop_quiet (reverse hs2) ltac:(by apply Forall_reverse) w) as Hf.
  set (w1 := stop_hooks (reverse hs2) w) in *.
  assert (inv w1) as Hinv1 by (eapply inv_ds_only; [by apply files_ds|done]).
  assert (heap w1 !! id = Some fr) as Hid1 by (destruct Hf as (-> & _); done).
  unfold FsRepo.Close, deref. rewrite Hid1.
  destruct (opener_Close env (path fr) w1) as [r w2] eqn:Hc. simpl.
  destruct (opener_Close_spec env laws _ _ _ _ Hinv1 Hc) as [Hinv2 Hr].
  pose proof (stop_quiet (reverse hs1) ltac:(by apply Forall_reverse) w2) as Hg.
  split; [eapply inv_ds_only; [by apply files_ds|done]|]. intros p.
  rewrite (files_refcount _ _ p Hg), Hr, !(files_refcount _ _ _ Hf). by case_decide; subst.
Qed.
End node.

Lemma refcount_nonneg w p : inv w → (0 ≤ refcount w p)%Z.
Proof.
  intros Hinv. unfold refcount. destruct (ActiveMap w !! p) as [ar|] eqn:E; [|done].
  destruct (inv_active w Hinv p ar E) as [? _]. lia.
Qed.

Lemma New_on_disk env fails ifails bCfg w0 s w id :
  New env fails ifails bCfg w0 = (Ok s, w) → app_repo s = OnDisk id →
  FsRepo.CreateOrOpen env bCfg w0 = (Ok id, w).
Proof.
  unfold New, mbind, st_mbind, st_lift, mret, st_mret. intros HN Hr.
  destruct (Get "RootPath" "" bCfg).2.
  - destruct (FsRepo.CreateOrOpen env bCfg w0) as [[id'|e|x] w1]; [|done..].
    unfold FsRepo.Config, deref, mret, st_mret in HN. destruct (heap w1 !! id') as [fr|]; [|done].
    destruct (flags_of (cfg fr)) as [f|e|x]; [|done..]. injection HN as <- <-. simpl in Hr. congruence.
  - destruct (InmemRepo.CreateOrOpen env bCfg) as [r|e|x]; [|done..].
    destruct (flags_of _) as [f|e|x]; [|done..]. injection HN as <- <-. done.
Qed.

Lemma repo_built f tr : valid_trace f tr → Built repoCtor ∈ tr.
Proof.
  intros [_ Hi Ho _]. pose proof (Populate_invoked f) as Hp. rewrite <- Hi in Hp.
  apply list_elem_of_omap in Hp as ([c|i] & Ha & Hx); [done|]. injection Hx as ->.
  apply list_elem_of_lookup in Ha as [n Hn].
  assert (Built repoCtor ∈ take n tr) as Ht.
  { eapply Ho; [done|]. unfold needs. apply list_elem_of_bind. exists (Req Repo). simpl. set_solver. }
  by apply elem_of_take in Ht as (m & Hm%list_elem_of_lookup_2 & _).
Qed.

(** Starting and stopping around the repository. *)
Lemma start_stop_releases `{LifecycleLaws} env hs1 hs2 id w fr :
  repo_laws env → Forall quiet hs1 → Forall quiet hs2 → Forall (λ h, OnStart h = None) hs1 →
  inv w → heap w !! id = Some fr →
  ∀ p, refcount (start_stop true (hs1 ++ repo_hook env id :: hs2) w) p =
       (if decide (p = path fr) then Z.max 0 (refcount w p - 1) else refcount w p)%Z.
Proof.
  intros laws Hq1 Hq2 Hn1 Hinv Hid p. unfold start_stop. set (hs := hs1 ++ repo_hook env id :: hs2).
  pose proof (Start_law hs w) as HS. unfold hs in HS at 1. rewrite start_hooks_skip in HS by done.
  cbn [start_hooks repo_hook OnStart] in HS.
  pose proof (start_quiet hs2 Hq2 w) as Hf. destruct (start_hooks hs2 w) as [e [n w']]. simpl in Hf.
  assert (take (length hs1 + S n) hs = hs1 ++ repo_hook env id :: take n hs2) as Htake.
  { unfold hs. rewrite take_app, take_ge by lia. f_equal. by replace (_ - _)%nat with (S n) by lia. }
  assert (inv w') as Hinv' by (eapply inv_ds_only; [by apply files_ds|done]).
  assert (heap w' !! id = Some fr) as Hid' by (destruct Hf as (-> & _); done).
  destruct (stop_releases env laws id hs1 (take n hs2) w' fr) as [_ Hr]; [done|by apply Forall_take|done..|].
  specialize (Hr p). rewrite <- Htake, !(files_refcount _ _ _ Hf) in Hr.
  destruct e as [e|]; [destruct HS as [e' ->]|rewrite HS]; by rewrite Stop_law.
Qed.

(** ** Properties *)

(** C12: a node can always be assembled: for every combination of flags,
    building what is needed on demand ends within the given depth, in a run in
    which every constructor is called at most once, only if it is provided and
    only after the constructors of all its inputs, and the invocations are made
    in their order. *)
Theorem assembly_ordered f : valid_trace f (assemble f).
Proof. apply assemble_valid. Qed.

(** C13: a part is stopped before what it uses.  In every run the container
    allows, for the flags as they are, the parts with a stop function are there
    and stopped in the order of [stop_pairs], and of the pairs that follow from
    them: the gRPC server before its listeners, these before the task manager
    that runs their goroutines and before the P2P host if they listen on it; the
    servers before the tracer and, when their access control is shared, before
    the P2P host; and all of them before the repository.  The listeners are
    opened before the server serves. *)
Theorem stop_order_safe f tr :
  valid_trace f tr →
  (∀ a b, tc (stops_before f) a b → before (stop_order tr) a b) ∧
  (UseGRPC f = true → ∀ boot, before (start_order boot tr) (Built NewMuxedListener) (Built grpcNew)).
Proof.
  intros Hv. split.
  - intros a b Hab. induction Hab as [a b Hab|a b c Hab _ IH]; [by eapply stop_pair_before|].
    eapply before_trans; [by eapply stop_order_NoDup|by eapply stop_pair_before|done].
  - intros Hg boot. apply before_filter; [done..|]. apply (pair_before f); [done|].
    unfold stops_before, stop_pairs, guarded. rewrite Hg. simpl. set_solver.
Qed.

(** C11: the life of a node leaves the repository package as it found it.  A node
    that [New] made on an on-disk repository gives its reference back when its
    application is started and stopped, exactly once, whatever its other hooks
    do and also when the start fails half way.  But if a constructor or an
    invocation failed in [New], which reports no error, the reference is never
    given back: the repository stays open. *)
Theorem node_life `{LifecycleLaws} env fails ifails bCfg w0 s w id tr boot others :
  repo_laws env → inv w0 → New env fails ifails bCfg w0 = (Ok s, w) → app_repo s = OnDisk id →
  valid_trace (app_flags s) tr → (∀ a, quiet (others a)) →
  let w' := start_stop (populated (app_flags s) fails ifails) (node_hooks env id boot others tr) w in
  if populated (app_flags s) fails ifails
  then ∀ p, refcount w' p = refcount w0 p
  else ∃ root, refcount w' root = (refcount w0 root + 1)%Z.
Proof.
  intros laws Hinv HN Hr Hv Hq w'. pose proof (New_on_disk _ _ _ _ _ _ _ _ HN Hr) as Hopen.
  destruct (CreateOrOpen_spec env bCfg w0 _ _ Hinv Hopen) as (Hinv1 & root & _ & Hcnt & (fr & Hid & Hp) & _).
  destruct (populated (app_flags s) fails ifails) eqn:Hpop.
  - destruct (node_hooks_split env laws id boot others Hq _ _ Hv (repo_built _ _ Hv)) as (hs1 & hs2 & E & Q1 & Q2 & S1).
    intros p. subst w'. rewrite E, (start_stop_releases env hs1 hs2 id w fr) by done.
    rewrite Hp, Hcnt. pose proof (refcount_nonneg w0 root Hinv). case_decide; subst; [lia|done].
  - exists root. subst w'. unfold start_stop. rewrite Stop_law. simpl. by rewrite Hcnt, decide_True.
Qed.

(** ** Witnesses *)

(** The gRPC server stops before the repository. *)
Lemma stop_order_safe_witness :
  before (stop_order (assemble sample_flags)) (Built grpcNew) (Built repoCtor).
Proof.
  destruct (stop_order_safe sample_flags (assemble sample_flags)) as [H _]; [apply assemble_valid|].
  apply H. apply (tc_l _ _ (Built NewMuxedListener)); [refine (bool_decide_unpack _ _); by vm_compute|].
  apply (tc_l _ _ (Built NewTaskManager)); [refine (bool_decide_unpack _ _); by vm_compute|].
  apply tc_once. refine (bool_decide_unpack _ _). by vm_compute.
Defined.

Definition no_flags : flags :=
  mkFlags false false false false false false false false false false false false false.

Lemma sample_opened : FsRepo.CreateOrOpen sample_repo_env sample_root sample_world = (Ok 0%nat, sample_open).
Proof.
  assert ((FsRepo.CreateOrOpen sample_repo_env sample_root sample_world).1 = Ok 0%nat) as H1 by by vm_compute.
  unfold sample_open, run_op.
  destruct (FsRepo.CreateOrOpen sample_repo_env sample_root sample_world) as [r w']. simpl in *. by subst.
Qed.

Lemma sample_flags_read :
  ∃ fr, heap sample_open !! 0%nat = Some fr ∧ flags_of (cfg fr) = Ok no_flags.
Proof.
  assert (match heap sample_open !! 0%nat with Some fr => flags_of (cfg fr) | None => Err "" end = Ok no_flags)
    as H by by vm_compute.
  destruct (heap sample_open !! 0%nat) as [fr|]; [by exists fr|done].
Qed.

Lemma node_life_witness : ∃ s,
  New sample_repo_env no_failure (λ _, false) sample_root sample_world = (Ok s, sample_open) ∧
  refcount sample_open "repo" = 1%Z ∧
  refcount (start_stop true (node_hooks sample_repo_env 0 false (λ _, mkHook None None) (assemble no_flags))
    sample_open) "repo" = 0%Z.
Proof.
  assert (∃ s, New sample_repo_env no_failure (λ _, false) sample_root sample_world = (Ok s, sample_open) ∧
    app_repo s = OnDisk 0 ∧ app_flags s = no_flags) as (s & HN & Hr & Hf).
  { destruct sample_flags_read as (fr & Hfr & Hfl). eexists. split.
    - unfold New, mbind, st_mbind, st_lift, mret, st_mret.
      assert ((Get "RootPath" "" sample_root).2 = true) as -> by by vm_compute.
      rewrite sample_opened. unfold FsRepo.Config, deref, mret, st_mret. rewrite Hfr, Hfl. reflexivity.
    - split; reflexivity. }
  exists s. split; [exact HN|]. split; [by vm_compute|].
  pose proof (node_life sample_repo_env no_failure (λ _, false) sample_root sample_world s sample_open 0
    (assemble no_flags) false (λ _, mkHook None None)) as H.
  rewrite Hf, populated_no_failure in H. rewrite H.
  - by vm_compute.
  - apply sample_laws.
  - apply sample_inv.
  - exact HN.
  - exact Hr.
  - apply assemble_valid.
  - intros a. by split.
Defined.
