(* ===== verification/Hooks.v ===== *)
(** * The hooks of a node, one by one

    What each start and stop function of the application calls: the task manager
    and the context ([node.go]), the tracer ([metrics.go]), the locker
    ([handler.go]), the hosts ([ipfs/host.go]), the multiplexed listeners
    ([grpc/transport.go]) and the two servers ([grpc.go], [http.go]).  The calls
    are kept in a log, next to the listener multiplexer, whose start can fail
    half way.  What the called packages return is an argument. *)

From S2P Require Import Prelude Fx Utf8 Json JsonText Files Config Status Mux Host Wiring Node Lifecycle.

(** ** State *)

Inductive call :=
| RepoClose | TmStop | TracerClose | LockerClose
| HostClose | DhtClose | DialerClose
| CloseListener (l : listener)
| GrpcServe | GrpcStop | HttpServe | HttpShutdown | GoBootstrapper | Cancel.

#[export] Instance listener_eq_dec : EqDecision listener.
Proof. solve_decision. Defined.
#[export] Instance call_eq_dec : EqDecision call.
Proof. solve_decision. Defined.

Record running := mkRunning { calls : list call; mux : Mux.Mux }.

Section hooks.
(** What a call returns, and what it does to the multiplexer; the answers of the
    task manager to the multiplexer; whether bootstrap addresses are
    configured; and how often the gRPC server closes the listener it serves
    while it is stopped. *)
Context (lib : call → Mux.Mux → option error * Mux.Mux) (tm : list sched) (boot : bool).
Context (server_closes : nat).

Definition call_ (c : call) : running → option error * running := λ w,
  let (e, m) := lib c (mux w) in (e, mkRunning (calls w ++ [c]) m).

(** ** The hooks *)

(** The error of a call, or nil whatever it returned. *)
Definition returns (c : call) : hook running := mkHook None (Some (call_ c)).
Definition ignores (c : call) : hook running := mkHook None (Some (λ w, (None, (call_ c w).2))).

Definition repo_close_hook : hook running := returns RepoClose.
Definition tm_hook : hook running := ignores TmStop.
Definition tracer_hook : hook running := returns TracerClose.
Definition locker_hook : hook running := returns LockerClose.
Definition cancel_hook : hook running := ignores Cancel.

(** The hook of [Libp2p] closes the host and its routing, the one of
    [LocalDialer] its host. *)
Definition libp2p_hook : hook running := host_hook (λ _ : (), call_ HostClose) (λ _ : (), call_ DhtClose) () ().
Definition local_dialer_hook : hook running := dialer_hook (λ _ : (), call_ DialerClose) ().

(** [NewMuxedListener]: the error of closing is only logged. *)
Definition mux_OnStart (w : running) : option error * running :=
  let (r, m) := Mux.Start tm (mux w) in (go_err r, mkRunning (calls w) m).
(** [Mux.Close]: a call for every listener that was opened, every time. *)
Definition mux_Close (w : running) : running :=
  mkRunning (calls w ++ (CloseListener <$> closers (mux w))) (close_begin (mux w)).2.
Definition mux_OnStop (w : running) : option error * running := (None, mux_Close w).
Definition mux_hook : hook running := mkHook (Some mux_OnStart) (Some mux_OnStop).

(** The constructor: the multiplexer, and the manager it reports to, which is
    optional for the container but not for the code. *)
Definition NewMuxedListener_ (ls : list MuxListener) (StManager : option manager) :
    res (Mux.Mux * manager * hook running) :=
  let m := Mux.New ls in
  match StManager with
  | None => Panic "invalid memory address or nil pointer dereference"
  | Some st => Ok (m, AddReporter "RPC Listeners" (GMap (prod_map id GString <$> map_to_list (Mux.Status m))) st,
                   mux_hook)
  end.

(** The servers; their start functions are those of [ServerHook].  Stopping the
    gRPC server closes the listener it serves, which is the multiplexer. *)
Definition grpc_OnStop (w : running) : option error * running :=
  (None, Nat.iter server_closes mux_Close (call_ GrpcStop w).2).
Definition grpc_hook : hook running := mkHook (Some (call_ GrpcServe)) (Some grpc_OnStop).
Definition http_hook : hook running := mkHook (Some (call_ HttpServe)) (Some (call_ HttpShutdown)).

Definition bootstrap_hook : hook running := mkHook (Some (call_ GoBootstrapper)) None.

(** The hook an act appends. *)
Definition hook_of (a : act) : option (hook running) :=
  match a with
  | Built repoCtor => Some repo_close_hook
  | Built NewTaskManager => Some tm_hook
  | Built NewTracer => Some tracer_hook
  | Built NewLocker => Some locker_hook
  | Built Libp2p => Some libp2p_hook
  | Built LocalDialerCtor => Some local_dialer_hook
  | Built NewMuxedListener => Some mux_hook
  | Built grpcNew => Some grpc_hook
  | Invoked NewHTTPServer => Some http_hook
  | Invoked cancelHook => Some cancel_hook
  | Invoked Bootstrapper => if boot then Some bootstrap_hook else None
  | _ => None
  end.

Definition hooks_of (tr : list act) : list (hook running) := omap hook_of tr.

(** ** What stopping calls *)

Definition stop_calls (ls : list listener) (a : act) : list call :=
  match a with
  | Built repoCtor => [RepoClose]
  | Built NewTaskManager => [TmStop]
  | Built NewTracer => [TracerClose]
  | Built NewLocker => [LockerClose]
  | Built Libp2p => [HostClose; DhtClose]
  | Built LocalDialerCtor => [DialerClose]
  | Built NewMuxedListener => CloseListener <$> ls
  | Built grpcNew => GrpcStop :: concat (replicate server_closes (CloseListener <$> ls))
  | Invoked NewHTTPServer => [HttpShutdown]
  | Invoked cancelHook => [Cancel]
  | _ => []
  end.

(** ** Lemmas *)

(** The packages do not touch the listeners the multiplexer has opened. *)
Hypothesis lib_closers : ∀ c m, closers (lib c m).2 = closers m.

Lemma call_spec c w : calls (call_ c w).2 = calls w ++ [c] ∧ closers (mux (call_ c w).2) = closers (mux w).
Proof. unfold call_. pose proof (lib_closers c (mux w)). by destruct (lib c (mux w)). Qed.

(** The hooks agree with the lists of the lifecycle. *)
Lemma hook_of_start a h : hook_of a = Some h → is_Some (OnStart h) ↔ has_start boot a = true.
Proof.
  destruct a as [[]|[]]; simpl; try done; try (destruct boot; [|done]); intros [= <-]; simpl;
    split; try done; by intros [].
Qed.

Lemma mux_Close_iter k w :
  calls (Nat.iter k mux_Close w) = calls w ++ concat (replicate k (CloseListener <$> closers (mux w))) ∧
  closers (mux (Nat.iter k mux_Close w)) = closers (mux w).
Proof.
  induction k as [|k [IH1 IH2]]; [by rewrite app_nil_r|]. split; [|done].
  rewrite Nat.iter_succ, replicate_S_end, concat_app. unfold mux_Close at 1. simpl.
  by rewrite IH1, IH2, app_nil_r, <- (assoc_L (++)).
Qed.

Lemma stop_calls_none ls a : has_stop a = false → stop_calls ls a = [].
Proof. by destruct a as [[]|[]]. Qed.

(** Stopping one of them. *)
Lemma stop_one a w :
  let w' := match hook_of a with
            | Some h => match OnStop h with None => w | Some stop => (stop w).2 end
            | None => w
            end in
  calls w' = calls w ++ stop_calls (closers (mux w)) a ∧ closers (mux w') = closers (mux w).
Proof.
  assert (calls w = calls w ++ [] ∧ closers (mux w) = closers (mux w)) as Hnone by by rewrite app_nil_r.
  destruct a as [[]|[]]; simpl; try exact Hnone; try apply call_spec; try by destruct boot.
  - destruct (call_spec HostClose w) as [H1 H2], (call_spec DhtClose (call_ HostClose w).2) as [H3 H4].
    by rewrite H3, H1, H4, H2, <- (assoc_L (++)).
  - destruct (call_spec GrpcStop w) as [H1 H2], (mux_Close_iter server_closes (call_ GrpcStop w).2) as [H3 H4].
    by rewrite H3, H1, H4, H2, <- (assoc_L (++)).
Qed.

Lemma stop_all tr : ∀ w,
  let w' := stop_hooks (hooks_of tr) w in
  calls w' = calls w ++ (tr ≫= stop_calls (closers (mux w))) ∧ closers (mux w') = closers (mux w).
Proof.
  induction tr as [|a tr IH]; intros w; simpl; [by rewrite app_nil_r|].
  pose proof (stop_one a w) as Ha. cbv zeta in Ha.
  destruct (hook_of a) as [h|]; simpl; destruct Ha as [H1 H2].
  - destruct (IH (match OnStop h with None => w | Some stop => (stop w).2 end)) as [I1 I2].
    by rewrite I1, I2, H1, H2, <- (assoc_L (++)).
  - destruct (IH w) as [I1 I2]. rewrite I1, I2. split; [|done].
    rewrite <- (app_nil_r (calls w)) in H1 at 1. apply app_inv_head in H1. by rewrite <- H1.
Qed.

Lemma hooks_reverse tr : reverse (hooks_of tr) = hooks_of (reverse tr).
Proof.
  unfold hooks_of. induction tr as [|a tr IH]; [done|]. rewrite reverse_cons, omap_app, <- IH. simpl.
  destruct (hook_of a); [by rewrite reverse_cons|by rewrite app_nil_r].
Qed.

Lemma stop_order_calls ls tr : stop_order tr ≫= stop_calls ls = reverse tr ≫= stop_calls ls.
Proof.
  unfold stop_order. rewrite <- (reverse_involutive tr) at 1. generalize (reverse tr) as l. clear.
  induction l as [|a l IH]; [done|].
  rewrite reverse_cons, List.filter_app, reverse_app, bind_app, IH, bind_cons. f_equal. simpl.
  destruct (has_stop a) eqn:E; simpl; [by rewrite app_nil_r|]. by rewrite stop_calls_none.
Qed.

(** Stopping the hooks of a run. *)
Lemma stop_run tr w :
  calls (stop_hooks (reverse (hooks_of tr)) w) =
  calls w ++ (stop_order tr ≫= stop_calls (closers (mux w))).
Proof. rewrite hooks_reverse, stop_order_calls. apply stop_all. Qed.

Lemma hooks_of_app tr tr' : hooks_of (tr ++ tr') = hooks_of tr ++ hooks_of tr'.
Proof. apply omap_app. Qed.

(** Only the multiplexer and the server it belongs to close listeners. *)
Lemma stop_calls_mux ls a l : CloseListener l ∈ stop_calls ls a → a = Built NewMuxedListener ∨ a = Built grpcNew.
Proof. destruct a as [[]|[]]; simpl; try done; try set_solver; auto. Qed.

(** ** Counting *)

Definition occ (c : call) (l : list call) : nat := length (filter (λ x, x = c) l).

Lemma occ_app c l l' : occ c (l ++ l') = (occ c l + occ c l')%nat.
Proof. unfold occ. by rewrite filter_app, length_app. Qed.

Lemma occ_notin c l : c ∉ l → occ c l = 0%nat.
Proof.
  induction l as [|x l IH]; [done|]. rewrite not_elem_of_cons. intros [Hx Hl]. unfold occ in *.
  rewrite filter_cons, decide_False by done. by apply IH.
Qed.

#[local] Instance occ_perm c : Proper ((≡ₚ) ==> eq) (occ c).
Proof. intros l l' Hl. unfold occ. by rewrite Hl. Qed.

(** A call that only some of the acts make. *)
Lemma occ_bind c g (S l : list act) :
  NoDup l → NoDup S → (∀ a, a ∉ S → c ∉ g a) → occ c (l ≫= g) = occ c (filter (.∈ l) S ≫= g).
Proof.
  intros Hl HS Hg. assert (filter (.∈ l) S ≡ₚ filter (.∈ S) l) as ->.
  { apply NoDup_Permutation; [by apply NoDup_filter..|]. intros a. rewrite !list_elem_of_filter. tauto. }
  clear Hl. induction l as [|a l IH]; [done|]. rewrite filter_cons. rewrite bind_cons, occ_app, IH.
  case_decide as Ha; [by rewrite bind_cons, occ_app|]. by rewrite (occ_notin c (g a)) by auto.
Qed.

Lemma elem_of_stop_order tr a : a ∈ stop_order tr ↔ has_stop a = true ∧ a ∈ tr.
Proof.
  unfold stop_order. rewrite elem_of_reverse, !list_elem_of_In, List.filter_In. tauto.
Qed.

(** A part with a stop function is there exactly if its flag is set; only the
    local dialer is left to the container. *)
Definition part_on (f : flags) (a : act) : bool :=
  match a with Built c => enabled f c | Invoked i => bool_decide (i ∈ invokes f) end.

Lemma part_in f tr a : valid_trace f tr → has_stop a = true → a ≠ Built LocalDialerCtor →
  a ∈ tr ↔ part_on f a = true.
Proof.
  intros Hv Ha Hd. assert (part_on f a = wanted f a) as E.
  { assert (all_flags (λ f, forallb (λ c, eqb (part_on f (Built c)) (wanted f (Built c)))
      [repoCtor; NewTaskManager; NewTracer; NewLocker; Libp2p; NewMuxedListener; grpcNew]) = true) as H by by vm_compute.
    apply (all_flags_spec _ f) in H. cbn [forallb] in H.
    repeat (apply andb_true_iff in H as [?%eqb_prop H]). by destruct a as [[]|[]]. }
  split; [|rewrite E; by apply wanted_in].
  destruct a as [c|i]; simpl; [by apply (trace_provided f tr Hv)|]. intros Hi. apply bool_decide_eq_true.
  destruct Hv as [_ <- _ _]. apply list_elem_of_omap. by exists (Invoked i).
Qed.

Lemma http_on f : part_on f (Invoked NewHTTPServer) = UseHTTP f.
Proof.
  assert (all_flags (λ f, eqb (part_on f (Invoked NewHTTPServer)) (UseHTTP f)) = true) as H by by vm_compute.
  by apply (all_flags_spec _ f), eqb_prop in H.
Qed.

Lemma cancel_on f : part_on f (Invoked cancelHook) = true.
Proof.
  assert (all_flags (λ f, part_on f (Invoked cancelHook)) = true) as H by by vm_compute.
  by apply (all_flags_spec _ f) in H.
Qed.

Lemma dialer_in f tr : valid_trace f tr → UseP2P f && UseGRPC f = true → Built LocalDialerCtor ∈ tr.
Proof.
  intros Hv Hf. pose proof Hv as [Hnd _ Ho _].
  assert (tc (dep f) (Invoked Populate) (Built LocalDialerCtor)) as Hd.
  { apply (chain_dep f [Built NewP2PClientService]).
    assert (all_flags (λ f, implb (UseP2P f && UseGRPC f)
      (chain_ok f (Invoked Populate) [Built NewP2PClientService; Built LocalDialerCtor])) = true) as H by by vm_compute.
    apply (all_flags_spec _ f) in H. cbv beta in H. by rewrite Hf in H. }
  destruct (ordered_before f tr _ _ Ho Hnd Hd) as (l1 & l2 & l3 & ->); [|set_solver].
  by eapply invoked_in, Populate_invoked.
Qed.

(** A call that one act makes. *)
Lemma occ_one f tr ls c a0 :
  valid_trace f tr → has_stop a0 = true → (∀ a, a ≠ a0 → c ∉ stop_calls ls a) → occ c (stop_calls ls a0) = 1%nat →
  occ c (stop_order tr ≫= stop_calls ls) = if decide (a0 ∈ tr) then 1%nat else 0%nat.
Proof.
  intros Hv Hs Ho H1. rewrite (occ_bind c _ [a0]); [|by eapply stop_order_NoDup|apply NoDup_singleton|set_solver].
  rewrite filter_cons. simpl. destruct (decide (a0 ∈ stop_order tr)) as [Hi|Hi]; rewrite elem_of_stop_order in Hi.
  - rewrite decide_True by tauto. simpl. by rewrite app_nil_r.
  - by rewrite decide_False by tauto.
Qed.

(** The release calls of a node, by its flags. *)
Definition released (f : flags) : list (call * bool) :=
  [(RepoClose, true); (TmStop, true); (Cancel, true); (TracerClose, UseTracing f); (LockerClose, UseLocker f);
   (HostClose, UseP2P f); (DhtClose, UseP2P f); (GrpcStop, UseGRPC f); (HttpShutdown, UseHTTP f);
   (GrpcServe, false); (HttpServe, false); (GoBootstrapper, false)].

(** Who makes them. *)
Definition releaser (c : call) : option act :=
  match c with
  | RepoClose => Some (Built repoCtor) | TmStop => Some (Built NewTaskManager)
  | Cancel => Some (Invoked cancelHook) | TracerClose => Some (Built NewTracer)
  | LockerClose => Some (Built NewLocker) | HostClose | DhtClose => Some (Built Libp2p)
  | GrpcStop => Some (Built grpcNew) | HttpShutdown => Some (Invoked NewHTTPServer)
  | DialerClose => Some (Built LocalDialerCtor)
  | _ => None
  end.

Lemma not_closing c k (ls : list listener) : (∀ l, c ≠ CloseListener l) →
  c ∉ concat (replicate k (CloseListener <$> ls)).
Proof.
  intros Hc. induction k as [|k IH]; simpl; [apply not_elem_of_nil|].
  intros [(x & -> & _)%list_elem_of_fmap|Hin]%elem_of_app; [by apply (Hc x)|done].
Qed.

Lemma releaser_spec ls c a : (∀ l, c ≠ CloseListener l) → c ∈ stop_calls ls a → releaser c = Some a.
Proof.
  intros Hc Hin. pose proof (not_closing c 1 ls Hc) as H1. simpl in H1. rewrite app_nil_r in H1.
  pose proof (not_closing c server_closes ls Hc) as Hk.
  destruct a as [[]|[]]; simpl in Hin; try by apply not_elem_of_nil in Hin.
  all: try (apply list_elem_of_singleton in Hin as ->; done).
  - apply elem_of_cons in Hin as [->|Hin]; [done|]. by apply list_elem_of_singleton in Hin as ->.
  - done.
  - apply elem_of_cons in Hin as [->|Hin]; done.
Qed.

Lemma releaser_once ls c a : releaser c = Some a → has_stop a = true ∧ occ c (stop_calls ls a) = 1%nat.
Proof.
  destruct c; simpl; intros [= <-]; split; try done.
  change (occ GrpcStop ([GrpcStop] ++ concat (replicate server_closes (CloseListener <$> ls))) = 1%nat).
  rewrite occ_app, (occ_notin _ (concat _)); [done|by apply not_closing].
Qed.

Lemma released_occ f tr ls c b :
  valid_trace f tr → (c, b) ∈ released f → occ c (stop_order tr ≫= stop_calls ls) = Nat.b2n b.
Proof.
  intros Hv Hc. assert (∀ l, c ≠ CloseListener l) as Hn.
  { intros l ->. unfold released in Hc. rewrite !elem_of_cons, elem_of_nil in Hc. naive_solver. }
  destruct (releaser c) as [a0|] eqn:Hr.
  - destruct (releaser_once ls c a0 Hr) as [Hs H1].
    rewrite (occ_one f tr ls c a0); [|done|done|intros a Ha Hin%releaser_spec; [congruence|done]|done].
    assert (a0 ∈ tr ↔ b = true) as Hb.
    { unfold released in Hc. rewrite !elem_of_cons, elem_of_nil in Hc.
      rewrite (part_in f); [|done|done|by destruct_or! Hc; simplify_eq/=].
      destruct_or! Hc; simplify_eq/=; change (bool_decide (?i ∈ invokes f)) with (part_on f (Invoked i));
        rewrite ?http_on, ?cancel_on; done. }
    case_decide as E; destruct b; try done; [apply Hb in E; done|]. by destruct E; apply Hb.
  - rewrite occ_notin; [|intros (a & Hin%releaser_spec & _)%list_elem_of_bind; [congruence|done]].
    unfold released in Hc. rewrite !elem_of_cons, elem_of_nil in Hc. destruct_or! Hc; by simplify_eq/=.
Qed.

Lemma listeners_occ f tr ls l :
  valid_trace f tr →
  occ (CloseListener l) (stop_order tr ≫= stop_calls ls) =
  if UseGRPC f then (S server_closes * length (filter (λ x, x = l) ls))%nat else 0%nat.
Proof.
  intros Hv. rewrite (occ_bind _ _ [Built grpcNew; Built NewMuxedListener]);
    [|by eapply stop_order_NoDup|by repeat constructor; set_solver|].
  2:{ intros a Ha Hin%stop_calls_mux. apply Ha. set_solver. }
  assert (∀ a, a = Built grpcNew ∨ a = Built NewMuxedListener → a ∈ stop_order tr ↔ UseGRPC f = true) as Hin.
  { intros a Ha. rewrite elem_of_stop_order, (part_in f) by (done || by destruct Ha as [->| ->]).
    destruct Ha as [->| ->]; simpl; tauto. }
  assert (occ (CloseListener l) (CloseListener <$> ls) = length (filter (λ x, x = l) ls)) as Hls.
  { unfold occ. clear. induction ls as [|x ls IH]; [done|]. rewrite fmap_cons, !filter_cons.
    repeat case_decide; simplify_eq/=; auto. }
  assert (∀ k, occ (CloseListener l) (concat (replicate k (CloseListener <$> ls)))
    = (k * length (filter (λ x, x = l) ls))%nat) as Hk.
  { induction k as [|k IH]; [done|]. simpl. by rewrite occ_app, IH, Hls. }
  rewrite !filter_cons. destruct (UseGRPC f).
  - rewrite !decide_True by (apply Hin; auto).
    change (occ (CloseListener l) ([GrpcStop] ++ concat (replicate server_closes (CloseListener <$> ls)) ++
      (CloseListener <$> ls) ++ []) = S server_closes * length (filter (λ x, x = l) ls))%nat.
    rewrite !occ_app, Hk, Hls. unfold occ. simpl. lia.
  - rewrite !decide_False by (rewrite Hin by auto; done). done.
Qed.

(** ** Properties *)

(** C14: stopping releases everything.  When the application of a node has
    started, stopping it in whatever state it is by then, and whatever the calls
    return, makes every release call of the parts its flags ask for exactly
    once, and none of a part they do not ask for; an error of one keeps none of
    the others from being made.  Only the listeners are closed more than once:
    by the gRPC server as often as it closes the multiplexer it serves, and once
    more by the hook of the multiplexer.  The local dialer, which the container
    may leave out, is closed at most once, and exactly once with gRPC over
    P2P. *)
Theorem stop_releases_all `{LifecycleLaws} f tr w n w1 :
  valid_trace f tr → app_Start (hooks_of tr) w = (None, (n, w1)) →
  ∀ w2, ∃ rel, calls (app_Stop (hooks_of tr) n w2).2 = calls w2 ++ rel ∧
    (∀ c b, (c, b) ∈ released f → occ c rel = Nat.b2n b) ∧
    (∀ l, occ (CloseListener l) rel =
       if UseGRPC f then (S server_closes * length (filter (λ x, x = l) (closers (mux w2))))%nat else 0%nat) ∧
    (occ DialerClose rel ≤ Nat.b2n (UseP2P f))%nat ∧
    (UseP2P f && UseGRPC f = true → occ DialerClose rel = 1%nat).
Proof.
  intros Hv HS w2. exists (stop_order tr ≫= stop_calls (closers (mux w2))).
  assert (occ DialerClose (stop_order tr ≫= stop_calls (closers (mux w2))) =
    if decide (Built LocalDialerCtor ∈ tr) then 1%nat else 0%nat) as Hd.
  { apply (occ_one f); [done..| |by apply (releaser_once _ DialerClose)].
    intros a Ha Hin%releaser_spec; [simpl in Hin; congruence|done]. }
  split_and!.
  - rewrite Stop_law. pose proof (Start_law (hooks_of tr) w) as HL.
    destruct (start_hooks (hooks_of tr) w) as [[e|] [n' w']] eqn:E; [destruct HL as [e' HL]; congruence|].
    assert (n = length (hooks_of tr)) as -> by (apply start_hooks_all in E; congruence).
    rewrite take_ge by done. apply stop_run.
  - intros c b. by apply released_occ.
  - intros l. by apply listeners_occ.
  - rewrite Hd. case_decide as Hin; [|lia]. apply (trace_provided f tr Hv) in Hin. simpl in Hin. rewrite Hin. done.
  - intros Hf. rewrite Hd, decide_True; [done|by apply (dialer_in f)].
Qed.

(** Listeners leak when the start fails half way.  If the multiplexer has
    opened some listeners and then fails, the container stops only what was
    started before the multiplexer, and a later stop does nothing: the
    listeners that are open stay open. *)
Theorem mux_start_leaks `{LifecycleLaws} f l1 l2 w k w1 e m :
  valid_trace f (l1 ++ Built NewMuxedListener :: l2) →
  start_hooks (hooks_of l1) w = (None, (k, w1)) → Mux.Start tm (mux w1) = (Err e, m) →
  let hs := hooks_of (l1 ++ Built NewMuxedListener :: l2) in
  ∃ e' w', app_Start hs w = (Some e', (0%nat, w')) ∧
    closers (mux w') = closers m ∧ calls (app_Stop hs 0 w').2 = calls w' ∧
    ∃ released, calls w' = calls w1 ++ released ∧ ∀ l, CloseListener l ∉ released.
Proof.
  intros [Hnd _ Ho _] Hs HM hs.
  assert (hs = hooks_of l1 ++ mux_hook :: hooks_of l2) as Ehs by apply hooks_of_app.
  pose proof (Start_law hs w) as HL. rewrite Ehs, (start_hooks_app _ _ _ _ _ Hs) in HL. simpl in HL.
  unfold mux_OnStart in HL. rewrite HM in HL. simpl in HL. destruct HL as [e' HL]. rewrite <- Ehs in HL.
  assert (k = length (hooks_of l1)) as -> by by eapply start_hooks_all.
  rewrite Nat.add_0_r, Ehs, take_app_length in HL. rewrite <- Ehs in HL.
  exists e'. eexists. split; [exact HL|]. split_and!.
  - rewrite hooks_reverse. by apply (stop_all (reverse l1)).
  - by rewrite Stop_law.
  - exists (stop_order l1 ≫= stop_calls (closers m)). split; [apply stop_run|].
    intros l (a & Ha & Hin)%list_elem_of_bind. apply elem_of_stop_order in Hin as [_ Hin].
    apply NoDup_app in Hnd as (_ & Hd & _).
    assert (Built NewMuxedListener ∉ l1) as Hm by (intros Hm; apply (Hd _ Hm); left).
    apply stop_calls_mux in Ha as [->| ->]; [done|]. apply Hm.
    apply list_elem_of_lookup in Hin as [i Hi]. pose proof (lookup_lt_Some _ _ _ Hi) as Hlt.
    assert (Built NewMuxedListener ∈ take i (l1 ++ Built NewMuxedListener :: l2)) as Ht.
    { apply (Ho i (Built grpcNew)); [by rewrite lookup_app_l|]. unfold needs. simpl. set_solver. }
    rewrite take_app_le in Ht by lia. by apply elem_of_take in Ht as (j & Hj%list_elem_of_lookup_2 & _).
Qed.
End hooks.

(** ** Witnesses *)

(** Packages whose every call fails, on a node with gRPC over TCP. *)
Definition failing_lib (c : call) (m : Mux.Mux) : option error * Mux.Mux :=
  match c with
  | GrpcServe | HttpServe | GoBootstrapper => (None, m)
  | _ => (Some "failed", m)
  end.

Definition grpc_flags : flags :=
  mkFlags false false true false false false true false true false false false false.

Definition sample_running (ls : list MuxListener) : running := mkRunning [] (Mux.New ls).

Definition one_listener : listener := mkListener 1 ":8080" None.

Lemma stop_releases_all_witness :
  let hs := hooks_of failing_lib [Scheduled] false 1 (assemble grpc_flags) in
  ∃ n w1 rel, app_Start hs (sample_running [mkMuxListener (inr one_listener) "TCP"]) = (None, (n, w1)) ∧
    calls (app_Stop hs n w1).2 = [GrpcServe] ++ rel ∧ occ LockerClose rel = 1%nat ∧ occ HostClose rel = 0%nat ∧
    occ (CloseListener one_listener) rel = 2%nat.
Proof.
  intros hs.
  assert (∃ n w1, app_Start hs (sample_running [mkMuxListener (inr one_listener) "TCP"]) = (None, (n, w1)) ∧
    calls w1 = [GrpcServe] ∧ closers (mux w1) = [one_listener]) as (n & w1 & HS & Hc & Hl).
  { eexists _, _. split; [by vm_compute|]. done. }
  destruct (stop_releases_all failing_lib [Scheduled] false 1 ltac:(by intros [] m)
    grpc_flags (assemble grpc_flags) (sample_running [mkMuxListener (inr one_listener) "TCP"]) n w1
    (assemble_valid grpc_flags) HS w1) as (rel & Hrel & Hone & Hls & _).
  exists n, w1, rel. split; [exact HS|]. split; [rewrite <- Hc; exact Hrel|].
  split; [apply (Hone LockerClose true); refine (bool_decide_unpack _ _); by vm_compute|].
  split; [apply (Hone HostClose false); refine (bool_decide_unpack _ _); by vm_compute|].
  rewrite (Hls one_listener), Hl. reflexivity.
Defined.

(** Two listeners, the second of which can not be opened. *)
Definition half_started : running :=
  sample_running [mkMuxListener (inr one_listener) "TCP"; mkMuxListener (inl "in use") "UDS"].

Definition before_mux : list act := take 11 (assemble grpc_flags).
Definition after_mux : list act := drop 12 (assemble grpc_flags).

Lemma mux_start_leaks_witness :
  let hs := hooks_of failing_lib [Scheduled; Scheduled] false 1 (before_mux ++ Built NewMuxedListener :: after_mux) in
  ∃ e w', app_Start hs half_started = (Some e, (0%nat, w')) ∧
    closers (mux w') = [one_listener] ∧ CloseListener one_listener ∉ calls (app_Stop hs 0 w').2.
Proof.
  intros hs.
  assert (before_mux ++ Built NewMuxedListener :: after_mux = assemble grpc_flags) as E by by vm_compute.
  assert (∃ k w1 m, start_hooks (hooks_of failing_lib [Scheduled; Scheduled] false 1 before_mux) half_started
    = (None, (k, w1)) ∧ Mux.Start [Scheduled; Scheduled] (mux w1) = (Err "in use", m) ∧
    calls w1 = [] ∧ closers m = [one_listener]) as (k & w1 & m & HS & HM & Hc & Hl).
  { eexists _, _, _. split; [by vm_compute|]. split; [by vm_compute|]. split; reflexivity. }
  destruct (mux_start_leaks failing_lib [Scheduled; Scheduled] false 1 ltac:(by intros [] x)
    grpc_flags before_mux after_mux half_started k w1 "in use" m) as (e & w' & H1 & H2 & H3 & r & H4 & H5).
  - rewrite E. apply assemble_valid.
  - exact HS.
  - exact HM.
  - exists e, w'. split; [exact H1|]. split; [by rewrite H2|].
    unfold hs. rewrite H3, H4, Hc. apply H5.
Defined.
