(* ===== verification/Metrics.v ===== *)
(** * Metrics: [modules/diag/metrics/metrics.go] and the Prometheus options of
      [modules/node/grpc/middleware.go] and [modules/node/http/middleware.go]

    A node with metrics has a Prometheus registry of its own, which [metrics.New]
    makes and to which the gRPC server and the metrics page add their
    collectors.  The recorder of the HTTP middleware is made without a registry
    and so uses the default one, of which there is one per process.  Registering
    a metric twice panics.  This file runs the acts of an assembly
    ([Lifecycle.valid_trace]) on the two registries.  The Prometheus packages
    are a class with their documented laws. *)

From S2P Require Import Prelude Utf8 Json JsonText Files Config Wiring Lifecycle.

(** ** The Prometheus packages *)

(** What identifies a metric: its full name and its constant labels. *)
Record desc := mkDesc { fqName : string; constLabels : string }.

#[export] Instance desc_eq_dec : EqDecision desc.
Proof. solve_decision. Defined.
#[export] Instance desc_countable : Countable desc.
Proof.
  apply (inj_countable' (λ d, (fqName d, constLabels d)) (λ x, mkDesc x.1 x.2)). by intros [].
Defined.

Class Prometheus := {
  Registry_ : Type;
  Collector : Type;
  ServerMetrics_ : Type;
  NewRegistry : Registry_;
  (* the metrics a registry has, and those a collector describes *)
  Descs : Registry_ → gset desc;
  Describe : Collector → gset desc;
  MustRegister : list Collector → ST Registry_ unit;
  NewProcessCollector : string → Collector;
  NewGoCollector : Collector;
  NewServerMetrics : ServerMetrics_;
  EnableHandlingTimeHistogram : ServerMetrics_ → ServerMetrics_;
  InitializeMetrics : list string → ServerMetrics_ → ServerMetrics_;
  server_collector : ServerMetrics_ → Collector;
  (* the metrics of the HTTP recorder, and the recorder being made *)
  recorder_descs : gset desc;
  NewRecorder : ST Registry_ unit;
  (* the metrics of the page itself, and the page being instrumented *)
  page_descs : gset desc;
  InstrumentMetricHandler : ST Registry_ unit;
}.

(** Names that begin with a prefix; names of [A] that [B] has as well. *)
Definition named (pre : string) (A : gset desc) : Prop :=
  ∀ d, d ∈ A → ∃ rest, fqName d = pre +:+ rest.

Definition apart (A B : gset desc) : Prop :=
  ∀ d d', d ∈ A → d' ∈ B → fqName d ≠ fqName d'.

(** The histogram that [EnableHandlingTimeHistogram] adds. *)
Definition histogram : desc := mkDesc "grpc_server_handling_seconds" "".

Class PrometheusLaws `{Prometheus} : Prop := {
  registry_empty : Descs NewRegistry = ∅;
  must_nil r : MustRegister [] r = (Ok (), r);
  must_new c cs r : apart (Describe c) (Descs r) →
    ∃ r', Descs r' = Descs r ∪ Describe c ∧ MustRegister (c :: cs) r = MustRegister cs r';
  process_named ns : named (ns +:+ "_process_") (Describe (NewProcessCollector ns));
  go_named : named "go_" (Describe NewGoCollector);
  server_named : named "grpc_server_" (Describe (server_collector NewServerMetrics));
  server_histogram :
    Describe (server_collector (EnableHandlingTimeHistogram NewServerMetrics)) =
    {[ histogram ]} ∪ Describe (server_collector NewServerMetrics);
  server_no_histogram : histogram ∉ Describe (server_collector NewServerMetrics);
  recorder_named : named "http_" recorder_descs;
  recorder_some : recorder_descs ≠ ∅;
  recorder_new r : apart recorder_descs (Descs r) →
    ∃ r', Descs r' = Descs r ∪ recorder_descs ∧ NewRecorder r = (Ok (), r');
  recorder_again r : recorder_descs ⊆ Descs r → ∃ p r', NewRecorder r = (Panic p, r');
  page_named : named "promhttp_" page_descs;
  page_new r : apart page_descs (Descs r) →
    ∃ r', Descs r' = Descs r ∪ page_descs ∧ InstrumentMetricHandler r = (Ok (), r');
}.

(** ** The functions *)

Section metrics.
Context `{Prometheus}.

(** [metrics.New] *)
Definition metrics_New : res Registry_ :=
  let (e, r) := MustRegister [NewProcessCollector "msuite"; NewGoCollector] NewRegistry in
  _ ← e; Ok r.

(** The default registry of the process, and what the container holds of the
    node: its registry and the metrics of its gRPC server. *)
Record proc := mkProc {
  DefaultRegisterer : Registry_;
  node_reg : option Registry_;
  grpcMetrics : option ServerMetrics_;
}.

(** A call on the default registry, and one on the node's, which must be there. *)
Definition on_default (call : ST Registry_ unit) : ST proc unit := λ p,
  let (e, r) := call (DefaultRegisterer p) in (e, mkProc r (node_reg p) (grpcMetrics p)).

Definition on_reg (call : ST Registry_ unit) : ST proc unit := λ p,
  match node_reg p with
  | Some r => let (e, r') := call r in (e, mkProc (DefaultRegisterer p) (Some r') (grpcMetrics p))
  | None => (Panic "invalid memory address or nil pointer dereference", p)
  end.

Definition the_metrics : ST proc ServerMetrics_ := λ p,
  match grpcMetrics p with
  | Some m => (Ok m, p)
  | None => (Panic "invalid memory address or nil pointer dereference", p)
  end.

Definition put_metrics (m : ServerMetrics_) : ST proc unit := λ p,
  (Ok (), mkProc (DefaultRegisterer p) (node_reg p) (Some m)).

Definition put_reg (r : Registry_) : ST proc unit := λ p,
  (Ok (), mkProc (DefaultRegisterer p) (Some r) (grpcMetrics p)).

(** [Metrics], [MetricsOpts] (its interceptors are in [GrpcServer]) and
    [MetricsRegister], on a server with the given methods. *)
Definition Metrics_new : ST proc unit := put_metrics NewServerMetrics.

Definition MetricsOpts_enable (c : JsonConfig) : ST proc unit :=
  latency ← st_lift (IsSet "UsePrometheusLatency" c);
  if (latency : bool) then m ← the_metrics; put_metrics (EnableHandlingTimeHistogram m) else mret ().

Definition MetricsRegister_ (methods : list string) : ST proc unit :=
  m ← the_metrics; _ ← on_reg (MustRegister [server_collector m]);
  put_metrics (InitializeMetrics methods m).

(** [PromMware]: its recorder is made with an empty configuration. *)
Definition PromMware_ : ST proc unit := on_default NewRecorder.

(** [Register]: the page is added to the multiplexer in [HttpRoutes]. *)
Definition Register_page : ST proc unit := on_reg InstrumentMetricHandler.

(** What each act of an assembly does to the registries.  Services are
    registered on the gRPC server by the application, which gets it from [New]
    afterwards. *)
Definition metrics_act (c : JsonConfig) (a : act) : ST proc unit :=
  match a with
  | Built metricsNew => r ← st_lift metrics_New; put_reg r
  | Built Metrics => Metrics_new
  | Built MetricsOpts => MetricsOpts_enable c
  | Invoked MetricsRegister => MetricsRegister_ []
  | Built PromMware => PromMware_
  | Invoked httpRegister => Register_page
  | _ => mret ()
  end.

Fixpoint run_acts (c : JsonConfig) (tr : list act) : ST proc unit :=
  match tr with
  | [] => mret ()
  | a :: tr => _ ← metrics_act c a; run_acts c tr
  end.

(** A new node in the process. *)
Definition node_start (d : Registry_) : proc := mkProc d None None.
End metrics.

(** ** Lemmas: names *)

(** Two texts with a common extension: one begins with the other. *)
Lemma prefix_common p q r s : p +:+ r = q +:+ s → String.prefix p q || String.prefix q p = true.
Proof.
  revert q. induction p as [|a p IH]; intros [|b q]; try done; simpl.
  intros [= -> Hr]. destruct (Ascii.ascii_dec b b) as [_|?]; [by eapply IH|done].
Qed.

Lemma named_apart p q A B :
  named p A → named q B → String.prefix p q || String.prefix q p = false → apart A B.
Proof.
  intros HA HB Hpq d d' [r Hr]%HA [s Hs]%HB Heq. rewrite Hr, Hs in Heq.
  apply prefix_common in Heq. congruence.
Qed.

Lemma apart_empty_r A : apart A ∅.
Proof. intros d d' _ []%not_elem_of_empty. Qed.

Lemma apart_union_r A B C : apart A B → apart A C → apart A (B ∪ C).
Proof. intros HB HC d d' Hd [?|?]%elem_of_union; [by apply HB|by apply HC]. Qed.

Lemma apart_if (b : bool) A B C : apart A B → apart A C → apart A (if b then B else C).
Proof. by destruct b. Qed.

#[export] Hint Resolve apart_empty_r apart_union_r apart_if : msuite.

(** ** Lemmas: acts *)

(** Whether an act was made. *)
Definition made (a : act) (tr : list act) : bool := bool_decide (a ∈ tr).

Lemma made_snoc a tr b : made a (tr ++ [b]) = made a tr || bool_decide (a = b).
Proof.
  unfold made. apply eq_iff_eq_true. rewrite orb_true_iff, !bool_decide_eq_true, elem_of_app, list_elem_of_singleton.
  done.
Qed.

Lemma made_true a tr : a ∈ tr → made a tr = true.
Proof. apply bool_decide_eq_true_2. Qed.

Lemma made_false a tr : a ∉ tr → made a tr = false.
Proof. apply bool_decide_eq_false_2. Qed.

(** The part of a run before an act, and what the act needs of it. *)
Lemma good_prefix f tr a : good f (tr ++ [a]) → good f tr ∧ (a ∉ tr) ∧ (∀ c, c ∈ needs f a → Built c ∈ tr).
Proof.
  intros [Hn Ho Hp]. apply NoDup_app in Hn as (Hn & Hd & _). split_and!.
  - split; [done| |intros c Hc; apply Hp, elem_of_app; by left].
    intros n b c Hb Hc. specialize (Ho n b c (lookup_app_l_Some _ _ _ _ Hb) Hc).
    by rewrite take_app_le in Ho by (apply lookup_lt_Some in Hb; lia).
  - intros Hin. apply (Hd a Hin), list_elem_of_singleton. done.
  - intros c Hc. specialize (Ho (length tr) a c). rewrite take_app_length in Ho. apply Ho; [|done].
    by apply list_lookup_middle.
Qed.

Lemma good_app f tr1 tr2 : good f (tr1 ++ tr2) → good f tr1.
Proof.
  induction tr2 as [|a tr2 IH] using rev_ind; [by rewrite app_nil_r|].
  rewrite (assoc_L (++)). intros [Hg _]%good_prefix. auto.
Qed.

Lemma good_needs f tr a c : good f tr → a ∈ tr → c ∈ needs f a → Built c ∈ tr.
Proof.
  intros [_ Ho _] [n Hn]%list_elem_of_lookup Hc. specialize (Ho n a c Hn Hc).
  by apply elem_of_take in Ho as (m & Hm%list_elem_of_lookup_2 & _).
Qed.

Lemma valid_good f tr : valid_trace f tr → good f tr.
Proof. intros [H1 _ H2 H3]. by split. Qed.

(** An invocation of the flags is made, and what it needs is built. *)
Lemma valid_invoked f tr i : valid_trace f tr → Invoked i ∈ tr ↔ i ∈ invokes f.
Proof.
  intros [_ Hi _ _]. rewrite <- Hi, list_elem_of_omap. split.
  - intros Ha. by exists (Invoked i).
  - by intros ([c|j] & Ha & [= <-]).
Qed.

Lemma valid_built f tr i c : valid_trace f tr → i ∈ invokes f → c ∈ needs f (Invoked i) → Built c ∈ tr.
Proof.
  intros Hv Hi%(valid_invoked _ _ _ Hv) Hc. eapply good_needs; [by apply valid_good|done..].
Qed.

(** When the acts on the registries are made. *)
Lemma metrics_invokes f :
  (bool_decide (MetricsRegister ∈ invokes f) = UseGRPC f && UsePrometheus f) ∧
  (bool_decide (httpRegister ∈ invokes f) = UseHTTP f && UsePrometheus f) ∧
  (bool_decide (NewHTTPServer ∈ invokes f) = UseHTTP f) ∧
  bool_decide (Populate ∈ invokes f) = true.
Proof.
  assert (all_flags (λ f,
    eqb (bool_decide (MetricsRegister ∈ invokes f)) (UseGRPC f && UsePrometheus f) &&
    eqb (bool_decide (httpRegister ∈ invokes f)) (UseHTTP f && UsePrometheus f) &&
    eqb (bool_decide (NewHTTPServer ∈ invokes f)) (UseHTTP f) &&
    bool_decide (Populate ∈ invokes f)) = true) as H by by vm_compute.
  apply (all_flags_spec _ f) in H. cbv beta in H.
  rewrite !andb_true_iff, !eqb_true_iff in H. naive_solver.
Qed.

(** ** Lemmas: registries *)

Section runs.
Context `{PrometheusLaws}.

(** The metrics [metrics.New] starts with, and those of the gRPC server. *)
Definition own_descs : gset desc :=
  Describe (NewProcessCollector "msuite") ∪ Describe NewGoCollector.

Definition grpc_descs (latency : bool) : gset desc :=
  (if latency then {[ histogram ]} else ∅) ∪ Describe (server_collector NewServerMetrics).

Definition metrics_of (latency : bool) : ServerMetrics_ :=
  if latency then EnableHandlingTimeHistogram NewServerMetrics else NewServerMetrics.

Lemma metrics_of_descs latency : Describe (server_collector (metrics_of latency)) = grpc_descs latency.
Proof. destruct latency; [apply server_histogram|]. unfold grpc_descs. simpl. by rewrite (left_id_L ∅ (∪)). Qed.

Lemma grpc_named latency : named "grpc_server_" (grpc_descs latency).
Proof.
  intros d [Hd|Hd]%elem_of_union; [|by apply server_named].
  destruct latency; [|by apply not_elem_of_empty in Hd]. apply elem_of_singleton in Hd as ->.
  by exists "handling_seconds".
Qed.

(** None of the groups of metrics share a name. *)
Lemma go_apart : apart (Describe NewGoCollector) (Describe (NewProcessCollector "msuite")).
Proof. by eapply named_apart; [apply go_named|apply process_named|]. Qed.

Lemma own_apart pre A :
  named pre A → String.prefix pre "go_" || String.prefix "go_" pre = false →
  String.prefix pre "msuite_process_" || String.prefix "msuite_process_" pre = false →
  apart A own_descs.
Proof.
  intros HA Hg Hp. apply apart_union_r.
  - eapply named_apart; [done|apply process_named|done].
  - eapply named_apart; [done|apply go_named|done].
Qed.

Lemma grpc_apart_own latency : apart (grpc_descs latency) own_descs.
Proof. by apply (own_apart "grpc_server_"); [apply grpc_named|..]. Qed.
Lemma page_apart_own : apart page_descs own_descs.
Proof. by apply (own_apart "promhttp_"); [apply page_named|..]. Qed.
Lemma grpc_apart_page latency : apart (grpc_descs latency) page_descs.
Proof. by eapply named_apart; [apply grpc_named|apply page_named|]. Qed.
Lemma page_apart_grpc latency : apart page_descs (grpc_descs latency).
Proof. by eapply named_apart; [apply page_named|apply grpc_named|]. Qed.

#[local] Hint Resolve grpc_apart_own page_apart_own grpc_apart_page page_apart_grpc : msuite.

(** The recorder's metrics are none of them. *)
Lemma recorder_apart latency (g h : bool) :
  apart recorder_descs
    (own_descs ∪ (if g then grpc_descs latency else ∅) ∪ (if h then page_descs else ∅)).
Proof.
  pose proof recorder_named as Hr. repeat apply apart_union_r; try apply apart_if; try apply apart_empty_r.
  - by eapply named_apart; [done|apply process_named|].
  - by eapply named_apart; [exact Hr|apply go_named|].
  - by eapply named_apart; [exact Hr|apply grpc_named|].
  - by eapply named_apart; [exact Hr|apply page_named|].
Qed.

Lemma named_not_in pre A d : named pre A → String.prefix pre (fqName d) = false → d ∉ A.
Proof.
  intros HA Hp [r Hr]%HA. rewrite Hr in Hp. apply not_true_iff_false in Hp. apply Hp. clear.
  induction pre as [|a pre IH]; [by destruct r|]. simpl. by destruct (Ascii.ascii_dec a a).
Qed.

(** Where the histogram can be. *)
Lemma histogram_in latency (g h : bool) :
  histogram ∈ own_descs ∪ (if g then grpc_descs latency else ∅) ∪ (if h then page_descs else ∅) ↔
  g && latency = true.
Proof.
  assert (histogram ∉ own_descs ∪ (if h then page_descs else ∅)) as Hn.
  { intros [[Hd|Hd]%elem_of_union|Hd]%elem_of_union; [..|destruct h; [|by apply not_elem_of_empty in Hd]]; revert Hd.
    - by eapply named_not_in; [apply process_named|].
    - by eapply named_not_in; [apply go_named|].
    - by eapply named_not_in; [apply page_named|]. }
  pose proof server_no_histogram as Hs. unfold grpc_descs. destruct g, latency; simpl; set_solver.
Qed.

Lemma metrics_New_Ok : ∃ r, metrics_New = Ok r ∧ Descs r = own_descs.
Proof.
  unfold metrics_New.
  destruct (must_new (NewProcessCollector "msuite") [NewGoCollector] NewRegistry) as (r1 & D1 & ->).
  { rewrite registry_empty. apply apart_empty_r. }
  rewrite registry_empty, (left_id_L ∅ (∪)) in D1.
  destruct (must_new NewGoCollector [] r1) as (r2 & D2 & ->).
  { rewrite D1. apply go_apart. }
  rewrite must_nil. exists r2. split; [done|]. by rewrite D2, D1.
Qed.

Context (f : flags) (c : JsonConfig) (latency : bool) (d0 : gset desc).
Hypothesis latency_set : IsSet "UsePrometheusLatency" c = Ok latency.

(** The node's registry after the acts [tr]. *)
Definition reg_descs (tr : list act) : gset desc :=
  own_descs ∪ (if made (Invoked MetricsRegister) tr then grpc_descs latency else ∅)
            ∪ (if made (Invoked httpRegister) tr then page_descs else ∅).

Record ran (tr : list act) (p : proc) : Prop := mkRan {
  ran_default : Descs (DefaultRegisterer p) =
    d0 ∪ (if made (Built PromMware) tr then recorder_descs else ∅);
  ran_reg : if made (Built metricsNew) tr
    then ∃ r, node_reg p = Some r ∧ Descs r = reg_descs tr else node_reg p = None;
  ran_metrics : made (Invoked MetricsRegister) tr = false → made (Built Metrics) tr = true →
    grpcMetrics p = Some (metrics_of (latency && made (Built MetricsOpts) tr));
}.

Lemma run_acts_app tr1 tr2 p :
  run_acts c (tr1 ++ tr2) p =
  match run_acts c tr1 p with (Ok _, p') => run_acts c tr2 p' | r => r end.
Proof.
  revert p. induction tr1 as [|a tr1 IH]; intros p; [done|].
  change ((a :: tr1) ++ tr2) with (a :: (tr1 ++ tr2)). cbn [run_acts].
  unfold mbind, st_mbind. destruct (metrics_act c a p) as [[]]; [apply IH|done..].
Qed.

Lemma run_acts_snoc tr a p p1 p2 :
  run_acts c tr p = (Ok (), p1) → metrics_act c a p1 = (Ok (), p2) →
  run_acts c (tr ++ [a]) p = (Ok (), p2).
Proof.
  intros H1 H2. rewrite run_acts_app, H1. cbn [run_acts]. unfold mbind, st_mbind. by rewrite H2.
Qed.

(** The acts that touch a registry. *)
Definition metrics_acts : list act :=
  [Built metricsNew; Built Metrics; Built MetricsOpts; Built PromMware;
   Invoked MetricsRegister; Invoked httpRegister].

Lemma other_act a p : a ∉ metrics_acts → metrics_act c a p = (Ok (), p).
Proof.
  intros Ha. destruct a as [[]|[]]; try done; exfalso; apply Ha; refine (bool_decide_unpack _ _); by vm_compute.
Qed.

Lemma made_other a b tr : a ∉ metrics_acts → b ∈ metrics_acts → made b (tr ++ [a]) = made b tr.
Proof.
  intros Ha Hb. rewrite made_snoc, bool_decide_eq_false_2; [by rewrite orb_false_r|]. by intros <-.
Qed.

Lemma ran_other tr a p : a ∉ metrics_acts → ran tr p → ran (tr ++ [a]) p.
Proof.
  intros Ha [H1 H2 H3]. split; unfold reg_descs in *;
    rewrite ?(made_other a) by (done || (refine (bool_decide_unpack _ _); by vm_compute)); done.
Qed.

(** What the acts need of the ones before. *)
Lemma register_needs tr : good f (tr ++ [Invoked MetricsRegister]) →
  made (Built metricsNew) tr = true ∧ made (Built Metrics) tr = true ∧ made (Built MetricsOpts) tr = true ∧
  made (Invoked MetricsRegister) tr = false.
Proof.
  intros (Hg & Hni & Hn)%good_prefix.
  assert (Built Metrics ∈ tr) as Hm by (apply Hn; unfold needs; simpl; set_solver).
  assert (Built grpcNew ∈ tr) as Hs by (apply Hn; unfold needs; simpl; set_solver).
  assert (Built OptsAggregator ∈ tr) as Ho.
  { eapply good_needs; [done|exact Hs|]. unfold needs. simpl. set_solver. }
  assert (Built MetricsOpts ∈ tr) as Ho'.
  { eapply good_needs; [done|exact Ho|]. apply list_elem_of_bind. exists (Grp UnaryOpts).
    split; [|left]. apply elem_of_group. split; [simpl; set_solver|]. by apply (good_provided _ _ Hg Metrics). }
  assert (Built metricsNew ∈ tr) as Hr by (apply Hn; unfold needs; simpl; set_solver).
  split_and!; [by apply made_true..|by apply made_false].
Qed.

Lemma page_needs tr : good f (tr ++ [Invoked httpRegister]) →
  made (Built metricsNew) tr = true ∧ made (Invoked httpRegister) tr = false.
Proof.
  intros (Hg & Hni & Hn)%good_prefix. split; [apply made_true, Hn; unfold needs; simpl; set_solver|by apply made_false].
Qed.

(** The acts on the registries, one by one. *)
Ltac made_cbn :=
  unfold reg_descs in *; rewrite ?made_snoc;
  repeat match goal with
  | |- context [bool_decide (?x = ?y)] =>
    first [rewrite (bool_decide_eq_true_2 (x = y)) by done | rewrite (bool_decide_eq_false_2 (x = y)) by done]
  end; rewrite ?orb_false_r, ?orb_true_r.

Lemma ran_metricsNew tr p : good f (tr ++ [Built metricsNew]) → ran tr p →
  ∃ p', metrics_act c (Built metricsNew) p = (Ok (), p') ∧ ran (tr ++ [Built metricsNew]) p'.
Proof.
  intros (Hg & Hni & _)%good_prefix [H1 _ H3]. destruct metrics_New_Ok as (r & HN & HD).
  eexists. split; [simpl; unfold mbind, st_mbind, st_lift; rewrite HN; reflexivity|].
  assert (made (Invoked MetricsRegister) tr = false) as Hm.
  { apply made_false. intros Hin. apply Hni. eapply good_needs; [done|exact Hin|]. unfold needs. simpl. set_solver. }
  assert (made (Invoked httpRegister) tr = false) as Hp.
  { apply made_false. intros Hin. apply Hni. eapply good_needs; [done|exact Hin|]. unfold needs. simpl. set_solver. }
  split; made_cbn; [done| |done]. exists r. split; [done|]. rewrite HD, Hm, Hp. by rewrite !(right_id_L ∅ (∪)).
Qed.

Lemma ran_Metrics tr p : good f (tr ++ [Built Metrics]) → ran tr p →
  ∃ p', metrics_act c (Built Metrics) p = (Ok (), p') ∧ ran (tr ++ [Built Metrics]) p'.
Proof.
  intros (Hg & Hni & _)%good_prefix [H1 H2 _]. eexists. split; [reflexivity|].
  assert (made (Built MetricsOpts) tr = false) as Ho.
  { apply made_false. intros Hin. apply Hni. eapply good_needs; [done|exact Hin|]. unfold needs. simpl. set_solver. }
  split; made_cbn; [done..|]. intros _ _. rewrite Ho, andb_false_r. done.
Qed.

Lemma ran_MetricsOpts tr p : good f (tr ++ [Built MetricsOpts]) → ran tr p →
  ∃ p', metrics_act c (Built MetricsOpts) p = (Ok (), p') ∧ ran (tr ++ [Built MetricsOpts]) p'.
Proof.
  intros Hg' [H1 H2 H3]. pose proof Hg' as (Hg & Hni & Hn)%good_prefix.
  assert (made (Invoked MetricsRegister) tr = false) as Hr.
  { apply made_false. intros (l1 & l2 & ->)%list_elem_of_split. apply Hni.
    assert (good f (l1 ++ [Invoked MetricsRegister])) as Hgr.
    { apply (good_app f _ l2). by rewrite <- (assoc_L (++)). }
    apply register_needs in Hgr as (_ & _ & Hin & _). apply bool_decide_eq_true in Hin. set_solver. }
  assert (made (Built Metrics) tr = true) as Hm by (apply made_true, Hn; unfold needs; simpl; set_solver).
  specialize (H3 Hr Hm). rewrite made_false, andb_false_r in H3 by done.
  simpl. unfold MetricsOpts_enable, mbind, st_mbind, st_lift. rewrite latency_set.
  destruct latency as [] eqn:E; eexists; (split; [unfold the_metrics; rewrite ?H3; reflexivity|]); split; made_cbn;
    first [done|by rewrite E].
Qed.

Lemma ran_MetricsRegister tr p : good f (tr ++ [Invoked MetricsRegister]) → ran tr p →
  ∃ p', metrics_act c (Invoked MetricsRegister) p = (Ok (), p') ∧ ran (tr ++ [Invoked MetricsRegister]) p'.
Proof.
  intros Hg [H1 H2 H3]. apply register_needs in Hg as (Hn & Hm & Ho & Hr).
  rewrite Hn in H2. destruct H2 as (r & Hr' & Hd). specialize (H3 Hr Hm). rewrite Ho, andb_true_r in H3.
  unfold reg_descs in Hd. rewrite Hr, (right_id_L ∅ (∪)) in Hd.
  destruct (must_new (server_collector (metrics_of latency)) [] r) as (r' & D' & HM).
  { rewrite Hd, metrics_of_descs. auto with msuite. }
  rewrite must_nil in HM. eexists. split.
  - simpl. unfold MetricsRegister_, mbind, st_mbind, the_metrics, on_reg. rewrite H3, Hr', HM. reflexivity.
  - split; made_cbn; [done| |done]. rewrite Hn. exists r'. split; [done|]. rewrite D', Hd, metrics_of_descs. set_solver.
Qed.

Lemma ran_httpRegister tr p : good f (tr ++ [Invoked httpRegister]) → ran tr p →
  ∃ p', metrics_act c (Invoked httpRegister) p = (Ok (), p') ∧ ran (tr ++ [Invoked httpRegister]) p'.
Proof.
  intros Hg [H1 H2 H3]. apply page_needs in Hg as (Hn & Hr).
  rewrite Hn in H2. destruct H2 as (r & Hr' & Hd).
  unfold reg_descs in Hd. rewrite Hr, (right_id_L ∅ (∪)) in Hd.
  destruct (page_new r) as (r' & D' & HM).
  { rewrite Hd. auto with msuite. }
  eexists. split.
  - simpl. unfold Register_page, on_reg. rewrite Hr', HM. reflexivity.
  - split; made_cbn; [done| |done]. rewrite Hn. exists r'. split; [done|]. rewrite D', Hd. set_solver.
Qed.

Lemma ran_PromMware tr p : apart recorder_descs d0 → good f (tr ++ [Built PromMware]) → ran tr p →
  ∃ p', metrics_act c (Built PromMware) p = (Ok (), p') ∧ ran (tr ++ [Built PromMware]) p'.
Proof.
  intros Ha (_ & Hni & _)%good_prefix [H1 H2 H3]. rewrite (made_false _ _ Hni), (right_id_L ∅ (∪)) in H1.
  destruct (recorder_new (DefaultRegisterer p)) as (r' & D' & HR); [by rewrite H1|].
  eexists. split; [simpl; unfold PromMware_, on_default; rewrite HR; reflexivity|].
  split; made_cbn; [|done..]. simpl. by rewrite D', H1.
Qed.

(** A run does not panic unless the recorder's metrics are there already. *)
Lemma run_acts_ok d tr :
  Descs d = d0 → good f tr → (Built PromMware ∈ tr → apart recorder_descs d0) →
  ∃ p, run_acts c tr (node_start d) = (Ok (), p) ∧ ran tr p.
Proof.
  intros Hd. induction tr as [|a tr IH] using rev_ind; intros Hg Hp.
  { exists (node_start d). split; [done|]. split; [|done..]. simpl. by rewrite (right_id_L ∅ (∪)). }
  destruct IH as (p & Hrun & Hran).
  { by apply good_app in Hg. }
  { intros Hin. apply Hp, elem_of_app. by left. }
  assert (∃ p', metrics_act c a p = (Ok (), p') ∧ ran (tr ++ [a]) p') as (p' & Hact & Hran').
  { destruct (decide (a ∈ metrics_acts)) as [Ha|Ha]; [|exists p; split; [by apply other_act|by apply ran_other]].
    unfold metrics_acts in Ha. rewrite !elem_of_cons in Ha.
    destruct Ha as [->|[->|[->|[->|[->|[->|[]%not_elem_of_nil]]]]]].
    - by apply ran_metricsNew.
    - by apply ran_Metrics.
    - by apply ran_MetricsOpts.
    - apply ran_PromMware; [|done..]. apply Hp, elem_of_app. right. by left.
    - by apply ran_MetricsRegister.
    - by apply ran_httpRegister. }
  exists p'. split; [|done]. by eapply run_acts_snoc.
Qed.
End runs.

(** When the acts are made, in any run the container allows. *)
Lemma made_invoked f tr i : valid_trace f tr → made (Invoked i) tr = bool_decide (i ∈ invokes f).
Proof. intros Hv. apply bool_decide_ext. by apply valid_invoked. Qed.

Lemma made_built f tr i c :
  valid_trace f tr → i ∈ invokes f → (enabled f c = true → c ∈ needs f (Invoked i)) →
  made (Built c) tr = enabled f c.
Proof.
  intros Hv Hi Hn. destruct (enabled f c) eqn:E.
  - apply made_true. eapply valid_built; eauto.
  - apply made_false. intros Hin%(trace_provided _ _ Hv). congruence.
Qed.

Lemma made_registry f tr : valid_trace f tr → made (Built metricsNew) tr = UsePrometheus f.
Proof.
  intros Hv. apply (made_built f tr Populate metricsNew Hv).
  - destruct (metrics_invokes f) as (_ & _ & _ & H). by apply bool_decide_eq_true in H.
  - simpl. intros E. apply list_elem_of_bind. exists (Opt Registry). simpl. rewrite E. split; [left|].
    unfold deps_in. set_solver.
Qed.

Lemma made_recorder f tr : valid_trace f tr → made (Built PromMware) tr = UseHTTP f && UsePrometheus f.
Proof.
  intros Hv. destruct (UseHTTP f) eqn:Hh.
  - rewrite (made_built f tr NewHTTPServer PromMware Hv).
    + simpl. by rewrite Hh.
    + destruct (metrics_invokes f) as (_ & _ & H & _). rewrite Hh in H. by apply bool_decide_eq_true in H.
    + intros E. apply list_elem_of_bind. exists (Grp HttpMiddleware).
      split; [apply elem_of_group; split; [simpl; set_solver|done]|simpl; set_solver].
  - apply made_false. intros Hin%(trace_provided _ _ Hv). simpl in Hin. by rewrite Hh in Hin.
Qed.

(** ** Properties *)

(** C33: the metrics of a node are registered without a clash.  In whatever
    order the container assembles the node, for all flags, nothing panics as
    long as the process has no HTTP recorder yet; the node's registry has the
    metrics of the process and the runtime, those of the gRPC server if there
    is one (with the histogram of latencies exactly if it was asked for: it is
    enabled before the metrics are registered) and those of the metrics page if
    there is an HTTP server.  The metrics of the HTTP requests are not in it:
    they go to the default registry of the process, which the page does not
    show. *)
Theorem metrics_assembled `{PrometheusLaws} f c latency tr d :
  valid_trace f tr → IsSet "UsePrometheusLatency" c = Ok latency → apart recorder_descs (Descs d) →
  ∃ p, run_acts c tr (node_start d) = (Ok (), p) ∧
    Descs (DefaultRegisterer p) =
      Descs d ∪ (if UseHTTP f && UsePrometheus f then recorder_descs else ∅) ∧
    if UsePrometheus f then
      ∃ r, node_reg p = Some r ∧
        Descs r = own_descs ∪ (if UseGRPC f then grpc_descs latency else ∅)
                            ∪ (if UseHTTP f then page_descs else ∅) ∧
        apart recorder_descs (Descs r) ∧
        (histogram ∈ Descs r ↔ UseGRPC f && latency = true)
    else node_reg p = None.
Proof.
  intros Hv Hl Ha. destruct (run_acts_ok f c latency (Descs d) Hl d tr) as (p & Hrun & [H1 H2 _]);
    [done|by apply valid_good|done|].
  exists p. split; [done|]. unfold reg_descs in H2. destruct (metrics_invokes f) as (I1 & I2 & _).
  rewrite (made_registry f), !(made_invoked f tr) in H2 by done. rewrite (made_recorder f tr Hv) in H1.
  split; [done|]. rewrite I1, I2 in H2. destruct (UsePrometheus f); [|done]. rewrite !andb_true_r in H2.
  destruct H2 as (r & Hr & Hd). exists r. split_and!; [done..| |].
  - rewrite Hd. eapply recorder_apart.
  - rewrite Hd. eapply histogram_in.
Qed.

(** A process can have one node with metrics and an HTTP server.  When one
    was assembled, every further one panics in [New], in whatever order the
    container assembles it, because its recorder registers the same metrics
    with the default registry again. *)
Theorem second_node_panics `{PrometheusLaws} f1 f2 c1 c2 latency1 latency2 tr1 tr2 d p1 :
  UseHTTP f1 && UsePrometheus f1 = true → UseHTTP f2 && UsePrometheus f2 = true →
  valid_trace f1 tr1 → valid_trace f2 tr2 →
  IsSet "UsePrometheusLatency" c1 = Ok latency1 → IsSet "UsePrometheusLatency" c2 = Ok latency2 →
  apart recorder_descs (Descs d) → run_acts c1 tr1 (node_start d) = (Ok (), p1) →
  ∃ msg p2, run_acts c2 tr2 (node_start (DefaultRegisterer p1)) = (Panic msg, p2).
Proof.
  intros Hf1 Hf2 Hv1 Hv2 Hl1 Hl2 Ha Hrun.
  assert (recorder_descs ⊆ Descs (DefaultRegisterer p1)) as Hin.
  { destruct (run_acts_ok f1 c1 latency1 (Descs d) Hl1 d tr1) as (p & Hrun' & [H1 _ _]);
      [done|by apply valid_good|done|].
    assert (p = p1) as -> by congruence. rewrite H1, (made_recorder f1), Hf1 by done. set_solver. }
  pose proof (made_recorder f2 tr2 Hv2) as Hm. rewrite Hf2 in Hm.
  apply bool_decide_eq_true, list_elem_of_split in Hm as (l1 & l2 & ->).
  pose proof (valid_good _ _ Hv2) as Hg. pose proof (good_once _ _ Hg) as Hnd.
  destruct (run_acts_ok f2 c2 latency2 (Descs (DefaultRegisterer p1)) Hl2 (DefaultRegisterer p1) l1)
    as (p & Hrun2 & [H1 _ _]); [done|by eapply good_app| |].
  { intros Hin1. apply NoDup_app in Hnd as (_ & Hd & _). exfalso. apply (Hd _ Hin1). left. }
  destruct (recorder_again (DefaultRegisterer p)) as (msg & r' & HR); [rewrite H1; set_solver|].
  exists msg. eexists. rewrite run_acts_app, Hrun2. cbn [run_acts metrics_act].
  unfold mbind, st_mbind, PromMware_, on_default. by rewrite HR.
Qed.

(** ** Witnesses *)

(** A registry is the set of its metrics. *)
Definition sample_must (cs : list (gset desc)) : ST (gset desc) unit := λ r,
  foldl (λ s A, match s with
                | (Ok _, r) => if decide (A ∩ r = ∅) then (Ok (), r ∪ A) else (Panic "duplicate", r)
                | s => s
                end) (Ok (), r) cs.

Definition sample_recorder : gset desc :=
  {[ mkDesc "http_request_duration_seconds" ""; mkDesc "http_requests_inflight" "" ]}.
Definition sample_page : gset desc := {[ mkDesc "promhttp_metric_handler_requests_total" "" ]}.

#[export] Instance sample_prom : Prometheus := {|
  Registry_ := gset desc; Collector := gset desc; ServerMetrics_ := gset desc;
  NewRegistry := ∅; Descs r := r; Describe A := A; MustRegister := sample_must;
  NewProcessCollector ns := {[ mkDesc (ns +:+ "_process_open_fds") "" ]};
  NewGoCollector := {[ mkDesc "go_goroutines" "" ]};
  NewServerMetrics := {[ mkDesc "grpc_server_started_total" "" ]};
  EnableHandlingTimeHistogram m := {[ histogram ]} ∪ m;
  InitializeMetrics _ m := m; server_collector m := m;
  recorder_descs := sample_recorder; NewRecorder := sample_must [sample_recorder];
  page_descs := sample_page; InstrumentMetricHandler := sample_must [sample_page];
|}.

Lemma sample_must_new A cs r : apart A r → sample_must (A :: cs) r = sample_must cs (r ∪ A).
Proof.
  intros HA. unfold sample_must. simpl. rewrite decide_True; [done|].
  apply leibniz_equiv, elem_of_equiv_empty. intros d [H1 H2]%elem_of_intersection. by eapply HA.
Qed.

Lemma one_named pre rest n : n = pre +:+ rest → named pre ({[ mkDesc n "" ]} : gset desc).
Proof. intros -> d ->%elem_of_singleton. by exists rest. Qed.

#[export] Instance sample_prom_laws : PrometheusLaws.
Proof.
  split.
  - done.
  - done.
  - intros c cs r Ha. eexists. split; [|by apply sample_must_new]. done.
  - intros ns. apply (one_named (ns +:+ "_process_") "open_fds"). induction ns as [|a ns IH]; [done|]. exact (f_equal (String a) IH).
  - by apply (one_named "go_" "goroutines").
  - by apply (one_named "grpc_server_" "started_total").
  - done.
  - change (histogram ∉ ({[ mkDesc "grpc_server_started_total" "" ]} : gset desc)). by intros ?%elem_of_singleton.
  - intros d [Hd|Hd]%elem_of_union; revert d Hd.
    + by apply (one_named "http_" "request_duration_seconds").
    + by apply (one_named "http_" "requests_inflight").
  - done.
  - intros r Ha. exists (r ∪ sample_recorder). split; [done|]. by apply sample_must_new.
  - intros r Hr. exists "duplicate", r. simpl. unfold sample_must. simpl. rewrite decide_False; [done|].
    intros E. assert (mkDesc "http_requests_inflight" "" ∈ sample_recorder ∩ r) as Hin.
    { apply elem_of_intersection. split; [|apply Hr]; unfold sample_recorder; simpl; set_solver. }
    by rewrite E in Hin.
  - by apply (one_named "promhttp_" "metric_handler_requests_total").
  - intros r Ha. exists (r ∪ sample_page). split; [done|]. by apply sample_must_new.
Qed.

(** A node with both servers and metrics. *)
Definition sample_metrics_config : JsonConfig := Some {[ "UsePrometheusLatency" := GBool true ]}.

Lemma metrics_assembled_witness : ∃ p r,
  run_acts sample_metrics_config (assemble sample_flags) (node_start ∅) = (Ok (), p) ∧
  node_reg p = Some r ∧ histogram ∈ Descs r.
Proof.
  destruct (metrics_assembled sample_flags sample_metrics_config true (assemble sample_flags) ∅)
    as (p & Hrun & _ & Hreg).
  - apply assemble_valid.
  - reflexivity.
  - apply apart_empty_r.
  - simpl in Hreg. destruct Hreg as (r & Hr & _ & _ & Hh). exists p, r.
    split; [exact Hrun|]. split; [exact Hr|]. by apply Hh.
Defined.

Lemma second_node_panics_witness : ∃ p1 msg p2,
  run_acts sample_metrics_config (assemble sample_flags) (node_start ∅) = (Ok (), p1) ∧
  run_acts sample_metrics_config (assemble sample_flags) (node_start (DefaultRegisterer p1)) = (Panic msg, p2).
Proof.
  assert (∃ p1, run_acts sample_metrics_config (assemble sample_flags) (node_start ∅) = (Ok (), p1)) as [p1 H1].
  { destruct (run_acts _ _ _) as [e p1] eqn:E. exists p1. f_equal.
    assert ((run_acts sample_metrics_config (assemble sample_flags) (node_start ∅)).1 = Ok ()) as H by by vm_compute.
    rewrite E in H. exact H. }
  destruct (second_node_panics sample_flags sample_flags sample_metrics_config sample_metrics_config true true
    (assemble sample_flags) (assemble sample_flags) ∅ p1) as (msg & p2 & H2).
  - reflexivity.
  - reflexivity.
  - apply assemble_valid.
  - apply assemble_valid.
  - reflexivity.
  - reflexivity.
  - apply apart_empty_r.
  - exact H1.
  - exists p1, msg, p2. split; assumption.
Defined.
