(* ===== verification/EventsListener.v ===== *)
(** * The event listener: [Execute] of [modules/events/events.go]

    The listener is a task of the task manager: a loop that looks whether its
    context is done, waits for the next message of its subscription, and calls
    the handlers of the message's topic.  Any error of [Next] is logged and the
    loop goes on.  It runs beside the goroutines that register handlers and the
    pubsub router that delivers messages; [lstep] interleaves them, with the
    load and the store of a registration as separate steps.  What one
    message does is [Events.dispatch]. *)

From S2P Require Import Prelude Utf8 Json JsonText Base64 Events Wiring Lifecycle.

(** ** The order of the hooks *)

(** The invocations of a run, in their order. *)
Lemma invoked_order f tr i j : valid_trace f tr → before (invokes f) i j → before tr (Invoked i) (Invoked j).
Proof.
  intros [_ Hi _ _]. rewrite <- Hi. clear Hi. generalize tr. clear tr. intros tr (l1 & l2 & l3 & E).
  assert (∀ l x r, omap (λ a, match a with Invoked i => Some i | Built _ => None end) tr = l ++ x :: r →
    ∃ t1 t2, tr = t1 ++ Invoked x :: t2 ∧
      omap (λ a, match a with Invoked i => Some i | Built _ => None end) t2 = r) as Hsplit.
  { clear. induction tr as [|[c|k] tr IH]; intros l x r E; [by destruct l|..]; simpl in E.
    - destruct (IH l x r E) as (t1 & t2 & -> & Ht). by exists (Built c :: t1), t2.
    - destruct l as [|y l]; injection E as -> E; [by exists [], tr|].
      destruct (IH l x r E) as (t1 & t2 & -> & Ht). by exists (Invoked y :: t1), t2. }
  destruct (Hsplit l1 i (l2 ++ j :: l3) E) as (t1 & t2 & -> & Ht2). clear Hsplit E.
  assert (∃ u1 u2, t2 = u1 ++ Invoked j :: u2) as (u1 & u2 & ->).
  { apply list_elem_of_split. assert (j ∈ l2 ++ j :: l3) as Hj by set_solver. rewrite <- Ht2 in Hj.
    apply list_elem_of_omap in Hj as ([c|k] & Hk & [= <-]). done. }
  by exists t1, u1, u2.
Qed.

(** [before], as a function. *)
Fixpoint follows (x y : invoke) (l : list invoke) : bool :=
  match l with
  | [] => false
  | z :: l => if decide (z = x) then bool_decide (y ∈ l) else follows x y l
  end.

Lemma follows_before x y l : follows x y l = true → before l x y.
Proof.
  induction l as [|z l IH]; simpl; [done|]. case_decide as E.
  - intros (l2 & l3 & ->)%bool_decide_eq_true%list_elem_of_split. subst. by exists [], l2, l3.
  - intros (l1 & l2 & l3 & ->)%IH. by exists (z :: l1), l2, l3.
Qed.

(** With P2P the task manager is there before the context is given to the hook
    that cancels it. *)
Lemma tm_before_cancel f tr : UseP2P f = true → valid_trace f tr →
  before tr (Built NewTaskManager) (Invoked cancelHook).
Proof.
  intros Hp Hv. pose proof Hv as [Hnd _ Ho _].
  assert (before (invokes f) Bootstrapper cancelHook) as Hb.
  { assert (all_flags (λ f, implb (UseP2P f) (follows Bootstrapper cancelHook (invokes f))) = true) as H by by vm_compute.
    apply (all_flags_spec _ f) in H. cbv beta in H. rewrite Hp in H. by apply follows_before. }
  pose proof (invoked_order f tr _ _ Hv Hb) as Hb'.
  eapply before_trans; [done| |exact Hb'].
  eapply ordered_before; [done|done| |].
  - apply tc_once. exists NewTaskManager. split; [done|]. unfold needs. simpl. set_solver.
  - destruct Hb' as (l1 & l2 & l3 & ->). set_solver.
Qed.

Section listener.
Context {V : Type}.

(** Where the loop is: at its [select], inside [Next], or returned. *)
Inductive lpc := Top | InNext | Returned.

(** The subscription delivers from a queue, which the router closes when its
    own context ends; [loading] are the registrations that have loaded the
    handlers of their topic and not yet stored the longer list; [calls] are the
    handlers called so far. *)
Record lstate := mkLState {
  l_pc : lpc;
  queue : list string;
  sub_closed : bool;
  ctx_done : bool;
  hmap : gmap string (list (evHandler (V:=V)));
  loading : list (evHandler (V:=V) * list (evHandler (V:=V)));
  calls : list (nat * V);
}.

Definition NewListener : lstate := mkLState Top [] false false ∅ [] [].

(** What happens: a section of the loop, or something around it. *)
Inductive label :=
| LSelect                       (* the [select] at the top *)
| LMessage (data : string)      (* [Next] returns a message, which is handled *)
| LNextErr                      (* [Next] returns an error *)
| LArrive (data : string)       (* the router delivers a message *)
| LLoad (h : evHandler (V:=V))  (* a registration loads the handlers of its topic *)
| LStore (h : evHandler (V:=V)) (* and stores them with its own *)
| LCancel                       (* the task's context ends *)
| LClose.                       (* the router closes the subscription *)

(** Whether it is the loop that acts. *)
Definition own (l : label) : bool :=
  match l with LSelect | LMessage _ | LNextErr => true | _ => false end.

Inductive lstep : lstate → label → lstate → Prop :=
| l_select q c d m ld cs :
    lstep (mkLState Top q c d m ld cs) LSelect (mkLState (if d then Returned else InNext) q c d m ld cs)
| l_message q c d m ld cs data :
    lstep (mkLState InNext (data :: q) c d m ld cs) (LMessage data)
      (mkLState Top q c d m ld (cs ++ dispatch data m))
| l_ctx_err q c m ld cs :
    lstep (mkLState InNext q c true m ld cs) LNextErr (mkLState Top q c true m ld cs)
| l_closed_err d m ld cs :
    lstep (mkLState InNext [] true d m ld cs) LNextErr (mkLState Top [] true d m ld cs)
| l_arrive pc q d m ld cs data :
    lstep (mkLState pc q false d m ld cs) (LArrive data) (mkLState pc (q ++ [data]) false d m ld cs)
| l_load pc q c d m ld cs h :
    lstep (mkLState pc q c d m ld cs) (LLoad h)
      (mkLState pc q c d m (ld ++ [(h, load_handlers (h_topic h) m)]) cs)
| l_store pc q c d m ld1 h hs ld2 cs :
    lstep (mkLState pc q c d m (ld1 ++ (h, hs) :: ld2) cs) (LStore h)
      (mkLState pc q c d (store_handlers (h_topic h) (hs ++ [h]) m) (ld1 ++ ld2) cs)
| l_cancel pc q c d m ld cs :
    lstep (mkLState pc q c d m ld cs) LCancel (mkLState pc q c true m ld cs)
| l_close pc q c d m ld cs :
    lstep (mkLState pc q c d m ld cs) LClose (mkLState pc q true d m ld cs).

Inductive lrun : lstate → list label → lstate → Prop :=
| lrun_nil s : lrun s [] s
| lrun_snoc s ls s1 l s2 : lrun s ls s1 → lstep s1 l s2 → lrun s (ls ++ [l]) s2.

(** ** The run as the listener sees it *)

(** The steps of [Events.run]. *)
Definition seen (l : label) : option (Events.step (V:=V)) :=
  match l with
  | LMessage data => Some (Next (Ok data))
  | LNextErr => Some (Next (Err "next"))
  | LStore h => Some (Registered h)
  | _ => None
  end.

Definition received (l : label) : option string := match l with LMessage data => Some data | _ => None end.
Definition arrived (l : label) : option string := match l with LArrive data => Some data | _ => None end.

(** The topics that are being registered; [None] once two registrations of one
    topic have overlapped. *)
Definition track (o : option (gset string)) (l : label) : option (gset string) :=
  match l with
  | LLoad h => ts ← o; if decide (h_topic h ∈ ts) then None else Some ({[h_topic h]} ∪ ts)
  | LStore h => ts ← o; Some (ts ∖ {[h_topic h]})
  | _ => o
  end.

Definition no_overlap (ls : list label) : Prop := is_Some (foldl track (Some ∅) ls).

(** ** Lemmas *)

(** Messages are taken in the order of their arrival, each once. *)
Lemma queue_step s l s' ls : lstep s l s' → omap received ls ++ queue s = omap arrived ls →
  omap received (ls ++ [l]) ++ queue s' = omap arrived (ls ++ [l]).
Proof.
  intros Hs Hq. rewrite !omap_app. destruct Hs; simpl in *; rewrite ?app_nil_r; try done.
  - by rewrite <- (assoc_L (++)).
  - by rewrite app_nil_r in Hq.
  - by rewrite <- Hq, (assoc_L (++)).
Qed.

(** As long as no registrations of a topic overlap, each stores the list of its
    topic with its own handler, and the calls are those of the steps seen. *)
Record tells (ls : list label) (ts : gset string) (s : lstate) : Prop := mkTells {
  tells_calls : calls s = run (omap seen ls) ∅;
  tells_hmap : hmap s = registers (registered (omap seen ls)) ∅;
  tells_loading : Forall (λ p, h_topic p.1 ∈ ts ∧ p.2 = load_handlers (h_topic p.1) (hmap s)) (loading s);
  tells_apart : NoDup ((h_topic ∘ fst) <$> loading s);
}.

Lemma registered_app (a b : list (Events.step (V:=V))) : registered (a ++ b) = registered a ++ registered b.
Proof. induction a as [|[|h] a IH]; simpl; [done|done|by rewrite IH]. Qed.

Lemma registers_app hs (hs' : list (evHandler (V:=V))) m : registers (hs ++ hs') m = registers hs' (registers hs m).
Proof. unfold registers. apply foldl_app. Qed.

(** A store that ends a registration nobody overlapped. *)
Lemma store_alone h hs (m : gmap string (list (evHandler (V:=V)))) ld1 ld2 (ts : gset string) :
  Forall (λ p, h_topic p.1 ∈ ts ∧ p.2 = load_handlers (h_topic p.1) m) (ld1 ++ (h, hs) :: ld2) →
  NoDup ((h_topic ∘ fst) <$> (ld1 ++ (h, hs) :: ld2)) →
  store_handlers (h_topic h) (hs ++ [h]) m = RegisterHandler h m ∧
  Forall (λ p, h_topic p.1 ∈ ts ∖ {[h_topic h]} ∧ p.2 = load_handlers (h_topic p.1) (RegisterHandler h m)) (ld1 ++ ld2) ∧
  NoDup ((h_topic ∘ fst) <$> (ld1 ++ ld2)).
Proof.
  rewrite <- (Permutation_middle ld1 ld2 (h, hs)). rewrite Forall_cons, fmap_cons, NoDup_cons. simpl.
  intros [[_ ->] Hall] [Hni Hnd]. split_and!; [done| |done]. rewrite Forall_forall in Hall |- *.
  intros p Hp. destruct (Hall p Hp) as [Ht Hl].
  assert (h_topic p.1 ≠ h_topic h) as Hne.
  { intros E. apply Hni. rewrite <- E. by apply (list_elem_of_fmap_2 (h_topic ∘ fst)). }
  split; [set_solver|]. rewrite register_lookup, decide_False by done. by rewrite app_nil_r.
Qed.

Lemma tells_step ls ts ts' s l s' :
  tells ls ts s → lstep s l s' → track (Some ts) l = Some ts' → tells (ls ++ [l]) ts' s'.
Proof.
  intros [Hc Hm Hld Hnd] Hs Ht. destruct Hs; simpl in Ht, Hc, Hm, Hld, Hnd;
    try (injection Ht as <-; split; rewrite ?omap_app; simpl in *;
         rewrite ?app_nil_r, ?registered_app, ?registers_app, ?run_app; simpl; subst; by rewrite ?app_nil_r).
  - case_decide as Hin; [done|]. injection Ht as <-. split; rewrite ?omap_app; simpl in *; rewrite ?app_nil_r; [done..| |].
    + apply Forall_app. split; [|apply Forall_singleton; simpl; set_solver].
      eapply Forall_impl; [exact Hld|]. simpl. set_solver.
    + rewrite fmap_app. apply NoDup_app. split_and!; [done| |apply NoDup_singleton].
      intros t (p & -> & Hp)%list_elem_of_fmap Heq. rewrite Forall_forall in Hld. destruct (Hld p Hp) as [Hp' _].
      simpl in *. apply list_elem_of_singleton in Heq. congruence.
  - injection Ht as <-. destruct (store_alone h hs m ld1 ld2 ts Hld Hnd) as (-> & Hld' & Hnd').
    split; simpl; [| |done..]; rewrite omap_app; simpl; rewrite ?registered_app, ?registers_app, ?run_app; simpl;
      by subst; rewrite ?app_nil_r.
Qed.

Lemma lrun_tells ls s : lrun NewListener ls s →
  omap received ls ++ queue s = omap arrived ls ∧ ∀ ts, foldl track (Some ∅) ls = Some ts → tells ls ts s.
Proof.
  intros Hr. remember NewListener as s0 eqn:E. induction Hr as [|s ls s1 l s2 _ IH Hs]; subst.
  { split; [done|]. intros ts _. split; [done..|by constructor|by constructor]. }
  destruct (IH eq_refl) as [Hq Ht]. split; [by eapply queue_step|]. intros ts'. rewrite foldl_app. simpl.
  destruct (foldl track (Some ∅) ls) as [ts|]; [|by destruct l].
  intros Htr. by eapply tells_step; [apply Ht| |].
Qed.

(** ** Stopping *)

(** The sections a listener whose context is done has left. *)
Definition sections_left (s : lstate) : nat :=
  match l_pc s with InNext => 2 | Top => 1 | Returned => 0 end.

Definition waiting (s : lstate) : nat := match l_pc s with InNext => 1 | _ => 0 end.

Lemma done_step s l s' : lstep s l s' → ctx_done s = true →
  ctx_done s' = true ∧
  (sections_left s' + (if own l then 1 else 0) = sections_left s)%nat ∧
  (length (option_list (received l)) + waiting s' ≤
     waiting s)%nat.
Proof. intros Hs Hd. unfold sections_left, waiting. destruct Hs; simpl in *; subst; try destruct pc; simpl; split_and!; try done; lia. Qed.

Lemma done_run s ls s' : lrun s ls s' → ctx_done s = true →
  ctx_done s' = true ∧
  (sections_left s' + length (List.filter own ls) = sections_left s)%nat ∧
  (length (omap received ls) + waiting s' ≤ waiting s)%nat.
Proof.
  intros Hr Hd. induction Hr as [s|s ls s1 l s2 _ IH Hs]; [simpl; split_and!; [done|lia|done]|].
  destruct (IH Hd) as (H1 & H2 & H3). destruct (done_step _ _ _ Hs H1) as (H4 & H5 & H6).
  rewrite List.filter_app, omap_app, !length_app. split_and!; [done| |].
  - cbn [List.filter]. destruct (own l); simpl in *; lia.
  - assert (length (omap received [l]) = length (option_list (received l))) as -> by (simpl; by destruct (received l)).
    lia.
Qed.

(** The loop is never stuck, unless it waits for a message with a live context
    on an open subscription. *)
Lemma own_enabled s : l_pc s ≠ Returned →
  ctx_done s = true ∨ sub_closed s = true ∨ queue s ≠ [] ∨ l_pc s = Top → ∃ l s', own l = true ∧ lstep s l s'.
Proof.
  destruct s as [[] q c d m ld cs]; simpl; intros Hpc Hw; [eexists LSelect, _; split; [done|constructor]| |done].
  destruct q as [|data q].
  - destruct Hw as [-> |[-> |[?|?]]]; [| |done..]; eexists LNextErr, _; (split; [done|constructor]).
  - eexists (LMessage data), _. split; [done|constructor].
Qed.

(** ** Properties *)

(** C37: the listener delivers and stops.  Whatever registrations, messages and
    closings happen around the loop, the messages are taken in the order in
    which they arrived, none twice and none left out, and as long as no two
    registrations of one topic overlap, the handlers called are those of the
    messages taken and the registrations completed before them ([Events.run],
    see [broadcast_delivers]).  Once its context is done it
    returns after at most two more sections, in which it handles at most one
    message, and it is never stuck before. *)
Theorem listener_delivers_and_stops ls s :
  lrun NewListener ls s →
  (no_overlap ls → calls s = run (omap seen ls) ∅) ∧ omap received ls ++ queue s = omap arrived ls ∧
  (ctx_done s = true → ∀ ls' s', lrun s ls' s' →
     (length (List.filter own ls') ≤ 2)%nat ∧ (length (omap received ls') ≤ 1)%nat ∧
     (length (List.filter own ls') = 2%nat → l_pc s' = Returned) ∧
     (l_pc s' ≠ Returned → ∃ l s'', own l = true ∧ lstep s' l s'')).
Proof.
  intros Hr. destruct (lrun_tells ls s Hr) as [Hq Ht]. split_and!; [intros [ts Hts]; by apply Ht in Hts as [Hc _ _ _]|done|].
  intros Hd ls' s' Hr'. destruct (done_run s ls' s' Hr' Hd) as (H1 & H2 & H3).
  unfold sections_left, waiting in *. split_and!.
  - destruct (l_pc s); lia.
  - destruct (l_pc s); lia.
  - intros E. destruct (l_pc s), (l_pc s'); (done || lia).
  - intros Hne. apply own_enabled; [done|by left].
Qed.

Lemma lrun_app s ls s1 ls' s2 : lrun s ls s1 → lrun s1 ls' s2 → lrun s (ls ++ ls') s2.
Proof.
  intros Hr Hr'. induction Hr' as [|s1 ls' s3 l s4 _ IH Hs]; [by rewrite app_nil_r|].
  rewrite (assoc_L (++)). eapply lrun_snoc; [by apply IH|done].
Qed.

(** One round of a loop whose subscription is closed. *)
Lemma idle_round m ld cs :
  lrun (mkLState Top [] true false m ld cs) [LSelect; LNextErr] (mkLState Top [] true false m ld cs).
Proof.
  apply (lrun_snoc _ [LSelect] (mkLState InNext [] true false m ld cs)); [|constructor].
  apply (lrun_snoc _ [] (mkLState Top [] true false m ld cs)); constructor.
Qed.

(** A closed subscription keeps the listener busy.  When the router has
    closed the subscription and the messages are taken, the loop does not wait
    any more and does not return: as long as its own context lives it can go
    round any number of times without calling a handler, and it can do nothing
    else.  And that is how a node stops: the hook that ends the router's
    context runs before the task manager, whose context is the listener's, is
    stopped, in every run the container allows. *)
Theorem listener_spins f tr m ld cs n :
  UseP2P f = true → valid_trace f tr →
  (∃ ls, (n ≤ length ls)%nat ∧ Forall (λ l, own l = true) ls ∧
     lrun (mkLState Top [] true false m ld cs) ls (mkLState Top [] true false m ld cs)) ∧
  (∀ l s', own l = true → lstep (mkLState InNext [] true false m ld cs) l s' →
     s' = mkLState Top [] true false m ld cs) ∧
  before (stop_order tr) (Invoked cancelHook) (Built NewTaskManager).
Proof.
  intros Hp Hv. split_and!.
  - induction n as [|n (ls & Hn & Ho & Hr)]; [exists []; by repeat constructor|].
    exists (ls ++ [LSelect; LNextErr]). split_and!.
    + rewrite length_app. simpl. lia.
    + apply Forall_app. split; [done|]. by repeat constructor.
    + eapply lrun_app; [exact Hr|apply idle_round].
  - intros l s' Ho Hs. inversion Hs; subst; done.
  - apply before_reverse, before_filter; [done|done|]. by apply (tm_before_cancel f).
Qed.
End listener.

(** ** Witnesses *)

(** A handler is registered, an event arrives and is handled, the task is
    stopped. *)
Definition sample_labels : list (label (V:=string)) :=
  [LLoad (sample_handler "jobs" 1); LStore (sample_handler "jobs" 1); LSelect; LArrive sample_event; LMessage sample_event; LCancel].

Definition sample_listener : lstate (V:=string) :=
  mkLState Top [] false true (RegisterHandler (sample_handler "jobs" 1) ∅) []
    ([] ++ dispatch sample_event (RegisterHandler (sample_handler "jobs" 1) ∅)).

Lemma sample_lrun : lrun NewListener sample_labels sample_listener.
Proof.
  unfold sample_labels, sample_listener.
  eapply (lrun_snoc _ [_; _; _; _; _]); [|apply l_cancel].
  eapply (lrun_snoc _ [_; _; _; _]); [|apply l_message].
  eapply (lrun_snoc _ [_; _; _]); [|apply (l_arrive InNext [])].
  eapply (lrun_snoc _ [_; _]); [|apply (l_select [] false false)].
  eapply (lrun_snoc _ [_]); [|apply (l_store Top [] false false ∅ [] (sample_handler "jobs" 1) [] [] [])].
  eapply (lrun_snoc _ []); [|exact (l_load Top [] false false ∅ [] [] (sample_handler "jobs" 1))]. apply lrun_nil.
Qed.

Lemma listener_delivers_and_stops_witness :
  calls sample_listener = [(1%nat, "go")] ∧
  ∀ s', lrun sample_listener [LSelect] s' → (length (omap received [LSelect (V:=string)]) ≤ 1)%nat.
Proof.
  destruct (listener_delivers_and_stops sample_labels sample_listener sample_lrun) as (Hc & _ & Hd).
  split; [rewrite Hc; [by vm_compute|by eexists]|]. intros s' Hs'. by destruct (Hd eq_refl _ _ Hs') as (_ & H & _).
Defined.

Lemma listener_spins_witness :
  before (stop_order (assemble sample_flags)) (Invoked cancelHook) (Built NewTaskManager).
Proof.
  apply (listener_spins (V:=string) sample_flags (assemble sample_flags) ∅ [] [] 5).
  - reflexivity.
  - apply assemble_valid.
Defined.
