(* ===== verification/Msuite.v ===== *)
(** * From options to services: [msuite.New]

    [New] of [msuite.go] turns the options into a start-up configuration and
    hands it to [node.New].  Which services the application gets is decided by
    the flags of the configuration the repository returns; this file follows the
    flags from the options, through the repository, to the accessors. *)

From S2P Require Import Prelude Utf8 Json JsonText Files Config Base64 Options Datastore FsRepo.
From S2P Require Import InmemRepo Acl Jwt AuthGate Mesher Services Client Wiring Node.

(** ** [msuite.New] *)

Definition msuite_New (env : repo_env) (fails : ctor → bool) (ifails : invoke → bool)
    (opts : list Option_) : ST world impl :=
  c ← st_lift (startup_config opts); Node.New env fails ifails c.

(** ** Specification *)

Definition flag_keys : list string :=
  ["UsePrometheus"; "UseTracing"; "UseLocker"; "UseAuth"; "UseP2P"; "UseFiles"; "UseGRPC"; "UseHTTP";
   "UseTCP"; "UseP2PGRPC"; "UseUDS"; "UseStaticDiscovery"; "UseDebug"].

(** Whether a call sets a flag. *)
Definition sets (key : string) (o : opt_call) : bool :=
  match o with
  | OGRPC nw _ =>
    bool_decide (key = "UseGRPC") || (bool_decide (key = "UseTCP") && bool_decide (nw = "tcp")) ||
    (bool_decide (key = "UseP2PGRPC") && bool_decide (nw = "p2p")) ||
    (bool_decide (key = "UseUDS") && bool_decide (nw = "unix"))
  | OAuth _ => bool_decide (key = "UseAuth")
  | OTracing _ _ => bool_decide (key = "UseTracing")
  | OHTTP _ => bool_decide (key = "UseHTTP")
  | OLocker _ _ => bool_decide (key = "UseLocker")
  | OP2P _ => bool_decide (key = "UseP2P")
  | OPrometheus _ => bool_decide (key = "UsePrometheus")
  | OStaticDiscovery _ => bool_decide (key = "UseStaticDiscovery")
  | ODebug => bool_decide (key = "UseDebug")
  | OFiles => bool_decide (key = "UseFiles")
  | _ => false
  end.

Definition asked (key : string) (opts : list opt_call) : bool := existsb (sets key) opts.

(** The flags a list of calls asks for. *)
Definition flags_for (opts : list opt_call) : flags :=
  mkFlags (asked "UsePrometheus" opts) (asked "UseTracing" opts) (asked "UseLocker" opts)
    (asked "UseAuth" opts) (asked "UseP2P" opts) (asked "UseP2P" opts && asked "UseFiles" opts)
    (asked "UseGRPC" opts) (asked "UseHTTP" opts) (asked "UseTCP" opts)
    (asked "UseP2P" opts && asked "UseP2PGRPC" opts) (asked "UseUDS" opts)
    (asked "UseStaticDiscovery" opts) (asked "UseDebug" opts).

(** The settings of a locker are written as they are: they must not be named
    like flags. *)
Definition plain (o : opt_call) : Prop :=
  match o with OLocker _ cfg => Forall (λ k, cfg !! k = None) flag_keys | _ => True end.

(** ** Lemmas: the options *)

Ltac solve_lookups :=
  repeat first [rewrite lookup_insert_eq|rewrite lookup_insert_ne by done]; try done.

(** The flags after a locker's settings were written. *)
Lemma locker_flag lkr cfg m c key :
  key ∈ flag_keys → plain (OLocker lkr cfg) → WithLocker lkr cfg (Some m) = Ok c →
  map_get c key = if sets key (OLocker lkr cfg) then Some (GBool true) else m !! key.
Proof.
  intros Hkey Hp Ho. simpl in Hp. rewrite Forall_forall in Hp. specialize (Hp key Hkey).
  unfold WithLocker, seq_, set_ in Ho. rewrite Set_default_get in Ho. simpl in Ho.
  destruct (set_all_lookup (map_to_list cfg) (<["Locker" := GString lkr]> (<["UseLocker" := GBool true]> m)))
    as (m' & Hm' & Hl); [apply NoDup_fst_map_to_list|].
  assert (c = Some m') as -> by (apply (inj Ok); rewrite <- Ho, <- Hm'; done).
  simpl. rewrite Hl, list_to_map_to_list, Hp. rewrite lookup_insert_ne.
  - case_bool_decide as Hk; [by rewrite Hk, lookup_insert_eq|by rewrite lookup_insert_ne].
  - intros <-. revert Hkey. apply (bool_decide_unpack (_ ∉ _)). by vm_compute.
Qed.

(** A call that writes no flag. *)
Lemma opt_no_flag o m c key :
  apply_opt o (Some m) = Ok c → key ∉ keys_of o → map_get c key = m !! key.
Proof. intros (u & -> & Hd & _)%opt_writes Hk. simpl. by eapply lookup_union_out. Qed.

Ltac each_flag :=
  unfold flag_keys; repeat (apply Forall_cons; split); [..|by constructor]; simpl; solve_lookups.

Lemma opt_flag o m c key : key ∈ flag_keys → plain o → apply_opt o (Some m) = Ok c →
  map_get c key = if sets key o then Some (GBool true) else m !! key.
Proof.
  intros Hkey Hp Ho. revert key Hkey. apply Forall_forall.
  destruct o as [nw id|secret|name host|port|lkr cfg|sk id|port|path|svcs|acl|mn mx|lat|addrs| | |addrs].
  5:{ apply Forall_forall. intros key Hkey. by apply locker_flag. }
  all: try (apply Forall_forall; intros key Hkey; apply (opt_no_flag _ _ _ _ Ho); revert key Hkey;
    apply Forall_forall; refine (bool_decide_unpack _ _); by vm_compute).
  all: simpl in Ho; unfold seq_, set_, skip_ in Ho; rewrite ?Set_default_get in Ho; simpl in Ho.
  - unfold WithGRPC, seq_, set_, skip_ in Ho. rewrite Set_default_get in Ho. simpl in Ho.
    repeat (case_decide; simplify_eq/=); try (destruct id; try done; injection Ho as <-); try injection Ho as <-;
      each_flag.
  - injection Ho as <-. each_flag.
  - injection Ho as <-. each_flag.
  - injection Ho as <-. each_flag.
  - injection Ho as <-. each_flag.
  - unfold WithPrometheus, seq_, set_, skip_ in Ho. rewrite Set_default_get in Ho. simpl in Ho.
    destruct lat; injection Ho as <-; each_flag.
  - injection Ho as <-. each_flag.
  - injection Ho as <-. each_flag.
  - injection Ho as <-. each_flag.
Qed.

Lemma opts_flag key opts : ∀ m c,
  key ∈ flag_keys → Forall plain opts →
  foldl (λ c o, c ≫= o) (Ok (Some m)) (apply_opt <$> opts) = Ok c →
  map_get c key = if asked key opts then Some (GBool true) else m !! key.
Proof.
  intros m c Hk. revert m. induction opts as [|o opts IH]; intros m Hp Hf; simpl in Hf; [by injection Hf as <-|].
  apply Forall_cons in Hp as [Ho Hp]. destruct (apply_opt o (Some m)) as [c1|e|x] eqn:E.
  2,3: exfalso; clear -Hf; induction opts; simpl in *; eauto; done.
  pose proof (opt_flag o m c1 key Hk Ho E) as H1. apply opt_writes in E as (u & -> & _).
  rewrite (IH _ Hp Hf). simpl in H1. rewrite H1. unfold asked. simpl.
  destruct (sets key o); [by destruct (existsb _ opts)|done].
Qed.

Lemma startup_flag key opts c :
  key ∈ flag_keys → Forall plain opts → startup_config (apply_opt <$> opts) = Ok c →
  IsSet key c = Ok (asked key opts).
Proof.
  intros Hk Hp. unfold startup_config. destruct (foldl _ _ _) as [c1|e|x] eqn:Hf; [|done..].
  pose proof (opts_flag key opts ∅ c1 Hk Hp Hf) as H1. apply foldl_res_some in Hf as [m ->]; [|by eexists].
  assert (map_get (Some m) key = if asked key opts then Some (GBool true) else None) as H2.
  { rewrite H1. by rewrite lookup_empty. }
  simpl in H2 |- *. unfold defaultOpts. destruct (Exists_key "Services" (Some m)); simpl.
  - intros [= <-]. unfold IsSet. simpl. rewrite H2. by destruct (asked key opts).
  - intros [= <-]. unfold IsSet. simpl. rewrite lookup_insert_ne, H2; [by destruct (asked key opts)|].
    intros <-. revert Hk. apply (bool_decide_unpack (_ ∉ _)). by vm_compute.
Qed.

(** The flags are read with [IsSet]. *)
Lemma flags_of_IsSet c c' : (∀ key, key ∈ flag_keys → IsSet key c = IsSet key c') → flags_of c = flags_of c'.
Proof.
  intros H. unfold flags_of, IsSet_with.
  rewrite !H by (unfold flag_keys; set_solver). done.
Qed.

Lemma startup_flags opts c :
  Forall plain opts → startup_config (apply_opt <$> opts) = Ok c → flags_of c = Ok (flags_for opts).
Proof.
  intros Hp Hc. assert (∀ key, key ∈ flag_keys → IsSet key c = Ok (asked key opts)) as H.
  { intros key Hk. by apply startup_flag. }
  unfold flags_of, IsSet_with. rewrite !H by (unfold flag_keys; set_solver). simpl.
  unfold flags_for. by destruct (asked "UseP2P" opts).
Qed.

(** ** Lemmas: the repository *)

(** The configuration of the repository of a new node. *)
Lemma New_config env fails ifails bCfg w s w' :
  Node.New env fails ifails bCfg w = (Ok s, w') →
  match app_repo s with
  | OnDisk id => (Get "RootPath" "" bCfg).2 = true ∧ FsRepo.CreateOrOpen env bCfg w = (Ok id, w') ∧
      ∃ c, (FsRepo.Config id w').1 = Ok c ∧ flags_of c = Ok (app_flags s)
  | InMem r => (Get "RootPath" "" bCfg).2 = false ∧ InmemRepo.CreateOrOpen env bCfg = Ok r ∧
      flags_of (InmemRepo.Config r) = Ok (app_flags s)
  end.
Proof.
  unfold Node.New, mbind, st_mbind, st_lift, mret, st_mret. intros HN.
  destruct (Get "RootPath" "" bCfg).2.
  - destruct (FsRepo.CreateOrOpen env bCfg w) as [[id|e|x] w1]; [|done..].
    destruct (FsRepo.Config id w1) as [[c|e|x] w2] eqn:Hc; [|done..].
    assert (w2 = w1) as ->.
    { unfold FsRepo.Config, deref, mret, st_mret in Hc. destruct (heap w1 !! id); congruence. }
    destruct (flags_of c) as [f|e|x] eqn:Hf; [|done..]. injection HN as <- <-. simpl.
    rewrite Hc. split_and!; [done..|]. by exists c.
  - destruct (InmemRepo.CreateOrOpen env bCfg) as [r|e|x]; [|done..].
    destruct (flags_of (InmemRepo.Config r)) as [f|e|x] eqn:Hf; [|done..]. by injection HN as <- <-.
Qed.

Lemma Set_identity_flags v c c' : Set_ "Identity" v c = Ok c' → flags_of c' = flags_of c.
Proof.
  intros HS. apply flags_of_IsSet. intros key Hk. unfold IsSet. rewrite (Set_get _ _ _ _ key HS).
  rewrite decide_False; [done|]. intros <-. revert Hk. apply (bool_decide_unpack (_ ∉ _)). by vm_compute.
Qed.

(** The in-memory repository keeps the flags. *)
Lemma inmem_flags env c r : InmemRepo.CreateOrOpen env c = Ok r → flags_of (InmemRepo.Config r) = flags_of c.
Proof.
  unfold InmemRepo.CreateOrOpen, InmemRepo.initIdentity, mbind, res_mbind, res_bind.
  rewrite GetNonPointer_false. destruct (new_key env) as [sk|?|?]; [|done..].
  destruct (new_id env) as [id|?|?]; [|done..].
  destruct (Set_ "Identity" _ c) as [c'|?|?] eqn:HS; [|done..]. intros [= <-]. simpl.
  by eapply Set_identity_flags.
Qed.

(** A repository that is initialised by the call: the caller's configuration,
    completed with an identity, is in the file and can be read from it. *)
Lemma fresh_config env c w id w' p :
  inv w → Get "RootPath" "" c = (p, true) → isInitialized p w = false → ActiveMap w !! p = None →
  (∀ c1 w1, Init env p c w = (Ok c1, w1) → ∃ m, c1 = Some m ∧ wf_config m) →
  FsRepo.CreateOrOpen env c w = (Ok id, w') →
  ∃ m text, (if (Get "Identity" (Some (∅ : gmap string goval)) c).2 then Ok c
             else FsRepo.initIdentity env c) = Ok (Some m) ∧ wf_config m ∧
    Reader (Some m) = Ok text ∧ os_read (configPath p) (wfs w') = inr text ∧
    (FsRepo.Config id w').1 = Ok (Some (reloaded m)).
Proof.
  intros Hinv Hg Hini Ha Hwf Hc. unfold FsRepo.CreateOrOpen in Hc. rewrite Hg in Hc.
  unfold IsInitialized in Hc. rewrite Hini in Hc. unfold mbind, st_mbind in Hc.
  destruct (Init env p c w) as [[c1|e|x] w1] eqn:HI; [|done..].
  destruct (Hwf c1 w1 eq_refl) as (m & -> & Hm).
  pose proof (Init_files env p c w) as Hf. rewrite HI in Hf. simpl in Hf.
  pose proof (Init_result _ _ _ _ _ _ HI) as Hres.
  apply Init_Ok in HI as (Hini1 & _ & text & HR & Hread).
  assert (inv w1) as Hinv1 by (eapply inv_ds_only; [by apply files_ds|done]).
  assert (ActiveMap w1 !! p = None) as Hp1 by by destruct Hf as (_ & _ & -> & _).
  unfold Open in Hc. rewrite Hini1 in Hc. exists m, text. split_and!; [done..| |].
  - pose proof (opener_Open_grows env p w1) as Hgr. rewrite Hc in Hgr. by eapply os_read_grows.
  - by eapply opener_Open_config.
Qed.

(** Its configuration has the caller's flags. *)
Lemma fresh_flags env c w id w' p saved :
  inv w → Get "RootPath" "" c = (p, true) → isInitialized p w = false → ActiveMap w !! p = None →
  (∀ c1 w1, Init env p c w = (Ok c1, w1) → ∃ m, c1 = Some m ∧ wf_config m) →
  FsRepo.CreateOrOpen env c w = (Ok id, w') → (FsRepo.Config id w').1 = Ok saved →
  flags_of saved = flags_of c.
Proof.
  intros Hinv Hg Hini Ha Hwf Hc Hs.
  destruct (fresh_config env c w id w' p) as (m & text & Hres & Hm & _ & _ & Hcfg); [done..|].
  rewrite Hcfg in Hs. injection Hs as <-.
  transitivity (flags_of (Some m)); [apply flags_of_IsSet; intros key _; by apply IsSet_reloaded|].
  destruct (Get "Identity" _ c).2; [congruence|].
  unfold FsRepo.initIdentity, mbind, res_mbind, res_bind in Hres.
  destruct (new_key env); [|done..]. destruct (new_id env); [|done..]. by eapply Set_identity_flags.
Qed.

(** A repository that was there before: its configuration is the saved one. *)
Lemma existing_flags env c w id w' p saved :
  inv w → Get "RootPath" "" c = (p, true) → isInitialized p w = true → ActiveMap w !! p = None →
  FromFile (configPath p) (wfs w) = Ok saved →
  FsRepo.CreateOrOpen env c w = (Ok id, w') → (FsRepo.Config id w').1 = Ok saved.
Proof.
  intros Hinv Hg Hini Ha Hsaved Hc. unfold FsRepo.CreateOrOpen in Hc. rewrite Hg in Hc.
  unfold IsInitialized in Hc. rewrite Hini in Hc. unfold Open in Hc. rewrite Hini in Hc.
  unfold opener_Open in Hc. rewrite Ha in Hc.
  destruct (open env p w) as [[fr|?|?] w1] eqn:Hopen; [|done..].
  apply open_spec in Hopen as [_ Hf]; [|by apply inv_closed].
  destruct (Hf fr eq_refl) as [_ HF]. injection Hc as <- <-.
  unfold FsRepo.Config, deref. simpl. rewrite lookup_insert_eq. simpl. congruence.
Qed.

(** ** Properties *)

(** A repository that is not there yet, for configurations a file can carry. *)
Definition fresh_start (env : repo_env) (c : JsonConfig) (w : world) : Prop :=
  ∀ p, Get "RootPath" "" c = (p, true) →
    inv w ∧ isInitialized p w = false ∧ ActiveMap w !! p = None ∧
    ∀ c1 w1, Init env p c w = (Ok c1, w1) → ∃ m, c1 = Some m ∧ wf_config m.

(** C15: an application gets the services it asks for.  When [msuite.New] is
    called with any list of options, in memory or on a new repository, no
    setting of a locker is named like a flag, and nothing fails, each accessor of the service answers exactly if one of the
    options asked for it. *)
Theorem options_decide_services env opts c w s w' :
  startup_config (apply_opt <$> opts) = Ok c → Forall plain opts → fresh_start env c w →
  msuite_New env no_failure (λ _, false) (apply_opt <$> opts) w = (Ok s, w') →
  available (Auth s) = asked "UseAuth" opts ∧ available (P2P s) = asked "UseP2P" opts ∧
  available (GRPC s) = asked "UseGRPC" opts ∧ available (HTTP s) = asked "UseHTTP" opts ∧
  available (Locker s) = asked "UseLocker" opts ∧
  available (Files_ s) = asked "UseP2P" opts && asked "UseFiles" opts ∧
  available (Events_ s) = asked "UseP2P" opts ∧ available (Protocols_ s) = asked "UseP2P" opts ∧
  available (SharedStorage_ s (Ok ())) = asked "UseP2P" opts ∧ available (Tracing_ s) = asked "UseTracing" opts ∧
  available (Metrics_ s) = asked "UsePrometheus" opts ∧ Repo_ s = Some Repo ∧ TM s = Some TaskManager.
Proof.
  intros Hc Hp Hfresh HN. unfold msuite_New, mbind, st_mbind, st_lift in HN. rewrite Hc in HN.
  assert (app_flags s = flags_for opts) as Hf.
  { pose proof (startup_flags opts c Hp Hc) as Hopt. apply New_config in HN. destruct (app_repo s) as [id|r].
    - destruct HN as (Hroot & Hopen & saved & Hs & Hfl). destruct (Get "RootPath" "" c) as [p b] eqn:Hg.
      simpl in Hroot. subst b. destruct (Hfresh p Hg) as (Hinv & Hi & Ha & Hwf).
      rewrite (fresh_flags env c w id w' p saved), Hopt in Hfl by done. congruence.
    - destruct HN as (_ & Hopen & Hfl). rewrite (inmem_flags _ _ _ Hopen), Hopt in Hfl. congruence. }
  destruct (services_match_flags env c w s w' HN) as (H1 & H2 & H3 & H4 & H5 & H6 & H7 & H8 & H9 & H10 & H11 & HR).
  rewrite Hf in *. simpl in *. split_and!; try done; try apply HR.
  rewrite H6. by destruct (asked "UseP2P" opts).
Qed.

(** A node that is started again has the services of its saved
    configuration: on a repository that is initialised already the options are
    not looked at, only the path is, whatever constructors fail. *)
Theorem saved_config_wins env fails ifails opts c w s w' p saved :
  startup_config opts = Ok c → Get "RootPath" "" c = (p, true) →
  inv w → isInitialized p w = true → ActiveMap w !! p = None →
  FromFile (configPath p) (wfs w) = Ok saved →
  msuite_New env fails ifails opts w = (Ok s, w') →
  flags_of saved = Ok (app_flags s).
Proof.
  intros Hc Hg Hinv Hi Ha Hsaved HN. unfold msuite_New, mbind, st_mbind, st_lift in HN. rewrite Hc in HN.
  apply New_config in HN. destruct (app_repo s) as [id|r].
  - destruct HN as (_ & Hopen & c' & Hcfg & Hfl).
    rewrite (existing_flags env c w id w' p saved) in Hcfg by done. by injection Hcfg as ->.
  - destruct HN as (Hroot & _). by rewrite Hg in Hroot.
Qed.

(** ** Witnesses *)

Definition sample_opts : list opt_call := [OAuth "secret"; OHTTP 8080; OFiles].

Definition sample_startup : JsonConfig :=
  Some {[ "UseAuth" := GBool true; "JWTSecret" := GString "secret"; "UseHTTP" := GBool true;
          "HTTPPort" := GInt 8080; "UseFiles" := GBool true; "Services" := GStrings (Some ["msuite"]) ]}.

Lemma options_decide_services_witness : ∃ s,
  msuite_New sample_repo_env no_failure (λ _, false) (apply_opt <$> sample_opts) sample_world
    = (Ok s, sample_world) ∧
  available (Auth s) = true ∧ available (HTTP s) = true ∧ available (Files_ s) = false.
Proof.
  assert (∃ s, msuite_New sample_repo_env no_failure (λ _, false) (apply_opt <$> sample_opts) sample_world
    = (Ok s, sample_world)) as [s HN] by (eexists; reflexivity).
  exists s. split; [exact HN|].
  destruct (options_decide_services sample_repo_env sample_opts sample_startup sample_world s sample_world)
    as (Ha & _ & _ & Hh & _ & Hf & _).
  - reflexivity.
  - by repeat constructor.
  - intros p Hp. assert ((Get "RootPath" "" sample_startup).2 = false) as H by by vm_compute.
    by rewrite Hp in H.
  - exact HN.
  - rewrite Ha, Hh, Hf. by vm_compute.
Defined.

(** The repository of [sample_init], saved without any flag, opened again with
    authentication asked for. *)
Definition sample_again : list Option_ := [WithRepositoryRoot "repo"; WithAuth "secret"].

Lemma saved_config_wins_witness : ∃ s w',
  msuite_New sample_repo_env no_failure (λ _, false) sample_again sample_init = (Ok s, w') ∧
  UseAuth (app_flags s) = false.
Proof.
  destruct (msuite_New sample_repo_env no_failure (λ _, false) sample_again sample_init) as [[s|e|x] w'] eqn:HN;
    [|exfalso; apply (f_equal (λ r, is_ok r.1)) in HN; by vm_compute in HN..].
  exists s, w'. split; [reflexivity|].
  assert (flags_of (Some (reloaded sample_saved)) = Ok (app_flags s)) as H.
  { apply (saved_config_wins sample_repo_env no_failure (λ _, false) sample_again
      (Some {[ "RootPath" := GString "repo"; "UseAuth" := GBool true; "JWTSecret" := GString "secret";
               "Services" := GStrings (Some ["msuite"]) ]}) sample_init s w' "repo").
    - reflexivity.
    - by vm_compute.
    - pose proof (Init_files sample_repo_env "repo" sample_root sample_world) as Hf.
      eapply inv_ds_only; [apply files_ds, Hf|apply sample_inv].
    - by vm_compute.
    - by vm_compute.
    - by vm_compute.
    - exact HN. }
  assert (flags_of (Some (reloaded sample_saved)) =
    Ok (mkFlags false false false false false false false false false false false false false)) as H' by by vm_compute.
  rewrite H in H'. apply (inj Ok) in H'. by rewrite H'.
Defined.
