(* ===== verification/Restart.v ===== *)
(** * What a node is made of, and starting it again

    The comment in [New] of [modules/node/node.go] says that a repository that
    was just initialised returns the values that were passed, and one that was
    there before the saved ones, so that a node can be started with just its
    path.  [parts_of] collects what the constructors of a node and its repository
    make out of its configuration, one part for each of its readers; they only read, so configurations that cannot be told
    apart ([Config.reads_like]) give the same parts. *)

From S2P Require Import Prelude Fx Utf8 Json JsonText Files Config Base64 Options Acl Jwt AuthGate.
From S2P Require Import Datastore FsRepo InmemRepo Mesher SharedStorage Status Client Services Host Wiring Node Msuite.

(** ** The parts *)

Section parts.
Context {K R σ Hst Wd Ctx MainH Dht : Type} `{Acl.Store σ} `{Mesher.Host Hst}.
(** The packages the constructors call. *)
Context (NewZkLocker : string → Z → res unit) (NewJaegerTracer : string → string → res unit).
Context (UnmarshalPrivateKey : string → res K).
Context (NewMultiaddr : string → error + string).
Context (AddrInfosFromP2pAddrs : list string → res (list AddrInfo)).
Context (tm_Go : option error).
Context (SetupLibp2p : Ctx → K → list string → list libp2p_option → res (MainH * Dht)).
Context (close_host : MainH → Wd → option error * Wd) (close_dht : Dht → Wd → option error * Wd).
Context (denv : ds_env) (map_order : list (string * goval) → list (string * goval)).
(** What the other constructors made. *)
Context (ctx : Ctx) (root : string) (disk : ds_state).
Context (rStore : σ) (shStore : option (res σ)) (range : list (string * string) → list (string * string)).
Context (mux : handler R) (Mwares : list (Services.Middleware R)).
Context (mainID : string) (mainAddrs : list string) (localDialer : Hst).

Record parts := mkParts {
  part_flags : res flags;
  part_tm : res Services.TaskManager;
  part_locker : res (Services.DLocker * bool);
  part_tracer : res (string * string);
  part_tcp : res MuxListenerOut;
  part_uds : res MuxListenerOut;
  part_datastores : res mountedDS * ds_state;
  part_key : res K;
  part_host : res (MainH * Dht * hook Wd);
  part_jwt : res jwtManager;
  part_acl : res unit * σ;
  part_http : res (string * handler R);
  part_p2p_client : clientImpl * Hst;
  part_static_client : staticClientImpl;
  part_advertised : res (option (list string));
  part_bootstrap : res (option (list AddrInfo));
  part_shared_ns : string;
  part_services : goval;
  part_latency : res bool;
}.

Definition parts_of (c : JsonConfig) : parts := mkParts
  (flags_of c) (Services.NewTaskManager c) (Services.NewLocker NewZkLocker c)
  (Services.NewTracer NewJaegerTracer c) (Services.NewTCPListener c) (Services.NewUDSListener c)
  (openDatastoreFromCfg denv root c map_order disk)
  (Services.Identity UnmarshalPrivateKey c)
  (priv ← Services.Identity UnmarshalPrivateKey c; Host.Libp2p close_host close_dht NewMultiaddr SetupLibp2p ctx c priv)
  (Jwt.NewJWTManager c)
  (Acl.NewAclManager rStore shStore c range) (Services.NewHTTPServer c mux Mwares)
  (Client.NewP2PClientService c mainID mainAddrs localDialer) (Client.NewStaticClientService c)
  (Client.NewP2PClientAdvertiser c tm_Go) (Host.Bootstrapper NewMultiaddr AddrInfosFromP2pAddrs c)
  (root_ns c) (svcsReporter c) (IsSet "UsePrometheusLatency" c).

(** ** Every constructor only reads *)

#[export] Instance IsSet_with_proper p2p key : Proper (reads_like ==> eq) (IsSet_with p2p key).
Proof. intros c c' Hc. destruct p2p; [by apply like_IsSet|done]. Qed.

#[export] Instance flags_of_proper : Proper (reads_like ==> eq) flags_of.
Proof. intros c c' Hc. apply flags_of_IsSet. intros key _. by apply like_IsSet. Qed.

#[export] Instance NewTaskManager_proper : Proper (reads_like ==> eq) Services.NewTaskManager.
Proof. intros c c' Hc. unfold Services.NewTaskManager. by rewrite (like_Get _ _ Hc). Qed.

#[export] Instance NewLocker_proper : Proper (reads_like ==> eq) (Services.NewLocker NewZkLocker).
Proof.
  intros c c' Hc. unfold Services.NewLocker. rewrite !(like_Get _ _ Hc).
  done.
Qed.

#[export] Instance NewTracer_proper : Proper (reads_like ==> eq) (Services.NewTracer NewJaegerTracer).
Proof. intros c c' Hc. unfold Services.NewTracer. by rewrite !(like_Get _ _ Hc). Qed.

#[export] Instance NewTCPListener_proper : Proper (reads_like ==> eq) Services.NewTCPListener.
Proof. intros c c' Hc. unfold Services.NewTCPListener. by rewrite (like_Get _ _ Hc). Qed.

#[export] Instance NewUDSListener_proper : Proper (reads_like ==> eq) Services.NewUDSListener.
Proof. intros c c' Hc. unfold Services.NewUDSListener. by rewrite (like_Get _ _ Hc). Qed.

#[export] Instance Identity_proper : Proper (reads_like ==> eq) (Services.Identity UnmarshalPrivateKey).
Proof. intros c c' Hc. unfold Services.Identity. by rewrite (like_Get _ _ Hc). Qed.

#[export] Instance NewJWTManager_proper : Proper (reads_like ==> eq) Jwt.NewJWTManager.
Proof. intros c c' Hc. unfold Jwt.NewJWTManager. by rewrite (like_Get _ _ Hc). Qed.

#[export] Instance parts_of_proper : Proper (reads_like ==> eq) parts_of.
Proof.
  intros c c' Hc. unfold parts_of. f_equal; try (by rewrite Hc).
  - unfold openDatastoreFromCfg. by rewrite (like_Get _ _ Hc).
  - rewrite Hc. destruct (Services.Identity _ c') as [priv|e|x]; [|done..]. unfold mbind, res_mbind, res_bind, Host.Libp2p.
    by rewrite (like_Get _ _ Hc).
  - unfold Acl.NewAclManager. by rewrite (like_Get _ _ Hc).
  - unfold Services.NewHTTPServer. by rewrite (like_Get _ _ Hc).
  - unfold Client.NewP2PClientService. by rewrite (like_Get _ _ Hc).
  - unfold Client.NewStaticClientService. by rewrite (like_Get _ _ Hc).
  - unfold Client.NewP2PClientAdvertiser. by rewrite (like_Get _ _ Hc).
  - unfold Host.Bootstrapper. by rewrite (like_Get _ _ Hc).
  - unfold root_ns. by rewrite (like_Get _ _ Hc).
  - unfold svcsReporter. by rewrite (like_Get _ _ Hc).
Qed.

(** ** The passed and the saved configuration *)

(** The configuration a new repository saves: the passed one, with an identity
    if it had none. *)
Definition completed (env : repo_env) (c : JsonConfig) : res JsonConfig :=
  if (Get "Identity" (Some (∅ : gmap string goval)) c).2 then Ok c else FsRepo.initIdentity env c.

Lemma completed_Get `{Target A} env c c' key (old : A) :
  completed env c = Ok c' → key ≠ "Identity" → Get key old c' = Get key old c.
Proof.
  unfold completed, FsRepo.initIdentity, mbind, res_mbind, res_bind.
  destruct (Get "Identity" _ c).2; [congruence|]. destruct (new_key env); [|done..]. destruct (new_id env); [|done..].
  intros HS Hk. rewrite (Get_Set _ _ _ _ key old HS). by rewrite decide_False.
Qed.

(** The node of a call of [msuite.New] on a path. *)
Lemma New_opened env fails ifails opts c p w s w' :
  startup_config opts = Ok c → Get "RootPath" "" c = (p, true) →
  msuite_New env fails ifails opts w = (Ok s, w') →
  ∃ id saved, app_repo s = OnDisk id ∧ FsRepo.CreateOrOpen env c w = (Ok id, w') ∧
    (FsRepo.Config id w').1 = Ok saved ∧ flags_of saved = Ok (app_flags s).
Proof.
  intros Hc Hg HN. unfold msuite_New, mbind, st_mbind, st_lift in HN. rewrite Hc in HN.
  apply New_config in HN. destruct (app_repo s) as [id|r].
  - destruct HN as (_ & Ho & saved & Hs & Hf). eauto 6.
  - destruct HN as (Hroot & _). by rewrite Hg in Hroot.
Qed.

(** A path that nobody uses is not active. *)
Lemma unused_inactive w p : inv w → refcount w p = 0%Z → ActiveMap w !! p = None.
Proof.
  intros Hinv Hr. unfold refcount in Hr. destruct (ActiveMap w !! p) as [ar|] eqn:E; [|done].
  destruct (inv_active w Hinv p ar E) as [? _]. lia.
Qed.

(** ** Property *)

(** C16: a node is what it was configured to be, and stays it.  When [msuite.New]
    makes a node on a new path, with a configuration JSON can carry, the parts
    of [parts_of] are what the constructors make of the passed configuration
    (completed with an identity): saving and loading changes nothing, and every
    other setting reads as passed.  And when the node, and whoever else had opened the path, have
    closed it, and nobody called [SetConfig] since, [msuite.New] on that path
    makes the same node again, whatever other options it is given and whatever
    other calls of the package were made in between. *)
Theorem restarted_node_same env fails ifails opts c p w s w1 os es w2 fails' ifails' opts' c' s' w3 :
  repo_laws env → startup_config opts = Ok c → Get "RootPath" "" c = (p, true) → fresh_start env c w →
  msuite_New env fails ifails opts w = (Ok s, w1) →
  existsb sets_config os = false → run_ops env os w1 = (es, w2) → ledger p 1 es = 0%Z →
  startup_config opts' = Ok c' → Get "RootPath" "" c' = (p, true) →
  msuite_New env fails' ifails' opts' w2 = (Ok s', w3) →
  ∃ id id' full saved,
    app_repo s = OnDisk id ∧ (FsRepo.Config id w1).1 = Ok saved ∧
    completed env c = Ok full ∧ parts_of saved = parts_of full ∧
    (∀ A (T : Target A) key (old : A), key ≠ "Identity" → Get key old saved = Get key old c) ∧
    app_repo s' = OnDisk id' ∧ (FsRepo.Config id' w3).1 = Ok saved ∧ app_flags s' = app_flags s.
Proof.
  intros laws Hc Hg Hfresh HN Hos Hrun Hled Hc' Hg' HN'.
  destruct (Hfresh p Hg) as (Hinv & Hini & Ha & Hwf).
  destruct (New_opened _ _ _ _ _ _ _ _ _ Hc Hg HN) as (id & saved & Hr & Ho & Hs & Hf).
  destruct (fresh_config env c w id w1 p) as (m & text & Hres & Hm & HR & Hread & Hcfg); [done..|].
  rewrite Hcfg in Hs. injection Hs as <-.
  destruct (New_opened _ _ _ _ _ _ _ _ _ Hc' Hg' HN') as (id' & saved' & Hr' & Ho' & Hs' & Hf').
  destruct (CreateOrOpen_spec env c w _ _ Hinv Ho) as (Hinv1 & q & Hq & Hcnt & _).
  assert (q = p) as -> by congruence.
  assert (refcount w1 p = 1%Z) as Hone.
  { rewrite Hcnt, decide_True by done. unfold refcount. by rewrite Ha. }
  destruct (run_ops_spec env laws os w1 es w2 Hinv1 Hrun) as [Hinv2 Hcnt2].
  assert (ActiveMap w2 !! p = None) as Ha2 by (apply unused_inactive; [done|]; by rewrite Hcnt2, Hone).
  pose proof (run_ops_grows env os w1 Hos) as Hgr. rewrite Hrun in Hgr.
  assert (os_read (configPath p) (wfs w2) = inr text) as Hread2 by by eapply os_read_grows.
  assert (FromFile (configPath p) (wfs w2) = Ok (Some (reloaded m))) as HF.
  { eapply FromFile_spec; [done|]. by eapply close_reloaded. }
  assert (isInitialized p w2 = true) as Hini2.
  { unfold isInitialized. unfold os_read in Hread2. destruct (os_stat _ _) as [|n] eqn:E; [done|]. by eapply Exists_stat. }
  rewrite (existing_flags env c' w2 id' w3 p (Some (reloaded m))) in Hs' by done. injection Hs' as <-.
  exists id, id', (Some m), (Some (reloaded m)). split_and!; try done.
  - by apply parts_of_proper, reloaded_reads_like.
  - intros A T key old Hk. rewrite (Get_reloaded m key old Hm). by apply (completed_Get env c).
  - rewrite (existing_flags env c' w2 id' w3 p (Some (reloaded m))) by done. done.
  - congruence.
Qed.
End parts.

(** ** Witness *)

(** A node with a task manager, started, stopped and started again with other
    options. *)
Definition sample_first : list Option_ := [WithRepositoryRoot "repo"; WithTaskManager 2 30].
Definition sample_second : list Option_ := [WithRepositoryRoot "repo"; WithTaskManager 5 60].

Definition sample_first_config : JsonConfig :=
  Some {[ "RootPath" := GString "repo"; "TMWorkers" := GMapInt (Some {[ "Min" := 2; "Max" := 30 ]}%Z);
          "Services" := GStrings (Some ["msuite"]) ]}.
Definition sample_second_config : JsonConfig :=
  Some {[ "RootPath" := GString "repo"; "TMWorkers" := GMapInt (Some {[ "Min" := 5; "Max" := 60 ]}%Z);
          "Services" := GStrings (Some ["msuite"]) ]}.

(** What the first one saves. *)
Definition sample_first_saved : gmap string goval :=
  {[ "RootPath" := GString "repo"; "TMWorkers" := GMapInt (Some {[ "Min" := 2; "Max" := 30 ]}%Z);
     "Services" := GStrings (Some ["msuite"]); "Identity" := identity_record "key" "id" ]}.

Definition sample_run1 : res Node.impl * world :=
  msuite_New sample_repo_env no_failure (λ _, false) sample_first sample_world.
Definition sample_stopped : list FsRepo.event * world := run_ops sample_repo_env [OClose 0] sample_run1.2.
Definition sample_run2 : res Node.impl * world :=
  msuite_New sample_repo_env no_failure (λ _, false) sample_second sample_stopped.2.

Lemma sample_new_ok (r : res Node.impl * world) : is_ok r.1 = true → ∃ s, r = (Ok s, r.2).
Proof. destruct r as [[s|e|x] w]; [|done..]. intros _. by exists s. Qed.

(** The second node has the workers the first one was given. *)
Lemma restarted_node_same_witness : ∃ id' saved,
  (FsRepo.Config id' sample_run2.2).1 = Ok saved ∧ Get "TMWorkers" (Some (∅ : gmap string Z)) saved
    = (Some {[ "Min" := 2; "Max" := 30 ]}%Z, true).
Proof.
  destruct (sample_new_ok sample_run1) as [s1 H1]; [by vm_compute|].
  destruct (sample_new_ok sample_run2) as [s2 H2]; [by vm_compute|].
  destruct (restarted_node_same (σ:=mem_store) (K:=string) (R:=unit) (Hst:=sim_host) (Wd:=unit) (Ctx:=unit) (MainH:=string) (Dht:=unit)
    (λ _ _, Ok ()) (λ _ _, Ok ()) Ok inr (λ _, Ok []) None (λ _ priv _ _, Ok (priv, ())) (λ _ w, (None, w)) (λ _ w, (None, w))
    sample_ds_ok (λ l, l) () "repo" sample_ds_state ∅ None (λ l, l) (λ _, Served ()) [] "" []
    sample_host
    sample_repo_env no_failure (λ _, false) sample_first sample_first_config "repo" sample_world
    s1 sample_run1.2 [OClose 0] [Closed "repo"] sample_stopped.2
    no_failure (λ _, false) sample_second sample_second_config s2 sample_run2.2)
    as (id & id' & full & saved & _ & _ & _ & _ & Hget & _ & Hs & _).
  - apply sample_laws.
  - reflexivity.
  - by vm_compute.
  - intros p Hp. assert (p = "repo") as ->.
    { assert ((Get "RootPath" "" sample_first_config).1 = "repo") as E by by vm_compute. by rewrite Hp in E. }
    split_and!; [apply sample_inv|by vm_compute|by vm_compute|]. intros c1 w1 HI.
    assert ((Init sample_repo_env "repo" sample_first_config sample_world).1 = Ok (Some sample_first_saved)) as Hm
      by reflexivity.
    rewrite HI in Hm. apply (inj Ok) in Hm. exists sample_first_saved. split; [exact Hm|].
    refine (bool_decide_unpack _ _). by vm_compute.
  - exact H1.
  - reflexivity.
  - refine (eq_trans (surjective_pairing _) (f_equal (λ es, (es, _)) _)). by vm_compute.
  - by vm_compute.
  - reflexivity.
  - by vm_compute.
  - exact H2.
  - exists id', saved. split; [exact Hs|]. rewrite (Hget _ _ "TMWorkers" (Some ∅)); [by vm_compute|done].
Defined.
