(* ===== verification/Security.v ===== *)
(** * From options to protected resources

    An application protects its resources with two options: [WithAuth] gives the
    secret the tokens are signed with, [WithServiceACL] the roles its resources
    require.  This file follows them through the start-up configuration, the
    repository, the constructors of the token and ACL managers and the servers
    with their middlewares, up to what a request gets. *)

From S2P Require Import Prelude Utf8 Json JsonText Files Config Base64 Options Acl AclHistory Jwt AuthGate.
From S2P Require Import Datastore FsRepo InmemRepo Services Wiring GrpcServer HttpServer Node Msuite Restart.

(** ** What the options ask for *)

(** The secret of the last [WithAuth], and the ACLs of all [WithServiceACL],
    later ones winning. *)
Definition secret_of (opts : list opt_call) : option string :=
  foldl (λ acc o, match o with OAuth s => Some s | _ => acc end) None opts.

Definition acls_of (opts : list opt_call) : option (gmap string string) :=
  foldl (λ acc o, match o with OServiceACL a => Some (a ∪ default ∅ acc) | _ => acc end) None opts.

(** The settings of a locker are written as they are: they must not be named
    like these.  The names of the resources are UTF-8. *)
Definition proper (o : opt_call) : Prop :=
  match o with
  | OLocker _ cfg => cfg !! "JWTSecret" = None ∧ cfg !! "ACL" = None
  | OServiceACL acl => valid_strmap acl
  | _ => True
  end.

(** A token that entitles its bearer to what needs the level [need]. *)
Definition entitled `{JWTLib} (secret : string) (now need : Z) (t : string) : Prop :=
  ∃ claims b lvl, issued (HMAC b) secret claims t ∧ live claims (unix now) ∧
    aclMap !! CRole claims = Some lvl ∧ (need ≤ lvl)%Z.

(** ** Lemmas: the options *)

(** The value of a key, if the options gave it one, and what is known of it. *)
Definition tracked {V} (key : string) (val : V → goval) (P : V → Prop) (acc : option V) (c : JsonConfig) : Prop :=
  map_get c key = val <$> acc ∧ ∀ v, acc = Some v → P v.

Section track.
Context {V : Type} (key : string) (val : V → goval) (P : V → Prop) (step : option V → opt_call → option V).
Hypothesis step_tracked : ∀ o acc m c,
  proper o → tracked key val P acc (Some m) → apply_opt o (Some m) = Ok c → tracked key val P (step acc o) c.

Lemma options_track opts : Forall proper opts → ∀ acc m c,
  tracked key val P acc (Some m) → foldl (λ c o, c ≫= o) (Ok (Some m)) (apply_opt <$> opts) = Ok c →
  tracked key val P (foldl step acc opts) c.
Proof.
  induction 1 as [|o opts Ho _ IH]; intros acc m c Hm Hf; simpl in Hf; [by injection Hf as <-|].
  destruct (apply_opt o (Some m)) as [c1|e|x] eqn:E.
  2,3: exfalso; clear -Hf; induction opts; simpl in *; eauto; done.
  pose proof (step_tracked o acc m c1 Ho Hm E) as H1. apply opt_writes in E as (u & -> & _).
  by apply (IH _ _ _ H1).
Qed.

(** The start-up configuration has the value the options gave the key. *)
Lemma startup_track opts c :
  key ≠ "Services" → Forall proper opts → startup_config (apply_opt <$> opts) = Ok c →
  tracked key val P (foldl step None opts) c.
Proof.
  intros Hk Hp. unfold startup_config. destruct (foldl _ _ (apply_opt <$> opts)) as [c1|e|x] eqn:Hf; [|done..].
  assert (tracked key val P None (Some ∅)) as H0 by by split.
  pose proof (options_track opts Hp None ∅ c1 H0 Hf) as H1.
  apply foldl_res_some in Hf as [m ->]; [|by eexists]. simpl. unfold defaultOpts.
  destruct (Exists_key "Services" (Some m)); intros [= <-]; [done|]. destruct H1 as [H1 HP]. split; [|done].
  simpl. by rewrite lookup_insert_ne.
Qed.
End track.

(** An option that does not write the key. *)
Lemma untouched {V} key (val : V → goval) P acc o m c :
  tracked key val P acc (Some m) → apply_opt o (Some m) = Ok c → key ∉ keys_of o → tracked key val P acc c.
Proof. intros [Hm HP] Ho Hk. split; [|done]. by rewrite (opt_no_flag _ _ _ _ Ho Hk). Qed.

Lemma secret_step o acc m c :
  proper o → tracked "JWTSecret" GString (λ _, True) acc (Some m) → apply_opt o (Some m) = Ok c →
  tracked "JWTSecret" GString (λ _, True) (match o with OAuth s => Some s | _ => acc end) c.
Proof.
  intros Hp Hm Ho. destruct (decide ("JWTSecret" ∈ keys_of o)) as [Hin|Hni].
  - destruct o as [| secret| | |lkr cfg| | | | | | | | | | |]; try (exfalso; simpl in Hin; set_solver).
    + simpl in Ho. unfold WithAuth, seq_, set_ in Ho. rewrite Set_default_get in Ho. injection Ho as <-.
      split; [apply lookup_insert_eq|done].
    + exfalso. destruct Hp as [Hp _]. simpl in Hin.
      apply elem_of_union in Hin as [?|[? ?]%elem_of_dom]; [set_solver|congruence].
  - pose proof (untouched _ _ _ _ _ _ _ Hm Ho Hni) as H. by destruct o.
Qed.

Lemma startup_secret opts c secret :
  Forall proper opts → startup_config (apply_opt <$> opts) = Ok c → secret_of opts = Some secret →
  Get "JWTSecret" "" c = (to_valid_utf8 secret, true).
Proof.
  intros Hp Hc Hs. destruct (startup_track "JWTSecret" GString (λ _, True) _ secret_step opts c) as [H _]; [done..|].
  apply Get_string. rewrite H. unfold secret_of in Hs. by rewrite Hs.
Qed.

Lemma Get_strmap key m ms :
  valid_strmap ms → map_get m key = Some (GMapStr (Some ms)) → Get key (Some ∅) m = (Some ms, true).
Proof. intros Hv Hm. rewrite (Get_tree key _ m _ _ Hm eq_refl). by apply unmarshal_strmap. Qed.

Definition acl_val (acls : gmap string string) : goval := GMapStr (Some acls).

Lemma acl_step o acc m c :
  proper o → tracked "ACL" acl_val valid_strmap acc (Some m) → apply_opt o (Some m) = Ok c →
  tracked "ACL" acl_val valid_strmap
    (match o with OServiceACL a => Some (a ∪ default ∅ acc) | _ => acc end) c.
Proof.
  intros Hp Hm Ho. destruct (decide ("ACL" ∈ keys_of o)) as [Hin|Hni].
  - destruct o as [| | | |lkr cfg| | | | |acl| | | | | |]; try (exfalso; simpl in Hin; set_solver).
    + exfalso. destruct Hp as [_ Hp]. simpl in Hin.
      apply elem_of_union in Hin as [?|[? ?]%elem_of_dom]; [set_solver|congruence].
    + destruct Hm as [Hm HP]. assert ((Get "ACL" (Some ∅) (Some m)).1 = Some (default ∅ acc)) as Hg.
      { destruct acc as [old|]; [by rewrite (Get_strmap "ACL" (Some m) old (HP old eq_refl) Hm)|].
        by rewrite Get_absent. }
      simpl in Ho. rewrite (WithServiceACL_some acl m _ Hg) in Ho. injection Ho as <-.
      split; [apply lookup_insert_eq|]. intros v [= <-]. apply map_Forall_union_2; [done|].
      destruct acc as [old|]; [by apply HP|]. apply map_Forall_empty.
  - pose proof (untouched _ _ _ _ _ _ _ Hm Ho Hni) as H. by destruct o.
Qed.

Lemma startup_acls opts c acls :
  Forall proper opts → startup_config (apply_opt <$> opts) = Ok c → acls_of opts = Some acls →
  Get "ACL" (Some ∅) c = (Some acls, true).
Proof.
  intros Hp Hc Hs. destruct (startup_track "ACL" acl_val valid_strmap _ acl_step opts c) as [H HP]; [done..|].
  unfold acls_of in Hs. rewrite Hs in H, HP. apply Get_strmap; [by apply HP|exact H].
Qed.

(** ** Lemmas: the node *)

(** The configuration of a node's repository. *)
Definition node_config (s : Node.impl) (w : world) : res JsonConfig :=
  match app_repo s with
  | OnDisk id => (FsRepo.Config id w).1
  | InMem r => Ok (InmemRepo.Config r)
  end.

(** It reads like the start-up configuration, but for the identity. *)
Lemma new_node_reads env fails ifails opts c w s w' :
  startup_config opts = Ok c → fresh_start env c w → msuite_New env fails ifails opts w = (Ok s, w') →
  ∃ saved, node_config s w' = Ok saved ∧
    ∀ A (T : Target A) key (old : A), key ≠ "Identity" → Get key old saved = Get key old c.
Proof.
  intros Hc Hfresh HN. unfold msuite_New, mbind, st_mbind, st_lift in HN. rewrite Hc in HN.
  apply New_config in HN. unfold node_config. destruct (app_repo s) as [id|r].
  - destruct HN as (Hroot & Ho & _). destruct (Get "RootPath" "" c) as [p b] eqn:Hg. simpl in Hroot. subst b.
    destruct (Hfresh p Hg) as (Hinv & Hini & Ha & Hwf).
    destruct (fresh_config env c w id w' p) as (m & text & Hres & Hm & _ & _ & Hcfg); [done..|].
    exists (Some (reloaded m)). split; [done|]. intros A T key old Hk. rewrite Get_reloaded by done.
    by apply (completed_Get env c).
  - destruct HN as (_ & Ho & _). exists (InmemRepo.Config r). split; [done|]. intros A T key old Hk.
    unfold InmemRepo.CreateOrOpen, InmemRepo.initIdentity, mbind, res_mbind, res_bind in Ho.
    rewrite GetNonPointer_false in Ho. destruct (new_key env); [|done..]. destruct (new_id env); [|done..].
    destruct (Set_ "Identity" _ c) as [c'|?|?] eqn:HS; [|done..]. injection Ho as <-. simpl.
    rewrite (Get_Set _ _ _ _ key old HS). by rewrite decide_False.
Qed.

(** The flags of a new node are the ones asked for. *)
Lemma new_node_flags env fails ifails opts c w s w' :
  startup_config (apply_opt <$> opts) = Ok c → Forall plain opts → fresh_start env c w →
  msuite_New env fails ifails (apply_opt <$> opts) w = (Ok s, w') → app_flags s = flags_for opts.
Proof.
  intros Hc Hp Hfresh HN. unfold msuite_New, mbind, st_mbind, st_lift in HN. rewrite Hc in HN.
  pose proof (startup_flags opts c Hp Hc) as Hopt. apply New_config in HN. destruct (app_repo s) as [id|r].
  - destruct HN as (Hroot & Hopen & saved & Hs & Hfl). destruct (Get "RootPath" "" c) as [p b] eqn:Hg.
    simpl in Hroot. subst b. destruct (Hfresh p Hg) as (Hinv & Hi & Ha & Hwf).
    rewrite (fresh_flags env c w id w' p saved), Hopt in Hfl by done. congruence.
  - destruct HN as (_ & Hopen & Hfl). rewrite (inmem_flags _ _ _ Hopen), Hopt in Hfl. congruence.
Qed.

(** ** Lemmas: the gate *)

(** Only [none] is at the bottom. *)
Lemma level_none role l : aclMap !! role = Some l → (l ≤ noRole)%Z → role = None_.
Proof.
  unfold aclMap. intros Hr Hl. repeat (apply lookup_insert_Some in Hr as [[<- <-]|[_ Hr]]; [done|]).
  apply lookup_singleton_Some in Hr as [<- <-]. done.
Qed.

Section gate.
Context {σ : Type} `{StoreLaws σ} `{JWTLaws}.

(** The store the ACL manager works on. *)
Definition acl_store (rStore : σ) (shStore : option (res σ)) : σ :=
  match shStore with Some (Ok st) => st | _ => rStore end.

(** The manager made from a configuration: a configured resource that does not
    admit everyone admits only the entitled. *)
Lemma configured_gate (rStore : σ) shStore cfg range acls st sp manager now :
  (∀ l, range l ≡ₚ l) → Get "ACL" (Some ∅) cfg = (Some acls, true) → refines (acl_store rStore shStore) sp →
  Acl.NewAclManager rStore shStore cfg range = (Ok (), st) →
  ∀ rsc role tok, acls !! rsc = Some role → role ≠ None_ →
  admitted (acl_of st) rsc (verified (jwt_of manager now) tok) →
  ∃ t need, tok = Some t ∧ aclMap !! role = Some need ∧ entitled (secretKey manager) now need t.
Proof.
  intros Hrange Hget Hs HN rsc role tok Hrsc Hrole Hadm.
  assert (configure_all (range (map_to_list acls)) (acl_store rStore shStore) = (Ok (), st)) as Hc.
  { unfold Acl.NewAclManager in HN. rewrite Hget in HN. by destruct shStore as [[?|?|?]|]. }
  assert (NoDup (range (map_to_list acls)).*1) as Hnd by (rewrite (Hrange (map_to_list acls)); apply NoDup_fst_map_to_list).
  destruct (configure_all_levels _ _ _ _ _ Hnd Hs Hc) as [Hs' Hall]. rewrite (Hall eq_refl) in Hs'. apply configure_all_ok in Hc as [Hin _]; [|done].
  destruct (Hin rsc role) as (need & Hneed & a & Ha & Hlev).
  { rewrite (Hrange (map_to_list acls)). by apply elem_of_map_to_list. }
  rewrite (admitted_authorized st _ _ _ Hs') in Hadm.
  destruct Hadm as [Hnone|(claims & Hv & [lvl Hl] & Hauth)].
  - exfalso. rewrite (Authorized_level _ _ _ _ Ha) in Hnone. change (aclMap !! None_) with (Some noRole) in Hnone.
    apply Z.leb_le in Hnone. rewrite Hlev in Hnone. apply Hrole. by eapply level_none.
  - unfold verified in Hv. destruct tok as [t|]; [|done]. simpl in Hv.
    destruct (Verify manager t now) as [|claims'] eqn:Hver; simplify_eq.
    apply Verify_Ok in Hver as (b & Hi & Hlive). rewrite (Authorized_level _ _ _ _ Ha), Hl in Hauth.
    apply Z.leb_le in Hauth. exists t, (Roles a). split_and!; [done..|]. by exists claims, b, lvl.
Qed.
End gate.

Lemma secret_asks opts secret : secret_of opts = Some secret → asked "UseAuth" opts = true.
Proof.
  unfold secret_of, asked. intros Hs. apply existsb_exists.
  assert (∀ acc, foldl (λ acc o, match o with OAuth s => Some s | _ => acc end) acc opts = Some secret →
    acc = Some secret ∨ ∃ x, In x opts ∧ sets "UseAuth" x = true) as Hgen.
  { clear Hs. induction opts as [|o opts IH]; intros acc Hf; [by left|]. simpl in Hf.
    destruct (IH _ Hf) as [Ho|(x & Hx & Hb)]; [|right; exists x; split; [by right|done]].
    destruct o; try (by left). right. eexists. split; [by left|done]. }
  by destruct (Hgen None Hs).
Qed.

(** ** Property *)

Section protected.
Context {σ : Type} `{StoreLaws σ} `{JWTLaws} `{ChainLaws} {Q R S RH : Type} (context : S → metadata).
Context (lu : lib (metadata * Q) R) (ls : lib S R) (lh : http_lib RH).
Hypothesis lu_laws : lib_laws fst lu.
Hypothesis ls_laws : lib_laws context ls.
Hypothesis lh_laws : http_lib_laws lh.
Context (env : repo_env) (fails : ctor → bool) (ifails : invoke → bool).

(** What the options promise: where an ACL asks for more than [none], only a
    token signed with the secret, still live, and of a role of the required
    level gets through. *)
Definition protects (opts : list opt_call) (now : Z) (rsc : string) (tok : option string) : Prop :=
  ∀ secret role, secret_of opts = Some secret → acls_of opts ≫= lookup rsc = Some role → role ≠ None_ →
  ∃ t need, tok = Some t ∧ aclMap !! role = Some need ∧ entitled (to_valid_utf8 secret) now need t.

(** C2: the options of a new node protect its resources.  For any options with a
    secret and any other options, as long as a locker's settings are not named
    like the secret, the ACLs or a flag and the names of the resources are UTF-8,
    in memory or on a repository that is not there yet (an existing one keeps
    its saved secret and ACLs, [Msuite.saved_config_wins]): once the node is made
    and its token and ACL managers are, in whatever order Go ranges over the ACLs
    and the container collects interceptors and middlewares, the HTTP server
    serves a request whose URL, as [URL.String] writes it, is the name of a
    protected resource only with a live token of a sufficient role signed with
    that secret, and the gRPC server's answer to any other call of a protected
    method does not depend on the handler, for unary calls and for streams.
    Other spellings of a protected path, or a query after it, are other names:
    [HttpRoutes.http_escape_bypass] and [AuthGate.http_query_bypass]. *)
Theorem options_protect opts c w s w' saved secret rStore shStore range sp st now ms mux addr root us ss :
  startup_config (apply_opt <$> opts) = Ok c → Forall plain opts → Forall proper opts → fresh_start env c w →
  msuite_New env fails ifails (apply_opt <$> opts) w = (Ok s, w') → node_config s w' = Ok saved →
  secret_of opts = Some secret →
  refines (acl_store rStore shStore) sp → (∀ l, range l ≡ₚ l) →
  Acl.NewAclManager rStore shStore saved range = (Ok (), st) →
  ∃ manager, Jwt.NewJWTManager saved = Ok manager ∧
  let jm := jwt_of manager now in
  let am := acl_of st in
  (UseHTTP (app_flags s) = true → ms ≡ₚ group_members (app_flags s) HttpMiddleware →
   Services.NewHTTPServer saved mux (http_member lh jm am <$> ms) = Ok (addr, root) →
   ∀ r x, root r = Served x → protects opts now (URL_String r) (http_token r)) ∧
  (UseGRPC (app_flags s) = true →
   us ≡ₚ group_members (app_flags s) UnaryOpts → ss ≡ₚ group_members (app_flags s) StreamOpts →
   let server := server_opts context lu ls jm am us ss in
   (∀ call m, ¬ protects opts now m (grpc_token call.1) →
      ∀ h1 h2, unary_call server call m h1 = unary_call server call m h2) ∧
   (∀ call m, ¬ protects opts now m (grpc_token (context call)) →
      ∀ h1 h2, stream_call server call m h1 = stream_call server call m h2)).
Proof.
  intros Hc Hpl Hpr Hfresh HN Hsaved Hsec Hsp Hrange Hacl.
  destruct (new_node_reads _ _ _ _ _ _ _ _ Hc Hfresh HN) as (saved' & Hs' & Hget).
  assert (saved' = saved) as -> by congruence.
  pose proof (new_node_flags _ _ _ _ _ _ _ _ Hc Hpl Hfresh HN) as Hflags.
  assert (UseAuth (app_flags s) = true) as Hauth by (rewrite Hflags; by eapply secret_asks).
  exists (mkJwtManager (to_valid_utf8 secret)). split.
  { unfold Jwt.NewJWTManager. rewrite (Hget _ _ "JWTSecret" ""), (startup_secret opts c secret) by done. done. }
  intros jm am.
  assert (∀ rsc tok, admitted am rsc (verified jm tok) → protects opts now rsc tok) as Hgate.
  { intros rsc tok Hadm secret' role Hsec' Hrole Hne. assert (secret' = secret) as -> by congruence.
    destruct (acls_of opts) as [acls|] eqn:Hacls; [|done]. simpl in Hrole.
    eapply (configured_gate rStore shStore saved range acls st sp (mkJwtManager (to_valid_utf8 secret))); try done.
    rewrite (Hget _ _ "ACL" (Some ∅)) by done. by apply (startup_acls opts). }
  split.
  - intros Hh Hms HS r x Hx. apply Hgate.
    by destruct (http_group_gated lh (app_flags s) saved mux jm am ms addr root r x).
  - intros Hg Hus Hss server.
    destruct (server_gated context lu ls lu_laws ls_laws (app_flags s) jm am us ss Hg Hauth Hus Hss) as [Hu Hst].
    split; intros call m Hno h1 h2.
    + specialize (Hu call m). destruct (authorize _ _ m) as [e|] eqn:Ha; [by apply Hu|].
      exfalso. apply Hno, Hgate. by apply (authorize_admitted (NewAuthInterceptor jm am)).
    + specialize (Hst call m). destruct (authorize _ _ m) as [e|] eqn:Ha; [by apply Hst|].
      exfalso. apply Hno, Hgate. by apply (authorize_admitted (NewAuthInterceptor jm am)).
Qed.
End protected.

(** ** Witness *)

Definition sample_protect : list opt_call :=
  [OServiceACL {[ "/admin" := "public_read" ]}; OAuth "old"; OHTTP 8080; OAuth "dummySecret";
   OServiceACL {[ "/admin" := "admin" ]}].

Definition sample_protect_config : JsonConfig :=
  Some {[ "UseAuth" := GBool true; "JWTSecret" := GString "dummySecret"; "UseHTTP" := GBool true;
          "HTTPPort" := GInt 8080; "ACL" := GMapStr (Some {[ "/admin" := "admin" ]});
          "Services" := GStrings (Some ["msuite"]) ]}.

Definition sample_protect_saved : JsonConfig :=
  Some {[ "UseAuth" := GBool true; "JWTSecret" := GString "dummySecret"; "UseHTTP" := GBool true;
          "HTTPPort" := GInt 8080; "ACL" := GMapStr (Some {[ "/admin" := "admin" ]});
          "Services" := GStrings (Some ["msuite"]); "Identity" := identity_record "key" "id" ]}.

Definition sample_protect_flags : flags := flags_for sample_protect.

(** A request for the protected page without a token. *)
Definition sample_intruder : request := mkRequest "" "/admin" false "" ∅.

Definition sample_protect_root : handler string :=
  let am := acl_of (Acl.NewAclManager (σ:=mem_store) ∅ None sample_protect_saved reverse).2 in
  rootHandler (λ r, Served (req_path r))
    (http_member sample_http_lib (jwt_of sample_manager (101 * second)) am <$> [Logging; httpJWT; httpRecovery]).

Lemma options_protect_witness :
  secret_of sample_protect = Some "dummySecret" ∧ ∀ x, sample_protect_root sample_intruder ≠ Served x.
Proof.
  split; [done|]. intros x Hx.
  assert (∃ s, msuite_New sample_repo_env no_failure (λ _, false) (apply_opt <$> sample_protect) sample_world
    = (Ok s, sample_world) ∧ node_config s sample_world = Ok sample_protect_saved ∧
    app_flags s = sample_protect_flags) as (s & HN & Hsaved & Hf).
  { eexists. split_and!; reflexivity. }
  pose proof (options_protect (σ:=mem_store) (λ md : metadata, md)
    (sample_lib (C:=metadata * string) (R:=string)) sample_lib sample_http_lib
    (sample_lib_laws _) (sample_lib_laws _) sample_http_lib_laws sample_repo_env no_failure (λ _, false)
    sample_protect sample_protect_config sample_world s sample_world sample_protect_saved "dummySecret"
    (∅ : mem_store) None reverse ∅
    (Acl.NewAclManager (σ:=mem_store) ∅ None sample_protect_saved reverse).2
    (101 * second)%Z [Logging; httpJWT; httpRecovery] (λ r, Served (req_path r)) ":8080"
    sample_protect_root [] []) as H.
  destruct H as (manager & Hm & Hhttp & _).
  - reflexivity.
  - by repeat constructor.
  - assert (valid_strmap {[ "/admin" := "public_read" ]} ∧ valid_strmap {[ "/admin" := "admin" ]}) as [H1 H2].
    { split; refine (bool_decide_unpack _ _); by vm_compute. }
    repeat apply Forall_cons_2; [exact H1|exact I|exact I|exact I|exact H2|apply Forall_nil_2].
  - intros p Hp. assert ((Get "RootPath" "" sample_protect_config).2 = false) as E by by vm_compute. by rewrite Hp in E.
  - exact HN.
  - exact Hsaved.
  - reflexivity.
  - intros rsc. by rewrite lookup_empty.
  - intros l. apply reverse_Permutation.
  - refine (eq_trans (surjective_pairing _) (f_equal (λ r, (r, _)) _)). by vm_compute.
  - assert (Jwt.NewJWTManager sample_protect_saved = Ok sample_manager) as Hm' by by vm_compute.
    rewrite Hm in Hm'. apply (inj Ok) in Hm' as ->.
    assert (UseHTTP (app_flags s) = true) as H1 by by rewrite Hf.
    assert ([Logging; httpJWT; httpRecovery] ≡ₚ group_members (app_flags s) HttpMiddleware) as H2.
    { rewrite Hf. refine (bool_decide_unpack _ _). by vm_compute. }
    specialize (Hhttp H1 H2). unfold Services.NewHTTPServer in Hhttp.
    assert (Get "HTTPPort" 0%Z sample_protect_saved = (8080%Z, true)) as Hp by by vm_compute.
    rewrite Hp in Hhttp.
    destruct (Hhttp eq_refl sample_intruder x Hx "dummySecret" "admin") as (t & need & Ht & _).
    + reflexivity.
    + reflexivity.
    + done.
    + by vm_compute in Ht.
Defined.
